(* ===== verification/_CoqProject ===== *)
-Q . S2P
Prelude.v
Text.v
Hex.v
Base64Url.v
Path.v
Pattern.v
Vocabulary.v
PolicyModel.v
Evaluate.v
Fuzz.v
Crypto.v
Token.v
Time.v
Chain.v
Sink.v
Anchor.v
FileDevice.v
Archive.v
Db.v
Store.v
Tokens.v
Honeypots.v
Migrations.v
Vault.v
Simulation.v
StoreAudit.v
Surface.v
Oidc.v
Config.v
Prog.v
Effects.v
Lock.v
State.v
Trail.v
Startup.v
Api.v
Service.v
Contract.v
Guarantees.v
Bounds.v
Availability.v
Lasting.v
Examples.v
Rendering.v
Operator.v
Commands.v
Accountable.v
Shown.v
Started.v
Deployment.v
OperatorTrail.v
TrailCut.v
Cli.v
Kept.v
Client.v
EndToEnd.v
Linked.v
Runner.v
Ci.v
Delivered.v
