(* ===== verification/Prelude.v ===== *)
(** * A verification library for the ciphr secret manager

    ciphr is a server that keeps secrets encrypted in an SQLite file, answers
    them over HTTP to callers its policies permit, and records every decision in a
    hash-chained audit trail before it takes effect; around it are an operator's
    command line, a client library, and two programs that hand secrets to a process
    or to a CI job.  This library is a shallow embedding of that Rust code: pure
    functions are functions, code that fails returns [result], code that changes
    state is a state-passing function or, where others run in between, a program of
    atomic steps.  Definitions keep the names of the code; where two functions of the
    code share a name, the model prefixes one by its type ([Token_parse],
    [SecretPath_parse]) or its crate ([api_parse_path]).  Everything is executable,
    and the files of examples run it.  All paths below are under src/crates.

    ** The parts, and the files that model them

    [ciphr-core], the vocabulary every crate shares:
    - [Text], what the code uses of [str], [char] and formatting; a string is its
      UTF-8 bytes.
    - [Hex], [Base64Url] (hex.rs, base64url.rs): the two codecs.
    - [Path], [Pattern] (path.rs, pattern.rs): secret paths, and the patterns of
      policies with the relation [denotes] they implement.
    - [Vocabulary] (capability.rs, rotation.rs, version.rs, env_name.rs,
      process_env.rs, file_mode.rs).

    [ciphr-policy]:
    - [PolicyModel] (model.rs, error.rs): the loader and [policy_set_wf].
    - [Evaluate] (evaluate.rs): the decision, against the reference semantics
      [permitted].

    [ciphr-crypto]:
    - [Crypto] (key.rs, envelope.rs, seal.rs, error.rs and the credential file of
      file_mode.rs): the key hierarchy, each level bound to its place by
      authenticated data; [Seal] is a class with laws that [StaticSeal] meets.
    - [Token] (token.rs): token texts and keyed verifiers.

    [ciphr-audit]:
    - [Time] (time.rs), [Chain] (entry.rs, chain.rs, verify.rs, error.rs): entries,
      the chain they form and its verification.
    - [Sink] (device.rs): all devices under one chain.  [AuditDevice] is a class and
      [AuditDeviceLaws] what the sink needs of one; [FileDevice] (file.rs) and the
      SQLite device of [StoreAudit] are the two implementations.
    - [Anchor] (anchor.rs): heads kept outside of the log.  [Archive] (archive.rs):
      finding records in the files the file device left.

    [ciphr-store], over the tables of [Db]: a statement is one function of the
    tables that may fail by a fault the state carries, and a transaction restores
    the tables when it fails.
    - [Store] (store.rs, sqlite.rs), [Tokens] (tokens.rs), [Honeypots]
      (honeypots.rs), [StoreAudit] (audit.rs).
    - [Vault] is what the [Store] trait promises, a map from paths to histories of
      versions, and [Simulation] the refinement: every call of [Store] is one
      operation of the vault.
    - [Migrations] (migrations.rs, and opening and backing up of sqlite.rs).
    - [Lock] (lock.rs): the lock file, among processes that run concurrently.

    [ciphr-server]:
    - [Surface] (surface.rs), [Oidc] (oidc.rs), [Config] (config.rs, server.rs).
    - [Prog]: programs of atomic steps, rely/guarantee preconditions [wp], pools of
      programs that interleave, and the soundness of the one for the other.
      [Effects]: that a program stays within a preorder on the tables.
    - [State] (state.rs, error.rs): the shared state [App], whose locks' critical
      sections are the steps; what is immutable is [Inner].
    - [Api] (api.rs): the handlers, the extractors that record, the fallbacks, and
      the composition of the router.
    - [Startup] (server.rs, tls.rs, main.rs): from the command line to the moment the
      listener binds.
    - [Trail], [Service], [Contract]: the preconditions of the calls and of every
      handler.  [Guarantees], [Bounds], [Availability], [Lasting]: the theorems of
      the running service.  [Examples]: a concrete service they are applied to.

    [ciphr-cli] and [ciphr-export]:
    - [Rendering] (export's lib.rs, cli's formats.rs): the formats secrets leave in,
      against the readers they are written for.
    - [Operator] (error.rs, session.rs), [Commands] (main.rs): a session and the
      commands on the store, with their accounts in [Accountable] and [Shown].
    - [Deployment] (main.rs): the inventory of a deployment, the surface, the backup.
    - [OperatorTrail], [TrailCut] (main.rs): verifying, anchoring and cutting the
      trail while the service appends to it.
    - [Cli] (main.rs): every command, as one program with its exit status.
    - [Started], [Kept]: a service started on what the command line left, and a desk
      the commands run on.

    The clients:
    - [Client] (ciphr-sdk), [Runner] (ciphr-run), [Ci] (ciphr-ci), run in [Delivered].
    - [EndToEnd]: the client library against the running service, by way of the
      interface [Link]; [Linked] is an instance.

    The fuzz targets (src/fuzz/fuzz_targets): [Fuzz], each a function of its bytes.

    ** What the theorems show

    - The service ([Guarantees]), for any requests and background latches in any
      interleaving: a value, a list of names, an export, an administrative page is
      answered, a secret or a token changed, only after the policies permitted it
      and a device held the entry that says so; a route that is not composed is
      not served; no header, path or body reaches the one panic of the token's
      parser; no record is lost.  The states those theorems speak of are states of
      the run ([seen]).  An answer is bounded ([Bounds]); a request that gets its
      turns is answered, and not for want of a device while one works
      ([Availability], over infinite schedules); what was written is what is read
      ([Lasting]), and from one client to another ([EndToEnd]).
    - Decisions ([Evaluate], [Pattern], [PolicyModel], [Path]): the evaluator is the
      reference semantics, patterns match what they denote, what loads is well
      formed; no bytes make a fuzz target of these parts panic, but for a file that
      defines the one identity its target expects no file to define ([Fuzz]).
    - The trail ([Chain], [Sink], [Anchor], [FileDevice], [StoreAudit]): verification
      is exactly chaining; histories with one head are one history, or a collision
      is exhibited; recording is durable or changes nothing; no device has a hole
      in its log; a cut or an anchor keeps what it covers, and an operator's cut
      removes nothing that is not anchored and archived ([TrailCut]).
    - The store: invariants kept by every call under any fault; writes all or
      nothing; the refinement of the vault ([Simulation]); upgrades and backups all
      or nothing ([Migrations]); one holder of the lock, and where a stale lock
      breaks that ([Lock]).
    - Cryptography ([Crypto], [Token]): round trips, and that a value opens at one
      place only, or a forgery is exhibited.
    - Configuration and start ([Surface], [Oidc], [Config], [Startup], [Deployment]):
      what is accepted, exactly; what a prepared service is; that the files the
      inventory lists are the files that decide how a service starts.
    - The operator ([Accountable], [Shown], [Cli]): every step of every command is
      accounted for on the trail before it is made.
    - The clients ([Client], [Runner], [Ci], [Rendering]): what is handed to a process
      or a job is what was asked for and answered, and its reader gets it so.

    ** Parameters

    What is not this repository's code is a class, its documented behaviour a class
    of laws, and each class of laws has a concrete instance the witnesses use:
    [Sha256], [Mac] (HMAC), [Aead] (AES-GCM), [Entropy] (getrandom), [Signatures]
    (ring), [Unicode] (the NFC tables); serde_json and toml as [Json], [JsonValue],
    [WireJson], [LogJson], [RawJson], [ClaimsReader], [JsonPretty], [DumpJson],
    [StateJson], [Document], [FromStr], [ToJson]; the agent, the reader of PEM and
    the router as [Transport], [PemReader], [Link].  TOML deserialization into a
    type is a function argument.  [honeypot_alert] is the cargo feature of that
    name.  The operating system (files, names, processes) is a state whose calls can
    fail by a list of faults.

    ** Integers, bounds and fuel

    Machine integers are [Z] with their wrap-around, saturation or checked
    conversions written out ([u64_add], [i64_sat], [u32_try_from]).  Theorems that
    need a counter not to reach its end say so.  Loops are structural but for: the
    hexadecimal digits of a 16-bit group (fuel 4), the octal digits of a mode (32),
    percent-encoded code points (8), the backward search for the last line of a
    file, whose fuel exceeds the offset it counts down from (see
    [last_line_loop_spec]), the reader of shell assignments, whose fuel is one more
    than the secrets that were written, and the passes of the lock's acquisition, which [Lock] shows
    to need two where the code's loop ends at all.

    ** What is not modelled

    Memory wiping, logging, timing; sockets, signals and the TLS handshake; axum's
    routing and serde's formats; the web viewer, the site and the scripts.
    Time passes by reading a list of clock values, and randomness by a generator
    state, which a write advances even where the store refuses it before the value is
    encrypted.  A panic under a lock (poisoning) is not modelled: the steps of the model
    do not panic.  What the map leaves out of the modelled files is their tests,
    derived and delegating trait implementations, and accessors that only name a
    field. *)

From Stdlib Require Import ZArith NArith Lia Ascii String.
From stdpp Require Import base tactics list strings gmap pretty sorting.

#[global] Arguments String.append !_ _ : simpl nomatch.

(** ** Fallible computations: Rust's [Result<A, E>] *)

Inductive result (E A : Type) : Type :=
| Ok (a : A)
| Err (e : E).
Arguments Ok {E A} a.
Arguments Err {E A} e.

Definition is_ok {E A} (r : result E A) : bool :=
  match r with Ok _ => true | Err _ => false end.

Definition res_bind {E A B} (r : result E A) (k : A -> result E B) : result E B :=
  match r with Ok a => k a | Err e => Err e end.

Definition res_map {E A B} (f : A -> B) (r : result E A) : result E B :=
  match r with Ok a => Ok (f a) | Err e => Err e end.

Definition map_err {E F A} (f : E -> F) (r : result E A) : result F A :=
  match r with Ok a => Ok a | Err e => Err (f e) end.

Definition ok_or {E A} (e : E) (o : option A) : result E A :=
  match o with Some a => Ok a | None => Err e end.

(** [.ok()] *)
Definition res_ok {E A} (r : result E A) : option A :=
  match r with Ok a => Some a | Err _ => None end.

(** [.is_none()] *)
Definition is_none {A} (o : option A) : bool := match o with None => true | Some _ => false end.

(** Run a fallible function over a list, in order, stopping at the first
    error: a [for] loop whose body uses [?]. *)
Fixpoint res_mapM {E A B} (f : A -> result E B) (l : list A) : result E (list B) :=
  match l with
  | [] => Ok []
  | x :: l' =>
      match f x with
      | Err e => Err e
      | Ok y => match res_mapM f l' with
                | Err e => Err e
                | Ok ys => Ok (y :: ys)
                end
      end
  end.

(** ** Stateful fallible computations

    A call that reads or changes shared state and may fail: the state is
    threaded through on both outcomes, because an early return in the code
    keeps every effect that happened before it. *)

Definition stm (S E A : Type) : Type := S -> result E A * S.

Definition mret {S E A} (a : A) : stm S E A := fun s => (Ok a, s).
Definition mfail {S E A} (e : E) : stm S E A := fun s => (Err e, s).
Definition mbind {S E A B} (m : stm S E A) (k : A -> stm S E B) : stm S E B :=
  fun s => match m s with
           | (Ok a, s') => k a s'
           | (Err e, s') => (Err e, s')
           end.
Definition mlift {S E A} (r : result E A) : stm S E A := fun s => (r, s).
Definition mgets {S E A} (f : S -> A) : stm S E A := fun s => (Ok (f s), s).
Definition mmodify {S E} (f : S -> S) : stm S E unit := fun s => (Ok tt, f s).
(** Observe the outcome of a call instead of returning early: a [match] on the
    [Result] where the code has no [?]. *)
Definition mtry {S E F A} (m : stm S E A) : stm S F (result E A) :=
  fun s => let '(r, s') := m s in (Ok r, s').
Definition mmap_err {S E F A} (f : E -> F) (m : stm S E A) : stm S F A :=
  fun s => let '(r, s') := m s in (map_err f r, s').
Fixpoint mfor {S E A} (l : list A) (body : A -> stm S E unit) : stm S E unit :=
  match l with
  | [] => mret tt
  | x :: l' => mbind (body x) (fun _ => mfor l' body)
  end.
(** Run a computation on a component of a larger state. *)
Definition mzoom {S T E A} (get : T -> S) (put : S -> T -> T) (m : stm S E A) : stm T E A :=
  fun t => let '(r, s') := m (get t) in (r, put s' t).

Declare Scope ciphr_scope.
Delimit Scope ciphr_scope with ciphr.
Notation "'let?' x ':=' e 'in' k" := (res_bind e (fun x => k))
  (at level 10, x pattern, e at level 150, k at level 200) : ciphr_scope.
Notation "'let!' x ':=' m 'in' k" := (mbind m (fun x => k))
  (at level 10, x pattern, m at level 150, k at level 200) : ciphr_scope.
Open Scope ciphr_scope.

(** ** Machine integers *)

Definition u32_max : Z := 4294967295.
Definition u64_max : Z := 18446744073709551615.
Definition i64_max : Z := 9223372036854775807.
Definition i64_min : Z := -9223372036854775808.

(** [a + b] on [u64] in a release build. *)
Definition u64_add (a b : Z) : Z := (a + b) mod 2 ^ 64.
(** [u64::saturating_add], [saturating_sub] *)
Definition u64_sat_add (a b : Z) : Z := Z.min u64_max (a + b).
Definition u64_sat_sub (a b : Z) : Z := Z.max 0 (a - b).
(** [u32::try_from], [u64::try_from], [i64::try_from] *)
Definition u32_try_from (z : Z) : option Z :=
  if (0 <=? z)%Z && (z <=? u32_max)%Z then Some z else None.
Definition u64_try_from (z : Z) : option Z :=
  if (0 <=? z)%Z && (z <=? u64_max)%Z then Some z else None.
Definition i64_try_from (z : Z) : option Z :=
  if (i64_min <=? z)%Z && (z <=? i64_max)%Z then Some z else None.
(** [i64::saturating_add], [saturating_sub], [saturating_mul], [checked_mul] *)
Definition i64_sat (z : Z) : Z := Z.max i64_min (Z.min i64_max z).
Definition i64_checked (z : Z) : option Z := i64_try_from z.

(** ** Bytes *)

(** [Vec<u8>] and [&[u8]]. *)
Definition bytes : Type := list ascii.
Definition byte_val (c : ascii) : Z := Z.of_N (N_of_ascii c).
(** A [u8] from a wider integer, truncated: [x as u8]. *)
Definition byte_of (z : Z) : ascii := ascii_of_N (Z.to_N (z mod 256)).
Definition as_bytes (s : string) : bytes := list_ascii_of_string s.
Definition str_of_bytes (b : bytes) : string := string_of_list_ascii b.

(** A stable sort by a comparison: [slice::sort_by], and [ORDER BY] with the
    order spelled out.  Insertion from the right
    keeps equal elements in their order. *)
Fixpoint insert_by {A} (leb : A -> A -> bool) (x : A) (l : list A) : list A :=
  match l with
  | [] => [x]
  | y :: l' => if leb x y then x :: l else y :: insert_by leb x l'
  end.
Definition sort_by {A} (leb : A -> A -> bool) (l : list A) : list A :=
  foldr (insert_by leb) [] l.

(** ** Lemmas on fallible computations *)

Lemma res_bind_Ok {E A B} (r : result E A) (k : A -> result E B) b :
  res_bind r k = Ok b <-> exists a, r = Ok a /\ k a = Ok b.
Proof.
  destruct r; simpl; split; [intros; eauto|intros (? & [= <-] & ?)|discriminate|
    intros (? & ? & _)]; congruence.
Qed.

Lemma map_err_Ok {E F A} (f : E -> F) (r : result E A) a :
  map_err f r = Ok a <-> r = Ok a.
Proof. destruct r; simpl; split; congruence. Qed.

Lemma ok_or_Ok {E A} (e : E) (o : option A) a : ok_or e o = Ok a <-> o = Some a.
Proof. destruct o; simpl; split; congruence. Qed.

Lemma res_mapM_Ok {E A B} (f : A -> result E B) l ys :
  res_mapM f l = Ok ys <-> Forall2 (fun x y => f x = Ok y) l ys.
Proof.
  revert ys. induction l as [|x l IH]; intros ys; simpl.
  - split; [intros [= <-]; constructor|intros H; inversion H; reflexivity].
  - destruct (f x) as [y|e] eqn:Hx.
    + destruct (res_mapM f l) as [ys'|e] eqn:Hl.
      * split; [intros [= <-]; constructor; [done|by apply IH]|].
        intros H; inversion H as [|? y0 ? ys0 Hy Hys]; subst.
        rewrite Hx in Hy. injection Hy as ->. apply IH in Hys. congruence.
      * split; [discriminate|]. intros H; inversion H as [|? ? ? ? ? Hys]; subst.
        apply IH in Hys. discriminate.
    + split; [discriminate|]. intros H; inversion H; congruence.
Qed.

Lemma res_mapM_map {E A B C} (f : B -> result E C) (g : A -> B) l :
  res_mapM f (map g l) = res_mapM (fun x => f (g x)) l.
Proof. induction l as [|x l IH]; simpl; [done|]. by rewrite IH. Qed.

Lemma res_mapM_all_ok {E A B} (f : A -> result E B) (g : A -> B) l :
  (forall x, x ∈ l -> f x = Ok (g x)) -> res_mapM f l = Ok (map g l).
Proof.
  intros H. apply res_mapM_Ok. induction l as [|x l IH]; simpl; constructor.
  - apply H. set_solver.
  - apply IH. intros y Hy. apply H. set_solver.
Qed.

Lemma Forall2_impl_left {A B} (P Q : A -> B -> Prop) l k :
  Forall2 P l k -> (forall x y, x ∈ l -> P x y -> Q x y) -> Forall2 Q l k.
Proof.
  induction 1 as [|x y l k Hxy _ IH]; intros HPQ; constructor.
  - apply HPQ; [left|done].
  - apply IH. intros a b Ha. apply HPQ. by right.
Qed.

Lemma insert_by_perm {A} (leb : A -> A -> bool) x l : insert_by leb x l ≡ₚ x :: l.
Proof.
  induction l as [|y l IH]; simpl; [done|]. destruct (leb x y); [done|].
  rewrite IH. constructor.
Qed.

Lemma sort_by_perm {A} (leb : A -> A -> bool) l : sort_by leb l ≡ₚ l.
Proof. induction l as [|x l IH]; simpl; [done|]. by rewrite insert_by_perm, IH. Qed.

Lemma sort_by_sorted {A} (leb : A -> A -> bool) l :
  (forall x y, leb x y = false -> leb y x = true) -> Sorted (fun x y => leb x y = true) (sort_by leb l).
Proof.
  intros Htot. induction l as [|x l IH]; simpl; [constructor|].
  induction IH as [|y k Hk IHk Hd]; simpl; [repeat constructor|].
  destruct (leb x y) eqn:Hxy; [repeat constructor; done|]. constructor; [done|].
  destruct k as [|z k]; simpl in *; [constructor; auto|].
  destruct (leb x z); constructor; auto. by inversion Hd.
Qed.

(** ** Lemmas on lists *)

Lemma NoDup_app_one {A} (l : list A) x : NoDup l -> x ∉ l -> NoDup (l ++ [x]).
Proof.
  intros Hl Hx. apply NoDup_app. split_and!; [done| |apply NoDup_singleton].
  intros y Hy ->%list_elem_of_singleton. done.
Qed.

(** The first [n], for a bound that may be far larger than the list. *)
Definition take_Z {A} (n : Z) (l : list A) : list A := take (Z.to_nat (Z.min n (Z.of_nat (length l)))) l.

Lemma take_Z_take {A} n (l : list A) : take_Z n l = take (Z.to_nat n) l.
Proof.
  unfold take_Z. destruct (Z.le_ge_cases n (Z.of_nat (length l))); [by rewrite Z.min_l by lia|].
  rewrite Z.min_r, Nat2Z.id by lia. by rewrite !take_ge by lia.
Qed.

Lemma take_Z_prefix {A} n (l l' : list A) : l `prefix_of` l' -> take_Z n l `prefix_of` take_Z n l'.
Proof. intros [more ->]. rewrite !take_Z_take, take_app. by eexists. Qed.

Lemma filter_keep {A} (p : A -> bool) l : (forall x, x ∈ l -> p x = true) -> List.filter p l = l.
Proof.
  intros Hp. rewrite (List.filter_ext_in _ (fun _ => true)); [apply List.filter_true|].
  intros x Hx. by apply Hp, list_elem_of_In.
Qed.

Lemma filter_drop {A} (p : A -> bool) l : (forall x, x ∈ l -> p x = false) -> List.filter p l = [].
Proof.
  intros Hp. rewrite (List.filter_ext_in _ (fun _ => false)); [apply List.filter_false|].
  intros x Hx. by apply Hp, list_elem_of_In.
Qed.

Lemma lookup_map {A B} (f : A -> B) l i : map f l !! i = f <$> l !! i.
Proof. apply list_lookup_fmap. Qed.

Lemma elem_of_map {A B} (f : A -> B) l y : y ∈ map f l <-> exists x, y = f x /\ x ∈ l.
Proof.
  rewrite list_elem_of_In, in_map_iff. setoid_rewrite list_elem_of_In. naive_solver.
Qed.

Lemma NoDup_map_inj {A B} (f : A -> B) l x y :
  NoDup (map f l) -> x ∈ l -> y ∈ l -> f x = f y -> x = y.
Proof.
  induction l as [|z l IH]; simpl; [set_solver|]. intros [Hz Hl]%NoDup_cons Hx Hy E.
  apply elem_of_cons in Hx as [->|Hx], Hy as [->|Hy]; auto.
  - destruct Hz. apply elem_of_map. by exists y.
  - destruct Hz. apply elem_of_map. by exists x.
Qed.

(** ** Lemmas on stateful computations *)

Lemma mbind_inv {S E A B} (m : stm S E A) (k : A -> stm S E B) s r s' :
  mbind m k s = (r, s') ->
  (exists a s1, m s = (Ok a, s1) /\ k a s1 = (r, s')) \/
  (exists e, m s = (Err e, s') /\ r = Err e).
Proof.
  unfold mbind. destruct (m s) as [[a|e] s1] eqn:Hm; intros H.
  - left. eauto.
  - right. injection H as <- <-. eauto.
Qed.

Lemma mbind_Ok {S E A B} (m : stm S E A) (k : A -> stm S E B) s b s' :
  mbind m k s = (Ok b, s') -> exists a s1, m s = (Ok a, s1) /\ k a s1 = (Ok b, s').
Proof. intros [?|(? & ? & ?)]%mbind_inv; [done|discriminate]. Qed.

Lemma mzoom_Ok {S T E A} (get : T -> S) put (m : stm S E A) t a t' :
  mzoom get put m t = (Ok a, t') -> m (get t) = (Ok a, snd (m (get t))) /\ t' = put (snd (m (get t))) t.
Proof. unfold mzoom. destruct (m (get t)) as [r s]. simpl. by intros [= -> <-]. Qed.

Lemma mmap_err_Ok {S E F A} (f : E -> F) (m : stm S E A) s a s' : mmap_err f m s = (Ok a, s') -> m s = (Ok a, s').
Proof. unfold mmap_err. destruct (m s) as [r s1]. intros H. apply pair_equal_spec in H as [H ->]. by apply map_err_Ok in H as ->. Qed.

(** A relation between the state before and after every run, whatever the
    outcome.  [respects R m] composes along the program when [R] is a preorder,
    which is how append-only and never-decreases properties are proved. *)
Definition respects {S E A} (R : S -> S -> Prop) (m : stm S E A) : Prop :=
  forall s r s', m s = (r, s') -> R s s'.

Create HintDb ciphr discriminated.

Section respects.
Context {S E : Type} (R : S -> S -> Prop) `{!PreOrder R}.

Lemma respects_ret {A} (a : A) : respects (E := E) R (mret a).
Proof. intros s r s' [= <- <-]. reflexivity. Qed.

Lemma respects_fail {A} (e : E) : respects (A := A) R (mfail e).
Proof. intros s r s' [= <- <-]. reflexivity. Qed.

Lemma respects_lift {A} (r : result E A) : respects R (mlift r).
Proof. intros s r' s' [= <- <-]. reflexivity. Qed.

Lemma respects_gets {A} (f : S -> A) : respects (E := E) R (mgets f).
Proof. intros s r' s' [= <- <-]. reflexivity. Qed.

Lemma respects_bind {A B} (m : stm S E A) (k : A -> stm S E B) :
  respects R m -> (forall a, respects R (k a)) -> respects R (mbind m k).
Proof.
  intros Hm Hk s r s' [(a & s1 & H1 & H2)|(e & H1 & _)]%mbind_inv.
  - etrans; [by eapply Hm|by eapply Hk].
  - by eapply Hm.
Qed.

Lemma respects_for {A} (l : list A) (body : A -> stm S E unit) :
  (forall x, respects R (body x)) -> respects R (mfor l body).
Proof.
  intros Hb. induction l as [|x l IH]; simpl; [apply respects_ret|].
  apply respects_bind; [apply Hb|intros _; apply IH].
Qed.
End respects.

Lemma respects_try {S E F A} (R : S -> S -> Prop) (m : stm S E A) :
  respects R m -> respects R (mtry (F := F) m).
Proof.
  intros Hm s r s'. unfold mtry. destruct (m s) as [r1 s1] eqn:E1.
  intros [= <- <-]. by eapply Hm.
Qed.

Lemma respects_map_err {S E F A} (R : S -> S -> Prop) (f : E -> F) (m : stm S E A) :
  respects R m -> respects R (mmap_err f m).
Proof.
  intros Hm s r s'. unfold mmap_err. destruct (m s) as [r1 s1] eqn:E1.
  intros [= <- <-]. by eapply Hm.
Qed.

#[export] Hint Resolve respects_ret respects_fail respects_lift respects_gets
  respects_bind respects_for respects_try respects_map_err : ciphr.

(** ** Tactics *)

(** Take apart a run that returned [Ok]: one hypothesis per call. *)
Ltac run_ok :=
  repeat match goal with
  | H : mbind _ _ _ = (Ok _, _) |- _ =>
      let a := fresh "v" in let s := fresh "s" in let H1 := fresh "Hrun" in
      apply mbind_Ok in H as (a & s & H1 & H)
  | H : res_bind _ _ = Ok _ |- _ =>
      let a := fresh "v" in let H1 := fresh "Hres" in
      apply res_bind_Ok in H as (a & H1 & H)
  | H : mret _ _ = (_, _) |- _ => unfold mret in H; simplify_eq H; intros; subst
  | H : mfail _ _ = (_, _) |- _ => unfold mfail in H; simplify_eq H; intros; subst
  | H : map_err _ _ = Ok _ |- _ => apply map_err_Ok in H
  | H : ok_or _ _ = Ok _ |- _ => apply ok_or_Ok in H
  end.

Lemma byte_val_range c : (0 <= byte_val c < 256)%Z.
Proof.
  unfold byte_val. pose proof (N_ascii_bounded c). lia.
Qed.

Lemma byte_of_val c : byte_of (byte_val c) = c.
Proof.
  unfold byte_of. rewrite Z.mod_small by apply byte_val_range.
  unfold byte_val. by rewrite N2Z.id, ascii_N_embedding.
Qed.

Lemma byte_val_of z : (0 <= z < 256)%Z -> byte_val (byte_of z) = z.
Proof.
  intros H. unfold byte_of, byte_val. rewrite Z.mod_small by done.
  rewrite N_ascii_embedding; lia.
Qed.

Lemma byte_val_inj a b : byte_val a = byte_val b -> a = b.
Proof. intros H. by rewrite <- (byte_of_val a), <- (byte_of_val b), H. Qed.

Lemma as_bytes_of b : as_bytes (str_of_bytes b) = b.
Proof. apply list_ascii_of_string_of_list_ascii. Qed.

Lemma str_of_as s : str_of_bytes (as_bytes s) = s.
Proof. apply string_of_list_ascii_of_string. Qed.

#[export] Hint Rewrite as_bytes_of str_of_as byte_of_val : ciphr.

(** ** Bit operations as arithmetic *)

Lemma land_shiftl_small x a k :
  (0 <= k)%Z -> (0 <= a < 2 ^ k)%Z -> Z.land (Z.shiftl x k) a = 0%Z.
Proof.
  intros Hk Ha. apply Z.bits_inj'. intros i Hi.
  rewrite Z.land_spec, Z.bits_0, Z.shiftl_spec by done.
  destruct (Z.lt_ge_cases i k).
  - by rewrite Z.testbit_neg_r by lia.
  - rewrite <- (Z.mod_small a (2 ^ k)) by done.
    by rewrite Z.mod_pow2_bits_high, andb_false_r by lia.
Qed.

Lemma lor_shiftl_add x a k :
  (0 <= k)%Z -> (0 <= a < 2 ^ k)%Z -> Z.lor (Z.shiftl x k) a = (x * 2 ^ k + a)%Z.
Proof.
  intros Hk Ha. rewrite <- Z.shiftl_mul_pow2 by done.
  rewrite Z.add_nocarry_lxor by by apply land_shiftl_small.
  symmetry. apply Z.lxor_lor. by apply land_shiftl_small.
Qed.

Lemma lor_mul_add x a k :
  (0 <= k)%Z -> (0 <= a < 2 ^ k)%Z -> Z.lor (x * 2 ^ k) a = (x * 2 ^ k + a)%Z.
Proof. intros. rewrite <- (lor_shiftl_add x a k) by done. by rewrite Z.shiftl_mul_pow2. Qed.

Lemma land_mask x k : (0 <= k)%Z -> Z.land x (Z.ones k) = (x mod 2 ^ k)%Z.
Proof. intros. by apply Z.land_ones. Qed.

(** A property of all bytes, checked by evaluation. *)
Definition all_bytes : list ascii := map ascii_of_N (map N.of_nat (seq 0 256)).

Lemma all_bytes_complete c : c ∈ all_bytes.
Proof.
  unfold all_bytes. rewrite <- (ascii_N_embedding c).
  apply list_elem_of_In, in_map, in_map_iff. exists (N.to_nat (N_of_ascii c)).
  split; [lia|]. apply in_seq. pose proof (N_ascii_bounded c). lia.
Qed.

Lemma forall_bytes (p : ascii -> bool) : forallb p all_bytes = true -> forall c, p c = true.
Proof.
  intros H c. rewrite List.forallb_forall in H. apply H, list_elem_of_In, all_bytes_complete.
Qed.

Ltac by_bytes := apply forall_bytes; vm_compute; reflexivity.

(** Linear arithmetic with division and remainder by constants. *)
Ltac zdiv_lia := Z.to_euclidean_division_equations; lia.
