(* ===== verification/Text.v ===== *)
(** * Text: what the program uses of Rust's [str], [char] and formatting

    A Rust [String] is its UTF-8 bytes, so a Rocq [string] (a sequence of bytes)
    is the value itself: [len], [==], [<], [split('/')] and [starts_with] are
    byte operations on it.  [chars] decodes code points the way [str::chars] does
    on the valid UTF-8 a [String] always holds; [from_utf8] is the check that
    establishes it. *)

From Stdlib Require Import ZArith NArith Lia Ascii String.
From stdpp Require Import base tactics list strings gmap pretty.
From S2P Require Import Prelude.

Definition slash : ascii := "/"%char.
Definition newline : ascii := ascii_of_N 10.
Definition quote : ascii := ascii_of_N 39.
Definition str1 (c : ascii) : string := String c EmptyString.

Definition is_empty (s : string) : bool :=
  match s with EmptyString => true | _ => false end.

(** [s.len()]: bytes. *)
Definition len (s : string) : Z := Z.of_nat (String.length s).

(** ** Splitting and joining *)

(** [s.split(c)]: never empty. *)
Fixpoint split_on (c : ascii) (s : string) : list string :=
  match s with
  | EmptyString => [EmptyString]
  | String a s' =>
      if Ascii.eqb a c then EmptyString :: split_on c s'
      else match split_on c s' with
           | x :: r => String a x :: r
           | [] => [str1 a]
           end
  end.

Definition join (sep : string) (l : list string) : string := String.concat sep l.

(** [s.contains(c)] for an ASCII [c]. *)
Fixpoint contains (c : ascii) (s : string) : bool :=
  match s with
  | EmptyString => false
  | String a s' => Ascii.eqb a c || contains c s'
  end.

Fixpoint strip_prefix (p s : string) : option string :=
  match p, s with
  | EmptyString, _ => Some s
  | String a p', String b s' => if Ascii.eqb a b then strip_prefix p' s' else None
  | String _ _, EmptyString => None
  end.

Definition starts_with (s p : string) : bool :=
  match strip_prefix p s with Some _ => true | None => false end.

Fixpoint str_rev_onto (acc s : string) : string :=
  match s with EmptyString => acc | String a s' => str_rev_onto (String a acc) s' end.
Definition str_rev (s : string) : string := str_rev_onto EmptyString s.

Definition strip_suffix (p s : string) : option string :=
  option_map str_rev (strip_prefix (str_rev p) (str_rev s)).

(** [s.split_once(c)] *)
Fixpoint split_once (c : ascii) (s : string) : option (string * string) :=
  match s with
  | EmptyString => None
  | String a s' =>
      if Ascii.eqb a c then Some (EmptyString, s')
      else match split_once c s' with
           | Some (x, y) => Some (String a x, y)
           | None => None
           end
  end.

(** [s.lines()]: pieces ended by a newline, with one carriage return before the
    newline dropped; a last piece without a newline is kept as it is, and an
    empty one is not produced. *)
Definition drop_cr (s : string) : string :=
  match strip_suffix (str1 (ascii_of_N 13)) s with Some s' => s' | None => s end.
Fixpoint lines_of (pieces : list string) : list string :=
  match pieces with
  | [] => []
  | [last] => if is_empty last then [] else [last]
  | x :: rest => drop_cr x :: lines_of rest
  end.
Definition lines (s : string) : list string := lines_of (split_on newline s).

(** ** Code points *)

Fixpoint chars (s : string) : list N :=
  match s with
  | EmptyString => []
  | String a s1 =>
      let n := N_of_ascii a in
      if (n <? 128)%N then n :: chars s1
      else match s1 with
      | EmptyString => []
      | String b s2 =>
          let low x := N.land (N_of_ascii x) 63 in
          if (n <? 224)%N then N.lor (N.shiftl (N.land n 31) 6) (low b) :: chars s2
          else match s2 with
          | EmptyString => []
          | String c s3 =>
              let y_z := N.lor (N.shiftl (low b) 6) (low c) in
              if (n <? 240)%N then N.lor (N.shiftl (N.land n 15) 12) y_z :: chars s3
              else match s3 with
              | EmptyString => []
              | String d s4 =>
                  N.lor (N.shiftl (N.land n 7) 18) (N.lor (N.shiftl y_z 6) (low d)) :: chars s4
              end
          end
      end
  end.

(** [char::encode_utf8] *)
Definition utf8_of_char (n : N) : string :=
  let byte x := ascii_of_N x in
  let tail x := byte (N.lor 128 (N.land x 63)) in
  if (n <? 128)%N then str1 (byte n)
  else if (n <? 2048)%N then
    String (byte (N.lor 192 (N.shiftr n 6))) (str1 (tail n))
  else if (n <? 65536)%N then
    String (byte (N.lor 224 (N.shiftr n 12))) (String (tail (N.shiftr n 6)) (str1 (tail n)))
  else
    String (byte (N.lor 240 (N.shiftr n 18)))
      (String (tail (N.shiftr n 12)) (String (tail (N.shiftr n 6)) (str1 (tail n)))).

Definition of_chars (l : list N) : string :=
  foldr (fun n s => (utf8_of_char n ++ s)%string) EmptyString l.

(** A Unicode scalar value: a code point that is not a surrogate. *)
Definition is_scalar (n : N) : bool :=
  (n <? 55296)%N || ((57344 <=? n) && (n <=? 1114111))%N.

(** [String::from_utf8]: the bytes are the encoding of scalar values. *)
Definition from_utf8 (b : bytes) : option string :=
  let s := str_of_bytes b in
  if forallb is_scalar (chars s) && String.eqb (of_chars (chars s)) s then Some s else None.

(** [char::is_control]: the general category Cc. *)
Definition is_control (n : N) : bool :=
  (n <=? 31)%N || ((127 <=? n) && (n <=? 159))%N.

(** [char::is_whitespace]: the property White_Space. *)
Definition is_whitespace (n : N) : bool :=
  ((9 <=? n) && (n <=? 13))%N || (n =? 32)%N || (n =? 133)%N || (n =? 160)%N ||
  (n =? 5760)%N || ((8192 <=? n) && (n <=? 8202))%N || (n =? 8232)%N || (n =? 8233)%N ||
  (n =? 8239)%N || (n =? 8287)%N || (n =? 12288)%N.

Definition is_ascii_digit (n : N) : bool := ((48 <=? n) && (n <=? 57))%N.
Definition is_ascii_alphabetic (n : N) : bool :=
  ((65 <=? n) && (n <=? 90))%N || ((97 <=? n) && (n <=? 122))%N.
Definition is_ascii_alphanumeric (n : N) : bool := is_ascii_alphabetic n || is_ascii_digit n.

Fixpoint drop_while (p : N -> bool) (l : list N) : list N :=
  match l with
  | [] => []
  | x :: l' => if p x then drop_while p l' else l
  end.

(** [str::trim], on code points. *)
Definition trim_chars (l : list N) : list N :=
  rev (drop_while is_whitespace (rev (drop_while is_whitespace l))).
Definition trim (s : string) : string := of_chars (trim_chars (chars s)).

(** ** Numbers *)

Definition digit_val (n : N) : option Z :=
  if is_ascii_digit n then Some (Z.of_N n - 48)%Z else None.

Fixpoint digits_val (acc : Z) (l : list N) : option Z :=
  match l with
  | [] => Some acc
  | c :: l' => match digit_val c with
               | Some d => digits_val (acc * 10 + d)%Z l'
               | None => None
               end
  end.

(** The digits of [str::parse] for an integer type: at least one, all decimal,
    after an optional plus sign. *)
Definition parse_digits (s : string) : option Z :=
  let body := match chars s with 43%N :: rest => rest | l => l end in
  match body with [] => None | _ => digits_val 0 body end.

(** [s.parse::<u64>()], [s.parse::<u32>()] *)
Definition parse_u64 (s : string) : option Z := parse_digits s ≫= u64_try_from.
Definition parse_u32 (s : string) : option Z := parse_digits s ≫= u32_try_from.
(** [s.parse::<i64>()]: a minus sign is accepted as well. *)
Definition parse_i64 (s : string) : option Z :=
  match chars s with
  | 45%N :: (_ :: _) as rest =>
      digits_val 0 (tail rest) ≫= (fun z => i64_try_from (- z))
  | _ => parse_digits s ≫= i64_try_from
  end.

(** [format!("{n}")] for an integer. *)
Definition dec (z : Z) : string := pretty z.

Fixpoint zeros (n : nat) : string :=
  match n with O => EmptyString | S n' => String "0"%char (zeros n') end.

(** [format!("{n:0w$}")]: zeros go between the sign and the digits. *)
Definition dec_padded (w : nat) (z : Z) : string :=
  let t := dec (Z.abs z) in
  if (z <? 0)%Z then ("-" ++ zeros (w - 1 - String.length t) ++ t)%string
  else (zeros (w - String.length t) ++ t)%string.

(** ** [{:?}]: exact on ASCII; beyond it every character is taken to be printable *)

Definition nibble_char (n : Z) : ascii := byte_of (if (n <? 10)%Z then 48 + n else 87 + n)%Z.
Definition unicode_escape (n : Z) : string :=
  "\u{" ++ (if (n <? 16)%Z then EmptyString else str1 (nibble_char (n / 16))) ++ str1 (nibble_char (n mod 16)) ++ "}".
(** The quote of the kind of literal is the one that is escaped. *)
Definition escape_debug_byte (quote : Z) (c : ascii) : string :=
  let n := byte_val c in
  if (n =? quote)%Z || (n =? 92)%Z then String "\"%char (str1 c)
  else if (n =? 10)%Z then "\n"
  else if (n =? 13)%Z then "\r"
  else if (n =? 9)%Z then "\t"
  else if (n =? 0)%Z then "\0"
  else if (n <? 32)%Z || (n =? 127)%Z then unicode_escape n
  else str1 c.
Fixpoint escape_debug (quote : Z) (s : string) : string :=
  match s with
  | EmptyString => EmptyString
  | String c s => escape_debug_byte quote c ++ escape_debug quote s
  end.
Definition str_debug (s : string) : string :=
  str1 (ascii_of_N 34) ++ escape_debug 34 s ++ str1 (ascii_of_N 34).
Definition char_debug (c : N) : string :=
  str1 (ascii_of_N 39) ++ escape_debug 39 (of_chars [c]) ++ str1 (ascii_of_N 39).

(** ** Words, containment and padding *)

(** [text.split_whitespace()] *)
Fixpoint words_from (word : list N) (l : list N) : list (list N) :=
  match l with
  | [] => match word with [] => [] | _ => [rev word] end
  | c :: l =>
      if is_whitespace c then
        match word with [] => words_from [] l | _ => rev word :: words_from [] l end
      else words_from (c :: word) l
  end.
Definition split_whitespace (s : string) : list string := map of_chars (words_from [] (chars s)).

(** [<=] and [<] on strings, byte by byte. *)
Definition str_leb (a b : string) : bool := match String.compare a b with Gt => false | _ => true end.
Definition str_ltb (a b : string) : bool := match String.compare a b with Lt => true | _ => false end.

(** [text.ends_with(p)] *)
Definition ends_with (s p : string) : bool := starts_with (str_rev s) (str_rev p).

(** [text.contains(p)] *)
Fixpoint contains_str (p s : string) : bool :=
  starts_with s p || match s with EmptyString => false | String _ s => contains_str p s end.

Fixpoint spaces (n : nat) : string := match n with O => EmptyString | S n => String " " (spaces n) end.
(** [{:<w}] on a [str]. *)
Definition pad_right (w : nat) (s : string) : string := (s ++ spaces (w - length (chars s)))%string.

(** ** Lemmas *)

Lemma split_on_not_nil c s : split_on c s <> [].
Proof.
  destruct s as [|a s]; simpl; [done|].
  destruct (Ascii.eqb a c); [done|]. by destruct (split_on c s).
Qed.

Lemma str_app_nil_r s : (s ++ EmptyString)%string = s.
Proof. induction s; simpl; congruence. Qed.

Lemma str_app_assoc a b c : ((a ++ b) ++ c = a ++ (b ++ c))%string.
Proof. induction a; simpl; congruence. Qed.

Lemma str_app_inj_l a b c : (a ++ b = a ++ c)%string -> b = c.
Proof. induction a; simpl; intros H; [done|]. injection H. auto. Qed.

Lemma str_length_app a b :
  String.length (a ++ b) = (String.length a + String.length b)%nat.
Proof. induction a; simpl; congruence. Qed.

Lemma str_app_inj_len a b c d :
  String.length a = String.length b -> (a ++ c = b ++ d)%string -> a = b /\ c = d.
Proof.
  revert b. induction a as [|x a IH]; intros [|y b]; simpl; try discriminate; intros Hl H.
  - done.
  - injection H as -> H. injection Hl as Hl. by destruct (IH b Hl H) as [-> ->].
Qed.

Lemma contains_app c a b : contains c (a ++ b) = contains c a || contains c b.
Proof. induction a; simpl; [done|]. by rewrite IHa, orb_assoc. Qed.

(** Joining what a split produced gives the string back. *)
Lemma join_split c s : join (str1 c) (split_on c s) = s.
Proof.
  induction s as [|a s IH]; [done|]. simpl.
  destruct (Ascii.eqb a c) eqn:Hac.
  - apply Ascii.eqb_eq in Hac as ->.
    pose proof (split_on_not_nil c s). destruct (split_on c s) as [|x r]; [done|].
    change (join (str1 c) (EmptyString :: x :: r)) with (str1 c ++ join (str1 c) (x :: r))%string.
    by rewrite IH.
  - pose proof (split_on_not_nil c s). destruct (split_on c s) as [|x r]; [done|].
    rewrite <- IH. by destruct r.
Qed.

(** No piece of a split holds the separator. *)
Lemma split_on_no_sep c s : Forall (fun x => contains c x = false) (split_on c s).
Proof.
  induction s as [|a s IH]; [by constructor|]. simpl.
  destruct (Ascii.eqb a c) eqn:Hac; [by constructor|].
  destruct (split_on c s) as [|x r]; simpl; constructor;
    inversion IH; subst; simpl; rewrite ?Hac; auto.
Qed.

Lemma split_on_clean c s : contains c s = false -> split_on c s = [s].
Proof.
  induction s as [|a s IH]; simpl; [done|].
  intros [Ha Hs]%orb_false_iff. rewrite Ha, IH by done. done.
Qed.

Lemma split_on_app c a b :
  contains c a = false -> split_on c (a ++ String c b) = a :: split_on c b.
Proof.
  induction a as [|x a IH]; simpl.
  - intros _. by rewrite Ascii.eqb_refl.
  - intros [Hx Ha]%orb_false_iff. by rewrite Hx, IH.
Qed.

(** Splitting what a join produced gives the pieces back. *)
Lemma split_join c l :
  l <> [] -> Forall (fun x => contains c x = false) l -> split_on c (join (str1 c) l) = l.
Proof.
  induction l as [|x l IH]; [done|]. intros _ H. inversion H as [|? ? Hx Hl]; subst.
  destruct l as [|y l]; [by apply split_on_clean|].
  change (join (str1 c) (x :: y :: l)) with (x ++ String c (join (str1 c) (y :: l)))%string.
  rewrite split_on_app by done. by rewrite IH.
Qed.

Lemma strip_prefix_Some p s r : strip_prefix p s = Some r <-> s = (p ++ r)%string.
Proof.
  revert s. induction p as [|a p IH]; intros s; simpl; [split; congruence|].
  destruct s as [|b s]; [split; discriminate|].
  destruct (Ascii.eqb_spec a b) as [<-|Hne].
  - rewrite IH. split; [by intros ->|congruence].
  - split; [discriminate|congruence].
Qed.

Lemma starts_with_spec s p : starts_with s p = true <-> exists r, s = (p ++ r)%string.
Proof.
  unfold starts_with. destruct (strip_prefix p s) as [r|] eqn:H.
  - apply strip_prefix_Some in H. split; eauto.
  - split; [discriminate|]. intros (r & ->).
    enough (strip_prefix p (p ++ r) = Some r) by congruence. by apply strip_prefix_Some.
Qed.

Lemma str_rev_onto_app acc s t :
  str_rev_onto acc (s ++ t) = str_rev_onto (str_rev_onto acc s) t.
Proof. revert acc. induction s; simpl; auto. Qed.

Lemma str_rev_onto_acc acc s : str_rev_onto acc s = (str_rev s ++ acc)%string.
Proof.
  unfold str_rev. revert acc. induction s as [|a s IH]; intros acc; simpl; [done|].
  rewrite IH, (IH (String a EmptyString)). by rewrite str_app_assoc.
Qed.

Lemma str_rev_app s t : str_rev (s ++ t) = (str_rev t ++ str_rev s)%string.
Proof. unfold str_rev at 1. by rewrite str_rev_onto_app, str_rev_onto_acc. Qed.

Lemma str_rev_involutive s : str_rev (str_rev s) = s.
Proof.
  induction s as [|a s IH]; [done|].
  change (String a s) with (str1 a ++ s)%string at 1.
  rewrite !str_rev_app, IH. done.
Qed.

Lemma strip_suffix_Some p s r : strip_suffix p s = Some r <-> s = (r ++ p)%string.
Proof.
  unfold strip_suffix.
  destruct (strip_prefix (str_rev p) (str_rev s)) as [q|] eqn:H; simpl.
  - apply strip_prefix_Some in H. split.
    + intros [= <-]. rewrite <- (str_rev_involutive s), H, str_rev_app.
      by rewrite !str_rev_involutive.
    + intros ->. rewrite str_rev_app in H. apply str_app_inj_l in H.
      by rewrite <- H, str_rev_involutive.
  - split; [discriminate|]. intros ->. rewrite str_rev_app in H.
    enough (strip_prefix (str_rev p) (str_rev p ++ str_rev r) = Some (str_rev r)) by congruence.
    by apply strip_prefix_Some.
Qed.

Lemma is_empty_spec s : is_empty s = true <-> s = EmptyString.
Proof. by destruct s. Qed.

Lemma len_nonneg s : (0 <= len s)%Z.
Proof. unfold len. lia. Qed.

Lemma len_app a b : (len (a ++ b) = len a + len b)%Z.
Proof. unfold len. rewrite str_length_app. lia. Qed.

Lemma length_as_bytes s : length (as_bytes s) = String.length s.
Proof. unfold as_bytes. induction s; simpl; congruence. Qed.

Lemma length_str_of_bytes b : String.length (str_of_bytes b) = length b.
Proof. unfold str_of_bytes. induction b; simpl; congruence. Qed.

Lemma as_bytes_app a b : as_bytes (a ++ b) = as_bytes a ++ as_bytes b.
Proof. unfold as_bytes. induction a; simpl; congruence. Qed.

#[export] Hint Rewrite str_app_nil_r str_app_assoc len_app str_length_app length_as_bytes
  length_str_of_bytes as_bytes_app join_split : ciphr.

Lemma split_on_app_sep c a b : split_on c (a ++ String c b) = split_on c a ++ split_on c b.
Proof.
  induction a as [|x a IH]; simpl.
  - by rewrite Ascii.eqb_refl.
  - rewrite IH. destruct (Ascii.eqb x c); [done|].
    pose proof (split_on_not_nil c a). by destruct (split_on c a).
Qed.

Lemma join_app c l k :
  l <> [] -> k <> [] -> join (str1 c) (l ++ k) = (join (str1 c) l ++ String c (join (str1 c) k))%string.
Proof.
  intros Hl Hk. induction l as [|x l IH]; [done|]. destruct l as [|y l].
  - simpl. destruct k; [done|]. done.
  - change (join (str1 c) ((x :: y :: l) ++ k))
      with (x ++ String c (join (str1 c) ((y :: l) ++ k)))%string.
    rewrite IH by done.
    change (join (str1 c) (x :: y :: l)) with (x ++ String c (join (str1 c) (y :: l)))%string.
    by rewrite str_app_assoc.
Qed.

Lemma contains_false_iff c s : contains c s = false <-> split_on c s = [s].
Proof.
  split; [apply split_on_clean|]. intros H.
  pose proof (split_on_no_sep c s) as HF. rewrite H in HF. by inversion HF.
Qed.

(** ** Numbers as text *)

Lemma pretty_char_digit n : (n < 10)%N ->
  digit_val (N_of_ascii (pretty_N_char n)) = Some (Z.of_N n) /\ (48 <= N_of_ascii (pretty_N_char n) <= 57)%N.
Proof.
  intros H. assert (exists k, n = N.of_nat k) as [k ->] by (exists (N.to_nat n); lia).
  do 10 (destruct k as [|k]; [vm_compute; split; congruence || (split; congruence)|]). lia.
Qed.

Lemma chars_ascii c s : (N_of_ascii c < 128)%N -> chars (String c s) = N_of_ascii c :: chars s.
Proof. intros H. simpl. by rewrite (proj2 (N.ltb_lt _ _)). Qed.

Lemma digits_val_go x : forall s, digits_val 0 (chars (pretty_N_go x s)) = digits_val (Z.of_N x) (chars s).
Proof.
  induction (N.lt_wf_0 x) as [x _ IH]. intros s. destruct (decide (x = 0)%N) as [->|Hx].
  - by rewrite pretty_N_go_0.
  - rewrite pretty_N_go_step by lia. rewrite IH by (apply N.div_lt; lia).
    destruct (pretty_char_digit (x mod 10)) as [Hd Hr]; [apply N.mod_lt; lia|].
    rewrite chars_ascii by lia. simpl. rewrite Hd. f_equal.
    rewrite N2Z.inj_div, N2Z.inj_mod. simpl. pose proof (Z.div_mod (Z.of_N x) 10). lia.
Qed.

(** A text of printable ASCII is its own trimming. *)
Definition plain (c : ascii) : bool := (33 <=? N_of_ascii c)%N && (N_of_ascii c <=? 126)%N.

Lemma chars_plain s : Forall (fun c => plain c = true) (as_bytes s) ->
  chars s = map N_of_ascii (as_bytes s).
Proof.
  induction s as [|c s IH]; intros H; [done|]. apply Forall_cons in H as [Hc Hs].
  unfold plain in Hc. apply andb_true_iff in Hc as [_ Hc%N.leb_le].
  rewrite chars_ascii by lia. simpl. by rewrite IH.
Qed.

Lemma of_chars_plain l : Forall (fun c => plain c = true) l -> of_chars (map N_of_ascii l) = str_of_bytes l.
Proof.
  induction 1 as [|c l Hc Hl IH]; [done|]. simpl. unfold of_chars in IH |- *. simpl. rewrite IH.
  unfold plain in Hc. apply andb_true_iff in Hc as [_ Hc%N.leb_le].
  unfold utf8_of_char. rewrite (proj2 (N.ltb_lt _ _)) by lia. by rewrite ascii_N_embedding.
Qed.

Lemma drop_while_none p l : Forall (fun x => p x = false) l -> drop_while p l = l.
Proof. destruct 1 as [|x l Hx _]; simpl; [done|]. by rewrite Hx. Qed.

Lemma trim_plain s : Forall (fun c => plain c = true) (as_bytes s) -> trim s = s.
Proof.
  intros H. unfold trim, trim_chars. rewrite (chars_plain s) by done.
  assert (Forall (fun x => is_whitespace x = false) (map N_of_ascii (as_bytes s))) as Hw.
  { apply Forall_map. eapply Forall_impl; [exact H|]. intros c Hc. simpl in Hc.
    unfold plain in Hc. apply andb_true_iff in Hc as [H1%N.leb_le H2%N.leb_le]. unfold is_whitespace.
    repeat (apply orb_false_iff; split); try (apply andb_false_iff; rewrite !N.leb_gt; lia); apply N.eqb_neq; lia. }
  rewrite (drop_while_none _ (map _ _)) by done. rewrite drop_while_none by by apply Forall_rev.
  rewrite rev_involutive, of_chars_plain by done. apply str_of_as.
Qed.

Definition is_digit_char (c : ascii) : bool := is_ascii_digit (N_of_ascii c).

Lemma digit_plain c : is_digit_char c = true -> plain c = true.
Proof.
  unfold is_digit_char, is_ascii_digit, plain. rewrite !andb_true_iff, !N.leb_le. lia.
Qed.

Lemma bytes_go x : forall s, exists l, as_bytes (pretty_N_go x s) = l ++ as_bytes s /\
  Forall (fun c => is_digit_char c = true) l /\ (x <> 0%N -> l <> []).
Proof.
  induction (N.lt_wf_0 x) as [x _ IH]. intros s. destruct (decide (x = 0)%N) as [->|Hx].
  - rewrite pretty_N_go_0. by exists [].
  - rewrite pretty_N_go_step by lia. assert (x / 10 < x)%N as Hlt by (apply N.div_lt; lia).
    destruct (IH _ Hlt (String (pretty_N_char (x mod 10)) s)) as (l & E & Hl & _).
    destruct (pretty_char_digit (x mod 10)) as [_ Hr]; [apply N.mod_lt; lia|].
    exists (l ++ [pretty_N_char (x mod 10)]). unfold as_bytes in *. simpl in E.
    rewrite E, <- app_assoc. split_and!; [done| |by destruct l].
    apply Forall_app. split; [done|]. constructor; [|done].
    apply andb_true_iff. split; apply N.leb_le; lia.
Qed.

Lemma dec_digit_chars z : (0 <= z)%Z ->
  Forall (fun c => is_digit_char c = true) (as_bytes (dec z)) /\ dec z <> EmptyString.
Proof.
  intros Hz. destruct z as [|p|p]; [by vm_compute; repeat constructor| |lia].
  change (dec (Z.pos p)) with (pretty_N_go (N.pos p) EmptyString).
  destruct (bytes_go (N.pos p) EmptyString) as (l & E & Hl & Hne). change (as_bytes EmptyString) with (@nil ascii) in E.
  rewrite app_nil_r in E. rewrite E. split; [done|]. intros Hs. rewrite Hs in E. by apply Hne.
Qed.

(** What [dec] writes for a number is its digits, and reading them gives it back. *)
Lemma dec_digits z : (0 <= z)%Z ->
  digits_val 0 (chars (dec z)) = Some z /\ Forall (fun c => is_ascii_digit c = true) (chars (dec z)) /\
  chars (dec z) <> [].
Proof.
  intros Hz. destruct (dec_digit_chars z Hz) as [Hf Hne].
  rewrite chars_plain by (eapply Forall_impl; [exact Hf|]; exact digit_plain). split_and!.
  - rewrite <- chars_plain by (eapply Forall_impl; [exact Hf|]; exact digit_plain).
    destruct z as [|p|p]; [by vm_compute| |lia].
    change (dec (Z.pos p)) with (pretty_N_go (N.pos p) EmptyString). by rewrite digits_val_go.
  - by apply Forall_map.
  - destruct (dec z); [done|]. done.
Qed.

Lemma parse_digits_dec z : (0 <= z)%Z -> parse_digits (dec z) = Some z.
Proof.
  intros Hz. destruct (dec_digits z Hz) as (Hd & Hf & Hne). unfold parse_digits.
  destruct (chars (dec z)) as [|c l] eqn:E; [done|].
  assert (c <> 43%N) as Hc by (apply Forall_inv in Hf; intros ->; done).
  repeat case_match; simplify_eq; done.
Qed.

Lemma parse_u64_dec z : (0 <= z <= u64_max)%Z -> parse_u64 (dec z) = Some z.
Proof.
  intros Hz. unfold parse_u64. rewrite parse_digits_dec by lia. simpl. unfold u64_try_from.
  by rewrite !(proj2 (Z.leb_le _ _)) by lia.
Qed.

Lemma dec_inj a b : (0 <= a)%Z -> (0 <= b)%Z -> dec a = dec b -> a = b.
Proof. intros Ha Hb E. apply parse_digits_dec in Ha, Hb. rewrite E in Ha. congruence. Qed.

(** Digits before a unit that is none. *)
Lemma strip_suffix_app p s : strip_suffix p (s ++ p) = Some s.
Proof. by apply strip_suffix_Some. Qed.

Lemma strip_suffix_digits p a z c q : (0 <= z)%Z -> p = String c q -> is_digit_char c = false ->
  String.length a <= String.length p -> a <> p -> strip_suffix p (dec z ++ a) = None.
Proof.
  intros Hz Hp Hc Hlen Hne. destruct (strip_suffix p (dec z ++ a)) as [r|] eqn:E; [|done].
  apply strip_suffix_Some in E. destruct (dec_digit_chars z Hz) as [Hf _]. exfalso.
  assert (as_bytes (dec z) ++ as_bytes a = as_bytes r ++ as_bytes p) as E'
    by by rewrite <- !as_bytes_app, E.
  assert (length (as_bytes a) <= length (as_bytes p)) as Hl by by rewrite !length_as_bytes.
  assert (forall l k, l = k -> str_of_bytes l = str_of_bytes k) as Hs by by intros ? ? ->.
  apply app_eq_inv in E' as [(k & E1 & E2)|(k & E1 & E2)].
  - destruct k as [|x k]; [apply Hs in E2; simpl in E2; rewrite !str_of_as in E2; congruence|].
    rewrite E1 in Hf. apply Forall_app in Hf as [_ Hf%Forall_inv].
    rewrite Hp in E2. unfold as_bytes in E2. simpl in E2. injection E2 as -> _. congruence.
  - assert (k = []) as ->.
    { apply (f_equal length) in E2. rewrite length_app in E2. destruct k; [done|]. simpl in E2. lia. }
    apply Hs in E2. simpl in E2. rewrite !str_of_as in E2. congruence.
Qed.

(** ** UTF-8 is read back *)

Lemma byte_below n : (n < 256)%N -> N_of_ascii (ascii_of_N n) = n.
Proof. apply N_ascii_embedding. Qed.

(** Every number below a bound has a decidable property: it is computed. *)
Lemma below_all (p : N -> bool) k : forallb (fun i => p (N.of_nat i)) (seq 0 k) = true ->
  forall x, (x < N.of_nat k)%N -> p x = true.
Proof.
  intros H x Hx. rewrite forallb_forall in H. rewrite <- (N2Nat.id x). apply H.
  apply in_seq. lia.
Qed.

Lemma land_below x k : (N.land x (N.ones k) < 2 ^ k)%N.
Proof. rewrite N.land_ones. apply N.mod_lt. by apply N.pow_nonzero. Qed.

(** A continuation byte: its high bits, and the six it carries. *)
Lemma continuation x : N_of_ascii (ascii_of_N (N.lor 128 (N.land x 63))) = N.lor 128 (N.land x 63) /\
  N.land (N.lor 128 (N.land x 63)) 63 = N.land x 63.
Proof.
  pose proof (land_below x 6) as H. change (N.ones 6) with 63%N in H. change (2 ^ 6)%N with 64%N in H.
  pose proof (below_all (fun y => (N.lor 128 y <? 256)%N && (N.land (N.lor 128 y) 63 =? y)%N) 64
    ltac:(vm_compute; reflexivity) _ H) as Hp.
  apply andb_true_iff in Hp as [H1%N.ltb_lt H2%N.eqb_eq]. split; [by apply byte_below|done].
Qed.

Lemma join_bits n k : N.lor (N.shiftl (N.shiftr n k) k) (N.land n (N.ones k)) = n.
Proof.
  apply N.bits_inj. intros i. rewrite N.lor_spec, N.land_spec.
  destruct (N.lt_ge_cases i k) as [Hi|Hi].
  - by rewrite N.shiftl_spec_low, N.ones_spec_low, andb_true_r by done.
  - rewrite N.shiftl_spec_high', N.ones_spec_high, andb_false_r, orb_false_r by done.
    rewrite N.shiftr_spec'. f_equal. lia.
Qed.

Lemma join_two n j k : N.lor (N.shiftl (N.shiftr n (j + k)) (j + k)) (N.shiftl (N.land (N.shiftr n k) (N.ones j)) k)
  = N.shiftl (N.shiftr n k) k.
Proof.
  rewrite N.add_comm, <- N.shiftr_shiftr, N.add_comm, <- N.shiftl_shiftl, <- N.shiftl_lor. f_equal. apply join_bits.
Qed.

Lemma shiftr_below n k m : (n < 2 ^ (k + m))%N -> (N.shiftr n k < 2 ^ m)%N.
Proof.
  intros H. rewrite N.shiftr_div_pow2. apply N.div_lt_upper_bound; [by apply N.pow_nonzero|].
  by rewrite <- N.pow_add_r.
Qed.

(** A leading byte: which range it is in, and the bits it carries. *)
Definition leads (mark mask low high x : N) : bool :=
  let b := N.lor mark x in
  (low <=? b)%N && (b <? high)%N && (N.land b mask =? x)%N.

Lemma leading mark mask low high k x :
  forallb (fun i => leads mark mask low high (N.of_nat i)) (seq 0 k) = true -> (high <= 256)%N ->
  (x < N.of_nat k)%N ->
  exists b, ascii_of_N (N.lor mark x) = ascii_of_N b /\ N_of_ascii (ascii_of_N b) = b /\ (low <= b < high)%N /\ N.land b mask = x.
Proof.
  intros Hc Hh Hx. pose proof (below_all _ _ Hc x Hx) as Hp. unfold leads in Hp.
  rewrite !andb_true_iff, N.leb_le, N.ltb_lt, N.eqb_eq in Hp. destruct Hp as [[Hl Hu] Hm].
  exists (N.lor mark x). split_and!; [done| |done|done|done]. apply byte_below. lia.
Qed.

Lemma chars_utf8 n t : is_scalar n = true -> chars (utf8_of_char n ++ t) = n :: chars t.
Proof.
  intros Hs. assert (n < 1114112)%N as Hn.
  { unfold is_scalar in Hs. rewrite orb_true_iff, andb_true_iff, N.ltb_lt, !N.leb_le in Hs. lia. }
  unfold utf8_of_char.
  destruct (N.ltb_spec n 128); [|destruct (N.ltb_spec n 2048); [|destruct (N.ltb_spec n 65536)]].
  - simpl. rewrite byte_below by lia. by rewrite (proj2 (N.ltb_lt _ _)).
  - assert (N.shiftr n 6 < 32)%N as Hk by by apply (shiftr_below n 6 5).
    destruct (leading 192 31 192 224 32 _ ltac:(vm_compute; reflexivity) ltac:(lia) Hk) as (b & -> & Eb & Hb & Em).
    destruct (continuation n) as [E1 E2].
    simpl. rewrite Eb, E1, E2, Em. rewrite (proj2 (N.ltb_ge _ _)), (proj2 (N.ltb_lt _ _)) by lia.
    f_equal. apply (join_bits n 6).
  - assert (N.shiftr n 12 < 16)%N as Hk by by apply (shiftr_below n 12 4).
    destruct (leading 224 15 224 240 16 _ ltac:(vm_compute; reflexivity) ltac:(lia) Hk) as (b & -> & Eb & Hb & Em).
    destruct (continuation n) as [E1 E2]. destruct (continuation (N.shiftr n 6)) as [F1 F2].
    simpl. rewrite Eb, E1, E2, F1, F2, Em. do 2 rewrite (proj2 (N.ltb_ge _ _)) by lia.
    rewrite (proj2 (N.ltb_lt _ _)) by lia. f_equal.
    rewrite N.lor_assoc. etransitivity; [|apply (join_bits n 6)]. f_equal. apply (join_two n 6 6).
  - assert (N.shiftr n 18 < 8)%N as Hk by (apply (shiftr_below n 18 3); simpl; lia).
    destruct (leading 240 7 240 256 8 _ ltac:(vm_compute; reflexivity) ltac:(lia) Hk) as (b & -> & Eb & Hb & Em).
    destruct (continuation n) as [E1 E2]. destruct (continuation (N.shiftr n 6)) as [F1 F2].
    destruct (continuation (N.shiftr n 12)) as [G1 G2].
    simpl. rewrite Eb, E1, E2, F1, F2, G1, G2, Em. do 3 rewrite (proj2 (N.ltb_ge _ _)) by lia. f_equal.
    rewrite N.shiftl_lor, N.shiftl_shiftl, !N.lor_assoc.
    etransitivity; [|apply (join_bits n 6)]. f_equal.
    etransitivity; [|apply (join_two n 6 6)]. f_equal. apply (join_two n 6 12).
Qed.

Lemma chars_of_chars l t : forallb is_scalar l = true -> chars (of_chars l ++ t) = l ++ chars t.
Proof.
  induction l as [|n l IH]; [done|]. simpl. intros [Hn Hl]%andb_true_iff.
  rewrite str_app_assoc, chars_utf8 by done. by rewrite IH.
Qed.

(** What a Rust [String] always is: the encoding of scalar values. *)
Definition utf8 (s : string) : Prop := exists l, forallb is_scalar l = true /\ s = of_chars l.

Lemma of_chars_app l k : of_chars (l ++ k) = (of_chars l ++ of_chars k)%string.
Proof.
  induction l as [|n l IH]; [done|]. change (of_chars ((n :: l) ++ k)) with (utf8_of_char n ++ of_chars (l ++ k))%string.
  rewrite IH. by rewrite <- str_app_assoc.
Qed.

Lemma utf8_app s t : utf8 s -> utf8 t -> utf8 (s ++ t).
Proof.
  intros (l & Hl & ->) (k & Hk & ->). exists (l ++ k). split; [|by rewrite of_chars_app].
  rewrite forallb_app. by rewrite Hl, Hk.
Qed.

Lemma utf8_ascii s : Forall (fun c => (N_of_ascii c < 128)%N) (as_bytes s) -> utf8 s.
Proof.
  induction s as [|c s IH]; intros H; [by exists []|]. apply Forall_cons in H as [Hc Hs].
  change (String c s) with (str1 c ++ s)%string. apply utf8_app; [|by apply IH].
  exists [N_of_ascii c]. unfold is_scalar. simpl. rewrite (proj2 (N.ltb_lt _ _)) by lia. split; [done|].
  unfold utf8_of_char. rewrite (proj2 (N.ltb_lt _ _)) by lia. simpl. by rewrite ascii_N_embedding.
Qed.

Lemma from_utf8_utf8 b s : from_utf8 b = Some s -> utf8 s /\ s = str_of_bytes b.
Proof.
  unfold from_utf8. destruct (forallb _ _ && _) eqn:E; [|done]. intros [= <-].
  apply andb_true_iff in E as [E1 E2%String.eqb_eq]. split; [|done]. by exists (chars (str_of_bytes b)).
Qed.

Lemma chars_app s t : utf8 s -> chars (s ++ t) = chars s ++ chars t.
Proof.
  intros (l & Hl & ->). rewrite chars_of_chars by done. f_equal.
  rewrite <- (str_app_nil_r (of_chars l)), chars_of_chars by done. by rewrite app_nil_r.
Qed.

(** A text between two characters that are not white space is its own trimming. *)
Lemma trim_tight a s b : utf8 s -> (N_of_ascii a < 128)%N -> (N_of_ascii b < 128)%N ->
  is_whitespace (N_of_ascii a) = false -> is_whitespace (N_of_ascii b) = false ->
  trim (String a s ++ str1 b) = (String a s ++ str1 b)%string.
Proof.
  intros (l & Hl & ->) Ha Hb Wa Wb. unfold trim, trim_chars.
  change (String a (of_chars l) ++ str1 b)%string with (String a (of_chars l ++ str1 b)).
  rewrite chars_ascii, chars_of_chars by done. unfold str1. rewrite chars_ascii by done. change (chars EmptyString) with (@nil N).
  simpl drop_while. rewrite Wa. change (N_of_ascii a :: l ++ [N_of_ascii b]) with ((N_of_ascii a :: l) ++ [N_of_ascii b]).
  rewrite rev_app_distr. simpl drop_while at 1. cbn [rev app drop_while]. rewrite Wb.
  change (N_of_ascii b :: rev l ++ [N_of_ascii a]) with (rev [N_of_ascii b] ++ rev (N_of_ascii a :: l)).
  rewrite <- rev_app_distr, rev_involutive. cbn [app of_chars foldr].
  fold (of_chars (l ++ [N_of_ascii b])). rewrite of_chars_app. unfold utf8_of_char at 1. rewrite (proj2 (N.ltb_lt _ _)) by done.
  simpl. unfold utf8_of_char. rewrite (proj2 (N.ltb_lt _ _)) by done. rewrite !ascii_N_embedding. done.
Qed.

(** The bytes of a character beyond ASCII are beyond ASCII. *)
Lemma utf8_high n : is_scalar n = true -> (128 <= n)%N ->
  Forall (fun c => (128 <= N_of_ascii c)%N) (as_bytes (utf8_of_char n)).
Proof.
  intros Hs Hn. assert (n < 1114112)%N as Hlt.
  { unfold is_scalar in Hs. rewrite orb_true_iff, andb_true_iff, N.ltb_lt, !N.leb_le in Hs. lia. }
  assert (forall x, (128 <= N_of_ascii (ascii_of_N (N.lor 128 (N.land x 63))))%N) as Ht.
  { intros x. destruct (continuation x) as [-> _]. pose proof (land_below x 6) as H.
    change (N.ones 6) with 63%N in H. change (2 ^ 6)%N with 64%N in H.
    apply N.leb_le. by apply (below_all (fun y => 128 <=? N.lor 128 y)%N 64 ltac:(vm_compute; reflexivity) _ H). }
  unfold utf8_of_char. rewrite (proj2 (N.ltb_ge _ _)) by done.
  destruct (N.ltb_spec n 2048); [|destruct (N.ltb_spec n 65536)];
    repeat (constructor; [|]); try apply Ht; try done.
  - destruct (leading 192 31 192 224 32 _ ltac:(vm_compute; reflexivity) ltac:(lia)
      (shiftr_below n 6 5 ltac:(done))) as (b & -> & Eb & Hb & _). rewrite Eb. lia.
  - destruct (leading 224 15 224 240 16 _ ltac:(vm_compute; reflexivity) ltac:(lia)
      (shiftr_below n 12 4 ltac:(done))) as (b & -> & Eb & Hb & _). rewrite Eb. lia.
  - destruct (leading 240 7 240 256 8 _ ltac:(vm_compute; reflexivity) ltac:(lia)
      (shiftr_below n 18 3 ltac:(simpl; lia))) as (b & -> & Eb & Hb & _). rewrite Eb. lia.
Qed.

(** An induction over the characters of a text. *)
Lemma utf8_ind (P : string -> Prop) : P EmptyString ->
  (forall c s, (N_of_ascii c < 128)%N -> P s -> P (String c s)) ->
  (forall t s, Forall (fun c => (128 <= N_of_ascii c)%N) (as_bytes t) -> utf8 t -> P s -> P (t ++ s)%string) ->
  forall s, utf8 s -> P s.
Proof.
  intros H0 H1 H2 s (l & Hl & ->). induction l as [|n l IH]; [done|].
  simpl in Hl. apply andb_true_iff in Hl as [Hn Hl].
  change (of_chars (n :: l)) with (utf8_of_char n ++ of_chars l)%string.
  destruct (N.lt_ge_cases n 128) as [Hlt|Hge].
  - unfold utf8_of_char. rewrite (proj2 (N.ltb_lt _ _)) by done. apply H1; [|by apply IH].
    by rewrite byte_below by lia.
  - apply H2; [by apply utf8_high| |by apply IH]. exists [n]. simpl. rewrite Hn. split; [done|]. by rewrite str_app_nil_r.
Qed.

Lemma split_once_app c a b : contains c a = false -> split_once c (a ++ String c b) = Some (a, b).
Proof.
  induction a as [|x a IH]; simpl; [by rewrite Ascii.eqb_refl|].
  intros [Hx Ha]%orb_false_iff. by rewrite Hx, IH.
Qed.
