(* ===== verification/Hex.v ===== *)
(** * Lower-case hexadecimal ([ciphr-core/src/hex.rs])

    [decode_into] writes into a buffer the caller owns, so its model returns the
    buffer it leaves beside the result: what a rejected input leaves behind is a
    property of the function. *)

From Stdlib Require Import ZArith NArith Lia Ascii String.
From stdpp Require Import base tactics list strings.
From S2P Require Import Prelude Text.

Inductive HexError : Type :=
| HexLength (expected found : Z)
| OddLength (found : Z)
| HexInvalidCharacter.

Definition DIGITS : bytes := as_bytes "0123456789abcdef".

Definition hex_char (n : Z) : ascii := nth (Z.to_nat n) DIGITS zero.

Definition hex_encode_byte (c : ascii) : string :=
  String (hex_char (Z.shiftr (byte_val c) 4))
    (str1 (hex_char (Z.land (byte_val c) 15))).

Fixpoint hex_encode (b : bytes) : string :=
  match b with
  | [] => EmptyString
  | c :: b' => (hex_encode_byte c ++ hex_encode b')%string
  end.

Definition hex_digit (c : ascii) : result HexError Z :=
  let b := byte_val c in
  if ((48 <=? b) && (b <=? 57))%Z then Ok (b - 48)%Z
  else if ((97 <=? b) && (b <=? 102))%Z then Ok (b - 97 + 10)%Z
  else if ((65 <=? b) && (b <=? 70))%Z then Ok (b - 65 + 10)%Z
  else Err HexInvalidCharacter.

(** The loop of [decode_into]: each slot is written as soon as its two digits
    are read, and a bad digit returns at once.  The length test before the loop
    makes the last case (an index past the end) unreachable. *)
Fixpoint hex_fill (input out : bytes) {struct out} : result HexError unit * bytes :=
  match out with
  | [] => (Ok tt, [])
  | slot :: out' =>
      match input with
      | h :: l :: input' =>
          match hex_digit h with
          | Err e => (Err e, out)
          | Ok high =>
              match hex_digit l with
              | Err e => (Err e, out)
              | Ok low =>
                  let '(r, rest) := hex_fill input' out' in
                  (r, byte_of (Z.lor (Z.shiftl high 4) low) :: rest)
              end
          end
      | _ => (Err HexInvalidCharacter, out)
      end
  end.

Definition hex_decode_into (input : string) (out : bytes) : result HexError unit * bytes :=
  let expected := (Z.of_nat (length out) * 2)%Z in
  if negb (len input =? expected)%Z then (Err (HexLength expected (len input)), out)
  else hex_fill (as_bytes input) out.

Definition zeroed (n : nat) : bytes := repeat zero n.

Definition hex_decode (input : string) : result HexError bytes :=
  if negb (len input mod 2 =? 0)%Z then Err (OddLength (len input))
  else
    let '(r, out) := hex_decode_into input (zeroed (Z.to_nat (len input / 2))) in
    res_map (fun _ => out) r.

Definition hex_error_display (e : HexError) : string :=
  match e with
  | HexLength expected found =>
      ("expected " ++ dec expected ++ " hex characters, found " ++ dec found)%string
  | OddLength found =>
      ("expected an even number of hex characters, found " ++ dec found)%string
  | HexInvalidCharacter => "input contains a non-hexadecimal character"
  end.

(** The lower-case form of a hexadecimal character. *)
Definition lower_char (c : ascii) : ascii :=
  let b := byte_val c in
  if ((65 <=? b) && (b <=? 90))%Z then byte_of (b + 32) else c.

(** ** Lemmas *)

Lemma hex_digits_of_byte c :
  hex_digit (hex_char (Z.shiftr (byte_val c) 4)) = Ok (Z.shiftr (byte_val c) 4) /\
  hex_digit (hex_char (Z.land (byte_val c) 15)) = Ok (Z.land (byte_val c) 15) /\
  byte_of (Z.lor (Z.shiftl (Z.shiftr (byte_val c) 4) 4) (Z.land (byte_val c) 15)) = c.
Proof.
  pose (p := fun c => match hex_digit (hex_char (Z.shiftr (byte_val c) 4)),
                            hex_digit (hex_char (Z.land (byte_val c) 15)) with
                      | Ok h, Ok l => Z.eqb h (Z.shiftr (byte_val c) 4) &&
                                      Z.eqb l (Z.land (byte_val c) 15) &&
                                      Ascii.eqb (byte_of (Z.lor (Z.shiftl h 4) l)) c
                      | _, _ => false end).
  assert (p c = true) as H by (revert c; by_bytes). unfold p in H.
  destruct (hex_digit _) as [h|]; [|done]. destruct (hex_digit _) as [l|]; [|done].
  apply andb_true_iff in H as [[->%Z.eqb_eq ->%Z.eqb_eq]%andb_true_iff H%Ascii.eqb_eq].
  done.
Qed.

Lemma hex_digit_inv h v :
  hex_digit h = Ok v -> hex_char v = lower_char h /\ (0 <= v < 16)%Z.
Proof.
  intros Hd.
  pose (p := fun h => match hex_digit h with
                      | Ok v => Ascii.eqb (hex_char v) (lower_char h) && (0 <=? v)%Z && (v <? 16)%Z
                      | Err _ => true end).
  assert (p h = true) as H by (revert h Hd; intros h _; revert h; by_bytes). unfold p in H.
  rewrite Hd in H. apply andb_true_iff in H as [[H1%Ascii.eqb_eq H2]%andb_true_iff H3].
  split; [done|lia].
Qed.

Lemma hex_encode_length b : String.length (hex_encode b) = (2 * length b)%nat.
Proof. induction b as [|c b IH]; [done|]. cbn -[Nat.mul]. rewrite IH. lia. Qed.

Lemma hex_fill_encode b out :
  length out = length b -> hex_fill (as_bytes (hex_encode b)) out = (Ok tt, b).
Proof.
  revert out. induction b as [|c b IH]; intros [|o out]; simpl; try discriminate; [done|].
  intros [= Hl]. destruct (hex_digits_of_byte c) as (-> & -> & ->).
  fold (as_bytes (hex_encode b)). by rewrite IH.
Qed.

Lemma hex_decode_into_encode b out :
  length out = length b -> hex_decode_into (hex_encode b) out = (Ok tt, b).
Proof.
  intros Hl. unfold hex_decode_into, len. rewrite hex_encode_length.
  rewrite (proj2 (Z.eqb_eq _ _)) by lia. by apply hex_fill_encode.
Qed.

(** What the loop leaves in the buffer, whatever its outcome: the decoded bytes
    of the digit pairs before the first bad one, then the old contents. *)
Lemma hex_fill_buffer input out :
  exists done_ : bytes,
    (length done_ <= length out)%nat /\
    snd (hex_fill input out) = done_ ++ drop (length done_) out /\
    (2 * length done_ <= length input)%nat /\
    hex_encode done_ = str_of_bytes (map lower_char (take (2 * length done_) input)) /\
    (is_ok (fst (hex_fill input out)) = true <-> length done_ = length out).
Proof.
  revert input. induction out as [|slot out IH]; intros input.
  { exists []. simpl. repeat split; try lia; done. }
  assert (forall e, exists d : bytes, (length d <= length (slot :: out))%nat /\
            snd (@Err HexError unit e, slot :: out) = d ++ drop (length d) (slot :: out) /\
            (2 * length d <= length input)%nat /\
            hex_encode d = str_of_bytes (map lower_char (take (2 * length d) input)) /\
            (is_ok (fst (@Err HexError unit e, slot :: out)) = true <->
             length d = length (slot :: out))) as Hstop.
  { intros e. exists []. simpl. repeat split; try lia; done. }
  destruct input as [|h [|l input]]; simpl; [apply (Hstop HexInvalidCharacter)..|].
  destruct (hex_digit h) as [high|e] eqn:Hh; [|apply (Hstop e)].
  destruct (hex_digit l) as [low|e] eqn:Hl; [|apply (Hstop e)].
  apply hex_digit_inv in Hh as [Hh Hhr], Hl as [Hl Hlr].
  destruct (IH input) as (d & Hd & Hs & Hlen & Henc & Hok).
  destruct (hex_fill input out) as [r rest]. simpl in *. subst rest.
  exists (byte_of (Z.lor (Z.shiftl high 4) low) :: d).
  simpl. repeat split; try lia; [|by intros ?%Hok; lia|by intros [=]; apply Hok; lia].
  unfold hex_encode_byte. rewrite lor_shiftl_add by lia.
  rewrite byte_val_of by lia. rewrite Z.shiftr_div_pow2 by lia.
  change 15%Z with (Z.ones 4). rewrite land_mask by lia.
  replace ((high * 2 ^ 4 + low) / 2 ^ 4)%Z with high by zdiv_lia.
  replace ((high * 2 ^ 4 + low) mod 2 ^ 4)%Z with low by zdiv_lia.
  rewrite Hh, Hl. simpl. unfold str_of_bytes in *.
  replace (length d + S (length d + 0))%nat with (S (length d + (length d + 0))) by lia.
  simpl. by rewrite Henc.
Qed.

Lemma hex_fill_no_length input out e f : fst (hex_fill input out) <> Err (HexLength e f).
Proof.
  revert input. induction out as [|slot out IH]; intros [|h [|l input]]; simpl; try done.
  assert (forall c e', hex_digit c = Err e' -> e' <> HexLength e f) as Hd.
  { intros c e'. unfold hex_digit. repeat case_match; congruence. }
  destruct (hex_digit h) eqn:Eh; simpl; [|intros [= ->]; by apply Hd in Eh].
  destruct (hex_digit l) eqn:El; simpl; [|intros [= ->]; by apply Hd in El].
  specialize (IH input). by destruct (hex_fill input out).
Qed.

(** ** Properties *)

(** Decoding what was encoded gives the bytes back. *)
Theorem hex_decode_encode b : hex_decode (hex_encode b) = Ok b.
Proof.
  unfold hex_decode, len. rewrite hex_encode_length.
  replace (Z.of_nat (2 * length b)) with (Z.of_nat (length b) * 2)%Z by lia.
  rewrite Z.mod_mul, Z.div_mul by lia. simpl. rewrite Nat2Z.id.
  rewrite hex_decode_into_encode by apply repeat_length. done.
Qed.

(** The whole behaviour of [decode_into], error paths included: a wrong length
    touches nothing; on success the buffer encodes to the input in lower case;
    on a bad character the slots before it are already overwritten with the
    decoded bytes and the others keep their contents. *)
Theorem hex_decode_into_spec input out :
  let '(r, out') := hex_decode_into input out in
  length out' = length out /\
  match r with
  | Ok _ => hex_encode out' = str_of_bytes (map lower_char (as_bytes input))
  | Err (HexLength expected found) =>
      out' = out /\ found = len input /\ expected = (2 * Z.of_nat (length out))%Z /\
      found <> expected
  | Err _ =>
      len input = (2 * Z.of_nat (length out))%Z /\
      exists written : bytes,
        (length written < length out)%nat /\
        out' = written ++ drop (length written) out /\
        hex_encode written =
          str_of_bytes (map lower_char (take (2 * length written) (as_bytes input)))
  end.
Proof.
  unfold hex_decode_into. destruct (Z.eqb_spec (len input) (Z.of_nat (length out) * 2)) as [Hl|Hl].
  2: { simpl. repeat split; lia. }
  simpl. pose proof (hex_fill_no_length (as_bytes input) out) as Hnl.
  destruct (hex_fill_buffer (as_bytes input) out) as (d & Hd & Hs & _ & Henc & Hok).
  destruct (hex_fill (as_bytes input) out) as [r out']. simpl in *.
  split. { rewrite Hs, length_app, length_drop. lia. }
  destruct r as [u|e].
  - assert (length d = length out) as Hdl by by apply Hok.
    rewrite Hs, Hdl, drop_all, app_nil_r, Henc. f_equal. f_equal.
    apply take_ge. rewrite length_as_bytes. unfold len in Hl. lia.
  - assert (length d < length out)%nat as Hlt.
    { destruct (decide (length d = length out)) as [E|E]; [|lia].
      by apply Hok in E. }
    destruct e; [by destruct (Hnl expected found)|..]; (split; [lia|by exists d]).
Qed.

(** A concrete run of the error path: the first byte is already in the buffer. *)
Example hex_decode_into_partial :
  hex_decode_into "ffzz" [ascii_of_N 170; ascii_of_N 170] =
    (Err HexInvalidCharacter, [ascii_of_N 255; ascii_of_N 170]).
Proof. vm_compute. reflexivity. Qed.
