(* ===== verification/Base64Url.v ===== *)
(** * Unpadded base64url ([ciphr-core/src/base64url.rs])

    The encoding of token secrets.  [encode_into] appends to a string the caller
    owns and [decode_into] writes into a buffer the caller owns, after validating
    the whole input; both are modelled with the string or buffer they leave. *)

From Stdlib Require Import ZArith NArith Lia Ascii String.
From stdpp Require Import base tactics list strings.
From S2P Require Import Prelude Text Hex.

Inductive Base64Error : Type :=
| B64Length (found : Z)
| B64InvalidCharacter
| TrailingBits.

Definition ALPHABET : bytes :=
  as_bytes "ABCDEFGHIJKLMNOPQRSTUVWXYZabcdefghijklmnopqrstuvwxyz0123456789-_".

Definition b64_char (v : Z) : ascii := nth (Z.to_nat v) ALPHABET zero.

(** [slice.chunks(3)], [slice.chunks(4)] *)
Fixpoint chunks3 (l : bytes) : list bytes :=
  match l with
  | a :: b :: c :: r => [a; b; c] :: chunks3 r
  | [] => []
  | _ => [l]
  end.
Fixpoint chunks4 (l : bytes) : list bytes :=
  match l with
  | a :: b :: c :: d :: r => [a; b; c; d] :: chunks4 r
  | [] => []
  | _ => [l]
  end.

(** One turn of the loop of [encode_into]. *)
Definition b64_encode_chunk (chunk : bytes) : string :=
  let at_ i := match chunk !! i with Some c => byte_val c | None => 0%Z end in
  let group := Z.lor (Z.lor (Z.shiftl (at_ 0%nat) 16) (Z.shiftl (at_ 1%nat) 8)) (at_ 2%nat) in
  let sixth k := b64_char (Z.land (Z.shiftr group k) 63) in
  (String (sixth 18%Z) (str1 (sixth 12%Z)) ++
   (if (1 <? length chunk)%nat then str1 (sixth 6%Z) else EmptyString) ++
   (if (2 <? length chunk)%nat then str1 (sixth 0%Z) else EmptyString))%string.

Definition b64_encode_into (b : bytes) (out : string) : string :=
  foldl (fun o chunk => o ++ b64_encode_chunk chunk)%string out (chunks3 b).

Definition b64_encode (b : bytes) : string := b64_encode_into b EmptyString.

Definition encoded_len (byte_len : Z) : Z :=
  (byte_len / 3 * 4 +
   match byte_len mod 3 with 0 => 0 | 1 => 2 | _ => 3 end)%Z.

Definition decoded_len (text_len : Z) : option Z :=
  let whole := (text_len / 4 * 3)%Z in
  match (text_len mod 4)%Z with
  | 0%Z => Some whole
  | 2%Z => Some (whole + 1)%Z
  | 3%Z => Some (whole + 2)%Z
  | _ => None
  end.

Definition sextet (c : ascii) : result Base64Error Z :=
  let b := byte_val c in
  if ((65 <=? b) && (b <=? 90))%Z then Ok (b - 65)%Z
  else if ((97 <=? b) && (b <=? 122))%Z then Ok (b - 97 + 26)%Z
  else if ((48 <=? b) && (b <=? 57))%Z then Ok (b - 48 + 52)%Z
  else if (b =? 45)%Z then Ok 62%Z
  else if (b =? 95)%Z then Ok 63%Z
  else Err B64InvalidCharacter.

(** The accumulation loop of [group], from character [index] on. *)
Fixpoint group_loop (acc : Z) (index : Z) (chunk : bytes) : result Base64Error Z :=
  match chunk with
  | [] => Ok acc
  | c :: rest =>
      let? v := sextet c in
      group_loop (Z.lor acc (Z.shiftl v (18 - 6 * index))) (index + 1) rest
  end.

Definition b64_group (chunk : bytes) : result Base64Error Z :=
  let? group := group_loop 0 0 chunk in
  let unused := match length chunk with
                | 2%nat => 65535%Z
                | 3%nat => 255%Z
                | _ => 0%Z
                end in
  if negb (Z.land group unused =? 0)%Z then Err TrailingBits else Ok group.

(** Writing one decoded group into its slots. *)
Fixpoint write_slots (group : Z) (index : Z) (slots : bytes) : bytes :=
  match slots with
  | [] => []
  | _ :: rest =>
      byte_of (Z.land (Z.shiftr group (16 - 8 * index)) 255) :: write_slots group (index + 1) rest
  end.

(** The writing pass: the chunks of the input zipped with those of the buffer. *)
Fixpoint write_groups (chunks slots : list bytes) : result Base64Error unit * bytes :=
  match chunks, slots with
  | chunk :: chunks', s :: slots' =>
      match b64_group chunk with
      | Err e => (Err e, mjoin slots)
      | Ok g => let '(r, rest) := write_groups chunks' slots' in (r, write_slots g 0 s ++ rest)
      end
  | _, _ => (Ok tt, mjoin slots)
  end.

Definition b64_decode_into (input : string) (out : bytes) : result Base64Error unit * bytes :=
  let b := as_bytes input in
  if negb (bool_decide (decoded_len (Z.of_nat (length b)) = Some (Z.of_nat (length out))))
  then (Err (B64Length (Z.of_nat (length b))), out)
  else match res_mapM b64_group (chunks4 b) with
       | Err e => (Err e, out)
       | Ok _ => write_groups (chunks4 b) (chunks3 out)
       end.

Definition b64_decode (input : string) : result Base64Error bytes :=
  let? expected := ok_or (B64Length (len input)) (decoded_len (len input)) in
  let '(r, out) := b64_decode_into input (zeroed (Z.to_nat expected)) in
  res_map (fun _ => out) r.

Definition b64_error_display (e : Base64Error) : string :=
  match e with
  | B64Length found => (dec found ++ " characters is not a valid length")%string
  | B64InvalidCharacter => "input contains a character outside the base64url alphabet"
  | TrailingBits => "input has non-zero unused bits in its final group"
  end.

(** ** Lemmas *)

Lemma sextet_char v : (0 <= v < 64)%Z -> sextet (b64_char v) = Ok v.
Proof.
  intros H.
  assert (forallb (fun n => match sextet (b64_char (Z.of_nat n)) with
                            | Ok w => Z.eqb w (Z.of_nat n) | Err _ => false end) (seq 0 64) = true)
    as Hall by (vm_compute; reflexivity).
  rewrite List.forallb_forall in Hall. specialize (Hall (Z.to_nat v)).
  rewrite Z2Nat.id in Hall by lia.
  destruct (sextet (b64_char v)) as [w|].
  - f_equal. apply Z.eqb_eq, Hall, in_seq. lia.
  - discriminate Hall. apply in_seq. lia.
Qed.

Lemma sextet_inv c v : sextet c = Ok v -> b64_char v = c /\ (0 <= v < 64)%Z.
Proof.
  intros Hc.
  pose (p := fun c => match sextet c with
                      | Ok v => Ascii.eqb (b64_char v) c && (0 <=? v)%Z && (v <? 64)%Z
                      | Err _ => true end).
  assert (p c = true) as H by (clear Hc; revert c; by_bytes). unfold p in H. rewrite Hc in H.
  apply andb_true_iff in H as [[H1%Ascii.eqb_eq H2]%andb_true_iff H3]. split; [done|lia].
Qed.

(** The three bytes of a group, and the four sextets, as one number. *)
Definition bytes_group (b0 b1 b2 : Z) : Z := (b0 * 65536 + b1 * 256 + b2)%Z.
Definition sextets_group (v0 v1 v2 v3 : Z) : Z := (v0 * 262144 + v1 * 4096 + v2 * 64 + v3)%Z.

Lemma lor_bytes b0 b1 b2 :
  (0 <= b1 < 256)%Z -> (0 <= b2 < 256)%Z ->
  Z.lor (Z.lor (Z.shiftl b0 16) (Z.shiftl b1 8)) b2 = bytes_group b0 b1 b2.
Proof.
  intros H1 H2. rewrite (Z.shiftl_mul_pow2 b1) by lia. rewrite lor_shiftl_add by lia.
  replace (b0 * 2 ^ 16 + b1 * 2 ^ 8)%Z with ((b0 * 256 + b1) * 2 ^ 8)%Z by lia.
  rewrite lor_mul_add by lia. unfold bytes_group. lia.
Qed.

Lemma lor_sextets v0 v1 v2 v3 :
  (0 <= v1 < 64)%Z -> (0 <= v2 < 64)%Z -> (0 <= v3 < 64)%Z ->
  Z.lor (Z.lor (Z.lor (Z.lor 0 (Z.shiftl v0 18)) (Z.shiftl v1 12)) (Z.shiftl v2 6))
    (Z.shiftl v3 0) = sextets_group v0 v1 v2 v3.
Proof.
  intros H1 H2 H3. rewrite Z.lor_0_l, Z.shiftl_0_r.
  rewrite (Z.shiftl_mul_pow2 v1), (Z.shiftl_mul_pow2 v2) by lia. rewrite lor_shiftl_add by lia.
  replace (v0 * 2 ^ 18 + v1 * 2 ^ 12)%Z with ((v0 * 64 + v1) * 2 ^ 12)%Z by lia.
  rewrite lor_mul_add by lia.
  replace ((v0 * 64 + v1) * 2 ^ 12 + v2 * 2 ^ 6)%Z with ((v0 * 4096 + v1 * 64 + v2) * 2 ^ 6)%Z by lia.
  rewrite lor_mul_add by lia. unfold sextets_group. lia.
Qed.

Lemma land_shiftr_63 g k : (0 <= k)%Z -> Z.land (Z.shiftr g k) 63 = ((g / 2 ^ k) mod 64)%Z.
Proof. intros. rewrite Z.shiftr_div_pow2 by lia. by apply (land_mask _ 6). Qed.
Lemma land_shiftr_255 g k : (0 <= k)%Z -> Z.land (Z.shiftr g k) 255 = ((g / 2 ^ k) mod 256)%Z.
Proof. intros. rewrite Z.shiftr_div_pow2 by lia. by apply (land_mask _ 8). Qed.

(** The loop of [group] on the characters of given sextets. *)
Lemma group_loop_chars v0 v1 v2 v3 :
  (0 <= v0 < 64)%Z -> (0 <= v1 < 64)%Z -> (0 <= v2 < 64)%Z -> (0 <= v3 < 64)%Z ->
  group_loop 0 0 [b64_char v0; b64_char v1] = Ok (sextets_group v0 v1 0 0) /\
  group_loop 0 0 [b64_char v0; b64_char v1; b64_char v2] = Ok (sextets_group v0 v1 v2 0) /\
  group_loop 0 0 [b64_char v0; b64_char v1; b64_char v2; b64_char v3] =
    Ok (sextets_group v0 v1 v2 v3).
Proof.
  intros H0 H1 H2 H3. cbn [group_loop]. rewrite !sextet_char by done. cbn [res_bind].
  change (18 - 6 * 0)%Z with 18%Z. change (18 - 6 * (0 + 1))%Z with 12%Z.
  change (18 - 6 * (0 + 1 + 1))%Z with 6%Z. change (18 - 6 * (0 + 1 + 1 + 1))%Z with 0%Z.
  split_and!; f_equal.
  - rewrite <- (lor_sextets v0 v1 0 0) by lia. by rewrite !Z.shiftl_0_l, !Z.lor_0_r.
  - rewrite <- (lor_sextets v0 v1 v2 0) by lia. by rewrite !Z.shiftl_0_l, !Z.lor_0_r.
  - by apply lor_sextets.
Qed.

(** The sextets of a group of bytes. *)
Lemma sextets_of_bytes b0 b1 b2 :
  (0 <= b0 < 256)%Z -> (0 <= b1 < 256)%Z -> (0 <= b2 < 256)%Z ->
  let g := bytes_group b0 b1 b2 in
  sextets_group ((g / 2 ^ 18) mod 64) ((g / 2 ^ 12) mod 64) ((g / 2 ^ 6) mod 64)
    ((g / 2 ^ 0) mod 64) = g /\
  (0 <= g < 2 ^ 24)%Z.
Proof. intros. subst g. unfold sextets_group, bytes_group. split; [zdiv_lia|lia]. Qed.

Lemma bytes_of_sextets v0 v1 v2 v3 :
  (0 <= v0 < 64)%Z -> (0 <= v1 < 64)%Z -> (0 <= v2 < 64)%Z -> (0 <= v3 < 64)%Z ->
  let g := sextets_group v0 v1 v2 v3 in
  ((g / 2 ^ 18) mod 64 = v0 /\ (g / 2 ^ 12) mod 64 = v1 /\ (g / 2 ^ 6) mod 64 = v2 /\
   (g / 2 ^ 0) mod 64 = v3 /\
   bytes_group ((g / 2 ^ 16) mod 256) ((g / 2 ^ 8) mod 256) ((g / 2 ^ 0) mod 256) = g)%Z.
Proof. intros. subst g. unfold sextets_group, bytes_group. split_and!; zdiv_lia. Qed.

Lemma b64_encode_into_app b out : b64_encode_into b out = (out ++ b64_encode b)%string.
Proof.
  unfold b64_encode, b64_encode_into. generalize (chunks3 b) as l. intros l. revert out.
  induction l as [|c l IH]; intros out; simpl; [by rewrite str_app_nil_r|].
  rewrite IH, (IH (b64_encode_chunk c)). by rewrite str_app_assoc.
Qed.

Lemma b64_encode_cons a b c r :
  b64_encode (a :: b :: c :: r) = (b64_encode_chunk [a; b; c] ++ b64_encode r)%string.
Proof. unfold b64_encode at 1, b64_encode_into. simpl. apply b64_encode_into_app. Qed.

Lemma chunks3_ind (P : list ascii -> Prop) :
  P [] -> (forall a, P [a]) -> (forall a b, P [a; b]) ->
  (forall a b c r, P r -> P (a :: b :: c :: r)) -> forall l, P l.
Proof.
  intros H0 H1 H2 H3 l.
  enough (P l /\ (forall a, P (a :: l)) /\ (forall a b, P (a :: b :: l))) by tauto.
  induction l as [|x l (IH1 & IH2 & IH3)]; split_and!; auto.
Qed.

Lemma byte_group_read b0 b1 b2 :
  (0 <= b0 < 256)%Z -> (0 <= b1 < 256)%Z -> (0 <= b2 < 256)%Z ->
  let g := bytes_group b0 b1 b2 in
  ((g / 2 ^ 16) mod 256 = b0 /\ (g / 2 ^ 8) mod 256 = b1 /\ (g / 2 ^ 0) mod 256 = b2)%Z.
Proof. intros. subst g. unfold bytes_group. split_and!; zdiv_lia. Qed.

Lemma write_slots_3 g x y z :
  write_slots g 0 [x; y; z] =
    [byte_of ((g / 2 ^ 16) mod 256); byte_of ((g / 2 ^ 8) mod 256); byte_of ((g / 2 ^ 0) mod 256)].
Proof.
  cbn [write_slots]. change (16 - 8 * 0)%Z with 16%Z. change (16 - 8 * (0 + 1))%Z with 8%Z.
  change (16 - 8 * (0 + 1 + 1))%Z with 0%Z. by rewrite !land_shiftr_255 by lia.
Qed.
Lemma write_slots_2 g x y :
  write_slots g 0 [x; y] = [byte_of ((g / 2 ^ 16) mod 256); byte_of ((g / 2 ^ 8) mod 256)].
Proof.
  cbn [write_slots]. change (16 - 8 * 0)%Z with 16%Z. change (16 - 8 * (0 + 1))%Z with 8%Z.
  by rewrite !land_shiftr_255 by lia.
Qed.
Lemma write_slots_1 g x : write_slots g 0 [x] = [byte_of ((g / 2 ^ 16) mod 256)].
Proof. cbn [write_slots]. change (16 - 8 * 0)%Z with 16%Z. by rewrite land_shiftr_255 by lia. Qed.

Lemma mod64_range z : (0 <= z mod 64 < 64)%Z.
Proof. apply Z.mod_pos_bound. lia. Qed.
#[local] Hint Resolve byte_val_range mod64_range : core.

Lemma encode_chunk_3 a b c :
  let g := bytes_group (byte_val a) (byte_val b) (byte_val c) in
  as_bytes (b64_encode_chunk [a; b; c]) =
    [b64_char ((g / 2 ^ 18) mod 64); b64_char ((g / 2 ^ 12) mod 64);
     b64_char ((g / 2 ^ 6) mod 64); b64_char ((g / 2 ^ 0) mod 64)].
Proof.
  intros g. unfold b64_encode_chunk. cbn [lookup list_lookup].
  rewrite lor_bytes by auto. by rewrite !land_shiftr_63 by lia.
Qed.
Lemma encode_chunk_2 a b :
  let g := bytes_group (byte_val a) (byte_val b) 0 in
  as_bytes (b64_encode_chunk [a; b]) =
    [b64_char ((g / 2 ^ 18) mod 64); b64_char ((g / 2 ^ 12) mod 64); b64_char ((g / 2 ^ 6) mod 64)].
Proof.
  intros g. unfold b64_encode_chunk. cbn [lookup list_lookup].
  rewrite lor_bytes by auto with lia. by rewrite !land_shiftr_63 by lia.
Qed.
Lemma encode_chunk_1 a :
  let g := bytes_group (byte_val a) 0 0 in
  as_bytes (b64_encode_chunk [a]) =
    [b64_char ((g / 2 ^ 18) mod 64); b64_char ((g / 2 ^ 12) mod 64)].
Proof.
  intros g. unfold b64_encode_chunk. cbn [lookup list_lookup].
  rewrite lor_bytes by lia. by rewrite !land_shiftr_63 by lia.
Qed.

(** A chunk of the input decodes to the group it was encoded from. *)
Lemma group_of_chunk_3 a b c :
  b64_group (as_bytes (b64_encode_chunk [a; b; c])) =
    Ok (bytes_group (byte_val a) (byte_val b) (byte_val c)).
Proof.
  rewrite encode_chunk_3. set (g := bytes_group _ _ _).
  destruct (sextets_of_bytes (byte_val a) (byte_val b) (byte_val c)) as [E _]; auto.
  unfold b64_group.
  destruct (group_loop_chars ((g / 2 ^ 18) mod 64) ((g / 2 ^ 12) mod 64) ((g / 2 ^ 6) mod 64)
    ((g / 2 ^ 0) mod 64)) as (_ & _ & ->); auto.
  cbn [res_bind length]. rewrite Z.land_0_r. simpl. by f_equal.
Qed.
Lemma group_of_chunk_2 a b :
  b64_group (as_bytes (b64_encode_chunk [a; b])) = Ok (bytes_group (byte_val a) (byte_val b) 0).
Proof.
  rewrite encode_chunk_2. set (g := bytes_group _ _ _).
  pose proof (byte_val_range a). pose proof (byte_val_range b). unfold b64_group.
  destruct (group_loop_chars ((g / 2 ^ 18) mod 64) ((g / 2 ^ 12) mod 64) ((g / 2 ^ 6) mod 64) 0)
    as (_ & -> & _); auto; [lia|].
  assert (sextets_group ((g / 2 ^ 18) mod 64) ((g / 2 ^ 12) mod 64) ((g / 2 ^ 6) mod 64) 0 = g) as ->
    by (subst g; unfold sextets_group, bytes_group; zdiv_lia).
  cbn [res_bind length]. change 255%Z with (Z.ones 8). rewrite land_mask by lia.
  rewrite (proj2 (Z.eqb_eq _ _)) by (subst g; unfold bytes_group; zdiv_lia). done.
Qed.
Lemma group_of_chunk_1 a :
  b64_group (as_bytes (b64_encode_chunk [a])) = Ok (bytes_group (byte_val a) 0 0).
Proof.
  rewrite encode_chunk_1. set (g := bytes_group _ _ _).
  pose proof (byte_val_range a). unfold b64_group.
  destruct (group_loop_chars ((g / 2 ^ 18) mod 64) ((g / 2 ^ 12) mod 64) 0 0)
    as (-> & _ & _); auto; [lia|lia|].
  assert (sextets_group ((g / 2 ^ 18) mod 64) ((g / 2 ^ 12) mod 64) 0 0 = g) as ->
    by (subst g; unfold sextets_group, bytes_group; zdiv_lia).
  cbn [res_bind length]. change 65535%Z with (Z.ones 16). rewrite land_mask by lia.
  rewrite (proj2 (Z.eqb_eq _ _)) by (subst g; unfold bytes_group; zdiv_lia). done.
Qed.

Lemma write_chunk_3 a b c x y z :
  write_slots (bytes_group (byte_val a) (byte_val b) (byte_val c)) 0 [x; y; z] = [a; b; c].
Proof.
  rewrite write_slots_3.
  destruct (byte_group_read (byte_val a) (byte_val b) (byte_val c)) as (-> & -> & ->); auto.
  by rewrite !byte_of_val.
Qed.
Lemma write_chunk_2 a b x y :
  write_slots (bytes_group (byte_val a) (byte_val b) 0) 0 [x; y] = [a; b].
Proof.
  rewrite write_slots_2.
  destruct (byte_group_read (byte_val a) (byte_val b) 0) as (-> & -> & _); auto; [lia|].
  by rewrite !byte_of_val.
Qed.
Lemma write_chunk_1 a x : write_slots (bytes_group (byte_val a) 0 0) 0 [x] = [a].
Proof.
  rewrite write_slots_1. destruct (byte_group_read (byte_val a) 0 0) as (-> & _ & _); auto; [lia..|].
  by rewrite byte_of_val.
Qed.

(** The bytes of an encoding, group by group. *)
Lemma chunks4_encode b :
  chunks4 (as_bytes (b64_encode b)) = map (fun c => as_bytes (b64_encode_chunk c)) (chunks3 b) /\
  Z.of_nat (String.length (b64_encode b)) = encoded_len (Z.of_nat (length b)) /\
  decoded_len (encoded_len (Z.of_nat (length b))) = Some (Z.of_nat (length b)).
Proof.
  induction b as [|a|a b|a b c r (IH1 & IH2 & IH3)] using chunks3_ind.
  - done.
  - split_and!; [|done..]. cbn -[b64_encode_chunk as_bytes]. unfold b64_encode, b64_encode_into.
    cbn -[b64_encode_chunk as_bytes]. rewrite encode_chunk_1. done.
  - split_and!; [|done..]. unfold b64_encode, b64_encode_into.
    cbn -[b64_encode_chunk as_bytes]. rewrite encode_chunk_2. done.
  - rewrite b64_encode_cons, as_bytes_app, str_length_app. cbn [chunks3 map].
    rewrite <- length_as_bytes, encode_chunk_3.
    split; [cbn [app chunks4]; by rewrite IH1|].
    cbn [length]. split.
    + rewrite Nat2Z.inj_add, IH2. unfold encoded_len.
      replace (Z.of_nat (S (S (S (length r))))) with (Z.of_nat (length r) + 1 * 3)%Z by lia.
      rewrite Z.div_add, Z.mod_add by lia. lia.
    + unfold encoded_len, decoded_len in *.
      replace (Z.of_nat (S (S (S (length r))))) with (Z.of_nat (length r) + 1 * 3)%Z by lia.
      rewrite Z.div_add, Z.mod_add by lia.
      set (e := match (Z.of_nat (length r) mod 3)%Z with 0%Z => 0%Z | 1%Z => 2%Z | _ => 3%Z end) in *.
      replace ((Z.of_nat (length r) / 3 + 1) * 4 + e)%Z
        with ((Z.of_nat (length r) / 3 * 4 + e) + 1 * 4)%Z by lia.
      rewrite Z.div_add, Z.mod_add by lia.
      repeat case_match; try discriminate; f_equal; simplify_eq; lia.
Qed.

Lemma write_groups_encode b out :
  length out = length b ->
  (exists gs, res_mapM b64_group (chunks4 (as_bytes (b64_encode b))) = Ok gs) /\
  write_groups (chunks4 (as_bytes (b64_encode b))) (chunks3 out) = (Ok tt, b).
Proof.
  rewrite (proj1 (chunks4_encode b)). revert out.
  induction b as [|a|a b|a b c r IH] using chunks3_ind.
  - intros [|]; [|done]. simpl. eauto.
  - intros [|x [|]]; [done| |done]. intros _. cbn [chunks3 map res_mapM write_groups].
    rewrite group_of_chunk_1, write_chunk_1. eauto.
  - intros [|x [|y [|]]]; [done|done| |done]. intros _. cbn [chunks3 map res_mapM write_groups].
    rewrite group_of_chunk_2, write_chunk_2. eauto.
  - intros [|x [|y [|z out]]]; try done. intros [= Hl].
    destruct (IH out Hl) as ((gs & Hgs) & Hw).
    cbn [chunks3 map res_mapM write_groups].
    rewrite group_of_chunk_3, write_chunk_3, Hgs, Hw. eauto.
Qed.

Lemma chunks4_ind (P : list ascii -> Prop) :
  P [] -> (forall a, P [a]) -> (forall a b, P [a; b]) -> (forall a b c, P [a; b; c]) ->
  (forall a b c d r, P r -> P (a :: b :: c :: d :: r)) -> forall l, P l.
Proof.
  intros H0 H1 H2 H3 H4 l.
  enough (P l /\ (forall a, P (a :: l)) /\ (forall a b, P (a :: b :: l)) /\
          (forall a b c, P (a :: b :: c :: l))) by tauto.
  induction l as [|x l (IH1 & IH2 & IH3 & IH4)]; split_and!; auto.
Qed.

(** The sextets behind a group that was accepted. *)
Lemma b64_group_inv chunk g :
  (2 <= length chunk <= 4)%nat -> b64_group chunk = Ok g ->
  exists v0 v1 v2 v3,
    (0 <= v0 < 64)%Z /\ (0 <= v1 < 64)%Z /\ (0 <= v2 < 64)%Z /\ (0 <= v3 < 64)%Z /\
    g = sextets_group v0 v1 v2 v3 /\
    chunk = take (length chunk) [b64_char v0; b64_char v1; b64_char v2; b64_char v3] /\
    (length chunk = 2%nat -> v2 = 0 /\ v3 = 0 /\ v1 mod 16 = 0)%Z /\
    (length chunk = 3%nat -> v3 = 0 /\ v2 mod 4 = 0)%Z.
Proof.
  intros Hl. unfold b64_group. intros H. run_ok.
  destruct chunk as [|c0 [|c1 chunk]]; [simpl in Hl; lia..|].
  assert (exists v0 v1, sextet c0 = Ok v0 /\ sextet c1 = Ok v1) as (v0 & v1 & E0 & E1).
  { cbn [group_loop] in Hres. run_ok. eauto. }
  apply sextet_inv in E0 as (<- & R0). apply sextet_inv in E1 as (<- & R1).
  destruct chunk as [|c2 chunk].
  { destruct (group_loop_chars v0 v1 0 0) as (E & _ & _); [lia..|]. rewrite E in Hres.
    injection Hres as <-. cbn [length] in H.
    change 65535%Z with (Z.ones 16) in H. rewrite land_mask in H by lia.
    destruct (Z.eqb_spec (sextets_group v0 v1 0 0 mod 2 ^ 16) 0) as [Hz|]; [|done].
    injection H as <-. exists v0, v1, 0%Z, 0%Z. unfold sextets_group in *. cbn [length take].
    split_and!; auto; try lia. intros _. split_and!; try lia. zdiv_lia. }
  assert (exists v2, sextet c2 = Ok v2) as (v2 & E2).
  { cbn [group_loop] in Hres. run_ok. eauto. }
  apply sextet_inv in E2 as (<- & R2).
  destruct chunk as [|c3 chunk].
  { destruct (group_loop_chars v0 v1 v2 0) as (_ & E & _); [lia..|]. rewrite E in Hres.
    injection Hres as <-. cbn [length] in H.
    change 255%Z with (Z.ones 8) in H. rewrite land_mask in H by lia.
    destruct (Z.eqb_spec (sextets_group v0 v1 v2 0 mod 2 ^ 8) 0) as [Hz|]; [|done].
    injection H as <-. exists v0, v1, v2, 0%Z. unfold sextets_group in *. cbn [length take].
    split_and!; auto; try lia. intros _. split_and!; try lia. zdiv_lia. }
  assert (exists v3, sextet c3 = Ok v3) as (v3 & E3).
  { cbn [group_loop] in Hres. run_ok. eauto. }
  apply sextet_inv in E3 as (<- & R3).
  destruct chunk; [|simpl in Hl; lia].
  destruct (group_loop_chars v0 v1 v2 v3) as (_ & _ & E); [lia..|]. rewrite E in Hres.
  injection Hres as <-. cbn [length] in H. rewrite Z.land_0_r in H. injection H as <-.
  exists v0, v1, v2, v3. cbn [length take]. split_and!; auto; lia.
Qed.

Lemma byte_val_of_mod z : byte_val (byte_of (z mod 256)) = (z mod 256)%Z.
Proof. apply byte_val_of, Z.mod_pos_bound. lia. Qed.

(** A decoded group encodes to the characters it was decoded from. *)
Lemma encode_decoded_chunk chunk g slots :
  (2 <= length chunk <= 4)%nat -> length slots = (length chunk - 1)%nat ->
  b64_group chunk = Ok g -> as_bytes (b64_encode_chunk (write_slots g 0 slots)) = chunk.
Proof.
  intros Hl Hs Hg. apply b64_group_inv in Hg as (v0&v1&v2&v3&R0&R1&R2&R3&->&Hc&H2&H3); [|done].
  destruct (bytes_of_sextets v0 v1 v2 v3) as (E0 & E1 & E2 & E3 & Eg); auto.
  destruct chunk as [|c0 [|c1 chunk]]; [simpl in Hl; lia..|].
  destruct chunk as [|c2 chunk]; [|destruct chunk as [|c3 [|]]; [| |simpl in Hl; lia]];
    cbn [length take] in *.
  - destruct slots as [|x [|]]; try done. destruct (H2 eq_refl) as (-> & -> & Hm).
    rewrite write_slots_1, encode_chunk_1, byte_val_of_mod, Hc.
    replace (bytes_group _ 0 0) with (sextets_group v0 v1 0 0); [by rewrite E0, E1|].
    unfold bytes_group, sextets_group. zdiv_lia.
  - destruct slots as [|x [|y [|]]]; try done. destruct (H3 eq_refl) as (-> & Hm).
    rewrite write_slots_2, encode_chunk_2, !byte_val_of_mod, Hc.
    replace (bytes_group _ _ 0) with (sextets_group v0 v1 v2 0); [by rewrite E0, E1, E2|].
    unfold bytes_group, sextets_group. zdiv_lia.
  - destruct slots as [|x [|y [|z [|]]]]; try done.
    rewrite write_slots_3, encode_chunk_3, !byte_val_of_mod, Eg, Hc. by rewrite E0, E1, E2, E3.
Qed.

Lemma write_slots_length g i s : length (write_slots g i s) = length s.
Proof. revert i. induction s as [|x s IH]; intros i; simpl; [done|]. by rewrite IH. Qed.

Lemma decoded_len_cons l n :
  decoded_len (Z.of_nat (S (S (S (S l))))) = Some (Z.of_nat n) ->
  exists m, n = S (S (S m)) /\ decoded_len (Z.of_nat l) = Some (Z.of_nat m).
Proof.
  unfold decoded_len. replace (Z.of_nat (S (S (S (S l))))) with (Z.of_nat l + 1 * 4)%Z by lia.
  rewrite Z.div_add, Z.mod_add by lia. intros H. exists (n - 3)%nat.
  assert (0 <= Z.of_nat l / 4)%Z by (apply Z.div_pos; lia).
  assert (3 <= n)%nat by (repeat case_match; try discriminate; simplify_eq H; lia).
  split; [lia|]. rewrite Nat2Z.inj_sub by lia.
  repeat case_match; try discriminate; simplify_eq H; intros; f_equal; lia.
Qed.

Lemma encode_write_groups l out b :
  decoded_len (Z.of_nat (length l)) = Some (Z.of_nat (length out)) ->
  write_groups (chunks4 l) (chunks3 out) = (Ok tt, b) ->
  as_bytes (b64_encode b) = l /\ length b = length out.
Proof.
  revert out b. induction l as [|a|a c|a c d|a c d e r IH] using chunks4_ind; intros out b Hl Hw.
  - assert (Some 0%Z = Some (Z.of_nat (length out))) as [= E] by exact Hl.
    destruct out; [|simpl in E; lia]. by injection Hw as <-.
  - cbv in Hl. discriminate.
  - assert (Some 1%Z = Some (Z.of_nat (length out))) as [= E] by exact Hl.
    destruct out as [|x [|]]; simpl in E; try lia. cbn [chunks4 chunks3 write_groups] in Hw.
    destruct (b64_group [a; c]) as [g|] eqn:Hg; [|done]. simpl in Hw. injection Hw as <-.
    split; [|done].
    apply (encode_decoded_chunk [a; c] g [x]); simpl; [lia|done|done].
  - assert (Some 2%Z = Some (Z.of_nat (length out))) as [= E] by exact Hl.
    destruct out as [|x [|y [|]]]; simpl in E; try lia. cbn [chunks4 chunks3 write_groups] in Hw.
    destruct (b64_group [a; c; d]) as [g|] eqn:Hg; [|done]. simpl in Hw. injection Hw as <-.
    split; [|done].
    apply (encode_decoded_chunk [a; c; d] g [x; y]); simpl; [lia|done|done].
  - apply decoded_len_cons in Hl as (m & E & Hl).
    destruct out as [|x [|y [|z out]]]; try done. injection E as <-.
    cbn [chunks4 chunks3 write_groups] in Hw.
    destruct (b64_group [a; c; d; e]) as [g|] eqn:Hg; [|done].
    destruct (write_groups (chunks4 r) (chunks3 out)) as [r' rest] eqn:Hr.
    apply pair_equal_spec in Hw as [-> <-]. destruct (IH out rest Hl Hr) as (E1 & E2).
    pose proof (encode_decoded_chunk [a; c; d; e] g [x; y; z]) as Hc. rewrite write_slots_3 in *.
    cbn [app]. rewrite b64_encode_cons, as_bytes_app. rewrite Hc, E1; [|simpl; lia|done|done].
    split; [done|]. simpl. by rewrite E2.
Qed.

(** The validating pass and the writing pass agree. *)
Lemma write_groups_validated cs slots gs :
  res_mapM b64_group cs = Ok gs -> exists b, write_groups cs slots = (Ok tt, b).
Proof.
  revert slots gs. induction cs as [|c cs IH]; intros slots gs H; simpl in *.
  - destruct slots; eauto.
  - destruct (b64_group c) as [g|]; [|done]. destruct (res_mapM b64_group cs) as [gs'|] eqn:Hm; [|done].
    destruct slots as [|s slots]; [eauto|]. destruct (IH slots gs' eq_refl) as (b & ->). eauto.
Qed.

Lemma b64_decode_into_encode b out :
  length out = length b -> b64_decode_into (b64_encode b) out = (Ok tt, b).
Proof.
  intros Hl. destruct (chunks4_encode b) as (_ & Hlen & Hdec).
  destruct (write_groups_encode b out Hl) as ((gs & Hgs) & Hw).
  unfold b64_decode_into. rewrite length_as_bytes, Hlen, Hdec, Hl.
  rewrite bool_decide_eq_true_2 by done. simpl. by rewrite Hgs.
Qed.

(** ** Properties *)

Theorem b64_decode_encode b : b64_decode (b64_encode b) = Ok b.
Proof.
  destruct (chunks4_encode b) as (_ & Hlen & Hdec).
  unfold b64_decode, len. rewrite Hlen, Hdec. simpl. rewrite Nat2Z.id.
  rewrite b64_decode_into_encode by apply repeat_length. done.
Qed.

Theorem b64_decode_into_spec input out :
  match b64_decode_into input out with
  | (Ok _, out') => b64_encode out' = input /\ length out' = length out
  | (Err _, out') => out' = out
  end.
Proof.
  unfold b64_decode_into.
  destruct (bool_decide_reflect
    (decoded_len (Z.of_nat (length (as_bytes input))) = Some (Z.of_nat (length out)))) as [Hl|];
    [|done]. simpl.
  destruct (res_mapM b64_group (chunks4 (as_bytes input))) as [gs|e] eqn:Hg; [|done].
  destruct (write_groups_validated _ (chunks3 out) _ Hg) as (b & Hw). rewrite Hw.
  apply encode_write_groups in Hw as (He & Hlen); [|done]. split; [|done].
  by rewrite <- (str_of_as (b64_encode b)), He, str_of_as.
Qed.

Theorem b64_encode_length b : len (b64_encode b) = encoded_len (Z.of_nat (length b)).
Proof. apply chunks4_encode. Qed.

Example b64_rfc_vector :
  b64_encode (as_bytes "foob") = "Zm9vYg"%string /\
  b64_decode "Zh" = Err TrailingBits /\ b64_decode "Zm9v!!!" = Err B64InvalidCharacter.
Proof. vm_compute. done. Qed.
