(* ===== verification/Path.v ===== *)
(** * Secret paths ([ciphr-core/src/path.rs])

    [SecretPath] is the one type that names a secret, and [SecretPath_parse] the
    only way to make one.  Normalization (Unicode NFC) and the letter and digit
    tables beyond ASCII come from outside the repository: they are the class
    [Unicode], and [UnicodeLaws] states the two facts about NFC the code relies
    on. *)

From Stdlib Require Import ZArith NArith Lia Ascii String.
From stdpp Require Import base tactics list strings.
From S2P Require Import Prelude Text.

(** The answer of a quick normalization check. *)
Inductive IsNormalized : Type := QuickYes | QuickNo | QuickMaybe.

Class Unicode : Type := {
  (** [char::is_alphanumeric] for code points beyond ASCII *)
  uni_alphanumeric : N -> bool;
  (** the NFC form *)
  nfc : string -> string;
  is_nfc_quick : string -> IsNormalized;
}.

Class UnicodeLaws (U : Unicode) : Prop := {
  nfc_idempotent : forall s, nfc (nfc s) = nfc s;
  nfc_quick_yes : forall s, is_nfc_quick s = QuickYes -> nfc s = s;
}.

(** The instance for text that is ASCII only, used by the concrete runs. *)
Definition ascii_unicode : Unicode := {|
  uni_alphanumeric := fun _ => false;
  nfc := fun s => s;
  is_nfc_quick := fun _ => QuickYes;
|}.

Definition MAX_PATH_LEN : Z := 1024.
Definition MAX_SEGMENT_LEN : Z := 128.
Definition RESERVED_PREFIX : string := "sys".

(** [char::is_alphanumeric] *)
Definition is_alphanumeric `{Unicode} (ch : N) : bool :=
  if (ch <? 128)%N then is_ascii_alphanumeric ch else uni_alphanumeric ch.

Record SecretPath : Type := mkSecretPath { path_str : string }.

Inductive PathError : Type :=
| PathEmpty
| PathTooLong (limit found : Z)
| PathSegmentTooLong (limit found : Z)
| PathEmptySegment
| PathRelativeSegment (segment : string)
| PathControlCharacter
| PathWhitespace
| PathDisallowedCharacter (character : N)
| PathWildcard.

(** What is wrong with a segment, in terms paths and patterns share. *)
Inductive SegmentProblem : Type :=
| SegEmpty
| SegTooLong (found : Z)
| SegRelative
| SegControl
| SegWhitespace
| SegDisallowed (character : N).

Section Path.
Context `{U : Unicode}.

Definition normalize (input : string) : string :=
  match is_nfc_quick input with
  | QuickYes => input
  | _ => nfc input
  end.

Definition is_allowed (ch : N) : bool :=
  is_alphanumeric ch || (ch =? 45)%N || (ch =? 95)%N || (ch =? 46)%N || (ch =? 42)%N.

Fixpoint inspect_chars (l : list N) : result SegmentProblem unit :=
  match l with
  | [] => Ok tt
  | ch :: rest =>
      if is_control ch then Err SegControl
      else if is_whitespace ch then Err SegWhitespace
      else if negb (is_allowed ch) then Err (SegDisallowed ch)
      else inspect_chars rest
  end.

Definition inspect_segment (segment : string) : result SegmentProblem unit :=
  if is_empty segment then Err SegEmpty
  else if (MAX_SEGMENT_LEN <? len segment)%Z then Err (SegTooLong (len segment))
  else if String.eqb segment "." || String.eqb segment ".." then Err SegRelative
  else inspect_chars (chars segment).

Definition path_error_of_problem (segment : string) (p : SegmentProblem) : PathError :=
  match p with
  | SegEmpty => PathEmptySegment
  | SegTooLong found => PathSegmentTooLong MAX_SEGMENT_LEN found
  | SegRelative => PathRelativeSegment segment
  | SegControl => PathControlCharacter
  | SegWhitespace => PathWhitespace
  | SegDisallowed character => PathDisallowedCharacter character
  end.

Definition validate_segment (segment : string) : result PathError unit :=
  let? _ := map_err (path_error_of_problem segment) (inspect_segment segment) in
  if contains "*" segment then Err PathWildcard else Ok tt.

Fixpoint validate_segments (l : list string) : result PathError unit :=
  match l with
  | [] => Ok tt
  | s :: rest => let? _ := validate_segment s in validate_segments rest
  end.

Definition SecretPath_parse (input : string) : result PathError SecretPath :=
  let normalized := normalize input in
  if is_empty normalized then Err PathEmpty
  else if (MAX_PATH_LEN <? len normalized)%Z
  then Err (PathTooLong MAX_PATH_LEN (len normalized))
  else
    let? _ := validate_segments (split_on slash normalized) in
    Ok (mkSecretPath normalized).

Definition segments (p : SecretPath) : list string := split_on slash (path_str p).

Definition segment_count (p : SecretPath) : nat := length (segments p).

(** The byte at an index, as [as_bytes()[i]]; an index past the end would
    panic, and the length test before it makes that unreachable. *)
Definition byte_at (s : string) (i : nat) : option ascii := String.get i s.

Definition path_starts_with (self prefix : SecretPath) : bool :=
  if String.eqb (path_str self) (path_str prefix) then true
  else
    (len (path_str prefix) <? len (path_str self))%Z &&
    (match byte_at (path_str self) (String.length (path_str prefix)) with
     | Some b => Ascii.eqb b slash
     | None => false
     end) &&
    starts_with (path_str self) (path_str prefix).

Definition is_reserved (p : SecretPath) : bool :=
  match segments p with
  | first :: _ => String.eqb first RESERVED_PREFIX
  | [] => false
  end.

(** The invariant of the type: what [SecretPath_parse] establishes. *)
Definition segment_valid (s : string) : Prop :=
  inspect_segment s = Ok tt /\ contains "*" s = false.

Definition path_wf (p : SecretPath) : Prop :=
  path_str p <> EmptyString /\ (len (path_str p) <= MAX_PATH_LEN)%Z /\
  normalize (path_str p) = path_str p /\ Forall segment_valid (segments p).
End Path.

(** [format!("{:04X}")] for a code point. *)
Fixpoint hex_upper_digits (fuel : nat) (n : N) (acc : string) : string :=
  match fuel with
  | O => acc
  | S f =>
      let d := N.land n 15 in
      let c := ascii_of_N (if (d <? 10)%N then 48 + d else 55 + d) in
      let acc' := String c acc in
      let n' := N.shiftr n 4 in
      if (n' =? 0)%N then acc' else hex_upper_digits f n' acc'
  end.
Definition code_point_hex (n : N) : string :=
  let t := hex_upper_digits 8 n EmptyString in (zeros (4 - String.length t) ++ t)%string.

Definition path_error_display (e : PathError) : string :=
  match e with
  | PathEmpty => "path is empty"
  | PathTooLong limit found =>
      ("path is " ++ dec found ++ " bytes, limit is " ++ dec limit)%string
  | PathSegmentTooLong limit found =>
      ("path segment is " ++ dec found ++ " bytes, limit is " ++ dec limit)%string
  | PathEmptySegment =>
      "path contains an empty segment: no leading, trailing or doubled '/'"
  | PathRelativeSegment segment =>
      ("path contains the relative segment '" ++ segment ++ "'")%string
  | PathControlCharacter => "path contains a control character"
  | PathWhitespace => "path contains whitespace"
  | PathDisallowedCharacter character =>
      ("path contains U+" ++ code_point_hex character ++
       "; segments allow letters, digits, '-', '_' and '.'")%string
  | PathWildcard =>
      "path contains '*', which is reserved for policy patterns"
  end.

(** ** Lemmas *)

Section PathLemmas.
Context `{U : Unicode}.

Lemma validate_segment_Ok s : validate_segment s = Ok tt <-> segment_valid s.
Proof.
  unfold validate_segment, segment_valid.
  destruct (inspect_segment s) as [[]|e]; simpl; [|split; [done|by intros []]].
  destruct (contains "*" s); split; [done|by intros []|done|done].
Qed.

Lemma validate_segments_Ok l : validate_segments l = Ok tt <-> Forall segment_valid l.
Proof.
  induction l as [|s l IH]; simpl; [by split; [constructor|]|].
  rewrite Forall_cons, <- validate_segment_Ok, <- IH.
  destruct (validate_segment s) as [[]|e]; simpl; [tauto|]. split; [done|by intros []].
Qed.

Lemma SecretPath_parse_Ok input p :
  SecretPath_parse input = Ok p <->
  path_str p = normalize input /\ path_str p <> EmptyString /\
  (len (path_str p) <= MAX_PATH_LEN)%Z /\ Forall segment_valid (segments p).
Proof.
  unfold SecretPath_parse, segments.
  destruct (is_empty (normalize input)) eqn:Hemp.
  { apply is_empty_spec in Hemp. split; [done|]. intros (E & Hne & _). congruence. }
  assert (normalize input <> EmptyString) as Hne by by intros E%is_empty_spec; congruence.
  destruct (Z.ltb_spec MAX_PATH_LEN (len (normalize input))) as [Hlt|Hle].
  { split; [done|]. intros (E & _ & Hl & _). rewrite E in Hl. lia. }
  destruct (validate_segments (split_on slash (normalize input))) as [[]|e] eqn:Hv; simpl.
  - apply validate_segments_Ok in Hv. split.
    + intros [= <-]. done.
    + intros (E & _). destruct p; simpl in *; congruence.
  - split; [done|]. intros (E & _ & _ & HF). rewrite E in HF.
    apply validate_segments_Ok in HF. congruence.
Qed.

Lemma normalize_nfc (L : UnicodeLaws U) s : normalize s = nfc s.
Proof. unfold normalize. destruct (is_nfc_quick s) eqn:E; [by rewrite nfc_quick_yes|done..]. Qed.

Lemma normalize_idempotent (L : UnicodeLaws U) s : normalize (normalize s) = normalize s.
Proof. rewrite !normalize_nfc by done. apply nfc_idempotent. Qed.

Lemma join_segments p : join (str1 slash) (segments p) = path_str p.
Proof. apply join_split. Qed.

Lemma segments_not_nil p : segments p <> [].
Proof. apply split_on_not_nil. Qed.

Lemma segments_inj p q : segments p = segments q -> p = q.
Proof.
  intros H. destruct p as [s], q as [t]. f_equal.
  rewrite <- (join_split slash s), <- (join_split slash t). unfold segments in H. simpl in H.
  by rewrite H.
Qed.

Lemma get_app_char a c b : String.get (String.length a) (a ++ String c b) = Some c.
Proof. induction a; simpl; auto. Qed.

(** [starts_with] on strings, once equality is excluded: the text continues
    with a separator after the prefix. *)
Lemma path_starts_with_text p q :
  path_starts_with p q = true <->
  path_str p = path_str q \/ exists r, path_str p = (path_str q ++ String slash r)%string.
Proof.
  unfold path_starts_with. destruct (String.eqb_spec (path_str p) (path_str q)) as [|Hne]; [tauto|].
  split.
  - intros [[Hl Hb]%andb_true_iff (r & E)%starts_with_spec]%andb_true_iff. right.
    unfold byte_at in Hb. destruct r as [|c r].
    { rewrite str_app_nil_r in E. congruence. }
    rewrite E, get_app_char in Hb. apply Ascii.eqb_eq in Hb as ->. eauto.
  - intros [?|(r & E)]; [done|]. unfold byte_at. rewrite E, get_app_char, Ascii.eqb_refl.
    rewrite andb_true_r. apply andb_true_iff. split.
    + apply Z.ltb_lt. rewrite len_app. unfold len. cbn [String.length]. lia.
    + apply starts_with_spec. eauto.
Qed.
End PathLemmas.

#[global] Instance SecretPath_eq_dec : EqDecision SecretPath.
Proof. solve_decision. Defined.

#[global] Instance ascii_unicode_laws : UnicodeLaws ascii_unicode.
Proof. by split. Qed.

(** ** Properties *)

(** a parsed path satisfies every rule of the format, is the normal form of its
    input, and parses to itself. *)
Theorem SecretPath_parse_sound (U : Unicode) (L : UnicodeLaws U) input p :
  SecretPath_parse input = Ok p ->
  path_wf p /\ path_str p = normalize input /\ SecretPath_parse (path_str p) = Ok p.
Proof.
  intros (E & Hne & Hl & Hs)%SecretPath_parse_Ok.
  assert (normalize (path_str p) = path_str p) as Hn
    by (rewrite E; by apply normalize_idempotent).
  split_and!; [done..|]. apply SecretPath_parse_Ok. by rewrite Hn.
Qed.

Lemma SecretPath_parse_sound_witness :
  SecretPath_parse (U := ascii_unicode) "infra/a/DB" = Ok (mkSecretPath "infra/a/DB") /\
  path_wf (U := ascii_unicode) (mkSecretPath "infra/a/DB").
Proof.
  split; [reflexivity|].
  apply (SecretPath_parse_sound ascii_unicode ascii_unicode_laws "infra/a/DB"). reflexivity.
Defined.

Theorem path_starts_with_segments (U : Unicode) p q :
  path_starts_with p q = true <-> segments q `prefix_of` segments p.
Proof.
  rewrite path_starts_with_text. unfold segments. split.
  - intros [->|(r & ->)]; [done|]. rewrite split_on_app_sep. by eexists.
  - intros (k & E).
    destruct k as [|x k].
    + rewrite app_nil_r in E. left.
      by rewrite <- (join_split slash (path_str p)), E, join_split.
    + right. exists (join (str1 slash) (x :: k)).
      rewrite <- (join_split slash (path_str p)), E, join_app, join_split; [done| |done].
      apply split_on_not_nil.
Qed.
