(* ===== verification/Pattern.v ===== *)
(** * Path patterns ([ciphr-core/src/pattern.rs])

    The glob language of the policy file: ["*"] is one whole segment, a trailing
    ["**"] is one or more.  Patterns are normalized by the function paths are
    normalized by. *)

From Stdlib Require Import ZArith NArith Lia Ascii String.
From stdpp Require Import base tactics list strings.
From S2P Require Import Prelude Text Path.

Inductive Segment : Type :=
| Literal (s : string)
| One
| Rest.

Record PathPattern : Type := mkPathPattern {
  pat_segments : list Segment;
  pat_text : string;
}.

Inductive PatternError : Type :=
| PatEmpty
| PatTooLong (limit found : Z)
| PatSegmentTooLong (limit found : Z)
| PatEmptySegment
| PatRelativeSegment (segment : string)
| PatControlCharacter
| PatWhitespace
| PatDisallowedCharacter (character : N)
| PartialWildcard (segment : string)
| TrailingMultiWildcardOnly.

#[global] Instance Segment_eq_dec : EqDecision Segment.
Proof. solve_decision. Defined.
#[global] Instance PathPattern_eq_dec : EqDecision PathPattern.
Proof. solve_decision. Defined.

Section Pattern.
Context `{U : Unicode}.

Definition pattern_error_of_problem (literal : string) (p : SegmentProblem) : PatternError :=
  match p with
  | SegEmpty => PatEmptySegment
  | SegTooLong found => PatSegmentTooLong MAX_SEGMENT_LEN found
  | SegRelative => PatRelativeSegment literal
  | SegControl => PatControlCharacter
  | SegWhitespace => PatWhitespace
  | SegDisallowed character => PatDisallowedCharacter character
  end.

(** The loop of [parse] over the enumerated raw segments. *)
Fixpoint parse_segments (index last : nat) (raw : list string)
    : result PatternError (list Segment) :=
  match raw with
  | [] => Ok []
  | segment :: rest =>
      let? here :=
        if String.eqb segment "*" then Ok One
        else if String.eqb segment "**" then
          if negb (index =? last)%nat then Err TrailingMultiWildcardOnly else Ok Rest
        else
          let? _ := map_err (pattern_error_of_problem segment) (inspect_segment segment) in
          if contains "*" segment then Err (PartialWildcard segment) else Ok (Literal segment)
      in
      let? others := parse_segments (S index) last rest in
      Ok (here :: others)
  end.

Definition PathPattern_parse (input : string) : result PatternError PathPattern :=
  let text := normalize input in
  if is_empty text then Err PatEmpty
  else if (MAX_PATH_LEN <? len text)%Z then Err (PatTooLong MAX_PATH_LEN (len text))
  else
    let raw := split_on slash text in
    let? segs := parse_segments 0 (length raw - 1) raw in
    Ok (mkPathPattern segs text).

Definition pattern_exact (p : SecretPath) : PathPattern :=
  mkPathPattern (map Literal (segments p)) (path_str p).

Definition names_reserved_prefix (p : PathPattern) : bool :=
  match pat_segments p with
  | Literal first :: _ => String.eqb first RESERVED_PREFIX
  | _ => false
  end.

(** The loop of [matches]: both iterators advance together. *)
Fixpoint matches_loop (pattern : list Segment) (actual : list string) : bool :=
  match pattern, actual with
  | Rest :: _, _ :: _ => true
  | [], [] => true
  | _ :: _, [] => false
  | [], _ :: _ => false
  | One :: pattern', _ :: actual' => matches_loop pattern' actual'
  | Literal expected :: pattern', found :: actual' =>
      if negb (String.eqb expected found) then false else matches_loop pattern' actual'
  end.

Definition matches (p : PathPattern) (path : SecretPath) : bool :=
  matches_loop (pat_segments p) (segments path).

Definition is_literal (s : Segment) : bool :=
  match s with Literal _ => true | _ => false end.

Definition specificity (p : PathPattern) : nat :=
  length (List.filter is_literal (pat_segments p)).

Definition has_wildcard (p : PathPattern) : bool :=
  existsb (fun s => negb (is_literal s)) (pat_segments p).

Definition pattern_error_display (e : PatternError) : string :=
  match e with
  | PatEmpty => "pattern is empty"
  | PatTooLong limit found =>
      ("pattern is " ++ dec found ++ " bytes, limit is " ++ dec limit)%string
  | PatSegmentTooLong limit found =>
      ("pattern segment is " ++ dec found ++ " bytes, limit is " ++ dec limit)%string
  | PatEmptySegment =>
      "pattern contains an empty segment: no leading, trailing or doubled '/'"
  | PatRelativeSegment segment =>
      ("pattern contains the relative segment '" ++ segment ++ "'")%string
  | PatControlCharacter => "pattern contains a control character"
  | PatWhitespace => "pattern contains whitespace"
  | PatDisallowedCharacter character =>
      ("pattern contains U+" ++ code_point_hex character ++
       "; segments allow letters, digits, '-', '_' and '.'")%string
  | PartialWildcard segment =>
      ("segment '" ++ segment ++ "' mixes a wildcard with literal characters; " ++
       "'*' and '**' must be whole segments")%string
  | TrailingMultiWildcardOnly => "'**' is only allowed as the last segment of a pattern"
  end.

(** ** The language a pattern denotes *)

Inductive denotes : list Segment -> list string -> Prop :=
| denotes_nil : denotes [] []
| denotes_literal s p a : denotes p a -> denotes (Literal s :: p) (s :: a)
| denotes_one s p a : denotes p a -> denotes (One :: p) (s :: a)
| denotes_rest a : a <> [] -> denotes [Rest] a.

(** [Rest] only at the end: what [parse] establishes. *)
Fixpoint rest_is_last (l : list Segment) : bool :=
  match l with
  | [] => true
  | Rest :: (_ :: _) => false
  | _ :: l' => rest_is_last l'
  end.

Definition segment_of_text (s : string) : Segment :=
  if String.eqb s "*" then One else if String.eqb s "**" then Rest else Literal s.

Definition pattern_wf (p : PathPattern) : Prop :=
  pat_text p <> EmptyString /\ (len (pat_text p) <= MAX_PATH_LEN)%Z /\
  normalize (pat_text p) = pat_text p /\
  pat_segments p = map segment_of_text (split_on slash (pat_text p)) /\
  rest_is_last (pat_segments p) = true /\
  Forall (fun s => match s with Literal t => segment_valid t | _ => True end) (pat_segments p).

(** ** Lemmas *)

Lemma matches_loop_denotes p a :
  rest_is_last p = true -> matches_loop p a = true <-> denotes p a.
Proof.
  revert a. induction p as [|s p IH]; intros a Hr.
  - destruct a; simpl; split; try done; [constructor|inversion 1].
  - assert (rest_is_last p = true) as Hp by (destruct s; [done..|by destruct p]).
    destruct a as [|x a].
    + simpl. split; [by destruct s|]. inversion 1. done.
    + specialize (IH a Hp). destruct s as [e| |]; simpl.
      * destruct (String.eqb_spec e x) as [->|Hne]; simpl.
        -- rewrite IH. split; [by constructor|by inversion 1].
        -- split; [done|]. by inversion 1.
      * rewrite IH. split; [by constructor|by inversion 1].
      * split; [|done]. intros _. destruct p; [|done]. by constructor.
Qed.

Lemma parse_segments_Ok index last raw segs :
  index + length raw = S last -> raw <> [] ->
  parse_segments index last raw = Ok segs <->
  segs = map segment_of_text raw /\ rest_is_last segs = true /\
  Forall (fun s => match s with Literal t => segment_valid t | _ => True end) segs.
Proof.
  revert index segs. induction raw as [|s raw IH]; intros index segs Hl Hne; [done|].
  simpl in Hl. cbn [parse_segments map]. unfold segment_of_text at 1.
  assert (forall here ok, (ok : Prop) <->
    (match here with Literal t => segment_valid t | _ => True end /\
     (here = Rest -> raw = [])) ->
    (ok /\ (let? others := parse_segments (S index) last raw in Ok (here :: others)) = Ok segs) <->
    segs = here :: map segment_of_text raw /\ rest_is_last segs = true /\
    Forall (fun s => match s with Literal t => segment_valid t | _ => True end) segs) as Hstep.
  { intros here ok Hok. destruct (decide (raw = [])) as [->|Hraw].
    - simpl. rewrite Hok. split.
      + intros ((Hh & _) & [= <-]). split_and!; [done|by destruct here|by repeat constructor].
      + intros (-> & _ & HF). inversion HF; subst. done.
    - assert (S index + length raw = S last)%nat as Hl' by lia.
      specialize (IH (S index)). split.
      + intros (Hk & H). run_ok. injection H as <-. apply IH in Hres as (-> & Hr & HF); [|done..].
        apply Hok in Hk as (Hh & Hn). split_and!; [done| |by constructor].
        destruct here; simpl; [done..|]. by destruct (Hraw (Hn eq_refl)).
      + intros (-> & Hr & HF). inversion HF as [|? ? Hh HF']; subst.
        destruct raw as [|x raw]; [done|].
        assert (here <> Rest) as HnR by (intros ->; done).
        split; [apply Hok; split; [done|intros ->; done]|].
        rewrite (proj2 (IH (map segment_of_text (x :: raw)) Hl' Hraw)); [done|].
        split_and!; [done| |done]. by destruct here. }
  destruct (String.eqb_spec s "*") as [->|Hs1].
  { simpl. rewrite <- (Hstep One True); [tauto|]. split; [intros _|done]. by split. }
  destruct (String.eqb_spec s "**") as [->|Hs2].
  { rewrite <- (Hstep Rest (index = last)).
    2: { destruct raw; simpl in Hl; split; [intros ->|..]; try done.
         - intros _. lia.
         - intros ->. lia.
         - intros (_ & Hn). by specialize (Hn eq_refl). }
    destruct (Nat.eqb_spec index last); simpl; [tauto|]. split; [done|by intros []]. }
  rewrite <- (Hstep (Literal s) (segment_valid s)).
  2: { split; [intros ?|by intros []]. by split. }
  unfold segment_valid. destruct (inspect_segment s) as [[]|e]; simpl; [|split; [done|by intros [[]]]].
  destruct (contains "*" s); simpl; [split; [done|by intros [[]]]|tauto].
Qed.

Lemma PathPattern_parse_Ok input p :
  PathPattern_parse input = Ok p <->
  pat_text p = normalize input /\ pat_text p <> EmptyString /\
  (len (pat_text p) <= MAX_PATH_LEN)%Z /\
  pat_segments p = map segment_of_text (split_on slash (pat_text p)) /\
  rest_is_last (pat_segments p) = true /\
  Forall (fun s => match s with Literal t => segment_valid t | _ => True end) (pat_segments p).
Proof.
  unfold PathPattern_parse.
  destruct (is_empty (normalize input)) eqn:Hemp.
  { apply is_empty_spec in Hemp. split; [done|]. intros (E & Hne & _). congruence. }
  assert (normalize input <> EmptyString) as Hne by by intros E%is_empty_spec; congruence.
  destruct (Z.ltb_spec MAX_PATH_LEN (len (normalize input))) as [Hlt|Hle].
  { split; [done|]. intros (E & _ & Hl & _). rewrite E in Hl. lia. }
  set (raw := split_on slash (normalize input)).
  assert (raw <> []) as Hraw by apply split_on_not_nil.
  assert (0 + length raw = S (length raw - 1))%nat as Hl by (destruct raw; simpl; [done|lia]).
  split.
  - intros H. run_ok. injection H as <-.
    apply parse_segments_Ok in Hres as (-> & Hr & HF); [|done..]. done.
  - intros (E & _ & _ & Es & Hr & HF). destruct p as [segs text]; simpl in *. subst text.
    rewrite (proj2 (parse_segments_Ok 0 _ raw segs Hl Hraw)); [done|]. done.
Qed.

Lemma rest_is_last_literals l : rest_is_last (map Literal l) = true.
Proof. induction l; simpl; auto. Qed.

Lemma matches_loop_literals l a : matches_loop (map Literal l) a = true <-> l = a.
Proof.
  revert a. induction l as [|x l IH]; intros [|y a]; simpl; try done.
  destruct (String.eqb_spec x y) as [->|]; simpl; [|split; congruence].
  rewrite IH. split; congruence.
Qed.

Lemma filter_literals l : List.filter is_literal (map Literal l) = map Literal l.
Proof. induction l as [|x l IH]; simpl; [done|]. by rewrite IH. Qed.

Lemma segment_valid_literal s : segment_valid s -> segment_of_text s = Literal s.
Proof.
  intros [_ Hs]. unfold segment_of_text.
  destruct (String.eqb_spec s "*") as [->|]; [done|].
  by destruct (String.eqb_spec s "**") as [->|].
Qed.
End Pattern.

(** ** Properties *)

(** a parsed pattern is well formed, is its own text, and matches exactly the paths
    its segments denote. *)
Theorem pattern_parse_matches (U : Unicode) (L : UnicodeLaws U) input p :
  PathPattern_parse input = Ok p ->
  pattern_wf p /\ PathPattern_parse (pat_text p) = Ok p /\
  (specificity p <= length (pat_segments p))%nat /\
  forall path, matches p path = true <-> denotes (pat_segments p) (segments path).
Proof.
  intros H. assert (H' := H). apply PathPattern_parse_Ok in H' as (E & Hne & Hl & Es & Hr & HF).
  assert (normalize (pat_text p) = pat_text p) as Hn
    by (rewrite E; by apply normalize_idempotent).
  split_and!.
  - done.
  - apply PathPattern_parse_Ok. by rewrite Hn.
  - unfold specificity. apply List.filter_length_le.
  - intros path. by apply matches_loop_denotes.
Qed.

Lemma pattern_parse_matches_witness :
  PathPattern_parse (U := ascii_unicode) "infra/*/DB" =
    Ok (mkPathPattern [Literal "infra"; One; Literal "DB"] "infra/*/DB") /\
  pattern_wf (U := ascii_unicode) (mkPathPattern [Literal "infra"; One; Literal "DB"] "infra/*/DB").
Proof.
  split; [reflexivity|].
  apply (pattern_parse_matches ascii_unicode ascii_unicode_laws "infra/*/DB"). reflexivity.
Defined.

Theorem pattern_exact_matches (U : Unicode) (q : SecretPath) :
  path_wf q ->
  PathPattern_parse (path_str q) = Ok (pattern_exact q) /\
  specificity (pattern_exact q) = segment_count q /\
  has_wildcard (pattern_exact q) = false /\
  forall r, matches (pattern_exact q) r = true <-> r = q.
Proof.
  intros (Hne & Hl & Hn & HF). split_and!.
  - apply PathPattern_parse_Ok. simpl. rewrite Hn. split_and!; [done..| |apply rest_is_last_literals|].
    + unfold segments in *. induction HF as [|s l Hs HF IH]; simpl; [done|].
      by rewrite segment_valid_literal, IH.
    + rewrite Forall_map. by eapply Forall_impl.
  - unfold specificity, segment_count. simpl. by rewrite filter_literals, length_map.
  - unfold has_wildcard. simpl. clear HF. by induction (segments q).
  - intros r. unfold matches. simpl. rewrite matches_loop_literals. split; [|by intros ->].
    intros E. symmetry. by apply segments_inj.
Qed.

Lemma pattern_exact_matches_witness :
  path_wf (U := ascii_unicode) (mkSecretPath "infra/a/DB") /\
  specificity (pattern_exact (mkSecretPath "infra/a/DB")) = 3%nat.
Proof.
  assert (path_wf (U := ascii_unicode) (mkSecretPath "infra/a/DB")) as H.
  { split; [discriminate|]. split; [vm_compute; discriminate|]. split; [reflexivity|].
    repeat constructor. }
  split; [exact H|]. apply (pattern_exact_matches ascii_unicode _ H).
Defined.

(** A wildcard covers one segment; a trailing double wildcard one or more,
    never none. *)
Example pattern_rest_needs_one :
  let m p s := match PathPattern_parse (U := ascii_unicode) p with
               | Ok p => matches p (mkSecretPath s) | Err _ => false end in
  m "infra/**" "infra/a" = true /\ m "infra/**" "infra" = false /\
  m "infra/a/**" "infra/ab/c" = false /\ m "infra/*" "infra/a/b" = false.
Proof. vm_compute. done. Qed.
