(* ===== verification/Vocabulary.v ===== *)
(** * The rest of the domain vocabulary ([ciphr-core])

    Capabilities ([capability.rs]), rotation classes ([rotation.rs]), version
    numbers ([version.rs]), environment variable names ([env_name.rs]),
    process-control names ([process_env.rs]) and file modes ([file_mode.rs]). *)

From Stdlib Require Import ZArith NArith Lia Ascii String.
From stdpp Require Import base tactics list strings gmap.
From S2P Require Import Prelude Text Path.

(** ** Capabilities *)

Inductive Capability : Type :=
| CapRead | CapWrite | CapDelete | CapList | CapUndelete | CapInspect | CapRevoke.

#[global] Instance Capability_eq_dec : EqDecision Capability.
Proof. solve_decision. Defined.

Definition Capability_ALL : list Capability :=
  [CapRead; CapWrite; CapDelete; CapList; CapUndelete; CapInspect; CapRevoke].

Definition capability_str (c : Capability) : string :=
  match c with
  | CapRead => "read"
  | CapWrite => "write"
  | CapDelete => "delete"
  | CapList => "list"
  | CapUndelete => "undelete"
  | CapInspect => "inspect"
  | CapRevoke => "revoke"
  end.

Definition is_control_plane (c : Capability) : bool :=
  match c with CapInspect | CapRevoke => true | _ => false end.

Inductive CapabilityError : Type := UnknownCapability (found : string).

Definition Capability_parse (input : string) : result CapabilityError Capability :=
  ok_or (UnknownCapability input)
    (List.find (fun c => String.eqb (capability_str c) input) Capability_ALL).

Definition capability_error_display (e : CapabilityError) : string :=
  match e with
  | UnknownCapability found =>
      ("unknown capability '" ++ found ++ "', expected one of: " ++
       join ", " (map capability_str Capability_ALL))%string
  end.

(** The capabilities are ordered by declaration. *)
Definition capability_index (c : Capability) : positive :=
  match c with
  | CapRead => 1 | CapWrite => 2 | CapDelete => 3 | CapList => 4
  | CapUndelete => 5 | CapInspect => 6 | CapRevoke => 7
  end.

Definition capability_of_index (p : positive) : option Capability :=
  match p with
  | 1 => Some CapRead | 2 => Some CapWrite | 3 => Some CapDelete | 4 => Some CapList
  | 5 => Some CapUndelete | 6 => Some CapInspect | 7 => Some CapRevoke | _ => None
  end%positive.

#[global] Instance Capability_countable : Countable Capability :=
  inj_countable capability_index capability_of_index (fun c => ltac:(by destruct c)).

(** ** Rotation classes *)

Inductive Rotation : Type :=
| Unclassified | Rotatable | SeedOnly | BreaksData | VolumeBound | InvalidatesSessions.

#[global] Instance Rotation_eq_dec : EqDecision Rotation.
Proof. solve_decision. Defined.

Definition Rotation_ALL : list Rotation :=
  [Unclassified; Rotatable; SeedOnly; BreaksData; VolumeBound; InvalidatesSessions].

Definition Rotation_default : Rotation := Unclassified.

Definition rotation_str (r : Rotation) : string :=
  match r with
  | Unclassified => "unclassified"
  | Rotatable => "rotatable"
  | SeedOnly => "seed-only"
  | BreaksData => "breaks-data"
  | VolumeBound => "volume-bound"
  | InvalidatesSessions => "invalidates-sessions"
  end.

Inductive RotationError : Type := UnknownRotation (found : string).

Definition Rotation_parse (input : string) : result RotationError Rotation :=
  ok_or (UnknownRotation input)
    (List.find (fun r => String.eqb (rotation_str r) input) Rotation_ALL).

Definition needs_care (r : Rotation) : bool :=
  match r with
  | Rotatable => false
  | Unclassified | SeedOnly | BreaksData | VolumeBound | InvalidatesSessions => true
  end.

Definition rotation_advice (r : Rotation) : string :=
  match r with
  | Unclassified => "Nobody has classified this secret, so nothing here says a rotation is safe. Find out what reads it and what happens when the value changes, then record the answer with `ciphr rotation <path> <class>`. Treat it as dangerous until then: the classes that destroy data look exactly like this one from here."
  | Rotatable => "Safe to rotate: write a new version and redeploy the consumers."
  | SeedOnly => "Only read during first initialization. Rotating changes the stored value without changing the running system, so the two drift apart silently. Change it in the initialized system first, then record the new value here."
  | BreaksData => "This value encrypts data at rest. A new value makes existing data unreadable. Re-encrypt with the application's own key-change procedure, or accept the data loss knowingly; a restore from backup will need the old value, so keep the previous version."
  | VolumeBound => "Must match what the persistent volume was initialized with. Rotating requires changing it inside the volume as well, or recreating the volume. A restart with a mismatched value usually fails to start rather than corrupting anything, which is the good case."
  | InvalidatesSessions => "Rotation works, but every session and derived token becomes invalid. Expect users to be signed out and integrations to need new tokens; schedule it rather than doing it mid-day."
  end.

Definition rotation_error_display (e : RotationError) : string :=
  match e with
  | UnknownRotation found =>
      ("unknown rotation class '" ++ found ++ "', expected one of: " ++
       join ", " (map rotation_str Rotation_ALL))%string
  end.

(** ** Version numbers: a non-zero [u32] *)

Record SecretVersion : Type := mkVersion { version_get : Z }.

#[global] Instance SecretVersion_eq_dec : EqDecision SecretVersion.
Proof. solve_decision. Defined.

Definition version_FIRST : SecretVersion := mkVersion 1.

Definition version_new (version : Z) : option SecretVersion :=
  if (version =? 0)%Z then None else Some (mkVersion version).

Definition version_next (v : SecretVersion) : option SecretVersion :=
  match u32_try_from (version_get v + 1) with
  | Some next => Some (mkVersion next)
  | None => None
  end.

(** [u32::to_be_bytes] *)
Definition u32_be_bytes (z : Z) : bytes :=
  [byte_of (z / 2 ^ 24); byte_of (z / 2 ^ 16); byte_of (z / 2 ^ 8); byte_of z].

Definition version_be_bytes (v : SecretVersion) : bytes := u32_be_bytes (version_get v).

Definition version_wf (v : SecretVersion) : Prop := (1 <= version_get v <= u32_max)%Z.

(** ** Environment variable names *)

Record EnvVarName : Type := mkEnvVarName { env_str : string }.

#[global] Instance EnvVarName_eq_dec : EqDecision EnvVarName.
Proof. solve_decision. Defined.

Inductive NameFault : Type :=
| FaultEmpty
| FaultLeadingDigit
| FaultCharacter (character : N).

Inductive EnvNameError : Type :=
| NotAName (found : string) (reason : NameFault)
| Collision (name first second : string).

Definition name_fault_display (f : NameFault) : string :=
  match f with
  | FaultEmpty => "it is empty"
  | FaultLeadingDigit => "a name may not start with a digit"
  | FaultCharacter character =>
      char_debug character ++ " is not allowed; use letters, digits and underscore"
  end.

Definition env_name_error_display (e : EnvNameError) : string :=
  match e with
  | NotAName found reason =>
      str_debug found ++ " cannot be an environment variable name: " ++ name_fault_display reason
  | Collision name first second =>
      first ++ " and " ++ second ++ " would both be " ++ name
      ++ "; one of them has to be renamed or exported separately"
  end.

Definition env_char_ok (c : N) : bool := is_ascii_alphanumeric c || (c =? 95)%N.

Definition env_fault (input : string) : option NameFault :=
  if is_empty input then Some FaultEmpty
  else if match chars input with c :: _ => is_ascii_digit c | [] => false end
  then Some FaultLeadingDigit
  else option_map FaultCharacter (List.find (fun c => negb (env_char_ok c)) (chars input)).

Definition EnvVarName_parse (input : string) : result EnvNameError EnvVarName :=
  match env_fault input with
  | Some reason => Err (NotAName input reason)
  | None => Ok (mkEnvVarName input)
  end.

(** The last segment names the variable; [segments] is never empty. *)
Definition env_for_path (p : SecretPath) : result EnvNameError EnvVarName :=
  let segment := match last (segments p) with Some s => s | None => path_str p end in
  EnvVarName_parse segment.

(** The loop of [assign], with the pairs assigned so far. *)
Fixpoint assign_loop (assigned : list (EnvVarName * SecretPath)) (paths : list SecretPath)
    : result EnvNameError (list (EnvVarName * SecretPath)) :=
  match paths with
  | [] => Ok assigned
  | path :: rest =>
      let? name := env_for_path path in
      match List.find (fun '(existing, _) => bool_decide (existing = name)) assigned with
      | Some (_, first) =>
          Err (Collision (env_str name) (path_str first) (path_str path))
      | None => assign_loop (assigned ++ [(name, path)]) rest
      end
  end.

Definition env_assign (paths : list SecretPath) : result EnvNameError (list EnvVarName) :=
  res_map (map fst) (assign_loop [] paths).

(** ** Names a process reads before its own code runs *)

Definition CONTROL_NAMES : list string :=
  ["BASH_ENV"; "ENV"; "GCONV_PATH"; "GLIBC_TUNABLES"; "IFS"; "JAVA_TOOL_OPTIONS";
   "_JAVA_OPTIONS"; "JDK_JAVA_OPTIONS"; "MALLOC_CONF"; "NODE_OPTIONS";
   "NODE_REPL_EXTERNAL_MODULE"; "PATH"; "PERL5LIB"; "PERL5OPT"; "PYTHONHOME";
   "PYTHONPATH"; "PYTHONSTARTUP"; "PYTHONWARNINGS"; "RUBYLIB"; "RUBYOPT"].

Definition CONTROL_PREFIXES : list string := ["LD_"; "DYLD_"].

Definition process_control_reason (name : string) : option string :=
  if existsb (fun prefix => starts_with name prefix) CONTROL_PREFIXES
  then Some "the dynamic loader reads it before the program starts"%string
  else if existsb (String.eqb name) CONTROL_NAMES
  then Some "a language runtime or the shell reads it before the program starts"%string
  else None.

(** ** File modes *)

Inductive WorldAccess : Type := WorldRead | WorldWrite | WorldReadWrite.

(** The two bits are [0o004] and [0o002]. *)
Definition WorldAccess_of (mode : Z) : option WorldAccess :=
  match negb (Z.land mode 4 =? 0)%Z, negb (Z.land mode 2 =? 0)%Z with
  | true, true => Some WorldReadWrite
  | true, false => Some WorldRead
  | false, true => Some WorldWrite
  | false, false => None
  end.

Definition world_access_description (w : WorldAccess) : string :=
  match w with
  | WorldRead => "world-readable"
  | WorldWrite => "world-writable"
  | WorldReadWrite => "world-readable and world-writable"
  end.

(** [0o777] *)
Definition BIND_MOUNT_MODE : Z := 511.

(** ** Lemmas *)

Lemma Capability_parse_str c : Capability_parse (capability_str c) = Ok c.
Proof. by destruct c. Qed.

Lemma Capability_parse_inv s c : Capability_parse s = Ok c -> capability_str c = s.
Proof.
  unfold Capability_parse. intros H. run_ok.
  apply List.find_some in H as [_ H]. by apply String.eqb_eq.
Qed.

Lemma Rotation_parse_str r : Rotation_parse (rotation_str r) = Ok r.
Proof. by destruct r. Qed.

Lemma Rotation_parse_inv s r : Rotation_parse s = Ok r -> rotation_str r = s.
Proof.
  unfold Rotation_parse. intros H. run_ok.
  apply List.find_some in H as [_ H]. by apply String.eqb_eq.
Qed.

Lemma capability_ALL_complete c : c ∈ Capability_ALL.
Proof. destruct c; set_solver. Qed.

Lemma u32_be_bytes_inj a b :
  (0 <= a < 2 ^ 32)%Z -> (0 <= b < 2 ^ 32)%Z -> u32_be_bytes a = u32_be_bytes b -> a = b.
Proof.
  intros Ha Hb [= H1 H2 H3 H4].
  assert (forall x y, byte_of x = byte_of y -> x mod 256 = y mod 256)%Z as Hm.
  { intros x y E. apply (f_equal byte_val) in E.
    unfold byte_of, byte_val in E.
    rewrite !N_ascii_embedding in E by
      (match goal with |- context [(?z mod 256)%Z] =>
         pose proof (Z.mod_pos_bound z 256 ltac:(lia)) end; lia).
    pose proof (Z.mod_pos_bound x 256 ltac:(lia)).
    pose proof (Z.mod_pos_bound y 256 ltac:(lia)). lia. }
  apply Hm in H1, H2, H3, H4. zdiv_lia.
Qed.

Lemma version_next_wf v v' :
  version_wf v -> version_next v = Some v' ->
  version_wf v' /\ version_get v' = (version_get v + 1)%Z.
Proof.
  unfold version_wf, version_next, u32_try_from. intros Hv H.
  repeat case_match; try discriminate. simplify_eq. simpl. lia.
Qed.

Lemma env_parse_Ok input n : EnvVarName_parse input = Ok n <-> env_str n = input /\ env_fault input = None.
Proof.
  unfold EnvVarName_parse. destruct (env_fault input) eqn:E.
  - split; [done|]. by intros (_ & ?).
  - destruct n as [t]; simpl. split; [by intros [= ->]|by intros [<- _]].
Qed.

Lemma assign_loop_Ok assigned paths out :
  NoDup (map fst assigned) ->
  assign_loop assigned paths = Ok out ->
  NoDup (map fst out) /\
  exists names, out = assigned ++ zip names paths /\
    Forall2 (fun n p => env_for_path p = Ok n) names paths.
Proof.
  revert assigned. induction paths as [|p paths IH]; intros assigned Hnd; simpl.
  - intros [= <-]. split; [done|]. exists []. rewrite app_nil_r. by split.
  - intros H. run_ok. destruct (List.find _ assigned) as [[n first]|] eqn:Hf; [done|].
    apply IH in H as (Hnd' & names & -> & HF).
    + split; [done|]. exists (v :: names). rewrite <- app_assoc. split; [done|by constructor].
    + rewrite map_app. apply NoDup_app. split_and!; [done| |apply NoDup_singleton].
      intros n (x & -> & Hx)%list_elem_of_fmap. simpl. rewrite list_elem_of_singleton. intros E.
      apply list_elem_of_In in Hx. pose proof (List.find_none _ _ Hf x Hx) as Hn.
      destruct x as [n' p']. simpl in *. by rewrite bool_decide_eq_true_2 in Hn.
Qed.

Lemma env_fault_None s :
  env_fault s = None <->
  s <> EmptyString /\ (match chars s with c :: _ => is_ascii_digit c = false | [] => True end) /\
  Forall (fun c => env_char_ok c = true) (chars s).
Proof.
  unfold env_fault. destruct (is_empty s) eqn:He.
  { apply is_empty_spec in He. split; [done|]. by intros (? & _). }
  assert (s <> EmptyString) as Hne by by intros E%is_empty_spec; congruence.
  assert (option_map FaultCharacter (List.find (fun c => negb (env_char_ok c)) (chars s)) = None <->
    Forall (fun c => env_char_ok c = true) (chars s)) as Hfind.
  { destruct (List.find _ (chars s)) as [c|] eqn:Hf; simpl.
    - split; [done|]. intros HF. apply List.find_some in Hf as [Hin Hc].
      rewrite Forall_forall in HF. apply list_elem_of_In, HF in Hin. by rewrite Hin in Hc.
    - split; [|done]. intros _. apply Forall_forall. intros c Hc%list_elem_of_In.
      pose proof (List.find_none _ _ Hf c Hc) as Hn. by apply negb_false_iff. }
  destruct (chars s) as [|c l]; [tauto|].
  destruct (is_ascii_digit c); [split; [done|by intros (_ & ? & _)]|]. tauto.
Qed.

(** ** Properties *)

Theorem env_assign_spec paths names :
  env_assign paths = Ok names ->
  NoDup names /\
  Forall2 (fun n p => last (segments p) = Some (env_str n) /\
     match chars (env_str n) with c :: _ => is_ascii_digit c = false | [] => True end /\
     Forall (fun c => env_char_ok c = true) (chars (env_str n))) names paths.
Proof.
  unfold env_assign. intros H.
  destruct (assign_loop [] paths) as [out|e] eqn:Ha; simpl in H; [|done]. injection H as <-.
  apply assign_loop_Ok in Ha as (Hnd & ns & -> & HF); [|constructor]. simpl in *.
  rewrite fst_zip in * by (by apply Forall2_length in HF; lia).
  split; [done|]. eapply Forall2_impl; [exact HF|]. intros n p Hp. simpl in Hp.
  unfold env_for_path in Hp. apply env_parse_Ok in Hp as (E & Hf). apply env_fault_None in Hf as (_ & Hd & Hc).
  rewrite E. destruct (last (segments p)) as [s|] eqn:Hl; [done|].
  apply last_None in Hl. by destruct (segments_not_nil p).
Qed.

Lemma env_assign_spec_witness :
  env_assign [mkSecretPath "infra/a/DB"; mkSecretPath "infra/b/API_KEY"] =
    Ok [mkEnvVarName "DB"; mkEnvVarName "API_KEY"] /\
  NoDup [mkEnvVarName "DB"; mkEnvVarName "API_KEY"].
Proof.
  split; [reflexivity|].
  apply (env_assign_spec [mkSecretPath "infra/a/DB"; mkSecretPath "infra/b/API_KEY"]). reflexivity.
Defined.

(** A name that somebody else chose is refused, by family and by name. *)
Example process_control_examples :
  map (fun n => bool_decide (process_control_reason n = None))
    ["DB_PASSWORD"; "LDAP_URL"; "LD_PRELOAD"; "NODE_OPTIONS"; "PATH"]%string =
  [true; true; false; false; false].
Proof. vm_compute. done. Qed.
