(* ===== verification/PolicyModel.v ===== *)
(** * The policy model and its loader ([ciphr-policy/src/model.rs])

    TOML is parsed outside the repository: [PolicySet_from_toml] takes the parser
    as an argument and everything after it, the validation of the whole file, is
    the code's.  [BTreeMap<String, _>] is a finite map; where its order matters
    ([values]) it is the order of the keys. *)

From Stdlib Require Import ZArith NArith Lia Ascii String.
From stdpp Require Import base tactics list strings gmap.
From S2P Require Import Prelude Text Path Pattern Vocabulary.

Inductive IdentityKind : Type := Machine | Human.

#[global] Instance IdentityKind_eq_dec : EqDecision IdentityKind.
Proof. solve_decision. Defined.

Definition identity_kind_str (k : IdentityKind) : string :=
  match k with Machine => "machine" | Human => "human" end.

Record Rule : Type := mkRule {
  rule_pattern : PathPattern;
  rule_capabilities : gset Capability;
}.

Record Policy : Type := mkPolicy { policy_name : string; policy_rules : list Rule }.

Record Identity : Type := mkIdentity {
  identity_name : string;
  identity_kind : IdentityKind;
  identity_policies : list string;
}.

Record PolicySet : Type := mkPolicySet {
  ps_identities : gmap string Identity;
  ps_policies : gmap string Policy;
}.

(** [derive(PartialEq)] *)
#[global] Instance Rule_eq_dec : EqDecision Rule.
Proof. solve_decision. Defined.
#[global] Instance Policy_eq_dec : EqDecision Policy.
Proof. solve_decision. Defined.
#[global] Instance Identity_eq_dec : EqDecision Identity.
Proof. solve_decision. Defined.
#[global] Instance PolicySet_eq_dec : EqDecision PolicySet.
Proof. solve_decision. Defined.

Definition is_denial (r : Rule) : bool := bool_decide (rule_capabilities r = ∅).

(** The TOML shape. *)
Record RawRule : Type := mkRawRule { raw_path : string; raw_capabilities : list string }.
Record RawPolicy : Type := mkRawPolicy { raw_policy_name : string; raw_rules : list RawRule }.
Record RawIdentity : Type := mkRawIdentity {
  raw_identity_name : string;
  raw_kind : string;
  raw_policies : list string;
}.
Record RawConfig : Type := mkRawConfig {
  raw_identity : list RawIdentity;
  raw_policy : list RawPolicy;
}.

Inductive PolicyError : Type :=
| PolicySyntax (error : string)
| PolicyPattern (policy pattern : string) (reason : PatternError)
| PolicyCapability (policy pattern : string) (reason : CapabilityError)
| DuplicateCapability (policy pattern capability : string)
| SecretCapabilityOnControlPlane (policy pattern : string) (capability : Capability)
| DuplicatePattern (policy pattern : string)
| DuplicatePolicy (name : string)
| DuplicateIdentity (name : string)
| UnknownPolicy (identity policy : string)
| DuplicatePolicyReference (identity policy : string)
| UnknownIdentityKind (identity found : string).

Definition policy_error_display (e : PolicyError) : string :=
  match e with
  | PolicySyntax error => ("invalid policy file: " ++ error)%string
  | PolicyPattern policy pattern reason =>
      ("policy '" ++ policy ++ "': rule path '" ++ pattern ++ "' is invalid: " ++
       pattern_error_display reason)%string
  | PolicyCapability policy pattern reason =>
      ("policy '" ++ policy ++ "', rule '" ++ pattern ++ "': " ++
       capability_error_display reason)%string
  | DuplicateCapability policy pattern capability =>
      ("policy '" ++ policy ++ "', rule '" ++ pattern ++ "': capability '" ++ capability ++
       "' appears twice")%string
  | SecretCapabilityOnControlPlane policy pattern capability =>
      ("policy '" ++ policy ++ "', rule '" ++ pattern ++ "': '" ++ capability_str capability ++
       "' is a capability about a secret, and '" ++ pattern ++
       "' names the control plane. Since ADR-23 reading a control-plane path is 'inspect' " ++
       "and revoking a token is 'revoke'; a rule under '" ++ RESERVED_PREFIX ++
       "/' may grant only those. Replace '" ++ capability_str capability ++
       "' rather than removing the rule, or the identity loses the access it was written for")%string
  | DuplicatePattern policy pattern =>
      ("policy '" ++ policy ++ "' has two rules for '" ++ pattern ++
       "'; one of them would never apply")%string
  | DuplicatePolicy name => ("two policies are named '" ++ name ++ "'")%string
  | DuplicateIdentity name => ("two identities are named '" ++ name ++ "'")%string
  | UnknownPolicy identity policy =>
      ("identity '" ++ identity ++ "' refers to policy '" ++ policy ++ "', which is not defined")%string
  | DuplicatePolicyReference identity policy =>
      ("identity '" ++ identity ++ "' lists policy '" ++ policy ++ "' twice")%string
  | UnknownIdentityKind identity found =>
      ("identity '" ++ identity ++ "' has kind '" ++ found ++ "', expected 'machine' or 'human'")%string
  end.

Section Loader.
Context `{U : Unicode}.

(** The inner loop of [build_policy]: the capabilities of one rule. *)
Fixpoint build_capabilities (policy : string) (pattern : PathPattern)
    (acc : gset Capability) (names : list string) : result PolicyError (gset Capability) :=
  match names with
  | [] => Ok acc
  | name :: rest =>
      let? capability :=
        map_err (PolicyCapability policy (pat_text pattern)) (Capability_parse name) in
      if decide (capability ∈ acc) then Err (DuplicateCapability policy (pat_text pattern) name)
      else if names_reserved_prefix pattern && negb (is_control_plane capability)
      then Err (SecretCapabilityOnControlPlane policy (pat_text pattern) capability)
      else build_capabilities policy pattern ({[capability]} ∪ acc) rest
  end.

(** The outer loop of [build_policy]. *)
Fixpoint build_rules (policy : string) (rules : list Rule) (raw : list RawRule)
    : result PolicyError (list Rule) :=
  match raw with
  | [] => Ok rules
  | raw_rule :: rest =>
      let? pattern :=
        map_err (PolicyPattern policy (raw_path raw_rule)) (PathPattern_parse (raw_path raw_rule)) in
      if existsb (fun existing => bool_decide (rule_pattern existing = pattern)) rules
      then Err (DuplicatePattern policy (pat_text pattern))
      else
        let? capabilities := build_capabilities policy pattern ∅ (raw_capabilities raw_rule) in
        build_rules policy (rules ++ [mkRule pattern capabilities]) rest
  end.

Definition build_policy (raw : RawPolicy) : result PolicyError Policy :=
  let? rules := build_rules (raw_policy_name raw) [] (raw_rules raw) in
  Ok (mkPolicy (raw_policy_name raw) rules).

Definition build_kind (raw : RawIdentity) : result PolicyError IdentityKind :=
  if String.eqb (raw_kind raw) "machine" then Ok Machine
  else if String.eqb (raw_kind raw) "human" then Ok Human
  else Err (UnknownIdentityKind (raw_identity_name raw) (raw_kind raw)).

Fixpoint check_references (identity : string) (policies : gmap string Policy)
    (seen : gset string) (names : list string) : result PolicyError unit :=
  match names with
  | [] => Ok tt
  | policy :: rest =>
      match policies !! policy with
      | None => Err (UnknownPolicy identity policy)
      | Some _ =>
          if decide (policy ∈ seen) then Err (DuplicatePolicyReference identity policy)
          else check_references identity policies ({[policy]} ∪ seen) rest
      end
  end.

Definition build_identity (raw : RawIdentity) (policies : gmap string Policy)
    : result PolicyError Identity :=
  let? kind := build_kind raw in
  let? _ := check_references (raw_identity_name raw) policies ∅ (raw_policies raw) in
  Ok (mkIdentity (raw_identity_name raw) kind (raw_policies raw)).

Fixpoint build_policies (acc : gmap string Policy) (raw : list RawPolicy)
    : result PolicyError (gmap string Policy) :=
  match raw with
  | [] => Ok acc
  | raw_policy :: rest =>
      let? policy := build_policy raw_policy in
      match acc !! policy_name policy with
      | Some _ => Err (DuplicatePolicy (policy_name policy))
      | None => build_policies (<[policy_name policy := policy]> acc) rest
      end
  end.

Fixpoint build_identities (policies : gmap string Policy) (acc : gmap string Identity)
    (raw : list RawIdentity) : result PolicyError (gmap string Identity) :=
  match raw with
  | [] => Ok acc
  | raw_identity :: rest =>
      let? identity := build_identity raw_identity policies in
      match acc !! identity_name identity with
      | Some _ => Err (DuplicateIdentity (identity_name identity))
      | None => build_identities policies (<[identity_name identity := identity]> acc) rest
      end
  end.

Definition PolicySet_from_raw (raw : RawConfig) : result PolicyError PolicySet :=
  let? policies := build_policies ∅ (raw_policy raw) in
  let? identities := build_identities policies ∅ (raw_identity raw) in
  Ok (mkPolicySet identities policies).

Definition PolicySet_from_toml (toml : string -> result string RawConfig) (input : string)
    : result PolicyError PolicySet :=
  let? raw := map_err PolicySyntax (toml input) in
  PolicySet_from_raw raw.
End Loader.

Definition ps_identity (ps : PolicySet) (name : string) : option Identity := ps_identities ps !! name.
Definition ps_policy (ps : PolicySet) (name : string) : option Policy := ps_policies ps !! name.

(** The values of a [BTreeMap], in the order of its keys. *)
Definition values_by_key {V} (m : gmap string V) : list V :=
  map snd (sort_by (fun a b => str_leb (fst a) (fst b)) (map_to_list m)).

Definition ps_all_identities (ps : PolicySet) : list Identity := values_by_key (ps_identities ps).
Definition ps_all_policies (ps : PolicySet) : list Policy := values_by_key (ps_policies ps).

(** The invariant of a loaded set. *)
Section Invariant.
Context `{U : Unicode}.

Definition rule_wf (r : Rule) : Prop :=
  pattern_wf (rule_pattern r) /\
  (names_reserved_prefix (rule_pattern r) = true ->
   forall c, c ∈ rule_capabilities r -> is_control_plane c = true).

Definition policy_wf (name : string) (p : Policy) : Prop :=
  policy_name p = name /\ NoDup (map rule_pattern (policy_rules p)) /\ Forall rule_wf (policy_rules p).

Definition identity_wf (policies : gmap string Policy) (name : string) (i : Identity) : Prop :=
  identity_name i = name /\ NoDup (identity_policies i) /\
  Forall (fun n => is_Some (policies !! n)) (identity_policies i).

Definition policy_set_wf (ps : PolicySet) : Prop :=
  map_Forall policy_wf (ps_policies ps) /\
  map_Forall (identity_wf (ps_policies ps)) (ps_identities ps).
End Invariant.

(** ** Lemmas *)

Section LoaderLemmas.
Context `{U : Unicode} {L : UnicodeLaws U}.

Lemma build_capabilities_Ok policy pattern acc names caps :
  build_capabilities policy pattern acc names = Ok caps ->
  acc ⊆ caps /\
  (names_reserved_prefix pattern = true ->
   forall c, c ∈ caps -> c ∈ acc \/ is_control_plane c = true) /\
  (forall c, c ∈ caps <-> c ∈ acc \/ capability_str c ∈ names).
Proof.
  revert acc. induction names as [|name names IH]; intros acc; simpl.
  - intros [= <-]. set_solver.
  - intros H. run_ok. apply Capability_parse_inv in Hres as Hstr.
    destruct (decide (v ∈ acc)); [done|].
    destruct (names_reserved_prefix pattern && negb (is_control_plane v)) eqn:Hcp; [done|].
    apply IH in H as (H1 & H2 & H3). split_and!.
    + set_solver.
    + intros Hr c Hc. destruct (H2 Hr c Hc) as [Hin|]; [|by right].
      apply elem_of_union in Hin as [->%elem_of_singleton|]; [|by left]. right.
      rewrite Hr in Hcp. by apply negb_false_iff in Hcp.
    + intros c. rewrite H3, elem_of_union, elem_of_singleton, elem_of_cons. subst name.
      split; [intros [[->|]|]; auto|]. intros [|[E|]]; auto. left. left.
      pose proof (Capability_parse_str c) as E1. rewrite E, Capability_parse_str in E1. congruence.
Qed.

Lemma build_rules_Ok policy rules raw out :
  NoDup (map rule_pattern rules) -> Forall rule_wf rules ->
  build_rules policy rules raw = Ok out ->
  NoDup (map rule_pattern out) /\ Forall rule_wf out /\
  (exists new, out = rules ++ new /\ length new = length raw).
Proof.
  revert rules. induction raw as [|r raw IH]; intros rules Hnd HF; simpl.
  - intros [= <-]. split_and!; [done..|]. exists []. by rewrite app_nil_r.
  - intros H. run_ok. destruct (existsb _ rules) eqn:Hex; [done|]. run_ok.
    apply IH in H as (H1 & H2 & new & -> & Hl).
    + split_and!; [done..|]. exists (mkRule v v0 :: new). rewrite <- app_assoc. simpl. by rewrite Hl.
    + rewrite map_app. apply NoDup_app. split_and!; [done| |apply NoDup_singleton].
      intros p (x & -> & Hx)%list_elem_of_fmap. simpl. rewrite list_elem_of_singleton. intros E.
      assert (existsb (fun e => bool_decide (rule_pattern e = v)) rules = true) as Ht; [|congruence].
      apply List.existsb_exists. exists x. split; [by apply list_elem_of_In|].
      by apply bool_decide_eq_true_2.
    + apply Forall_app. split; [done|]. constructor; [|done]. split; simpl.
      * apply PathPattern_parse_Ok in Hres as (E & Hp). split_and!; try tauto.
        rewrite E. by apply normalize_idempotent.
      * intros Hr c Hc. apply build_capabilities_Ok in Hres0 as (_ & Hcp & _).
        destruct (Hcp Hr c Hc); [set_solver|done].
Qed.

Lemma build_policies_Ok acc raw out :
  map_Forall policy_wf acc -> build_policies acc raw = Ok out ->
  map_Forall policy_wf out.
Proof.
  revert acc. induction raw as [|r raw IH]; intros acc HF; simpl; [by intros [= <-]|].
  intros H. run_ok. destruct (acc !! policy_name v) eqn:Ha; [done|].
  apply IH in H; [done|]. apply map_Forall_insert_2; [|done].
  unfold build_policy in Hres. run_ok. injection Hres as <-.
  apply build_rules_Ok in Hres0 as (? & ? & _); [|constructor..]. done.
Qed.

Lemma check_references_Ok identity policies seen names :
  check_references identity policies seen names = Ok tt ->
  NoDup names /\ Forall (fun n => n ∉ seen /\ is_Some (policies !! n)) names.
Proof.
  revert seen. induction names as [|n names IH]; intros seen; simpl; [by repeat constructor|].
  destruct (policies !! n) as [p|] eqn:Hp; [|done].
  destruct (decide (n ∈ seen)); [done|]. intros (Hnd & HF)%IH. split.
  - constructor; [|done]. intros Hin. rewrite Forall_forall in HF. apply HF in Hin. set_solver.
  - constructor; [by rewrite Hp|]. eapply Forall_impl; [done|]. intros x. set_solver.
Qed.

Lemma build_identities_Ok policies acc raw out :
  map_Forall (identity_wf policies) acc -> build_identities policies acc raw = Ok out ->
  map_Forall (identity_wf policies) out.
Proof.
  revert acc. induction raw as [|r raw IH]; intros acc HF; simpl; [by intros [= <-]|].
  intros H. run_ok. destruct (acc !! identity_name v) eqn:Ha; [done|].
  apply IH in H; [done|]. apply map_Forall_insert_2; [|done].
  unfold build_identity in Hres. run_ok. injection Hres as <-. destruct v1.
  apply check_references_Ok in Hres1 as (? & HF'). split_and!; [done..|].
  eapply Forall_impl; [done|]. by intros x [].
Qed.

Lemma from_toml_loads toml input ps : PolicySet_from_toml toml input = Ok ps -> policy_set_wf ps.
Proof.
  unfold PolicySet_from_toml, PolicySet_from_raw. intros H. run_ok. injection H as <-.
  apply build_policies_Ok in Hres0; [|done].
  apply build_identities_Ok in Hres1; [|done]. done.
Qed.
End LoaderLemmas.

(** ** Properties *)


(** The documented example, and one more identity. *)
Definition example_raw : RawConfig := {|
  raw_identity := [mkRawIdentity "deploy-runner" "machine" ["infra-read"];
                   mkRawIdentity "auditor" "human" ["audit-read"]];
  raw_policy := [mkRawPolicy "infra-read"
                   [mkRawRule "infra/**" ["read"; "list"]; mkRawRule "infra/ciphr/**" []];
                 mkRawPolicy "audit-read" [mkRawRule "sys/audit" ["inspect"]]];
|}.

Definition example_policies : PolicySet :=
  match PolicySet_from_raw (U := ascii_unicode) example_raw with
  | Ok ps => ps
  | Err _ => mkPolicySet ∅ ∅
  end.


(** A secret capability on a rule that names the control plane refuses the file. *)
Example reserved_rule_refused :
  PolicySet_from_raw (U := ascii_unicode)
    {| raw_identity := []; raw_policy := [mkRawPolicy "p" [mkRawRule "sys/audit" ["read"]]] |} =
  Err (SecretCapabilityOnControlPlane "p" "sys/audit" CapRead).
Proof. vm_compute. done. Qed.
