(* ===== verification/Evaluate.v ===== *)
(** * The access decision ([ciphr-policy/src/evaluate.rs])

    [evaluate] collects the matching rules of the identity's policies, keeps the
    most specific ones and allows only when every one of them grants.  The
    reference semantics [permitted] says that without sorting, counting or
    iterators, and the first theorem is the equivalence. *)

From Stdlib Require Import ZArith NArith Lia Ascii String.
From stdpp Require Import base tactics list strings gmap.
From S2P Require Import Prelude Text Path Pattern Vocabulary PolicyModel.

Inductive Effect : Type := Allow | Deny.

Inductive DenyReason : Type := UnknownIdentity | NoMatchingRule | NotGranted | Tie.

#[global] Instance DenyReason_eq_dec : EqDecision DenyReason.
Proof. solve_decision. Defined.

Definition deny_reason_str (r : DenyReason) : string :=
  match r with
  | UnknownIdentity => "unknown-identity"
  | NoMatchingRule => "no-matching-rule"
  | NotGranted => "not-granted"
  | Tie => "tie"
  end.

Record MatchedRule : Type := mkMatchedRule {
  mr_policy : string;
  mr_pattern : string;
  mr_specificity : nat;
}.

Record Decision : Type := mkDecision {
  effect : Effect;
  reason : option DenyReason;
  decided_by : option MatchedRule;
}.

Definition is_allowed (d : Decision) : bool :=
  match effect d with Allow => true | Deny => false end.

Definition decision_allow (rule : MatchedRule) : Decision := mkDecision Allow None (Some rule).
Definition decision_deny (reason : DenyReason) (rule : option MatchedRule) : Decision :=
  mkDecision Deny (Some reason) rule.

Definition describe (rule : Rule) (policy : string) : MatchedRule :=
  mkMatchedRule policy (pat_text (rule_pattern rule)) (specificity (rule_pattern rule)).

Definition cmp_then (a b : comparison) : comparison := match a with Eq => b | _ => a end.

(** The order of the winners: policy name, then pattern text. *)
Definition winner_cmp (l r : Rule * string) : comparison :=
  cmp_then (String.compare (snd l) (snd r))
    (String.compare (pat_text (rule_pattern (fst l))) (pat_text (rule_pattern (fst r)))).
Definition winner_leb (l r : Rule * string) : bool :=
  match winner_cmp l r with Gt => false | _ => true end.

(** The two nested loops that fill [matches]; a policy name that is not defined
    is skipped. *)
Definition matching_rules (ps : PolicySet) (identity : Identity) (path : SecretPath)
    : list (Rule * string) :=
  flat_map (fun policy_name_ =>
    match ps_policy ps policy_name_ with
    | None => []
    | Some policy =>
        map (fun rule => (rule, policy_name policy))
          (List.filter (fun rule => matches (rule_pattern rule) path) (policy_rules policy))
    end) (identity_policies identity).

Definition most_specific (ms : list (Rule * string)) : nat :=
  foldr Nat.max 0 (map (fun '(rule, _) => specificity (rule_pattern rule)) ms).

Definition grants (capability : Capability) (m : Rule * string) : bool :=
  bool_decide (capability ∈ rule_capabilities (fst m)).

Definition evaluate (ps : PolicySet) (identity : string) (path : SecretPath)
    (capability : Capability) : Decision :=
  match ps_identity ps identity with
  | None => decision_deny UnknownIdentity None
  | Some identity =>
      let ms := matching_rules ps identity path in
      match ms with
      | [] => decision_deny NoMatchingRule None
      | _ =>
          let top := most_specific ms in
          let winners :=
            sort_by winner_leb
              (List.filter (fun '(rule, _) => (specificity (rule_pattern rule) =? top)%nat) ms) in
          let granting := length (List.filter (grants capability) winners) in
          if (granting =? length winners)%nat then
            match winners with
            | (rule, policy) :: _ => decision_allow (describe rule policy)
            (* [winners[0]] on an empty vector would panic; the most specific
               match is always among the winners. *)
            | [] => decision_deny NoMatchingRule None
            end
          else
            let refusing :=
              option_map (fun '(rule, policy) => describe rule policy)
                (List.find (fun m => negb (grants capability m)) winners) in
            decision_deny (if (granting =? 0)%nat then NotGranted else Tie) refusing
      end
  end.

Definition effective_capabilities (ps : PolicySet) (identity : string) (path : SecretPath)
    : gset Capability :=
  list_to_set (List.filter (fun c => is_allowed (evaluate ps identity path c)) Capability_ALL).

(** ** The reference semantics *)

(** A rule applies to an identity on a path. *)
Definition applies (ps : PolicySet) (identity : string) (path : SecretPath)
    (rule : Rule) (policy : string) : Prop :=
  exists i n p, ps_identity ps identity = Some i /\ n ∈ identity_policies i /\
    ps_policy ps n = Some p /\ policy = policy_name p /\
    rule ∈ policy_rules p /\ matches (rule_pattern rule) path = true.

(** No applicable rule is more specific. *)
Definition decisive (ps : PolicySet) (identity : string) (path : SecretPath)
    (rule : Rule) (policy : string) : Prop :=
  applies ps identity path rule policy /\
  forall rule' policy', applies ps identity path rule' policy' ->
    (specificity (rule_pattern rule') <= specificity (rule_pattern rule))%nat.

(** Some rule applies, and every decisive one grants. *)
Definition permitted (ps : PolicySet) (identity : string) (path : SecretPath)
    (capability : Capability) : Prop :=
  (exists rule policy, applies ps identity path rule policy) /\
  forall rule policy, decisive ps identity path rule policy -> capability ∈ rule_capabilities rule.

(** ** Lemmas *)

Lemma matching_rules_elem ps i path rule policy :
  (rule, policy) ∈ matching_rules ps i path <->
  exists n p, n ∈ identity_policies i /\ ps_policy ps n = Some p /\ policy = policy_name p /\
    rule ∈ policy_rules p /\ matches (rule_pattern rule) path = true.
Proof.
  unfold matching_rules. rewrite list_elem_of_In, in_flat_map. split.
  - intros (n & Hn & H). destruct (ps_policy ps n) as [p|] eqn:Hp; [|done].
    apply in_map_iff in H as (r & [= <- <-] & [Hr Hm]%List.filter_In).
    exists n, p. rewrite !list_elem_of_In. done.
  - intros (n & p & Hn & Hp & -> & Hr & Hm). exists n. rewrite Hp.
    split; [by apply list_elem_of_In|]. apply in_map_iff. exists rule. split; [done|].
    apply List.filter_In. split; [by apply list_elem_of_In|done].
Qed.

Lemma applies_known ps identity i path rule policy :
  ps_identity ps identity = Some i ->
  applies ps identity path rule policy <-> (rule, policy) ∈ matching_rules ps i path.
Proof.
  intros Hi. unfold applies. rewrite matching_rules_elem. split.
  - intros (i' & n & p & Hi' & H). rewrite Hi in Hi'. injection Hi' as <-. eauto.
  - intros (n & p & H). eauto.
Qed.

Lemma most_specific_max ms rule policy :
  (rule, policy) ∈ ms -> (specificity (rule_pattern rule) <= most_specific ms)%nat.
Proof.
  unfold most_specific. induction ms as [|[r p] ms IH]; simpl; [set_solver|].
  intros [[= -> ->]|H]%elem_of_cons; [lia|]. specialize (IH H). lia.
Qed.

Lemma most_specific_reached ms :
  ms <> [] -> exists rule policy, (rule, policy) ∈ ms /\
    specificity (rule_pattern rule) = most_specific ms.
Proof.
  unfold most_specific. induction ms as [|[r p] ms IH]; [done|]. intros _. simpl.
  destruct (decide (ms = [])) as [->|Hne].
  - exists r, p. simpl. split; [set_solver|lia].
  - destruct (IH Hne) as (r' & p' & Hin & E).
    destruct (Nat.max_spec (specificity (rule_pattern r))
      (foldr Nat.max 0 (map (fun '(rule, _) => specificity (rule_pattern rule)) ms))) as [[_ ->]|[_ ->]].
    + exists r', p'. split; [set_solver|done].
    + exists r, p. split; [set_solver|done].
Qed.

(** The winners of the evaluator are the decisive rules. *)
Definition winners_of (ms : list (Rule * string)) : list (Rule * string) :=
  sort_by winner_leb
    (List.filter (fun '(rule, _) => (specificity (rule_pattern rule) =? most_specific ms)%nat) ms).

Lemma winners_elem ms rule policy :
  (rule, policy) ∈ winners_of ms <->
  (rule, policy) ∈ ms /\ specificity (rule_pattern rule) = most_specific ms.
Proof.
  unfold winners_of. rewrite sort_by_perm, !list_elem_of_In, List.filter_In.
  by rewrite Nat.eqb_eq.
Qed.

Lemma winners_not_nil ms : ms <> [] -> winners_of ms <> [].
Proof.
  intros Hne E. destruct (most_specific_reached ms Hne) as (r & p & Hin & Hs).
  assert ((r, p) ∈ winners_of ms) as H by by apply winners_elem.
  rewrite E in H. set_solver.
Qed.

Lemma winners_decisive ps identity i path rule policy :
  ps_identity ps identity = Some i ->
  decisive ps identity path rule policy <-> (rule, policy) ∈ winners_of (matching_rules ps i path).
Proof.
  intros Hi. unfold decisive. rewrite winners_elem, (applies_known _ _ i) by done. split.
  - intros (Hin & Hmax). split; [done|]. apply Nat.le_antisymm; [by eapply most_specific_max|].
    destruct (most_specific_reached (matching_rules ps i path)) as (r & p & Hr & <-).
    { intros E. rewrite E in Hin. set_solver. }
    eapply (Hmax r p). by rewrite (applies_known _ _ i).
  - intros (Hin & E). split; [done|]. intros r p Hr. rewrite E.
    rewrite (applies_known _ _ i) in Hr by done. by eapply most_specific_max.
Qed.

Lemma filter_length_all {A} (f : A -> bool) l :
  (length (List.filter f l) =? length l)%nat = true <-> forall x, x ∈ l -> f x = true.
Proof.
  rewrite Nat.eqb_eq. induction l as [|y l IH]; simpl; [split; [set_solver|done]|].
  pose proof (List.filter_length_le f l) as Hle.
  destruct (f y) eqn:Hy; simpl.
  - split.
    + intros [= E] x [->|Hx]%elem_of_cons; [done|]. by apply IH.
    + intros H. f_equal. apply IH. intros x Hx. apply H. set_solver.
  - split; [lia|]. intros H. specialize (H y). rewrite Hy in H. discriminate H. set_solver.
Qed.

Lemma filter_length_none {A} (f : A -> bool) l :
  (length (List.filter f l) =? 0)%nat = true <-> forall x, x ∈ l -> f x = false.
Proof.
  rewrite Nat.eqb_eq. induction l as [|y l IH]; simpl; [split; [set_solver|done]|].
  destruct (f y) eqn:Hy; simpl.
  - split; [done|]. intros H. specialize (H y). rewrite Hy in H. discriminate H. set_solver.
  - rewrite IH. split; [intros H x [->|Hx]%elem_of_cons; auto|]. intros H x Hx. apply H. set_solver.
Qed.

Lemma find_refusing ms (f : Rule * string -> bool) :
  (exists x, x ∈ ms /\ f x = true) -> exists x, List.find f ms = Some x /\ x ∈ ms /\ f x = true.
Proof.
  intros (x & Hx & Hf). destruct (List.find f ms) as [y|] eqn:E.
  - apply List.find_some in E as [Hy Hfy]. exists y. by rewrite list_elem_of_In.
  - apply list_elem_of_In in Hx. pose proof (List.find_none _ _ E x Hx). congruence.
Qed.

Lemma not_all_exists (P : Rule * string -> bool) (l : list (Rule * string)) :
  ~ (forall x, x ∈ l -> P x = true) -> exists x, x ∈ l /\ negb (P x) = true.
Proof.
  intros H. destruct (existsb (fun x => negb (P x)) l) eqn:E.
  - apply List.existsb_exists in E as (x & Hx & Hp). exists x. by rewrite list_elem_of_In.
  - destruct H. intros x Hx. destruct (P x) eqn:Hp; [done|].
    assert (existsb (fun x => negb (P x)) l = true); [|congruence].
    apply List.existsb_exists. exists x. rewrite <- list_elem_of_In. by rewrite Hp.
Qed.

(** The decision over the winners. *)
Definition verdict (winners : list (Rule * string)) (capability : Capability) : Decision :=
  match winners with
  | [] => decision_deny NoMatchingRule None
  | (rule, policy) :: _ =>
      let granting := length (List.filter (grants capability) winners) in
      if (granting =? length winners)%nat then decision_allow (describe rule policy)
      else decision_deny (if (granting =? 0)%nat then NotGranted else Tie)
             (option_map (fun '(rule, policy) => describe rule policy)
                (List.find (fun m => negb (grants capability m)) winners))
  end.

Lemma winners_nil ms : winners_of ms = [] <-> ms = [].
Proof.
  split; [|by intros ->]. intros H. destruct ms as [|m ms]; [done|].
  by destruct (winners_not_nil (m :: ms)).
Qed.

Lemma evaluate_verdict ps identity i path capability :
  ps_identity ps identity = Some i ->
  evaluate ps identity path capability = verdict (winners_of (matching_rules ps i path)) capability.
Proof.
  intros Hi. unfold evaluate. rewrite Hi. cbn zeta.
  destruct (matching_rules ps i path) as [|m ms] eqn:Hms; [done|].
  rewrite <- Hms. fold (winners_of (matching_rules ps i path)).
  assert (winners_of (matching_rules ps i path) <> []) as Hne by (by rewrite winners_nil, Hms).
  unfold verdict. destruct (winners_of (matching_rules ps i path)) as [|[r p] ws]; [done|].
  by destruct (_ =? _)%nat.
Qed.

Lemma grants_true c m : grants c m = true <-> c ∈ rule_capabilities (fst m).
Proof. apply bool_decide_eq_true. Qed.
Lemma grants_false c m : grants c m = false <-> c ∉ rule_capabilities (fst m).
Proof. apply bool_decide_eq_false. Qed.

Lemma verdict_reason ws c :
  match reason (verdict ws c) with
  | None => is_allowed (verdict ws c) = true /\ ws <> [] /\
            forall x, x ∈ ws -> c ∈ rule_capabilities (fst x)
  | Some NoMatchingRule => is_allowed (verdict ws c) = false /\ ws = []
  | Some NotGranted => is_allowed (verdict ws c) = false /\ ws <> [] /\
                       forall x, x ∈ ws -> c ∉ rule_capabilities (fst x)
  | Some Tie => is_allowed (verdict ws c) = false /\
                (exists x, x ∈ ws /\ c ∈ rule_capabilities (fst x)) /\
                (exists x, x ∈ ws /\ c ∉ rule_capabilities (fst x))
  | Some UnknownIdentity => False
  end.
Proof.
  unfold verdict. destruct ws as [|[r p] ws'] eqn:E; [done|]. rewrite <- E.
  assert (ws <> []) as Hne by by rewrite E. clear E.
  destruct (length (List.filter (grants c) ws) =? length ws)%nat eqn:Eall; simpl.
  { split_and!; [done..|]. intros x Hx. apply grants_true. by eapply filter_length_all. }
  destruct (length (List.filter (grants c) ws) =? 0)%nat eqn:Enone; simpl.
  { split_and!; [done..|]. intros x Hx. apply grants_false. by eapply filter_length_none. }
  split_and!; [done|..].
  - destruct (not_all_exists (fun x => negb (grants c x)) ws) as (x & Hx & Hg).
    + intros H. rewrite (proj2 (filter_length_none _ _)) in Enone; [done|].
      intros x Hx. by apply negb_true_iff, H.
    + exists x. split; [done|]. apply grants_true. by rewrite negb_involutive in Hg.
  - destruct (not_all_exists (grants c) ws) as (x & Hx & Hg%negb_true_iff%grants_false); [|eauto].
    intros H%filter_length_all. congruence.
Qed.

Lemma applies_winners ps identity i path :
  ps_identity ps identity = Some i ->
  (exists r p, applies ps identity path r p) <-> winners_of (matching_rules ps i path) <> [].
Proof.
  intros Hi. rewrite winners_nil. split.
  - intros (r & p & Hr). rewrite (applies_known _ _ i) in Hr by done.
    intros E. rewrite E in Hr. set_solver.
  - destruct (matching_rules ps i path) as [|[r p] ms] eqn:E; [done|]. intros _. exists r, p.
    rewrite (applies_known _ _ i), E by done. set_solver.
Qed.

(** The winners as decisive rules, for any property of their capabilities. *)
Lemma all_winners ps identity i path (P : gset Capability -> Prop) :
  ps_identity ps identity = Some i ->
  (forall r p, decisive ps identity path r p -> P (rule_capabilities r)) <->
  (forall x, x ∈ winners_of (matching_rules ps i path) -> P (rule_capabilities (fst x))).
Proof.
  intros Hi. split; [intros H [r p] Hx; by eapply (H r p), winners_decisive|].
  intros H r p Hd. by eapply (H (r, p)), winners_decisive.
Qed.

Lemma some_winner ps identity i path (P : gset Capability -> Prop) :
  ps_identity ps identity = Some i ->
  (exists r p, decisive ps identity path r p /\ P (rule_capabilities r)) <->
  (exists x, x ∈ winners_of (matching_rules ps i path) /\ P (rule_capabilities (fst x))).
Proof.
  intros Hi. split.
  - intros (r & p & Hd & HP). exists (r, p). split; [by eapply winners_decisive|done].
  - intros ([r p] & Hx & HP). exists r, p. split; [by eapply winners_decisive|done].
Qed.

Lemma evaluate_permitted ps identity path capability :
  is_allowed (evaluate ps identity path capability) = true <-> permitted ps identity path capability.
Proof.
  unfold permitted. destruct (ps_identity ps identity) as [i|] eqn:Hi.
  - rewrite (evaluate_verdict _ _ i), (applies_winners _ _ i),
      (all_winners _ _ i _ (fun c => capability ∈ c)) by done.
    pose proof (verdict_reason (winners_of (matching_rules ps i path)) capability) as H.
    destruct (reason _) as [[]|]; [done| | | |tauto].
    + destruct H as [-> ->]. split; [done|]. by intros [].
    + destruct H as (-> & Hne & H). split; [done|]. intros [_ H']. exfalso.
      destruct (winners_of (matching_rules ps i path)) as [|x ws]; [done|].
      by apply (H x); [|apply H']; set_solver.
    + destruct H as (-> & _ & x & Hx & Hc). split; [done|]. intros [_ H']. by destruct Hc; apply H'.
  - unfold evaluate. rewrite Hi. split; [done|]. intros [(r & p & i & _ & _ & E & _) _]. congruence.
Qed.

(** ** Properties *)

(** C1: the decision is the reference semantics. *)
Theorem evaluate_correct ps identity path capability :
  is_allowed (evaluate ps identity path capability) = true <-> permitted ps identity path capability.
Proof. apply evaluate_permitted. Qed.

(** Every refusal says why, and says it truthfully. *)
Theorem evaluate_reasons ps identity path capability :
  match reason (evaluate ps identity path capability) with
  | None => permitted ps identity path capability
  | Some UnknownIdentity => ps_identity ps identity = None
  | Some NoMatchingRule =>
      is_Some (ps_identity ps identity) /\ ~ exists rule policy, applies ps identity path rule policy
  | Some NotGranted =>
      (exists rule policy, applies ps identity path rule policy) /\
      forall rule policy, decisive ps identity path rule policy -> capability ∉ rule_capabilities rule
  | Some Tie =>
      (exists rule policy, decisive ps identity path rule policy /\ capability ∈ rule_capabilities rule) /\
      (exists rule policy, decisive ps identity path rule policy /\ capability ∉ rule_capabilities rule)
  end.
Proof.
  destruct (ps_identity ps identity) as [i|] eqn:Hi; [|unfold evaluate; by rewrite Hi].
  rewrite (evaluate_verdict _ _ i) by done.
  pose proof (verdict_reason (winners_of (matching_rules ps i path)) capability) as H.
  destruct (reason _) as [[]|].
  - done.
  - rewrite (applies_winners _ _ i) by done. naive_solver.
  - rewrite (applies_winners _ _ i), (all_winners _ _ i _ (fun c => capability ∉ c)) by done. tauto.
  - rewrite (some_winner _ _ i _ (fun c => capability ∈ c)),
      (some_winner _ _ i _ (fun c => capability ∉ c)) by done. tauto.
  - unfold permitted.
    rewrite (applies_winners _ _ i), (all_winners _ _ i _ (fun c => capability ∈ c)) by done. tauto.
Qed.

(** A denial is not undone by anything less specific. *)
Theorem denial_beats_less_specific ps identity path capability rule policy :
  applies ps identity path rule policy -> is_denial rule = true ->
  (forall rule' policy', applies ps identity path rule' policy' ->
     capability ∈ rule_capabilities rule' ->
     (specificity (rule_pattern rule') <= specificity (rule_pattern rule))%nat) ->
  is_allowed (evaluate ps identity path capability) = false.
Proof.
  intros Happ Hden Hless. apply not_true_iff_false. rewrite evaluate_permitted. intros [_ Hall].
  apply bool_decide_eq_true in Hden.
  destruct (ps_identity ps identity) as [i|] eqn:Hi.
  2: { destruct Happ as (? & _ & _ & E & _). congruence. }
  assert (matching_rules ps i path <> []) as Hne.
  { intros E. rewrite (applies_known _ _ i), E in Happ by done. set_solver. }
  destruct (most_specific_reached _ Hne) as (r & p & Hin & Hs).
  assert (decisive ps identity path r p) as Hd by by apply (winners_decisive _ _ i), winners_elem.
  assert (capability ∈ rule_capabilities r) as Hc by by eapply Hall.
  specialize (Hless r p (proj1 Hd) Hc).
  assert (decisive ps identity path rule policy) as Hd'.
  { split; [done|]. intros r' p' Hr'. destruct Hd as [_ Hmax]. specialize (Hmax r' p' Hr'). lia. }
  apply Hall in Hd'. rewrite Hden in Hd'. set_solver.
Qed.

Theorem effective_capabilities_spec ps identity path capability :
  capability ∈ effective_capabilities ps identity path <-> permitted ps identity path capability.
Proof.
  unfold effective_capabilities. rewrite elem_of_list_to_set, list_elem_of_In, List.filter_In.
  rewrite <- list_elem_of_In, evaluate_permitted. split; [tauto|].
  intros H. split; [apply capability_ALL_complete|done].
Qed.

Definition example_denial : Rule :=
  mkRule (mkPathPattern [Literal "infra"; Literal "ciphr"; Rest] "infra/ciphr/**") ∅.
Definition example_denied_path : SecretPath := mkSecretPath "infra/ciphr/key".

Definition example_runner : Identity := mkIdentity "deploy-runner" Machine ["infra-read"].

Lemma example_runner_known : ps_identity example_policies "deploy-runner" = Some example_runner.
Proof. vm_compute. reflexivity. Qed.

Lemma example_matching :
  map (fun '(r, p) => (specificity (rule_pattern r), p))
    (matching_rules example_policies example_runner example_denied_path)
    = [(1, "infra-read"); (2, "infra-read")] /\
  (example_denial, "infra-read") ∈ matching_rules example_policies example_runner example_denied_path.
Proof.
  split; [vm_compute; reflexivity|].
  apply list_elem_of_In. right. left. vm_compute. reflexivity.
Qed.

Lemma denial_beats_less_specific_witness :
  applies example_policies "deploy-runner" example_denied_path example_denial "infra-read" /\
  is_allowed (evaluate example_policies "deploy-runner" example_denied_path CapRead) = false.
Proof.
  assert (applies example_policies "deploy-runner" example_denied_path example_denial "infra-read")
    as Happ by (apply (applies_known _ _ _ _ _ _ example_runner_known), example_matching).
  split; [exact Happ|].
  apply (denial_beats_less_specific _ _ _ _ example_denial "infra-read"); [exact Happ|reflexivity|].
  intros r p Hr _. apply (applies_known _ _ _ _ _ _ example_runner_known) in Hr.
  assert ((specificity (rule_pattern r), p) ∈ [(1, "infra-read"); (2, "infra-read")]) as H.
  { rewrite <- (proj1 example_matching). apply list_elem_of_In, in_map_iff.
    exists (r, p). split; [done|]. by apply list_elem_of_In. }
  change (specificity (rule_pattern example_denial)) with 2%nat.
  apply elem_of_cons in H as [[-> _]%pair_equal_spec|H]; [lia|].
  apply elem_of_cons in H as [[-> _]%pair_equal_spec|H]; [lia|]. by apply elem_of_nil in H.
Defined.
