(* ===== verification/Fuzz.v ===== *)
(** * The fuzz targets ([fuzz/fuzz_targets]: path_normalization.rs, pattern_matching.rs,
    policy_file.rs)

    Each target takes bytes and panics where an assertion does not hold.  Here a target
    is a function of the bytes, and what a fuzzer looks for is what the theorem decides:
    which bytes, if any, make it panic. *)

From Stdlib Require Import ZArith NArith Lia Ascii String.
From stdpp Require Import base tactics list strings gmap.
From S2P Require Import Prelude Text Path Pattern Vocabulary PolicyModel Evaluate.

(** ** Targets

    [Err] is the panic of the first assertion that does not hold. *)

Definition target : Type := result string unit.

Definition assert_ (condition : bool) (message : string) : target := if condition then Ok tt else Err message.

(** [.expect(message)] *)
Definition expect {E A} (message : string) (r : result E A) : result string A := map_err (fun _ => message) r.

(** [for x in l] *)
Fixpoint each {A} (l : list A) (body : A -> target) : target :=
  match l with
  | [] => Ok tt
  | x :: l => let? _ := body x in each l body
  end.

(** [for (index, x) in l.iter().enumerate()] *)
Fixpoint each_from {A} (index : nat) (l : list A) (body : nat -> A -> target) : target :=
  match l with
  | [] => Ok tt
  | x :: l => let? _ := body index x in each_from (S index) l body
  end.

Section targets.
Context {U : Unicode}.

(** ** Paths *)

Definition check_segment (text segment : string) : target :=
  let? _ := assert_ (negb (is_empty segment)) ("accepted an empty segment: " ++ str_debug text) in
  let? _ := assert_ (len segment <=? MAX_SEGMENT_LEN)%Z ("accepted an over-long segment: " ++ str_debug text) in
  let? _ := assert_ (negb (String.eqb segment ".")) ("accepted a '.' segment: " ++ str_debug text) in
  let? _ := assert_ (negb (String.eqb segment "..")) ("accepted a '..' segment: " ++ str_debug text) in
  assert_ (negb (existsb (fun c => is_control c || is_whitespace c) (chars segment)))
    ("accepted whitespace or a control character: " ++ str_debug text).

Definition path_normalization (data : bytes) : target :=
  match from_utf8 data with
  | None => Ok tt
  | Some input =>
      match SecretPath_parse input with
      | Err _ => Ok tt
      | Ok path =>
          let text := path_str path in
          let? _ := assert_ (negb (is_empty text)) "accepted an empty path" in
          let? _ := assert_ (len text <=? MAX_PATH_LEN)%Z "accepted an over-long path" in
          let? _ := assert_ (negb (starts_with text "/")) ("accepted a leading slash: " ++ str_debug text) in
          let? _ := assert_ (negb (ends_with text "/")) ("accepted a trailing slash: " ++ str_debug text) in
          let? _ := assert_ (negb (contains_str "//" text)) ("accepted a doubled slash: " ++ str_debug text) in
          let? _ := assert_ (negb (contains "*" text)) ("accepted a wildcard in a path: " ++ str_debug text) in
          let? _ := each (segments path) (check_segment text) in
          let? again := expect "a normalized path must parse" (SecretPath_parse text) in
          let? _ := assert_ (bool_decide (path = again)) ("normalization is not idempotent: " ++ str_debug text) in
          let rejoined := join "/" (segments path) in
          assert_ (String.eqb rejoined text) "segments do not rejoin to the path"
      end
  end.

(** ** Patterns *)

Definition check_wildcard (text : string) (count index : nat) (segment : string) : target :=
  if String.eqb segment "**" then
    assert_ (index =? count - 1)%nat ("accepted '**' before the end: " ++ str_debug text)
  else
    assert_ (String.eqb segment "*" || negb (contains "*" segment)) ("accepted a partial wildcard: " ++ str_debug text).

Definition check_match (pattern : PathPattern) (text : string) (segs : list string) (raw_path : string) : target :=
  match SecretPath_parse raw_path with
  | Err _ => Ok tt
  | Ok path =>
      let matched := matches pattern path in
      let? _ :=
        if matched && negb (existsb (fun segment => String.eqb segment "**") (split_on slash text)) then
          assert_ (segment_count path =? length segs)%nat
            ("matched a path of a different depth without '**': " ++ str_debug text ++ " vs " ++ path_str path)
        else Ok tt in
      if negb (has_wildcard pattern) then
        assert_ (Bool.eqb matched (String.eqb (path_str path) text))
          ("an exact pattern matched something else: " ++ str_debug text ++ " vs " ++ path_str path)
      else Ok tt
  end.

Definition pattern_matching (data : bytes) : target :=
  match from_utf8 data with
  | None => Ok tt
  | Some input =>
      let '(raw_pattern, raw_path) := default (input, EmptyString) (split_once newline input) in
      match PathPattern_parse raw_pattern with
      | Err _ => Ok tt
      | Ok pattern =>
          let text := pat_text pattern in
          let? again := expect "a normalized pattern must parse" (PathPattern_parse text) in
          let? _ := assert_ (bool_decide (pattern = again)) ("pattern parsing is not idempotent: " ++ str_debug text) in
          let segs := split_on slash text in
          let? _ := each_from 0 segs (check_wildcard text (length segs)) in
          let? _ := assert_ (specificity pattern <=? length segs)%nat
            ("specificity exceeds the number of segments: " ++ str_debug text) in
          let? _ := assert_ (Bool.eqb (has_wildcard pattern) (negb (specificity pattern =? length segs)%nat))
            ("has_wildcard disagrees with specificity: " ++ str_debug text) in
          let? _ :=
            if negb (has_wildcard pattern) then
              let? own := expect "a wildcard-free pattern is a valid path" (SecretPath_parse text) in
              let? _ := assert_ (matches pattern own) "an exact pattern must match its path" in
              assert_ (specificity pattern =? segment_count own)%nat "specificity and depth differ"
            else Ok tt in
          check_match pattern text segs raw_path
      end
  end.

(** ** Policy files *)

Definition fuzz_paths : list string :=
  ["a"; "infra/service-a/DB_PASSWORD"; "infra/ciphr/MASTER"; "sys/audit"; "ci/widget/TOKEN"].

Definition check_unknown (policies : PolicySet) (text : string) (path : SecretPath) (capability : Capability) : target :=
  let decision := evaluate policies "does-not-exist" path capability in
  let? _ := assert_ (negb (is_allowed decision))
    ("an unknown identity was allowed " ++ capability_str capability ++ " on " ++ text) in
  assert_ (is_none (decided_by decision)) "a denial for an unknown identity named a rule".

Definition check_decision (policies : PolicySet) (text : string) (path : SecretPath) (identity : Identity)
    (capability : Capability) : target :=
  let decision := evaluate policies (identity_name identity) path capability in
  if is_allowed decision then
    let? rule := ok_or "an allow must name the rule that granted it" (decided_by decision) in
    let? _ := assert_ (negb (is_none (ps_policy policies (mr_policy rule)))) "an allow named a policy that does not exist" in
    assert_ (is_none (reason decision)) "an allow carried a deny reason"
  else assert_ (negb (is_none (reason decision)))
         ("a denial carried no reason for " ++ identity_name identity ++ " on " ++ text).

Definition check_effective (policies : PolicySet) (text : string) (path : SecretPath) (identity : Identity)
    (capability : Capability) : target :=
  assert_ (Bool.eqb (bool_decide (capability ∈ effective_capabilities policies (identity_name identity) path))
             (is_allowed (evaluate policies (identity_name identity) path capability)))
    ("effective_capabilities disagrees with evaluate for " ++ capability_str capability ++ " on " ++ text).

Definition check_identity (policies : PolicySet) (text : string) (path : SecretPath) (identity : Identity) : target :=
  let? _ := each Capability_ALL (check_decision policies text path identity) in
  each Capability_ALL (check_effective policies text path identity).

Definition check_references_of (policies : PolicySet) (identity : Identity) : target :=
  each (identity_policies identity) (fun name =>
    assert_ (negb (is_none (ps_policy policies name)))
      ("identity " ++ identity_name identity ++ " refers to missing policy " ++ name)).

Definition policy_file (toml : string -> result string RawConfig) (data : bytes) : target :=
  match from_utf8 data with
  | None => Ok tt
  | Some input =>
      match PolicySet_from_toml toml input with
      | Err _ => Ok tt
      | Ok policies =>
          let? reloaded := expect "a file that loaded must load again" (PolicySet_from_toml toml input) in
          let? _ := assert_ (bool_decide (policies = reloaded)) "loading the same file twice produced different policy sets" in
          let? _ := each (ps_all_identities policies) (check_references_of policies) in
          each fuzz_paths (fun text =>
            let? path := expect "these are valid paths" (SecretPath_parse text) in
            let? _ := each Capability_ALL (check_unknown policies text path) in
            each (ps_all_identities policies) (check_identity policies text path))
      end
  end.
End targets.

(** ** Lemmas *)

Lemma assert_Ok condition message : assert_ condition message = Ok tt <-> condition = true.
Proof. by destruct condition. Qed.

Lemma each_Ok {A} (l : list A) body : (forall x, x ∈ l -> body x = Ok tt) -> each l body = Ok tt.
Proof.
  induction l as [|x l IH]; intros Hb; [done|]. simpl. rewrite (Hb x) by left. simpl. apply IH. intros y Hy. apply Hb. by right.
Qed.

Lemma each_from_Ok {A} (l : list A) body index :
  (forall k x, l !! k = Some x -> body (index + k) x = Ok tt) -> each_from index l body = Ok tt.
Proof.
  revert index. induction l as [|x l IH]; intros index Hb; [done|]. simpl.
  pose proof (Hb 0 x eq_refl) as H0. rewrite Nat.add_0_r in H0. rewrite H0. simpl. apply IH. intros k y Hy.
  replace (S index + k) with (index + S k) by lia. by apply Hb.
Qed.

(** An assertion that holds is passed. *)
Ltac holds := match goal with |- context [assert_ ?c ?m] =>
  let Hc := fresh in assert (c = true) as Hc; [|rewrite (proj2 (assert_Ok c m) Hc); clear Hc; cbn [res_bind]] end.

Section pass.
Context {U : Unicode} {L : UnicodeLaws U}.

Lemma inspect_chars_plain l : inspect_chars l = Ok tt -> existsb (fun c => is_control c || is_whitespace c) l = false.
Proof.
  induction l as [|c l IH]; [done|]. cbn [inspect_chars existsb]. destruct (is_control c); [done|].
  destruct (is_whitespace c); [done|]. destruct (negb _); [done|]. exact IH.
Qed.

Lemma segment_valid_rules s : segment_valid s ->
  is_empty s = false /\ (len s <= MAX_SEGMENT_LEN)%Z /\ String.eqb s "." = false /\ String.eqb s ".." = false /\
  existsb (fun c => is_control c || is_whitespace c) (chars s) = false /\ contains "*" s = false.
Proof.
  intros [Hi Hs]. unfold inspect_segment in Hi. destruct (is_empty s); [done|].
  destruct (Z.ltb_spec MAX_SEGMENT_LEN (len s)); [done|]. destruct (String.eqb s "."), (String.eqb s ".."); try done.
  split_and!; [done..|by apply inspect_chars_plain|done].
Qed.

Lemma empty_not_valid : ~ segment_valid EmptyString.
Proof. by intros [? _]. Qed.

(** A separator with nothing before it, after it, or between it and the next. *)
Lemma valid_no_empty_piece text a b : Forall segment_valid (split_on slash text) ->
  text = (a ++ String slash b)%string -> a <> EmptyString /\ b <> EmptyString /\ forall b', b <> String slash b'.
Proof.
  intros HF ->. rewrite split_on_app_sep, Forall_app in HF. destruct HF as [Ha Hb]. split_and!.
  - intros ->. apply Forall_cons in Ha as [H _]. by apply empty_not_valid.
  - intros ->. apply Forall_cons in Hb as [H _]. by apply empty_not_valid.
  - intros b' ->. simpl in Hb. apply Forall_cons in Hb as [H _]. by apply empty_not_valid.
Qed.

Lemma contains_str_spec p s : contains_str p s = true -> exists a b, s = (a ++ p ++ b)%string.
Proof.
  induction s as [|c s IH]; cbn [contains_str]; intros [H|H]%orb_true_iff.
  - apply starts_with_spec in H as [b ->]. by exists EmptyString, b.
  - done.
  - apply starts_with_spec in H as [b ->]. by exists EmptyString, b.
  - destruct (IH H) as (a & b & ->). by exists (String c a), b.
Qed.

Lemma contains_pieces c text : c <> slash -> Forall (fun s => contains c s = false) (split_on slash text) -> contains c text = false.
Proof.
  intros Hc HF. rewrite <- (join_split slash text). induction HF as [|s l Hs HF IH]; [done|].
  destruct l as [|t l]; [done|]. change (contains c (s ++ String slash (join (str1 slash) (t :: l))) = false).
  rewrite contains_app, Hs. cbn [contains orb]. rewrite IH, orb_false_r. by apply Ascii.eqb_neq.
Qed.

Lemma path_text_rules p : path_wf p ->
  starts_with (path_str p) "/" = false /\ ends_with (path_str p) "/" = false /\
  contains_str "//" (path_str p) = false /\ contains "*" (path_str p) = false.
Proof.
  intros (Hne & _ & _ & HF). split_and!.
  - apply not_true_iff_false. intros [r E]%starts_with_spec.
    by destruct (valid_no_empty_piece _ EmptyString r HF E) as [? _].
  - apply not_true_iff_false. intros [r E]%starts_with_spec. apply (f_equal str_rev) in E.
    rewrite str_rev_involutive, str_rev_app in E. by destruct (valid_no_empty_piece _ _ EmptyString HF E) as (_ & ? & _).
  - apply not_true_iff_false. intros (a & b & E)%contains_str_spec.
    destruct (valid_no_empty_piece _ a (String slash b) HF E) as (_ & _ & Hn). by apply (Hn b).
  - apply contains_pieces; [done|]. eapply Forall_impl; [exact HF|]. by intros s [_ Hs].
Qed.

Lemma check_segment_passes text s : segment_valid s -> check_segment text s = Ok tt.
Proof.
  intros (H1 & H2 & H3 & H4 & H5 & _)%segment_valid_rules. unfold check_segment.
  rewrite H1, H3, H4, H5. cbn [negb assert_ res_bind]. holds; [by apply Z.leb_le|done].
Qed.

(** No bytes make the path target panic. *)
Lemma path_normalization_passes data : path_normalization data = Ok tt.
Proof.
  unfold path_normalization. destruct (from_utf8 data) as [input|]; [|done].
  destruct (SecretPath_parse input) as [p|e] eqn:Hp; [|done].
  destruct (SecretPath_parse_sound U L input p Hp) as (Hwf & _ & Hp2).
  destruct (path_text_rules p Hwf) as (R1 & R2 & R3 & R4). destruct Hwf as (Hne & Hl & _ & HF).
  rewrite R1, R2, R3, R4, Hp2. cbn [negb assert_ res_bind expect map_err].
  holds; [apply negb_true_iff, not_true_iff_false; by intros E%is_empty_spec|].
  holds; [by apply Z.leb_le|].
  rewrite each_Ok by (intros s Hs; apply check_segment_passes; by eapply Forall_forall in HF).
  cbn [res_bind]. rewrite bool_decide_eq_true_2 by done. cbn [assert_ res_bind].
  apply assert_Ok, String.eqb_eq, join_segments.
Qed.

(** ** Patterns *)

Lemma rest_is_last_at l k : rest_is_last l = true -> l !! k = Some Rest -> k = length l - 1.
Proof.
  revert k. induction l as [|s l IH]; intros k Hr Hk; [done|]. destruct k as [|k]; simpl in Hk.
  - injection Hk as ->. simpl in Hr. destruct l; [done|done].
  - assert (rest_is_last l = true) as Hr' by (destruct s; [done..|by destruct l]). specialize (IH k Hr' Hk).
    assert (k < length l) by by eapply lookup_lt_Some. simpl. lia.
Qed.

Lemma segment_of_text_Rest s : segment_of_text s = Rest <-> s = "**"%string.
Proof.
  unfold segment_of_text. destruct (String.eqb_spec s "*") as [->|]; [done|]. destruct (String.eqb_spec s "**"); [done|].
  by split; [|intros ->].
Qed.

Lemma wildcards_counted l : existsb (fun s => negb (is_literal s)) l = negb (length (List.filter is_literal l) =? length l)%nat.
Proof.
  induction l as [|s l IH]; [done|]. pose proof (List.filter_length_le is_literal l). simpl. destruct (is_literal s); simpl; [exact IH|].
  symmetry. apply negb_true_iff, Nat.eqb_neq. lia.
Qed.

Lemma matches_depth l a : forallb (fun s => negb (bool_decide (s = Rest))) l = true -> matches_loop l a = true -> length a = length l.
Proof.
  revert a. induction l as [|s l IH]; intros [|x a]; simpl; [done..|by destruct s|].
  intros [Hs Hl]%andb_true_iff Hm. f_equal. destruct s; simpl in *; [destruct (negb _); [done|]| |done]; by apply IH.
Qed.

(** A pattern without wildcards is the exact pattern of a path. *)
Lemma no_wildcard_exact p : pattern_wf p -> has_wildcard p = false ->
  let path := mkSecretPath (pat_text p) in path_wf path /\ p = pattern_exact path.
Proof.
  intros (Hne & Hl & Hn & Es & Hr & HF) Hw path.
  assert (map segment_of_text (segments path) = map Literal (segments path) /\ Forall segment_valid (segments path)) as [El Hv].
  { unfold has_wildcard in Hw. rewrite Es in Hw, HF. change (split_on slash (pat_text p)) with (segments path) in *.
    clear Es Hr. induction (segments path) as [|s l IH]; [done|]. simpl in *. apply orb_false_iff in Hw as [Hw1 Hw2].
    apply Forall_cons in HF as [HF1 HF2]. destruct (IH HF2 Hw2) as [E1 E2]. unfold segment_of_text in *.
    destruct (String.eqb s "*"); [done|]. destruct (String.eqb s "**"); [done|]. split; [by f_equal|by constructor]. }
  split; [done|]. destruct p as [segs text]. simpl in *. unfold pattern_exact. f_equal. by rewrite Es, <- El.
Qed.

(** What parsing the text of a pattern without wildcards as a path gives. *)
Lemma exact_own p : pattern_wf p -> has_wildcard p = false ->
  SecretPath_parse (pat_text p) = Ok (mkSecretPath (pat_text p)) /\ specificity p = segment_count (mkSecretPath (pat_text p)) /\
  forall r, matches p r = true <-> r = mkSecretPath (pat_text p).
Proof.
  intros Hwf Hw. destruct (no_wildcard_exact p Hwf Hw) as [Hpath E].
  destruct (pattern_exact_matches U _ Hpath) as (_ & Hs & _ & Hm). rewrite <- E in Hs, Hm. split_and!; [|done..].
  apply SecretPath_parse_Ok. destruct Hpath as (Hne & Hl & Hn & HF). simpl in *. split_and!; [by rewrite Hn|done..].
Qed.

Lemma check_wildcard_passes p k s : pattern_wf p -> split_on slash (pat_text p) !! k = Some s ->
  check_wildcard (pat_text p) (length (split_on slash (pat_text p))) k s = Ok tt.
Proof.
  intros (_ & _ & _ & Es & Hr & HF) Hk. unfold check_wildcard.
  assert (pat_segments p !! k = Some (segment_of_text s)) as Hk' by (rewrite Es, list_lookup_fmap, Hk; done).
  destruct (String.eqb_spec s "**") as [->|Hne]; apply assert_Ok.
  - apply Nat.eqb_eq. rewrite (rest_is_last_at _ _ Hr Hk'), Es. by rewrite length_map.
  - destruct (String.eqb_spec s "*") as [->|Hne']; [done|]. simpl. apply negb_true_iff.
    assert (segment_of_text s = Literal s) as Hs.
    { unfold segment_of_text. rewrite (proj2 (String.eqb_neq _ _) Hne'), (proj2 (String.eqb_neq _ _) Hne). done. }
    rewrite Hs in Hk'. eapply Forall_lookup_1 in HF; [|exact Hk']. by destruct HF.
Qed.

Lemma check_match_passes p raw : pattern_wf p -> check_match p (pat_text p) (split_on slash (pat_text p)) raw = Ok tt.
Proof.
  intros Hwf. unfold check_match. destruct (SecretPath_parse raw) as [path|e]; [|done].
  match goal with |- (let? _ := ?m in _) = _ => assert (m = Ok tt) as ->; [|cbn [res_bind]] end.
  - destruct (matches p path) eqn:Hm; [|done]. destruct (existsb _ _) eqn:Hx; [done|]. apply assert_Ok, Nat.eqb_eq.
    unfold segment_count. rewrite (matches_depth (pat_segments p) (segments path)); [| |done].
    + destruct Hwf as (_ & _ & _ & -> & _). by rewrite length_map.
    + destruct Hwf as (_ & _ & _ & -> & _). apply forallb_forall. intros x (s & <- & Hs)%in_map_iff.
      apply negb_true_iff, bool_decide_eq_false. intros E%segment_of_text_Rest. apply not_true_iff_false in Hx. apply Hx.
      apply List.existsb_exists. exists s. split; [done|by rewrite E].
  - destruct (has_wildcard p) eqn:Hw; [done|]. destruct (exact_own p Hwf Hw) as (_ & _ & Hm). apply assert_Ok, eqb_true_iff.
    destruct (String.eqb_spec (path_str path) (pat_text p)) as [E|Hne].
    + apply Hm. destruct path. simpl in E. by subst.
    + apply not_true_iff_false. intros ->%Hm. by apply Hne.
Qed.

(** No bytes make the pattern target panic. *)
Lemma pattern_matching_passes data : pattern_matching data = Ok tt.
Proof.
  unfold pattern_matching. destruct (from_utf8 data) as [input|]; [|done].
  destruct (default _ (split_once newline input)) as [raw_pattern raw_path].
  destruct (PathPattern_parse raw_pattern) as [p|e] eqn:Hp; [|done].
  destruct (pattern_parse_matches U L raw_pattern p Hp) as (Hwf & Hp2 & _). cbv zeta. rewrite Hp2. cbn [expect map_err res_bind].
  assert (length (split_on slash (pat_text p)) = length (pat_segments p)) as Hlen.
  { destruct Hwf as (_ & _ & _ & -> & _). by rewrite length_map. }
  rewrite bool_decide_eq_true_2 by done. cbn [assert_ res_bind].
  rewrite each_from_Ok by (intros k x Hk; by apply check_wildcard_passes). cbn [res_bind].
  holds; [rewrite Hlen; apply Nat.leb_le, List.filter_length_le|].
  holds; [apply eqb_true_iff; rewrite Hlen; apply wildcards_counted|].
  destruct (has_wildcard p) eqn:Hw; cbn [negb res_bind]; [by apply check_match_passes|].
  destruct (exact_own p Hwf Hw) as (Hown & Hs & Hm). rewrite Hown. cbn [expect map_err res_bind]. rewrite (proj2 (Hm _) eq_refl).
  cbn [assert_ res_bind]. rewrite Hs, Nat.eqb_refl. cbn [assert_ res_bind]. by apply check_match_passes.
Qed.

(** ** Policy files *)

Lemma check_decision_passes policies text path identity capability : policy_set_wf policies ->
  check_decision policies text path identity capability = Ok tt.
Proof.
  intros [Hpol _]. unfold check_decision.
  destruct (ps_identity policies (identity_name identity)) as [i|] eqn:Hi.
  2: { unfold evaluate. by rewrite Hi. }
  rewrite (evaluate_verdict _ _ i) by done. unfold verdict.
  destruct (winners_of (matching_rules policies i path)) as [|[r name] ws] eqn:Hws; [done|].
  destruct (_ =? _)%nat; [|done]. cbn [is_allowed effect decision_allow decided_by ok_or res_bind reason describe mr_policy].
  assert ((r, name) ∈ matching_rules policies i path) as Hin.
  { apply (winners_elem _ r name). rewrite Hws. by left. }
  apply matching_rules_elem in Hin as (n & q & _ & Hq & -> & _). apply Hpol in Hq as Hqw. destruct Hqw as (En & _).
  rewrite En. by rewrite Hq.
Qed.

Lemma check_effective_passes policies text path identity capability :
  check_effective policies text path identity capability = Ok tt.
Proof.
  apply assert_Ok, eqb_true_iff, eq_true_iff_eq. rewrite bool_decide_eq_true, effective_capabilities_spec.
  by rewrite evaluate_permitted.
Qed.

Lemma check_identity_passes policies text path identity : policy_set_wf policies ->
  check_identity policies text path identity = Ok tt.
Proof.
  intros Hwf. unfold check_identity. rewrite each_Ok by (intros c _; by apply check_decision_passes).
  apply each_Ok. intros c _. apply check_effective_passes.
Qed.

Lemma check_references_pass policies identity : policy_set_wf policies -> identity ∈ ps_all_identities policies ->
  check_references_of policies identity = Ok tt.
Proof.
  intros [_ Hids] Hin. apply each_Ok. intros name Hname. apply assert_Ok.
  unfold ps_all_identities, values_by_key in Hin. apply elem_of_map in Hin as ([k i] & -> & Hin).
  rewrite sort_by_perm in Hin. apply elem_of_map_to_list, Hids in Hin as (_ & _ & HF). eapply Forall_forall in HF; [|exact Hname].
  unfold ps_policy. by destruct HF as [q ->].
Qed.

Lemma check_unknown_passes policies text path capability : ps_identity policies "does-not-exist" = None ->
  check_unknown policies text path capability = Ok tt.
Proof. intros Hn. unfold check_unknown, evaluate. by rewrite Hn. Qed.

(** ASCII text is in normal form. *)
Definition nfc_ascii : Prop := forall s, forallb (fun c => (N_of_ascii c <? 128)%N) (as_bytes s) = true -> nfc s = s.

Lemma fuzz_paths_parse text : nfc_ascii -> text ∈ fuzz_paths -> is_Some (res_ok (SecretPath_parse text)).
Proof.
  intros Ha Hin. unfold SecretPath_parse.
  assert (normalize text = text) as ->.
  { rewrite normalize_nfc by done. apply Ha. unfold fuzz_paths in Hin. set_unfold in Hin. by destruct_or!; subst. }
  unfold fuzz_paths in Hin. set_unfold in Hin. destruct_or!; try done; subst; by eexists.
Qed.

(** A policy file makes its target panic at most where it defines the identity that the
    target takes for one no file defines. *)
Lemma policy_file_passes toml data input policies : nfc_ascii ->
  from_utf8 data = Some input -> PolicySet_from_toml toml input = Ok policies ->
  ps_identity policies "does-not-exist" = None -> policy_file toml data = Ok tt.
Proof.
  intros Ha Hd Hl Hn. assert (policy_set_wf policies) as Hwf by by eapply from_toml_loads.
  unfold policy_file. rewrite Hd, Hl. cbn [expect map_err res_bind].
  rewrite bool_decide_eq_true_2 by done. cbn [assert_ res_bind].
  rewrite each_Ok by (intros i Hi; by apply check_references_pass). cbn [res_bind].
  apply each_Ok. intros text Ht. destruct (fuzz_paths_parse text Ha Ht) as [path Hp].
  destruct (SecretPath_parse text) as [path'|]; [|done]. cbn [expect map_err res_bind].
  rewrite each_Ok by (intros c _; by apply check_unknown_passes). cbn [res_bind].
  apply each_Ok. intros i _. by apply check_identity_passes.
Qed.
End pass.

(** ** Properties *)

(** C28: No bytes make a fuzz target panic, but for one kind: whatever a fuzzer feeds them,
    every assertion of the path and the pattern target holds, and so does every one
    of the policy target unless the file it loads defines the very identity that the
    target expects no file to define. *)
Theorem fuzz_targets_pass (U : Unicode) (L : UnicodeLaws U) toml data : nfc_ascii ->
  path_normalization data = Ok tt /\ pattern_matching data = Ok tt /\
  (policy_file toml data = Ok tt \/
   exists input policies, from_utf8 data = Some input /\ PolicySet_from_toml toml input = Ok policies /\
     is_Some (ps_identity policies "does-not-exist")).
Proof.
  intros Ha. split_and!; [apply path_normalization_passes|apply pattern_matching_passes|].
  destruct (from_utf8 data) as [input|] eqn:Hd; [|left; unfold policy_file; by rewrite Hd].
  destruct (PolicySet_from_toml toml input) as [policies|e] eqn:Hl; [|left; unfold policy_file; by rewrite Hd, Hl].
  destruct (ps_identity policies "does-not-exist") eqn:Hn; [right|left; by eapply policy_file_passes].
  exists input, policies. by rewrite Hn.
Qed.

Lemma fuzz_targets_pass_witness :
  path_normalization (U := ascii_unicode) (as_bytes "infra/a/DB") = Ok tt /\
  pattern_matching (U := ascii_unicode) (as_bytes "infra/a/DB") = Ok tt /\
  (policy_file (U := ascii_unicode) (fun _ => Ok example_raw) (as_bytes "infra/a/DB") = Ok tt \/
   exists input policies, from_utf8 (as_bytes "infra/a/DB") = Some input /\
     PolicySet_from_toml (U := ascii_unicode) (fun _ => Ok example_raw) input = Ok policies /\
     is_Some (ps_identity policies "does-not-exist")).
Proof. apply (fuzz_targets_pass ascii_unicode ascii_unicode_laws). intros s _. reflexivity. Defined.

(** The targets do load, match and decide something here. *)
Example fuzz_runs :
  policy_file (U := ascii_unicode) (fun _ => Ok example_raw) (as_bytes "policies") = Ok tt /\
  pattern_matching (U := ascii_unicode) (as_bytes ("infra/*/DB" ++ str1 newline ++ "infra/a/DB")) = Ok tt.
Proof. vm_compute. done. Qed.

(** A well-formed file with an identity of that name: the target reports a fault of the
    loader where there is none. *)
Example fuzz_false_alarm :
  policy_file (U := ascii_unicode)
    (fun _ => Ok {| raw_identity := [mkRawIdentity "does-not-exist" "machine" ["all"]];
                    raw_policy := [mkRawPolicy "all" [mkRawRule "**" ["read"]]] |}) (as_bytes "policies") =
    Err "an unknown identity was allowed read on a"%string.
Proof. vm_compute. reflexivity. Qed.
