(* ===== verification/Crypto.v ===== *)
(** * Keys, the envelope and the seal ([ciphr-crypto]: key.rs, envelope.rs,
    seal.rs, error.rs; and [open_credential] of ciphr-core/src/file_mode.rs)

    AES-256-GCM and the operating system's generator are third-party code: they
    are the classes [Aead] and [Entropy], with what the code relies on in
    [AeadLaws] and [EntropyLaws].  What this file proves is what the envelope
    itself adds: what is opened is what was sealed, and a value moved to another
    path, version or data key does not open. *)

From Stdlib Require Import ZArith NArith Lia Ascii String.
From stdpp Require Import base tactics list strings.
From S2P Require Import Prelude Text Hex Path Vocabulary.

Inductive CryptoError : Type :=
| Aead_
| Entropy_
| KeyLength (expected found : Z)
| Encoding (reason : HexError)
| RootKeyIdMismatch
| MasterKeyMissing (variable : string)
| MasterKeyNotUnicode (variable : string)
| MasterKeyFileUnreadable (path reason : string)
| MasterKeyFileWorldAccessible (path : string) (mode : Z) (access : WorldAccess)
| TokenFormat.

(** ** The environment *)

(** [Aes256Gcm] under a 32-byte key and a 12-byte nonce. *)
Class Aead : Type := {
  aead_encrypt : bytes -> bytes -> bytes -> bytes -> option bytes;
  aead_decrypt : bytes -> bytes -> bytes -> bytes -> option bytes;
}.

(** Decryption inverts encryption, and the tag check accepts nothing but the
    encryption of what it returns. *)
Class AeadLaws (A : Aead) : Prop := {
  aead_opens : forall k n a m c, aead_encrypt k n a m = Some c -> aead_decrypt k n a c = Some m;
  aead_sealed : forall k n a m c, aead_decrypt k n a c = Some m -> aead_encrypt k n a m = Some c;
}.

(** [getrandom::fill] on a buffer of the given length. *)
Class Entropy : Type := {
  rng : Type;
  getrandom_fill : nat -> rng -> option bytes * rng;
}.

Class EntropyLaws (E : Entropy) : Prop :=
  getrandom_length : forall n r b r', getrandom_fill n r = (Some b, r') -> length b = n.

(** ** Keys (key.rs) *)

Definition KEY_LEN : nat := 32.
Definition ID_LEN : nat := 16.
Definition NONCE_LEN : nat := 12.

Record MasterKey : Type := mkMasterKey { master_bytes : bytes }.
Record RootKey : Type := mkRootKey { root_bytes : bytes }.
Record Dek : Type := mkDek { dek_bytes : bytes }.
Record RootKeyId : Type := mkRootKeyId { root_id_bytes : bytes }.
Record DekId : Type := mkDekId { dek_id_bytes : bytes }.

(** [from_hex] of the two macros: a fixed-size buffer filled by [decode_into]. *)
Definition fixed_from_hex (n : nat) (input : string) : result CryptoError bytes :=
  match hex_decode_into input (zeroed n) with
  | (Ok _, out) => Ok out
  | (Err reason, _) => Err (Encoding reason)
  end.

Definition MasterKey_from_hex (input : string) : result CryptoError MasterKey :=
  res_map mkMasterKey (fixed_from_hex KEY_LEN input).
Definition RootKey_from_hex (input : string) : result CryptoError RootKey :=
  res_map mkRootKey (fixed_from_hex KEY_LEN input).
Definition RootKeyId_to_hex (id : RootKeyId) : string := hex_encode (root_id_bytes id).
Definition RootKeyId_from_hex (input : string) : result CryptoError RootKeyId :=
  res_map mkRootKeyId (fixed_from_hex ID_LEN input).
Definition DekId_to_hex (id : DekId) : string := hex_encode (dek_id_bytes id).
Definition DekId_from_hex (input : string) : result CryptoError DekId :=
  res_map mkDekId (fixed_from_hex ID_LEN input).

Section entropy.
Context {En : Entropy}.

Definition random_bytes (n : nat) : stm rng CryptoError bytes :=
  fun r => let '(b, r') := getrandom_fill n r in (ok_or Entropy_ b, r').

Definition MasterKey_generate : stm rng CryptoError MasterKey :=
  let! b := random_bytes KEY_LEN in mret (mkMasterKey b).
Definition RootKey_generate : stm rng CryptoError RootKey :=
  let! b := random_bytes KEY_LEN in mret (mkRootKey b).
Definition Dek_generate : stm rng CryptoError Dek :=
  let! b := random_bytes KEY_LEN in mret (mkDek b).
Definition RootKeyId_generate : stm rng CryptoError RootKeyId :=
  let! b := random_bytes ID_LEN in mret (mkRootKeyId b).
Definition DekId_generate : stm rng CryptoError DekId :=
  let! b := random_bytes ID_LEN in mret (mkDekId b).
Definition random_nonce : stm rng CryptoError bytes := random_bytes NONCE_LEN.
End entropy.

(** ** The envelope (envelope.rs) *)

Definition Plaintext : Type := bytes.

Definition AAD_ROOT_KEY : bytes := as_bytes "ciphr/root-key/v1".
Definition AAD_DEK : bytes := as_bytes "ciphr/dek/v1".
Definition AAD_VALUE : bytes := as_bytes "ciphr/value/v1".

Record WrappedRootKey : Type := mkWrappedRootKey {
  wrapped_id : RootKeyId;
  wrapped_nonce : bytes;
  wrapped_ciphertext : bytes;
}.

Record EncryptedValue : Type := mkEncryptedValue {
  ev_dek_id : DekId;
  ev_dek_nonce : bytes;
  ev_wrapped_dek : bytes;
  ev_value_nonce : bytes;
  ev_ciphertext : bytes;
}.

Definition root_key_aad (id : RootKeyId) : bytes := AAD_ROOT_KEY ++ root_id_bytes id.
Definition dek_aad (id : DekId) : bytes := AAD_DEK ++ dek_id_bytes id.

Definition value_aad (path : SecretPath) (version : SecretVersion) (dek_id : DekId) : bytes :=
  let text := as_bytes (path_str path) in
  let path_len := default u32_max (u32_try_from (Z.of_nat (length text))) in
  AAD_VALUE ++ u32_be_bytes path_len ++ text ++ version_be_bytes version ++ dek_id_bytes dek_id.

Record ValueMaterial : Type := mkValueMaterial {
  vm_dek : Dek;
  vm_dek_id : DekId;
  vm_dek_nonce : bytes;
  vm_value_nonce : bytes;
}.

Section envelope.
Context {A : Aead}.

(** [Aes256Gcm::new_from_slice] refuses a key that is not 32 bytes. *)
Definition seal (key nonce aad plaintext : bytes) : result CryptoError bytes :=
  if bool_decide (length key = KEY_LEN) then ok_or Aead_ (aead_encrypt key nonce aad plaintext)
  else Err (KeyLength (Z.of_nat KEY_LEN) (Z.of_nat (length key))).

Definition open (key nonce aad ciphertext : bytes) : result CryptoError bytes :=
  if bool_decide (length key = KEY_LEN) then ok_or Aead_ (aead_decrypt key nonce aad ciphertext)
  else Err (KeyLength (Z.of_nat KEY_LEN) (Z.of_nat (length key))).

Definition wrap_root_key_with (master : MasterKey) (root : RootKey) (id : RootKeyId) (nonce : bytes)
    : result CryptoError WrappedRootKey :=
  let? ciphertext := seal (master_bytes master) nonce (root_key_aad id) (root_bytes root) in
  Ok (mkWrappedRootKey id nonce ciphertext).

Definition unwrap_root_key (master : MasterKey) (wrapped : WrappedRootKey)
    : result CryptoError RootKey :=
  let? key := open (master_bytes master) (wrapped_nonce wrapped)
                (root_key_aad (wrapped_id wrapped)) (wrapped_ciphertext wrapped) in
  if bool_decide (length key = KEY_LEN) then Ok (mkRootKey key) else Err Aead_.

Definition encrypt_with (root : RootKey) (path : SecretPath) (version : SecretVersion)
    (plaintext : Plaintext) (m : ValueMaterial) : result CryptoError EncryptedValue :=
  let? wrapped_dek := seal (root_bytes root) (vm_dek_nonce m) (dek_aad (vm_dek_id m))
                        (dek_bytes (vm_dek m)) in
  let? ciphertext := seal (dek_bytes (vm_dek m)) (vm_value_nonce m)
                       (value_aad path version (vm_dek_id m)) plaintext in
  Ok (mkEncryptedValue (vm_dek_id m) (vm_dek_nonce m) wrapped_dek (vm_value_nonce m) ciphertext).

Definition unwrap_dek (root : RootKey) (value : EncryptedValue) : result CryptoError Dek :=
  let? key := open (root_bytes root) (ev_dek_nonce value) (dek_aad (ev_dek_id value))
                (ev_wrapped_dek value) in
  if bool_decide (length key = KEY_LEN) then Ok (mkDek key) else Err Aead_.

Definition decrypt (root : RootKey) (path : SecretPath) (version : SecretVersion)
    (value : EncryptedValue) : result CryptoError Plaintext :=
  let? dek := unwrap_dek root value in
  open (dek_bytes dek) (ev_value_nonce value)
    (value_aad path version (ev_dek_id value)) (ev_ciphertext value).

Context {En : Entropy}.

Definition wrap_root_key (master : MasterKey) (root : RootKey) (id : RootKeyId)
    : stm rng CryptoError WrappedRootKey :=
  let! nonce := random_nonce in mlift (wrap_root_key_with master root id nonce).

Definition encrypt (root : RootKey) (path : SecretPath) (version : SecretVersion)
    (plaintext : Plaintext) : stm rng CryptoError EncryptedValue :=
  let! dek := Dek_generate in
  let! dek_id := DekId_generate in
  let! dek_nonce := random_nonce in
  let! value_nonce := random_nonce in
  mlift (encrypt_with root path version plaintext
           (mkValueMaterial dek dek_id dek_nonce value_nonce)).
End envelope.

(** ** The seal (seal.rs) *)

(** The trait: [rewrap] draws a nonce. *)
Class Seal {En : Entropy} (S : Type) : Type := {
  seal_id : S -> string;
  unseal : S -> WrappedRootKey -> result CryptoError RootKey;
  rewrap : S -> RootKey -> RootKeyId -> stm rng CryptoError WrappedRootKey;
}.

(** What one seal promises a caller: whatever it wraps, it unwraps. *)
Class SealLaws {En : Entropy} (S : Type) `{!Seal S} : Prop :=
  unseal_rewrap : forall (s : S) root id r wrapped r', length (root_bytes root) = KEY_LEN ->
    rewrap s root id r = (Ok wrapped, r') -> unseal s wrapped = Ok root.

Inductive KeySource : Type :=
| Environment (variable : string)
| KeyFile (path : string)
| Supplied (label : string).

Definition key_source_kind (s : KeySource) : string :=
  match s with Environment _ => "env" | KeyFile _ => "file" | Supplied _ => "supplied" end.

Record StaticSeal : Type := mkStaticSeal { seal_source : KeySource; seal_master : MasterKey }.

Definition STATIC_ID : string := "static".
Definition LEGACY_ENV_ID : string := "static_env".

Definition recognizes (id : string) : bool :=
  String.eqb id STATIC_ID || String.eqb id LEGACY_ENV_ID.

(** [std::env::var] *)
Inductive env_var : Type := VarPresent (value : string) | VarNotPresent | VarNotUnicode.

Definition StaticSeal_from_env (env : string -> env_var) (variable : string)
    : result CryptoError StaticSeal :=
  match env variable with
  | VarNotPresent => Err (MasterKeyMissing variable)
  | VarNotUnicode => Err (MasterKeyNotUnicode variable)
  | VarPresent value =>
      let? master := MasterKey_from_hex (trim value) in
      Ok (mkStaticSeal (Environment variable) master)
  end.

(** The file system as the standard library answers for it: opening a name gives
    a descriptor, and metadata and content are read from that descriptor; each
    step may fail with an [ErrorKind], which is its text. *)
Record Metadata : Type := mkMetadata { md_is_file : bool; md_mode : Z }.
Record Descriptor : Type := mkDescriptor {
  fd_metadata : result string Metadata;
  fd_read : result string string;
}.
Definition filesystem : Type := string -> result string Descriptor.

Record Credential : Type := mkCredential {
  cred_file : Descriptor;
  cred_mode : option Z;
  cred_world : option WorldAccess;
}.
Inductive CredentialError : Type := CredentialIo (kind : string) | NotARegularFile.

Definition credential_reason (e : CredentialError) : string :=
  match e with CredentialIo kind => kind | NotARegularFile => "not a regular file" end.

(** The Unix build. *)
Definition open_credential (fs : filesystem) (path : string) : result CredentialError Credential :=
  let? file := map_err CredentialIo (fs path) in
  let? metadata := map_err CredentialIo (fd_metadata file) in
  if negb (md_is_file metadata) then Err NotARegularFile
  else
    let mode := Some (Z.land (md_mode metadata) 511) in
    Ok (mkCredential file mode (mode ≫= WorldAccess_of)).

Definition StaticSeal_from_file (fs : filesystem) (path : string) : result CryptoError StaticSeal :=
  let? credential :=
    map_err (fun e => MasterKeyFileUnreadable path (credential_reason e)) (open_credential fs path) in
  match cred_world credential with
  | Some access => Err (MasterKeyFileWorldAccessible path (default 0%Z (cred_mode credential)) access)
  | None =>
      let? value := map_err (MasterKeyFileUnreadable path) (fd_read (cred_file credential)) in
      let? master := MasterKey_from_hex (trim value) in
      Ok (mkStaticSeal (KeyFile path) master)
  end.

#[export] Instance StaticSeal_seal {A : Aead} {En : Entropy} : Seal StaticSeal := {
  seal_id _ := STATIC_ID;
  unseal s wrapped := unwrap_root_key (seal_master s) wrapped;
  rewrap s root id := wrap_root_key (seal_master s) root id;
}.

(** ** What a refusal says (error.rs) *)

(** [{:o}] and [{:04o}] of a non-negative integer below [8^fuel]. *)
Fixpoint octal (fuel : nat) (z : Z) : string :=
  match fuel with
  | O => EmptyString
  | S fuel => (if (z <? 8)%Z then EmptyString else octal fuel (z / 8)) ++ dec (z mod 8)
  end.
Definition octal_padded (w : nat) (z : Z) : string :=
  let s := octal 32 z in (zeros (w - String.length s) ++ s)%string.

Definition BIND_MOUNT_HINT : string :=
  ". Mode 0777 exactly is also what a bind mount from a filesystem without Unix permissions reports — a Windows or macOS host, or a CIFS share — whatever the file is on that host. If that is what happened, move the file into a named volume rather than relaxing this check".

Definition crypto_error_display (e : CryptoError) : string :=
  match e with
  | Aead_ => "authenticated decryption failed"
  | Entropy_ => "the operating system provided no randomness"
  | KeyLength expected found =>
      "expected a " ++ dec expected ++ "-byte key, found " ++ dec found ++ " bytes"
  | Encoding reason => "invalid hexadecimal: " ++ hex_error_display reason
  | RootKeyIdMismatch => "the sealed root key carries an unexpected identifier"
  | MasterKeyMissing variable => "environment variable " ++ variable ++ " is not set"
  | MasterKeyNotUnicode variable => "environment variable " ++ variable ++ " is not valid Unicode"
  | MasterKeyFileUnreadable path reason =>
      "cannot read the master key file " ++ path ++ ": " ++ reason
  | MasterKeyFileWorldAccessible path mode access =>
      "the master key file " ++ path ++ " is mode " ++ octal_padded 4 mode ++ " and "
        ++ world_access_description access
        ++ "; restrict it to its owner (and group, if a service needs it)"
        ++ (if (mode =? BIND_MOUNT_MODE)%Z then BIND_MOUNT_HINT else EmptyString)
  | TokenFormat => "not a valid token"
  end.

(** ** Lemmas *)

Lemma u32_be_bytes_length z : length (u32_be_bytes z) = 4%nat.
Proof. reflexivity. Qed.

Lemma app_inj_len {A} (a b c d : list A) :
  length a = length c -> a ++ b = c ++ d -> a = c /\ b = d.
Proof. intros H E. by apply app_inj_1. Qed.

Lemma path_len_field p :
  (len (path_str p) <= u32_max)%Z ->
  default u32_max (u32_try_from (Z.of_nat (length (as_bytes (path_str p))))) = len (path_str p).
Proof.
  intros H. rewrite length_as_bytes. fold (len (path_str p)). unfold u32_try_from.
  pose proof (len_nonneg (path_str p)).
  rewrite (proj2 (Z.leb_le 0 _)), (proj2 (Z.leb_le _ u32_max)) by done. done.
Qed.

Section envelope_lemmas.
Context {A : Aead} {HA : AeadLaws A}.

Lemma seal_Ok key n a m c :
  seal key n a m = Ok c <-> length key = KEY_LEN /\ aead_encrypt key n a m = Some c.
Proof.
  unfold seal. case_bool_decide; [rewrite ok_or_Ok; tauto|]. split; [done|tauto].
Qed.

Lemma open_Ok key n a m c :
  open key n a c = Ok m <-> length key = KEY_LEN /\ aead_decrypt key n a c = Some m.
Proof.
  unfold open. case_bool_decide; [rewrite ok_or_Ok; tauto|]. split; [done|tauto].
Qed.

Lemma open_seal key n a m c : seal key n a m = Ok c -> open key n a c = Ok m.
Proof. rewrite seal_Ok, open_Ok. intros [? ?%aead_opens]. done. Qed.

Lemma seal_open key n a m c : open key n a c = Ok m -> seal key n a m = Ok c.
Proof. rewrite seal_Ok, open_Ok. intros [? ?%aead_sealed]. done. Qed.

Lemma decrypt_encrypt_with root path version m mat v :
  encrypt_with root path version m mat = Ok v -> decrypt root path version v = Ok m.
Proof.
  unfold encrypt_with, decrypt, unwrap_dek. intros H. run_ok.
  injection H as <-. simpl. rewrite (open_seal _ _ _ _ _ Hres). simpl.
  apply seal_Ok in Hres0 as Hl. rewrite bool_decide_eq_true_2 by apply Hl. simpl.
  by apply open_seal.
Qed.

Lemma unwrap_wrap_with master root id nonce w :
  length (root_bytes root) = KEY_LEN ->
  wrap_root_key_with master root id nonce = Ok w -> unwrap_root_key master w = Ok root.
Proof.
  unfold wrap_root_key_with, unwrap_root_key. intros Hl H. run_ok. injection H as <-. simpl.
  rewrite (open_seal _ _ _ _ _ Hres). simpl. rewrite bool_decide_eq_true_2 by done.
  by destruct root.
Qed.

Lemma decrypt_Ok root path version v m :
  decrypt root path version v = Ok m <->
  exists dek, unwrap_dek root v = Ok dek /\
    seal (dek_bytes dek) (ev_value_nonce v) (value_aad path version (ev_dek_id v)) m
      = Ok (ev_ciphertext v).
Proof.
  unfold decrypt. rewrite res_bind_Ok. split.
  - intros (dek & Hd & H). exists dek. split; [done|]. by apply seal_open.
  - intros (dek & Hd & H). exists dek. split; [done|]. by apply open_seal.
Qed.
End envelope_lemmas.

(** ** Properties *)

(** The associated data of a value determines its path, its version and its
    data key: no two different places share it. *)
Theorem value_aad_injective p v d p' v' d' :
  (len (path_str p) <= u32_max)%Z -> (len (path_str p') <= u32_max)%Z ->
  version_wf v -> version_wf v' ->
  value_aad p v d = value_aad p' v' d' -> p = p' /\ v = v' /\ d = d'.
Proof.
  intros Hp Hp' Hv Hv'. unfold value_aad. cbn zeta. rewrite !path_len_field by done.
  intros [E1 E]%app_inv_head%app_inj_len; [|reflexivity].
  apply u32_be_bytes_inj in E1;
    [|pose proof (len_nonneg (path_str p)); unfold u32_max in *; lia
     |pose proof (len_nonneg (path_str p')); unfold u32_max in *; lia].
  apply app_inj_len in E as [Et E]; [|rewrite !length_as_bytes; unfold len in E1; lia].
  apply app_inj_len in E as [Ev Ed]; [|reflexivity].
  apply u32_be_bytes_inj in Ev; [|unfold version_wf, u32_max in *; lia..].
  split_and!.
  - destruct p as [s], p' as [s']. simpl in *. f_equal.
    by rewrite <- (str_of_as s), <- (str_of_as s'), Et.
  - destruct v, v'. simpl in *. by f_equal.
  - destruct d, d'. simpl in *. by f_equal.
Qed.

Lemma encrypt_decrypts {A : Aead} {En : Entropy} : AeadLaws A -> forall root path version plaintext r value,
  fst (encrypt root path version plaintext r) = Ok value -> decrypt root path version value = Ok plaintext.
Proof.
  intros HA root path version plaintext r value H. destruct (encrypt root path version plaintext r) as [res r'] eqn:E.
  simpl in H. subst res. unfold encrypt in E. run_ok. unfold mlift in E. apply pair_equal_spec in E as [E _].
  by eapply decrypt_encrypt_with.
Qed.

(** C23: What was encrypted for a path and version decrypts, for that path and
    version, to exactly what was given. *)
Theorem decrypt_encrypt {A : Aead} {En : Entropy} :
  AeadLaws A -> forall root path version plaintext r value r',
  encrypt root path version plaintext r = (Ok value, r') ->
  decrypt root path version value = Ok plaintext.
Proof. intros HA root path version plaintext r value r' H. apply (encrypt_decrypts HA _ _ _ _ r). by rewrite H. Qed.

(** C22: A value opens at one path and version only.  Were it to open at two, the
    cipher would have accepted one ciphertext under one key and nonce with two
    different associated data: the forgery is exhibited. *)
Theorem decrypt_binds_place {A : Aead} :
  AeadLaws A -> forall root value p v m p' v' m',
  (len (path_str p) <= u32_max)%Z -> (len (path_str p') <= u32_max)%Z ->
  version_wf v -> version_wf v' ->
  decrypt root p v value = Ok m -> decrypt root p' v' value = Ok m' ->
  (p = p' /\ v = v' /\ m = m') \/
  exists key nonce aad aad' c, aad <> aad' /\
    aead_encrypt key nonce aad m = Some c /\ aead_encrypt key nonce aad' m' = Some c.
Proof.
  intros HA root value p v m p' v' m' Hp Hp' Hv Hv' H H'.
  destruct (decide (p = p' /\ v = v')) as [[<- <-]|Hne].
  - left. rewrite H in H'. injection H' as <-. done.
  - right. apply decrypt_Ok in H as (dek & Hd & Hs). apply decrypt_Ok in H' as (dek' & Hd' & Hs').
    rewrite Hd in Hd'. injection Hd' as <-. apply seal_Ok in Hs as [_ Hs], Hs' as [_ Hs'].
    do 5 eexists. split; [|split; [exact Hs|exact Hs']].
    intros E. apply value_aad_injective in E; naive_solver.
Qed.

(** The static seal keeps the promise of the interface. *)
#[export] Instance StaticSeal_laws {A : Aead} {En : Entropy} :
  AeadLaws A -> SealLaws StaticSeal.
Proof.
  intros HA s root id r w r' Hl H. simpl in *. unfold wrap_root_key in H. run_ok.
  unfold mlift in H. apply pair_equal_spec in H as [H _]. by eapply unwrap_wrap_with.
Qed.

(** A master key is only ever taken from a regular file that nobody outside the
    owner and group may read or write, and it is the text of the file that was
    inspected. *)
Theorem master_key_file_safe fs path s :
  StaticSeal_from_file fs path = Ok s ->
  exists fd md text, fs path = Ok fd /\ fd_metadata fd = Ok md /\ md_is_file md = true /\
    Z.land (md_mode md) 6 = 0%Z /\ fd_read fd = Ok text /\
    MasterKey_from_hex (trim text) = Ok (seal_master s).
Proof.
  unfold StaticSeal_from_file, open_credential. intros H. run_ok.
  destruct (md_is_file v1) eqn:Hf; [|done]. simpl in Hres. injection Hres as <-. simpl in *.
  destruct (WorldAccess_of _) as [w|] eqn:Hw; [done|]. run_ok. injection H as <-.
  exists v0, v1, v. split_and!; try done.
  unfold WorldAccess_of in Hw.
  destruct (Z.eqb_spec (Z.land (Z.land (md_mode v1) 511) 4) 0) as [H4|];
    destruct (Z.eqb_spec (Z.land (Z.land (md_mode v1) 511) 2) 0) as [H2|]; try done.
  rewrite <- Z.land_assoc in H4, H2.
  change (Z.land 511 4) with 4%Z in H4. change (Z.land 511 2) with 2%Z in H2.
  change 6%Z with (Z.lor 4 2). by rewrite Z.land_lor_distr_r, H4, H2.
Qed.

(** ** Witnesses *)

(** A cipher that appends key, nonce and associated data, and a generator that
    counts: enough to run the code. *)
Definition toy_tag (k n a : bytes) : bytes := k ++ n ++ a.
Definition toy_aead : Aead := {|
  aead_encrypt k n a m := Some (m ++ toy_tag k n a);
  aead_decrypt k n a c :=
    let m := take (length c - length (toy_tag k n a)) c in
    if bool_decide (c = m ++ toy_tag k n a) then Some m else None;
|}.

Lemma toy_aead_laws : AeadLaws toy_aead.
Proof.
  split; intros k n a m c; simpl.
  - intros [= <-]. rewrite length_app, Nat.add_sub.
    rewrite take_app_length. by rewrite bool_decide_eq_true_2.
  - case_bool_decide as E; [|done]. intros [= <-]. by rewrite <- E.
Qed.

Definition toy_entropy : Entropy := {|
  rng := Z;
  getrandom_fill n r := (Some (repeat (byte_of r) n), (r + 1)%Z);
|}.

Lemma toy_entropy_laws : EntropyLaws toy_entropy.
Proof. intros n r b r' [= <- <-]. apply repeat_length. Qed.

Definition example_root : RootKey := mkRootKey (repeat "r"%char 32).
Definition example_value (p : string) (v : Z) : EncryptedValue :=
  match encrypt (A := toy_aead) (En := toy_entropy) example_root (mkSecretPath p) (mkVersion v)
          (as_bytes "hunter2") (0%Z : rng (Entropy := toy_entropy)) with
  | (Ok value, _) => value
  | (Err _, _) => mkEncryptedValue (mkDekId []) [] [] [] []
  end.

Lemma value_aad_injective_witness :
  value_aad (mkSecretPath "a/b") (mkVersion 1) (mkDekId []) =
    value_aad (mkSecretPath "a/b") (mkVersion 1) (mkDekId []) /\
  mkSecretPath "a/b" = mkSecretPath "a/b".
Proof.
  split; [reflexivity|].
  apply (value_aad_injective (mkSecretPath "a/b") (mkVersion 1) (mkDekId [])
           (mkSecretPath "a/b") (mkVersion 1) (mkDekId [])); vm_compute; try split; congruence.
Defined.

Lemma decrypt_encrypt_witness :
  decrypt (A := toy_aead) example_root (mkSecretPath "a/b") (mkVersion 1) (example_value "a/b" 1)
    = Ok (as_bytes "hunter2").
Proof.
  apply (decrypt_encrypt (En := toy_entropy) toy_aead_laws _ _ _ _ (0%Z : rng (Entropy := toy_entropy)) _ (4%Z : rng (Entropy := toy_entropy))). vm_compute. reflexivity.
Defined.

Lemma decrypt_binds_place_witness :
  let value := example_value "a/b" 1 in
  (mkSecretPath "a/b" = mkSecretPath "a/b" /\ mkVersion 1 = mkVersion 1 /\
     as_bytes "hunter2" = as_bytes "hunter2") \/
  exists key nonce aad aad' c, aad <> aad' /\
    aead_encrypt (Aead := toy_aead) key nonce aad (as_bytes "hunter2") = Some c /\
    aead_encrypt (Aead := toy_aead) key nonce aad' (as_bytes "hunter2") = Some c.
Proof.
  apply (decrypt_binds_place toy_aead_laws example_root (example_value "a/b" 1));
    try (vm_compute; first [reflexivity | split; congruence | congruence]).
Defined.

Definition example_key_text : string := hex_encode (repeat "k"%char 32).
Definition example_fs : filesystem := fun path =>
  if String.eqb path "/run/key"
  then Ok (mkDescriptor (Ok (mkMetadata true 416)) (Ok (example_key_text ++ str1 newline)%string))
  else Err "entity not found".

Lemma master_key_file_safe_witness :
  exists fd md text, example_fs "/run/key" = Ok fd /\ fd_metadata fd = Ok md /\
    md_is_file md = true /\ Z.land (md_mode md) 6 = 0%Z /\ fd_read fd = Ok text /\
    MasterKey_from_hex (trim text) = Ok (mkMasterKey (repeat "k"%char 32)).
Proof.
  apply (master_key_file_safe example_fs "/run/key"
    (mkStaticSeal (KeyFile "/run/key") (mkMasterKey (repeat "k"%char 32)))).
  vm_compute. reflexivity.
Defined.

(** A value opened under another version is refused. *)
Example value_moved_refused :
  decrypt (A := toy_aead) example_root (mkSecretPath "a/b") (mkVersion 2) (example_value "a/b" 1) = Err Aead_.
Proof. vm_compute. reflexivity. Qed.
