(* ===== verification/Token.v ===== *)
(** * Tokens ([ciphr-crypto/src/token.rs])

    A bearer token is [cph_], eight characters of identifier and forty-three of
    secret.  [HMAC-SHA-256] is third-party code, the class [Mac].

    [str::split_at] panics when the index is inside a character, so [parse]
    returns an option: [None] is the panic. *)

From Stdlib Require Import ZArith NArith Lia Ascii String.
From stdpp Require Import base tactics list strings.
From S2P Require Import Prelude Text Hex Base64Url Path Vocabulary Crypto.

(** [Hmac<Sha256>]: key, then message. *)
Class Mac : Type := hmac_sha256 : bytes -> bytes -> bytes.
Class MacLaws (M : Mac) : Prop := hmac_length : forall k m, length (hmac_sha256 k m) = 32%nat.

Definition TOKEN_PREFIX : string := "cph_".
Definition TOKEN_ID_LEN : nat := 6.
Definition TOKEN_SECRET_LEN : nat := 32.
Definition TOKEN_TEXT_LEN : Z := 4 + 8 + 43.
Definition PEPPER_LABEL : bytes := as_bytes "ciphr/token-pepper/v1".

Record TokenId : Type := mkTokenId { token_id_bytes : bytes }.

#[global] Instance TokenId_eq_dec : EqDecision TokenId.
Proof. solve_decision. Defined.

Definition TokenId_as_text (id : TokenId) : string := b64_encode (token_id_bytes id).

Definition TokenId_parse (input : string) : result CryptoError TokenId :=
  match b64_decode_into input (zeroed TOKEN_ID_LEN) with
  | (Ok _, out) => Ok (mkTokenId out)
  | (Err _, _) => Err TokenFormat
  end.

Record Token : Type := mkToken { token_id : TokenId; token_secret : bytes }.

(** [getrandom::fill(&mut id).and_then(|()| getrandom::fill(&mut secret))] *)
Definition Token_generate {En : Entropy} : stm rng CryptoError Token :=
  let! id := random_bytes TOKEN_ID_LEN in
  let! secret := random_bytes TOKEN_SECRET_LEN in
  mret (mkToken (mkTokenId id) secret).

(** A byte that continues a character: [(b as i8) < -0x40]. *)
Definition is_continuation (c : ascii) : bool :=
  ((128 <=? byte_val c) && (byte_val c <? 192))%Z.

(** [str::split_at] at an index below the length: [None] is the panic. *)
Fixpoint split_at_bytes (n : nat) (s : string) : string * string :=
  match n, s with
  | S n, String c s => let '(a, b) := split_at_bytes n s in (String c a, b)
  | _, _ => (EmptyString, s)
  end.
Definition split_at (n : nat) (s : string) : option (string * string) :=
  let '(a, b) := split_at_bytes n s in
  match b with
  | String c _ => if is_continuation c then None else Some (a, b)
  | EmptyString => Some (a, b)
  end.

Definition Token_parse (input : string) : option (result CryptoError Token) :=
  if negb (len input =? TOKEN_TEXT_LEN)%Z then Some (Err TokenFormat)
  else match strip_prefix TOKEN_PREFIX input with
  | None => Some (Err TokenFormat)
  | Some body =>
      match split_at 8 body with
      | None => None
      | Some (id_text, secret_text) => Some (
          let? id := TokenId_parse id_text in
          match b64_decode_into secret_text (zeroed TOKEN_SECRET_LEN) with
          | (Ok _, secret) => Ok (mkToken id secret)
          | (Err _, _) => Err TokenFormat
          end)
      end
  end.

Definition expose_text (t : Token) : string :=
  b64_encode_into (token_secret t) (b64_encode_into (token_id_bytes (token_id t)) TOKEN_PREFIX).

Record TokenPepper : Type := mkTokenPepper { pepper_bytes : bytes }.
Record TokenVerifier : Type := mkTokenVerifier { verifier_bytes : bytes }.

Section mac.
Context {M : Mac}.
Definition TokenPepper_derive (root : RootKey) : TokenPepper :=
  mkTokenPepper (hmac_sha256 (root_bytes root) PEPPER_LABEL).

Definition TokenVerifier_compute (pepper : TokenPepper) (secret : bytes) : TokenVerifier :=
  mkTokenVerifier (hmac_sha256 (pepper_bytes pepper) secret).

Definition token_verifier (t : Token) (pepper : TokenPepper) : TokenVerifier :=
  TokenVerifier_compute pepper (token_secret t).
End mac.

Definition verifier_to_hex (v : TokenVerifier) : string := hex_encode (verifier_bytes v).
Definition verifier_from_hex (input : string) : result CryptoError TokenVerifier :=
  res_map mkTokenVerifier (fixed_from_hex 32 input).
(** [ct_eq] of two arrays of the same length. *)
Definition verifier_matches (a b : TokenVerifier) : bool :=
  bool_decide (verifier_bytes a = verifier_bytes b).

Definition token_wf (t : Token) : Prop :=
  length (token_id_bytes (token_id t)) = TOKEN_ID_LEN /\
  length (token_secret t) = TOKEN_SECRET_LEN.

(** ** Lemmas *)

Lemma split_at_bytes_app a b : split_at_bytes (String.length a) (a ++ b) = (a, b).
Proof. induction a as [|c a IH]; simpl; [by destruct b|]. by rewrite IH. Qed.

Lemma split_at_bytes_join n s :
  let '(a, b) := split_at_bytes n s in (a ++ b)%string = s.
Proof.
  revert s. induction n as [|n IH]; intros [|c s]; simpl; try done.
  specialize (IH s). destruct (split_at_bytes n s) as [a b]. simpl. by rewrite IH.
Qed.

Lemma split_at_bytes_length n s a b :
  split_at_bytes n s = (a, b) -> (n <= String.length s)%nat -> String.length a = n.
Proof.
  revert s a b. induction n as [|n IH]; intros [|c s] a b; simpl.
  1,2: by intros [= <- <-]. { lia. }
  destruct (split_at_bytes n s) as [a' b'] eqn:E. intros [= <- <-] H. simpl. f_equal.
  eapply IH; [done|lia].
Qed.

Lemma b64_char_not_continuation i : is_continuation (b64_char i) = false.
Proof.
  unfold b64_char. destruct (nth_in_or_default (Z.to_nat i) ALPHABET zero) as [H| ->].
  2: reflexivity.
  assert (forallb (fun c => negb (is_continuation c)) ALPHABET = true) as HF by reflexivity.
  rewrite List.forallb_forall in HF. by apply negb_true_iff, HF.
Qed.

Lemma b64_encode_nonempty_head b s :
  match (b64_encode b ++ s)%string with
  | String c _ => b <> [] -> is_continuation c = false
  | EmptyString => b = []
  end.
Proof.
  destruct b as [|x [|y [|z b]]].
  - unfold b64_encode, b64_encode_into. simpl. by destruct s.
  - intros _. apply b64_char_not_continuation.
  - intros _. apply b64_char_not_continuation.
  - rewrite b64_encode_cons. intros _. apply b64_char_not_continuation.
Qed.

Lemma TokenId_parse_text id :
  length (token_id_bytes id) = TOKEN_ID_LEN -> TokenId_parse (TokenId_as_text id) = Ok id.
Proof.
  intros H. unfold TokenId_parse, TokenId_as_text.
  rewrite b64_decode_into_encode by by rewrite H. by destruct id.
Qed.

Lemma TokenId_parse_Ok s id :
  TokenId_parse s = Ok id -> TokenId_as_text id = s /\ length (token_id_bytes id) = TOKEN_ID_LEN.
Proof.
  unfold TokenId_parse. pose proof (b64_decode_into_spec s (zeroed TOKEN_ID_LEN)) as H.
  destruct (b64_decode_into _ _) as [[|] out]; [|done]. intros [= <-]. exact H.
Qed.

Lemma expose_text_parts t :
  expose_text t =
    (TOKEN_PREFIX ++ TokenId_as_text (token_id t) ++ b64_encode (token_secret t))%string.
Proof.
  unfold expose_text. rewrite (b64_encode_into_app _ (b64_encode_into _ _)), (b64_encode_into_app _ TOKEN_PREFIX).
  by rewrite str_app_assoc.
Qed.

Lemma token_text_lengths t : token_wf t ->
  String.length (TokenId_as_text (token_id t)) = 8%nat /\
  String.length (b64_encode (token_secret t)) = 43%nat.
Proof.
  intros [H1 H2]. unfold TokenId_as_text.
  pose proof (b64_encode_length (token_id_bytes (token_id t))) as E1.
  pose proof (b64_encode_length (token_secret t)) as E2.
  rewrite H1 in E1. rewrite H2 in E2. unfold len in *.
  change (encoded_len _) with 8%Z in E1. change (encoded_len _) with 43%Z in E2. lia.
Qed.

Lemma token_parse_expose_text t : token_wf t -> Token_parse (expose_text t) = Some (Ok t).
Proof.
  intros Hwf. destruct (token_text_lengths t Hwf) as [L1 L2]. destruct Hwf as [H1 H2].
  unfold Token_parse. rewrite expose_text_parts.
  rewrite (proj2 (Z.eqb_eq _ _)) by (rewrite !len_app; unfold len; rewrite L1, L2; reflexivity).
  simpl negb. cbv iota. rewrite (proj2 (strip_prefix_Some _ _ _) eq_refl).
  unfold split_at. rewrite <- L1, split_at_bytes_app.
  pose proof (b64_encode_nonempty_head (token_secret t) EmptyString) as Hh.
  rewrite str_app_nil_r in Hh.
  assert (token_secret t <> []) as Hne by by intros E; rewrite E in H2.
  destruct (b64_encode (token_secret t)) as [|c rest] eqn:E; [done|].
  rewrite Hh, <- E by done. rewrite TokenId_parse_text by done. simpl.
  rewrite b64_decode_into_encode by by rewrite H2. by destruct t.
Qed.

(** ** Properties *)

(** A token's text parses back to the token, and to no other. *)
Theorem Token_parse_expose t t' : token_wf t ->
  Token_parse (expose_text t) = Some (Ok t') <-> t' = t.
Proof. intros Hwf. rewrite token_parse_expose_text by done. split; [by intros [= <-]|by intros ->]. Qed.

(** Only the text of a token parses, so each token has one spelling; a panic
    needs a character cut in two at the end of the identifier. *)
Theorem Token_parse_sound s :
  match Token_parse s with
  | Some (Ok t) => token_wf t /\ expose_text t = s
  | Some (Err e) => e = TokenFormat
  | None => exists c, String.get 12 s = Some c /\ is_continuation c = true
  end.
Proof.
  unfold Token_parse. destruct (Z.eqb_spec (len s) TOKEN_TEXT_LEN) as [Hl|]; [|done]. simpl negb.
  cbv iota. destruct (strip_prefix TOKEN_PREFIX s) as [body|] eqn:Hb; [|done].
  apply strip_prefix_Some in Hb as ->.
  unfold split_at. pose proof (split_at_bytes_join 8 body) as Hj.
  destruct (split_at_bytes 8 body) as [a b] eqn:Hs.
  assert (String.length a = 8%nat) as La.
  { apply split_at_bytes_length in Hs; [done|]. rewrite len_app in Hl. unfold len in Hl.
    change (Z.of_nat (String.length TOKEN_PREFIX)) with 4%Z in Hl. unfold TOKEN_TEXT_LEN in Hl. lia. }
  assert (b <> EmptyString) as Hne.
  { intros ->. rewrite str_app_nil_r in Hj. subst a. rewrite len_app in Hl. unfold len in Hl.
    rewrite La in Hl. discriminate Hl. }
  destruct b as [|c b]; [done|]. destruct (is_continuation c) eqn:Hc.
  { exists c. split; [|done]. rewrite <- Hj.
    do 9 (destruct a as [|? a]; [discriminate La || reflexivity|]). discriminate La. }
  destruct (TokenId_parse a) as [id|e] eqn:Hid; simpl.
  2: { unfold TokenId_parse in Hid. destruct (b64_decode_into a _) as [[|] ?]; congruence. }
  apply TokenId_parse_Ok in Hid as [Ht Hidl].
  pose proof (b64_decode_into_spec (String c b) (zeroed TOKEN_SECRET_LEN)) as Hd.
  destruct (b64_decode_into _ _) as [[|] secret]; [|done]. destruct Hd as [He Hsl].
  split; [by split|]. rewrite expose_text_parts. simpl token_id. simpl token_secret.
  by rewrite Ht, He, Hj.
Qed.

Lemma Token_parse_expose_witness :
  Token_parse "cph_AAAAAAAAAAAAAAAAAAAAAAAAAAAAAAAAAAAAAAAAAAAAAAAAAAA"
    = Some (Ok (mkToken (mkTokenId (zeroed 6)) (zeroed 32))).
Proof.
  apply (Token_parse_expose (mkToken (mkTokenId (zeroed 6)) (zeroed 32))); [split|]; reflexivity.
Defined.

(** A character cut in two by the split point panics. *)
Example token_parse_panics :
  Token_parse "cph_AAAAAAAéAAAAAAAAAAAAAAAAAAAAAAAAAAAAAAAAAAAAAAAAAA" = None.
Proof. vm_compute. reflexivity. Qed.
