(* ===== verification/Time.v ===== *)
(** * RFC 3339 timestamps ([ciphr-audit/src/time.rs])

    [civil_from_days] is proved against the calendar itself: it maps day 0 to
    1970-01-01 and the day after any day to the next calendar day. *)

From Stdlib Require Import ZArith NArith Lia Ascii String.
From stdpp Require Import base tactics list strings pretty.
From S2P Require Import Prelude Text.

(** Rust's [/] on [i64] truncates. *)
Definition civil_from_days (days : Z) : Z * Z * Z :=
  (let z := days + 719468 in
   let era := Z.quot (if 0 <=? z then z else z - 146096) 146097 in
   let day_of_era := z - era * 146097 in
   let year_of_era :=
     Z.quot (day_of_era - Z.quot day_of_era 1460 + Z.quot day_of_era 36524
             - Z.quot day_of_era 146096) 365 in
   let year := year_of_era + era * 400 in
   let day_of_year :=
     day_of_era - (365 * year_of_era + Z.quot year_of_era 4 - Z.quot year_of_era 100) in
   let month_prime := Z.quot (5 * day_of_year + 2) 153 in
   let day := default 1 (u32_try_from (day_of_year - Z.quot (153 * month_prime + 2) 5 + 1)) in
   let month := default 1 (u32_try_from
     (if month_prime <? 10 then month_prime + 3 else month_prime - 9)) in
   ((if month <=? 2 then year + 1 else year), month, day))%Z.

(** [div_euclid] and [rem_euclid] by a positive number are [/] and [mod] of [Z]. *)
Definition rfc3339_millis (millis : Z) : string :=
  let seconds := (millis / 1000)%Z in
  let sub_milli := (millis mod 1000)%Z in
  let days := (seconds / 86400)%Z in
  let second_of_day := (seconds mod 86400)%Z in
  let '(year, month, day) := civil_from_days days in
  let hour := Z.quot second_of_day 3600 in
  let minute := Z.quot (Z.rem second_of_day 3600) 60 in
  let second := Z.rem second_of_day 60 in
  (dec_padded 4 year ++ "-" ++ dec_padded 2 month ++ "-" ++ dec_padded 2 day ++ "T"
   ++ dec_padded 2 hour ++ ":" ++ dec_padded 2 minute ++ ":" ++ dec_padded 2 second
   ++ "." ++ dec_padded 3 sub_milli ++ "Z")%string.

(** ** The calendar *)

Definition is_leap (y : Z) : bool :=
  ((y mod 4 =? 0) && (negb (y mod 100 =? 0) || (y mod 400 =? 0)))%Z.

Definition days_in_month (y m : Z) : Z :=
  (if m =? 2 then if is_leap y then 29 else 28
   else if (m =? 4) || (m =? 6) || (m =? 9) || (m =? 11) then 30 else 31)%Z.

Definition date_valid (date : Z * Z * Z) : Prop :=
  let '(y, m, d) := date in (1 <= m <= 12 /\ 1 <= d <= days_in_month y m)%Z.

Definition next_date (date : Z * Z * Z) : Z * Z * Z :=
  let '(y, m, d) := date in
  (if d <? days_in_month y m then (y, m, d + 1)
   else if m <? 12 then (y, m + 1, 1) else (y + 1, 1, 1))%Z.

(** ** The algorithm in three steps: era, year of the era, day of the year *)

Definition year_start (y : Z) : Z := (365 * y + y / 4 - y / 100)%Z.
Definition adjusted (doe : Z) : Z := (doe - doe / 1460 + doe / 36524 - doe / 146096)%Z.
Definition month_day (doy : Z) : Z * Z :=
  (let mp := (5 * doy + 2) / 153 in
   ((if mp <? 10 then mp + 3 else mp - 9), doy - (153 * mp + 2) / 5 + 1))%Z.

(** The date of a day of a year that starts in March. *)
Definition march_date (y doy : Z) : Z * Z * Z :=
  let '(m, d) := month_day doy in ((if (m <=? 2)%Z then y + 1 else y)%Z, m, d).

Definition year_length (y : Z) : Z := if is_leap (y + 1) then 366%Z else 365%Z.

Lemma seq_forallb (f : Z -> bool) (n : nat) :
  forallb (fun k => f (Z.of_nat k)) (seq 0 n) = true -> forall z, (0 <= z < Z.of_nat n)%Z -> f z = true.
Proof.
  intros H z Hz. rewrite List.forallb_forall in H.
  specialize (H (Z.to_nat z)). rewrite Z2Nat.id in H by lia. apply H, in_seq. lia.
Qed.

Lemma adjusted_mono a b : (0 <= a <= b)%Z -> (adjusted a <= adjusted b)%Z.
Proof. unfold adjusted. intros. zdiv_lia. Qed.

(** At both ends of every year of the era the formula gives that year. *)
Lemma adjusted_ends y : (0 <= y < 400)%Z ->
  (adjusted (year_start y) / 365 = y /\
   adjusted (year_start y + year_length y - 1) / 365 = y /\
   year_start (y + 1) - (if y =? 399 then -1 else 0) = year_start y + year_length y)%Z.
Proof.
  intros Hy.
  enough (((adjusted (year_start y) / 365 =? y) &&
    (adjusted (year_start y + year_length y - 1) / 365 =? y) &&
    (year_start (y + 1) - (if y =? 399 then -1 else 0) =? year_start y + year_length y))%Z = true) as H.
  { rewrite !andb_true_iff, !Z.eqb_eq in H. tauto. }
  revert y Hy. refine (seq_forallb _ 400 _). vm_compute. reflexivity.
Qed.

Lemma year_of_era_unique y doe : (0 <= y < 400)%Z ->
  (year_start y <= doe < year_start y + year_length y)%Z -> (adjusted doe / 365 = y)%Z.
Proof.
  intros Hy Hd. destruct (adjusted_ends y Hy) as (H1 & H2 & _).
  assert (0 <= year_start y)%Z by (unfold year_start; zdiv_lia).
  pose proof (adjusted_mono (year_start y) doe ltac:(lia)).
  pose proof (adjusted_mono doe (year_start y + year_length y - 1) ltac:(lia)).
  zdiv_lia.
Qed.

Lemma year_of_era_exists doe : (0 <= doe < 146097)%Z ->
  exists y, (0 <= y < 400)%Z /\ (year_start y <= doe < year_start y + year_length y)%Z.
Proof.
  assert (forall n : nat, (n <= 400)%nat -> (0 <= doe < year_start (Z.of_nat n) + (if (Z.of_nat n =? 400)%Z then 1 else 0))%Z ->
    exists y, (0 <= y < 400)%Z /\ (year_start y <= doe < year_start y + year_length y)%Z) as H.
  { induction n as [|n IH]; intros Hn Hd; [change (year_start (Z.of_nat 0)) with 0%Z in Hd; simpl in Hd; lia|].
    destruct (adjusted_ends (Z.of_nat n)) as (_ & _ & E); [lia|].
    destruct (Z.lt_ge_cases doe (year_start (Z.of_nat n))) as [Hlt|Hge].
    - apply IH; [lia|]. destruct (Z.of_nat n =? 400)%Z; lia.
    - exists (Z.of_nat n). split; [lia|]. split; [done|].
      rewrite Nat2Z.inj_succ in Hd.
      destruct (Z.eqb_spec (Z.of_nat n) 399), (Z.eqb_spec (Z.succ (Z.of_nat n)) 400);
        unfold Z.succ in *; lia. }
  intros Hd. by apply (H 400%nat).
Qed.

Lemma month_day_step doy : (0 <= doy < 366)%Z ->
  let '(m, d) := month_day doy in
  (1 <= m <= 12 /\ 1 <= d <= 31)%Z.
Proof.
  intros Hd.
  enough ((let '(m, d) := month_day doy in (1 <=? m) && (m <=? 12) && (1 <=? d) && (d <=? 31))%Z = true) as H.
  { destruct (month_day doy) as [m d]. rewrite !andb_true_iff, !Z.leb_le in H. lia. }
  revert doy Hd. refine (seq_forallb _ 366 _). vm_compute. reflexivity.
Qed.

#[local] Arguments is_leap : simpl never.

(** The date after a day of a March year, within the year and across its end. *)
Lemma march_date_step y doy : (0 <= doy < year_length y)%Z ->
  next_date (march_date y doy) =
    if (doy + 1 <? year_length y)%Z then march_date y (doy + 1) else march_date (y + 1) 0.
Proof.
  intros Hd. unfold year_length in *.
  assert (forall doy, (0 <= doy < 365)%Z ->
    ((let '(m, d) := month_day doy in let '(m', d') := month_day (doy + 1) in
     if doy =? 364 then (m =? 2) && (d =? 28)
     else ((m' =? m) && (d' =? d + 1) && (d <? (if m =? 2 then 28 else days_in_month 1 m)))
       || ((m =? 12) && (m' =? 1) && (d =? 31) && (d' =? 1))
       || ((m' =? m + 1) && (d' =? 1) && (m <? 12) && negb (m =? 2) && (d =? days_in_month 1 m)))
     = true)%Z) as Hstep.
  { refine (seq_forallb _ 365 _). vm_compute. reflexivity. }
  destruct (Z.eq_dec doy 365%Z) as [->|Hne].
  - destruct (is_leap (y + 1)) eqn:Hl; [|lia].
    change (next_date (march_date y 365%Z)) with
      (if (29 <? (if is_leap (y + 1) then 29 else 28))%Z then (y + 1, 2, 30)%Z else (y + 1, 3, 1)%Z).
    by rewrite Hl.
  - specialize (Hstep doy). assert (0 <= doy < 365)%Z as Hr by (destruct (is_leap (y + 1)); lia).
    specialize (Hstep Hr). unfold march_date.
    destruct (Z.eqb_spec doy 364%Z) as [->|Hn364].
    + change (let '(m, d) := month_day 364%Z in ((if (m <=? 2)%Z then y + 1 else y)%Z, m, d))
        with (y + 1, 2, 28)%Z.
      change (next_date (y + 1, 2, 28)%Z) with
        (if (28 <? (if is_leap (y + 1) then 29 else 28))%Z then (y + 1, 2, 29)%Z else (y + 1, 3, 1)%Z).
      by destruct (is_leap (y + 1)).
    + rewrite (proj2 (Z.ltb_lt _ _)) by (destruct (is_leap (y + 1)); lia).
      destruct (month_day doy) as [m d], (month_day (doy + 1)) as [m' d'].
      unfold next_date, days_in_month in *.
      rewrite !orb_true_iff, !andb_true_iff, !Z.eqb_eq, !Z.ltb_lt, negb_true_iff in Hstep.
      destruct (Z.eqb_spec m 2%Z), (Z.eqb_spec m 4%Z), (Z.eqb_spec m 6%Z), (Z.eqb_spec m 9%Z), (Z.eqb_spec m 11%Z);
        try (subst; lia); simpl in *;
        repeat match goal with
        | |- context [(?a <? ?b)%Z] => destruct (Z.ltb_spec a b)
        | |- context [(?a <=? ?b)%Z] => destruct (Z.leb_spec a b)
        | |- context [if is_leap ?y then _ else _] => destruct (is_leap y)
        end; try lia; f_equal; try f_equal; try lia.
      all: destruct (is_leap (y + 1)); lia.
Qed.

(** ** The date of a day *)

Lemma month_day_fits doy : (0 <= doy < 366)%Z ->
  let '(m, d) := month_day doy in u32_try_from m = Some m /\ u32_try_from d = Some d.
Proof.
  intros H%month_day_step. destruct (month_day doy) as [m d]. unfold u32_try_from, u32_max.
  by rewrite !(proj2 (Z.leb_le _ _)) by lia.
Qed.

(** Within an era the algorithm is [march_date] of the year and day found. *)
Lemma civil_from_days_march era y doy : (0 <= y < 400)%Z -> (0 <= doy < year_length y)%Z ->
  civil_from_days (era * 146097 + year_start y + doy - 719468) = march_date (y + era * 400) doy.
Proof.
  intros Hy Hd. unfold civil_from_days. cbn zeta.
  replace (era * 146097 + year_start y + doy - 719468 + 719468)%Z
    with (era * 146097 + (year_start y + doy))%Z by lia.
  set (doe := (year_start y + doy)%Z).
  assert (0 <= doe < 146097)%Z as Hdoe.
  { subst doe. destruct (adjusted_ends y Hy) as (_ & _ & E).
    assert (0 <= year_start y)%Z by (unfold year_start; zdiv_lia).
    assert (year_start (y + 1) <= 146096)%Z by (unfold year_start; zdiv_lia).
    destruct (Z.eqb_spec y 399); lia. }
  assert (Z.quot (if (0 <=? era * 146097 + doe)%Z then era * 146097 + doe
                  else era * 146097 + doe - 146096) 146097 = era)%Z as ->.
  { destruct (Z.leb_spec 0 (era * 146097 + doe)%Z); zdiv_lia. }
  replace (era * 146097 + doe - era * 146097)%Z with doe by lia.
  rewrite (Z.quot_div_nonneg doe 1460), (Z.quot_div_nonneg doe 36524),
    (Z.quot_div_nonneg doe 146096) by lia. fold (adjusted doe).
  assert (0 <= adjusted doe)%Z by (unfold adjusted; zdiv_lia).
  rewrite (Z.quot_div_nonneg (adjusted doe)) by lia.
  rewrite (year_of_era_unique y) by (subst doe; lia).
  rewrite (Z.quot_div_nonneg y 4), (Z.quot_div_nonneg y 100) by lia. fold (year_start y).
  replace (doe - year_start y)%Z with doy by lia.
  assert (0 <= doy < 366)%Z as Hdoy by (unfold year_length in Hd; destruct (is_leap _); lia).
  rewrite (Z.quot_div_nonneg (5 * doy + 2)) by lia.
  rewrite (Z.quot_div_nonneg (153 * _ + 2)) by zdiv_lia.
  pose proof (month_day_fits doy Hdoy) as Hf. unfold march_date, month_day in *. cbn zeta in *.
  destruct Hf as [-> ->]. reflexivity.
Qed.

Lemma day_decompose days : exists era y doy, (0 <= y < 400)%Z /\ (0 <= doy < year_length y)%Z /\
  days = (era * 146097 + year_start y + doy - 719468)%Z.
Proof.
  destruct (year_of_era_exists ((days + 719468) mod 146097)) as (y & Hy & Hd).
  { apply Z.mod_pos_bound. lia. }
  exists ((days + 719468) / 146097)%Z, y, ((days + 719468) mod 146097 - year_start y)%Z.
  split_and!; [lia..|]. pose proof (Z.div_mod (days + 719468) 146097). lia.
Qed.

Lemma is_leap_era y e : is_leap (y + e * 400) = is_leap y.
Proof.
  unfold is_leap. replace (y + e * 400)%Z with (y + (e * 4) * 100)%Z at 2 by lia.
  replace (y + e * 400)%Z with (y + (e * 100) * 4)%Z at 1 by lia.
  by rewrite !Z.mod_add by lia.
Qed.

(** ** The text of a timestamp *)

(** From the epoch to the last day of the year 9999. *)
Lemma civil_bounds days : (0 <= days <= 2932896)%Z ->
  exists y m d, civil_from_days days = (y, m, d) /\ (1969 <= y <= 9999)%Z /\ (1 <= m <= 12)%Z /\ (1 <= d <= 31)%Z.
Proof.
  intros Hb. destruct (day_decompose days) as (era & y & doy & Hy & Hd & E). rewrite E.
  rewrite civil_from_days_march by done.
  assert (0 <= doy < 366)%Z as Hdoy by (unfold year_length in Hd; destruct (is_leap _); lia).
  unfold march_date. pose proof (month_day_step doy Hdoy) as Hm.
  destruct (month_day doy) as [m d] eqn:Em. unfold month_day in Em. injection Em as Em Ed.
  assert (0 <= year_start y <= 145731)%Z as Hs by (unfold year_start; zdiv_lia).
  exists (if (m <=? 2)%Z then y + era * 400 + 1 else y + era * 400)%Z, m, d.
  assert (1 <= m <= 12 /\ 1 <= d <= 31)%Z as [Hm' Hd'] by lia.
  split_and!; try lia; [done| |].
  all: assert (m <= 2 <-> 306 <= doy)%Z as Hjan by (rewrite <- Em; destruct (Z.ltb_spec ((5 * doy + 2) / 153) 10); zdiv_lia).
  all: assert (365 * y <= year_start y <= 365 * y + y / 4)%Z as Hy2 by (unfold year_start; zdiv_lia).
  - destruct (Z.leb_spec m 2); zdiv_lia.
  - unfold year_start in *. destruct (Z.leb_spec m 2); zdiv_lia.
Qed.

(** A text of so many digits. *)
Definition digits_text (n : nat) (s : string) : bool :=
  (String.length s =? n)%nat && forallb is_digit_char (as_bytes s).

Lemma pretty_go_length w : forall x s, (x < 10 ^ N.of_nat w)%N ->
  String.length (pretty_N_go x s) <= w + String.length s.
Proof.
  induction w as [|w IH]; intros x s H; destruct (decide (x = 0)%N) as [->|Hx];
    try (rewrite pretty_N_go_0; lia); [simpl in H; lia|].
  rewrite pretty_N_go_step by lia. etransitivity; [apply IH|simpl; lia].
  apply N.Div0.div_lt_upper_bound. rewrite <- N.pow_succ_r'. by rewrite <- Nat2N.inj_succ.
Qed.

Lemma zeros_digits n : digits_text n (zeros n) = true.
Proof. unfold digits_text. induction n as [|n IH]; [done|]. simpl. apply IH. Qed.

Lemma digits_text_spec n s : digits_text n s = true <->
  String.length s = n /\ Forall (fun c => is_digit_char c = true) (as_bytes s).
Proof.
  unfold digits_text. rewrite andb_true_iff, Nat.eqb_eq, forallb_forall, Forall_forall. by setoid_rewrite list_elem_of_In.
Qed.

Lemma dec_padded_digits (w : nat) z : (w <> 0)%nat -> (0 <= z < 10 ^ Z.of_nat w)%Z ->
  digits_text w (dec_padded w z) = true.
Proof.
  intros Hw Hz. unfold dec_padded. rewrite (proj2 (Z.ltb_ge z 0)) by lia. rewrite Z.abs_eq by lia.
  destruct (dec_digit_chars z ltac:(lia)) as [Hd _].
  assert (String.length (dec z) <= w) as Hl.
  { destruct z as [|p|p]; [change (String.length (dec 0)) with 1%nat; lia| |lia].
    change (dec (Z.pos p)) with (pretty_N_go (N.pos p) EmptyString).
    etransitivity; [apply (pretty_go_length w)|simpl; lia].
    apply N2Z.inj_lt. rewrite N2Z.inj_pow, nat_N_Z. simpl. lia. }
  destruct (proj1 (digits_text_spec _ _) (zeros_digits (w - String.length (dec z)))) as [Hzl Hzd].
  apply digits_text_spec. rewrite str_length_app, Hzl, as_bytes_app. split; [lia|]. by apply Forall_app.
Qed.

(** The last millisecond of the year 9999. *)
Definition last_millis : Z := 253402300799999.

(** Every timestamp up to there is six blocks of two digits or more, and the
    separators between them. *)
Lemma rfc3339_blocks millis : (0 <= millis <= last_millis)%Z ->
  exists y m d h mi s ms, rfc3339_millis millis =
    (y ++ "-" ++ m ++ "-" ++ d ++ "T" ++ h ++ ":" ++ mi ++ ":" ++ s ++ "." ++ ms ++ "Z")%string /\
    digits_text 4 y = true /\ digits_text 2 m = true /\ digits_text 2 d = true /\ digits_text 2 h = true /\
    digits_text 2 mi = true /\ digits_text 2 s = true /\ digits_text 3 ms = true.
Proof.
  unfold last_millis. intros H. unfold rfc3339_millis. cbn zeta.
  destruct (civil_bounds (millis / 1000 / 86400)) as (y & m & d & -> & Hy & Hm & Hd); [zdiv_lia|].
  do 7 eexists. split; [reflexivity|].
  split_and!; apply dec_padded_digits; try done; cbn; zdiv_lia.
Qed.

(** ** Properties *)

(** The date of a day is the calendar's: day 0 is the epoch and each day is
    followed by the next calendar day, before and after the epoch alike. *)
Theorem civil_from_days_calendar days :
  civil_from_days 0 = (1970, 1, 1)%Z /\
  civil_from_days (days + 1) = next_date (civil_from_days days).
Proof.
  split; [reflexivity|].
  destruct (day_decompose days) as (era & y & doy & Hy & Hd & ->).
  rewrite civil_from_days_march by done.
  assert (year_length (y + era * 400) = year_length y) as El.
  { unfold year_length. replace (y + era * 400 + 1)%Z with (y + 1 + era * 400)%Z by lia.
    by rewrite is_leap_era. }
  rewrite march_date_step, El by lia.
  destruct (Z.ltb_spec (doy + 1) (year_length y)).
  - rewrite <- civil_from_days_march by lia. f_equal. lia.
  - destruct (adjusted_ends y Hy) as (_ & _ & E). destruct (Z.eqb_spec y 399) as [->|].
    + replace (era * 146097 + year_start 399 + doy - 719468 + 1)%Z
        with ((era + 1) * 146097 + year_start 0 + 0 - 719468)%Z
        by (change (year_start (399 + 1)) with 146096%Z in E; change (year_start 0) with 0%Z; lia).
      rewrite civil_from_days_march by (vm_compute; split; congruence). f_equal. lia.
    + replace (era * 146097 + year_start y + doy - 719468 + 1)%Z
        with (era * 146097 + year_start (y + 1) + 0 - 719468)%Z by lia.
      rewrite civil_from_days_march; [f_equal; lia|lia|].
      unfold year_length. destruct (is_leap _); lia.
Qed.

Example rfc3339_leap_day : rfc3339_millis 1709164800123 = "2024-02-29T00:00:00.123Z"%string.
Proof. vm_compute. reflexivity. Qed.
Example rfc3339_before_epoch : rfc3339_millis (-1) = "1969-12-31T23:59:59.999Z"%string.
Proof. vm_compute. reflexivity. Qed.
