(* ===== verification/Chain.v ===== *)
(** * Audit entries and the hash chain ([ciphr-audit]: entry.rs, error.rs,
    chain.rs, verify.rs)

    The JSON text of a record and SHA-256 are third-party code: the classes
    [Json] and [Sha256].  What is proved is what the chain is for: a run of the
    encoder verifies, verification accepts exactly the well-chained sequences,
    and two verified histories with the same head are the same history unless
    two different payloads with one digest are exhibited. *)

From Stdlib Require Import ZArith NArith Lia Ascii String.
From stdpp Require Import base tactics list strings.
From S2P Require Import Prelude Text Hex Path Vocabulary Time.

(** ** Entries (entry.rs) *)

Inductive Action : Type :=
| ActRead | ActWrite | ActDelete | ActList | ActUndelete | ActInit | ActRotateMasterKey
| ActDestroy | ActIssueToken | ActFederateToken | ActRevokeToken | ActClassify
| ActAuditDeviceFailed | ActRequestRefused | ActSurfaceActive
| ActHoneypotTriggered | ActHoneypotMarked | ActHoneypotCleared.

#[global] Instance Action_eq_dec : EqDecision Action.
Proof. solve_decision. Defined.

Definition action_str (a : Action) : string :=
  match a with
  | ActRead => "read" | ActWrite => "write" | ActDelete => "delete" | ActList => "list"
  | ActUndelete => "undelete" | ActInit => "init" | ActRotateMasterKey => "rotate-master-key"
  | ActDestroy => "destroy" | ActClassify => "classify" | ActIssueToken => "issue-token"
  | ActFederateToken => "federate-token" | ActRevokeToken => "revoke-token"
  | ActAuditDeviceFailed => "audit-device-failed" | ActRequestRefused => "request-refused"
  | ActSurfaceActive => "surface-active" | ActHoneypotTriggered => "honeypot-triggered"
  | ActHoneypotMarked => "honeypot-marked" | ActHoneypotCleared => "honeypot-cleared"
  end.

Definition action_of_capability (c : Capability) : Action :=
  match c with
  | CapRead | CapInspect => ActRead
  | CapWrite => ActWrite
  | CapDelete => ActDelete
  | CapList => ActList
  | CapUndelete => ActUndelete
  | CapRevoke => ActRevokeToken
  end.

Record Principal : Type := mkPrincipal {
  principal_name : string;
  principal_kind : option string;
  principal_token_id : option string;
}.
Definition principal_named (name : string) : Principal := mkPrincipal name None None.

Record DecidingRule : Type := mkDecidingRule { deciding_policy : string; deciding_pattern : string }.

Record RequestContext : Type := mkRequestContext {
  rc_request_id : option string;
  rc_client_ip : option string;
  rc_user_agent : option string;
  rc_http_status : option Z;
  rc_channel : option string;
}.
Definition request_context_default : RequestContext := mkRequestContext None None None None None.

Record Entry : Type := mkEntry {
  e_principal : option Principal;
  e_subject : option Principal;
  e_action : Action;
  e_path : option string;
  e_version : option Z;
  e_allowed : bool;
  e_deny_reason : option string;
  e_rule : option DecidingRule;
  e_results : option Z;
  e_detail : option string;
  e_request : RequestContext;
}.

#[global] Instance Principal_eq_dec : EqDecision Principal.
Proof. solve_decision. Defined.
#[global] Instance DecidingRule_eq_dec : EqDecision DecidingRule.
Proof. solve_decision. Defined.
#[global] Instance RequestContext_eq_dec : EqDecision RequestContext.
Proof. solve_decision. Defined.
#[global] Instance Entry_eq_dec : EqDecision Entry.
Proof. solve_decision. Defined.

Definition entry_allowed (action : Action) : Entry :=
  mkEntry None None action None None true None None None None request_context_default.
Definition entry_denied (action : Action) (reason : string) : Entry :=
  mkEntry None None action None None false (Some reason) None None None request_context_default.

Definition with_detail (detail : string) (e : Entry) : Entry :=
  mkEntry (e_principal e) (e_subject e) (e_action e) (e_path e) (e_version e) (e_allowed e)
    (e_deny_reason e) (e_rule e) (e_results e) (Some detail) (e_request e).
Definition with_principal (p : Principal) (e : Entry) : Entry :=
  mkEntry (Some p) (e_subject e) (e_action e) (e_path e) (e_version e) (e_allowed e)
    (e_deny_reason e) (e_rule e) (e_results e) (e_detail e) (e_request e).
Definition with_subject (p : Principal) (e : Entry) : Entry :=
  mkEntry (e_principal e) (Some p) (e_action e) (e_path e) (e_version e) (e_allowed e)
    (e_deny_reason e) (e_rule e) (e_results e) (e_detail e) (e_request e).
Definition with_path (p : SecretPath) (e : Entry) : Entry :=
  mkEntry (e_principal e) (e_subject e) (e_action e) (Some (path_str p)) (e_version e) (e_allowed e)
    (e_deny_reason e) (e_rule e) (e_results e) (e_detail e) (e_request e).
Definition with_version (v : SecretVersion) (e : Entry) : Entry :=
  mkEntry (e_principal e) (e_subject e) (e_action e) (e_path e) (Some (version_get v)) (e_allowed e)
    (e_deny_reason e) (e_rule e) (e_results e) (e_detail e) (e_request e).
Definition with_results (count : Z) (e : Entry) : Entry :=
  mkEntry (e_principal e) (e_subject e) (e_action e) (e_path e) (e_version e) (e_allowed e)
    (e_deny_reason e) (e_rule e) (Some (default u32_max (u32_try_from count))) (e_detail e) (e_request e).
Definition with_rule (policy pattern : string) (e : Entry) : Entry :=
  mkEntry (e_principal e) (e_subject e) (e_action e) (e_path e) (e_version e) (e_allowed e)
    (e_deny_reason e) (Some (mkDecidingRule policy pattern)) (e_results e) (e_detail e) (e_request e).
Definition with_request (request : RequestContext) (e : Entry) : Entry :=
  mkEntry (e_principal e) (e_subject e) (e_action e) (e_path e) (e_version e) (e_allowed e)
    (e_deny_reason e) (e_rule e) (e_results e) (e_detail e) request.

(** ** Errors (error.rs) *)

Record DeviceFailure : Type := mkDeviceFailure { df_device : string; df_reason : string }.

Inductive AuditError : Type :=
| NoDevices
| AllDevicesFailed (failures : list DeviceFailure)
| AuditEncode (error : string).

Definition audit_error_display (e : AuditError) : string :=
  match e with
  | NoDevices =>
      "no audit device is configured; a secret store without an audit trail is a configuration error"
  | AllDevicesFailed failures =>
      "no audit device accepted the record:" ++
        String.concat EmptyString
          (map (fun f => " [" ++ df_device f ++ ": " ++ df_reason f ++ "]")%string failures)
  | AuditEncode error => "could not encode the audit entry: " ++ error
  end.

Inductive BreakKind : Type :=
| HashMismatch
| PrevHashMismatch
| SequenceGap (expected : Z)
| BreakMalformed (detail : string)
| SequenceMismatch (payload_seq : Z)
| AnchorMismatch (anchored stored : string)
| AnchorUnreachable (head_seq : Z).

Record ChainBreak : Type := mkChainBreak { cb_seq : Z; cb_kind : BreakKind }.

Definition break_kind_display (k : BreakKind) : string :=
  match k with
  | HashMismatch => "the stored hash does not match the stored record, so the record was modified"
  | PrevHashMismatch =>
      "the record does not chain to its predecessor, so an entry was removed, reordered or inserted"
  | SequenceGap expected => "expected sequence " ++ dec expected
  | BreakMalformed detail => "the record is unreadable: " ++ detail
  | SequenceMismatch payload_seq =>
      "the record's own sequence number is " ++ dec payload_seq
        ++ ", which disagrees with where it is stored"
  | AnchorMismatch anchored stored =>
      "the stored record hashes to " ++ stored
        ++ ", but an anchor taken outside the store recorded " ++ anchored
        ++ " — either the chain was rewritten, or the anchor belongs to a different store"
  | AnchorUnreachable head_seq =>
      "the records in hand reach sequence " ++ dec head_seq
        ++ " and neither contain this sequence nor continue from it, so the anchor cannot be checked against them"
  end.

Definition chain_break_display (b : ChainBreak) : string :=
  "audit chain breaks at sequence " ++ dec (cb_seq b) ++ ": " ++ break_kind_display (cb_kind b).

(** ** The environment *)

Class Sha256 : Type := sha256 : bytes -> bytes.
Class Sha256Laws (H : Sha256) : Prop := sha256_length : forall b, length (sha256 b) = 32%nat.

(** What [serde_json] does with the derived [Record] and [Header]: the text of
    sequence, timestamp, previous hash and entry, and what reading such a text
    back for its sequence and previous hash gives. *)
Class Json : Type := {
  json_record : Z -> string -> string -> Entry -> result string string;
  json_header : string -> result string (Z * string);
}.
(** Reading back what was written; and a record is one line of text. *)
Class JsonLaws (J : Json) : Prop := {
  json_header_record : forall seq ts prev e s, (0 <= seq <= u64_max)%Z ->
    json_record seq ts prev e = Ok s -> json_header s = Ok (seq, prev);
  json_one_line : forall seq ts prev e s, json_record seq ts prev e = Ok s ->
    s <> EmptyString /\ contains newline s = false;
}.

(** ** The chain (chain.rs) *)

Definition HASH_LEN : nat := 32.
Definition GENESIS : bytes := zeroed HASH_LEN.

Record EncodedRecord : Type := mkEncodedRecord {
  er_seq : Z;
  er_ts_millis : Z;
  er_prev_hash : bytes;
  er_hash : bytes;
  er_payload : string;
}.
Definition hash_hex (r : EncodedRecord) : string := hex_encode (er_hash r).
Definition prev_hash_hex (r : EncodedRecord) : string := hex_encode (er_prev_hash r).

Record Chain : Type := mkChain { next_seq : Z; prev_hash : bytes }.
Definition chain_new : Chain := mkChain 1 GENESIS.
(** [last_seq + 1] wraps in a release build. *)
Definition chain_resume (last_seq : Z) (last_hash : bytes) : Chain :=
  mkChain (u64_add last_seq 1) last_hash.

Section chain.
Context {H : Sha256} {J : Json}.

Definition hash_payload (payload : bytes) : bytes := sha256 payload.

Definition chain_encode (c : Chain) (e : Entry) (now_millis : Z) : result AuditError EncodedRecord :=
  let? payload := map_err AuditEncode
    (json_record (next_seq c) (rfc3339_millis now_millis) (hex_encode (prev_hash c)) e) in
  let hash := hash_payload (as_bytes payload) in
  Ok (mkEncodedRecord (next_seq c) now_millis (prev_hash c) hash payload).
End chain.

(** [assert_eq!] of [commit]: a record committed out of order panics. *)
Definition commit_in_order (c : Chain) (r : EncodedRecord) : bool := (er_seq r =? next_seq c)%Z.
(** The effect of [commit] when the assertion holds. *)
Definition chain_commit (c : Chain) (r : EncodedRecord) : Chain :=
  mkChain (u64_add (next_seq c) 1) (er_hash r).

(** ** Verification (verify.rs) *)

Record StoredRecord : Type := mkStoredRecord {
  sr_seq : Z;
  sr_payload : string;
  sr_hash : option bytes;
}.

Inductive Start : Type :=
| Genesis
| AfterCut (seq : Z) (hash : bytes).

Definition first_seq (s : Start) : Z :=
  match s with Genesis => 1%Z | AfterCut seq _ => u64_sat_add seq 1 end.
Definition expected_prev (s : Start) : bytes :=
  match s with Genesis => GENESIS | AfterCut _ hash => hash end.

Record Verified : Type := mkVerified { v_records : Z; v_head_seq : Z; v_head_hash : bytes }.

Section verify.
Context {H : Sha256} {J : Json}.

(** The body of the loop for one record: the hash that becomes [previous]. *)
Definition verify_record (record : StoredRecord) (previous : bytes) : result ChainBreak bytes :=
  let brk k := mkChainBreak (sr_seq record) k in
  let? (seq, prev) := map_err (fun error => brk (BreakMalformed error)) (json_header (sr_payload record)) in
  if negb (seq =? sr_seq record)%Z then Err (brk (SequenceMismatch seq))
  else
    match hex_decode_into prev (zeroed HASH_LEN) with
    | (Err error, _) =>
        Err (brk (BreakMalformed ("prev_hash is not a chain hash: " ++ hex_error_display error)))
    | (Ok _, claimed_prev) =>
        if negb (bool_decide (claimed_prev = previous)) then Err (brk PrevHashMismatch)
        else
          let computed := hash_payload (as_bytes (sr_payload record)) in
          match sr_hash record with
          | Some stored =>
              if negb (bool_decide (stored = computed)) then Err (brk HashMismatch) else Ok computed
          | None => Ok computed
          end
    end.

(** [if let Some(expected) = expected_seq && record.seq != expected] *)
Definition sequence_gap (expected_seq : option Z) (seq : Z) : option Z :=
  match expected_seq with
  | Some expected => if negb (seq =? expected)%Z then Some expected else None
  | None => None
  end.

Fixpoint verify_loop (records : list StoredRecord) (previous : bytes) (expected_seq : option Z)
    (count head_seq : Z) : result ChainBreak Verified :=
  match records with
  | [] => Ok (mkVerified count head_seq previous)
  | record :: records =>
      match sequence_gap expected_seq (sr_seq record) with
      | Some expected => Err (mkChainBreak (sr_seq record) (SequenceGap expected))
      | None =>
          let? computed := verify_record record previous in
          verify_loop records computed (Some (u64_add (sr_seq record) 1)) (u64_add count 1) (sr_seq record)
      end
  end.

Definition verify (records : list StoredRecord) (expected_prev : bytes) : result ChainBreak Verified :=
  verify_loop records expected_prev None 0 0.

Definition verify_from (start : Start) (records : list StoredRecord) : result ChainBreak Verified :=
  match records with
  | first :: _ =>
      if negb (sr_seq first =? first_seq start)%Z
      then Err (mkChainBreak (sr_seq first) (SequenceGap (first_seq start)))
      else verify records (expected_prev start)
  | [] => verify records (expected_prev start)
  end.

Definition verify_from_genesis (records : list StoredRecord) : result ChainBreak Verified :=
  verify_from Genesis records.
End verify.

(** ** The specification of a chain *)

Section spec.
Context {H : Sha256} {J : Json}.

(** One record continues a history whose next sequence number is [seq] and
    whose last hash is [prev]. *)
Definition links (seq : Z) (prev : bytes) (r : StoredRecord) : Prop :=
  sr_seq r = seq /\
  (exists text, json_header (sr_payload r) = Ok (seq, text) /\
     hex_decode_into text (zeroed HASH_LEN) = (Ok tt, prev)) /\
  (forall stored, sr_hash r = Some stored -> stored = hash_payload (as_bytes (sr_payload r))).

Inductive chained : Z -> bytes -> list StoredRecord -> bytes -> Prop :=
| chained_nil seq prev : chained seq prev [] prev
| chained_cons seq prev r rs head :
    links seq prev r ->
    chained (u64_add seq 1) (hash_payload (as_bytes (sr_payload r))) rs head ->
    chained seq prev (r :: rs) head.

(** Two texts with one digest. *)
Definition collision : Prop :=
  exists a b : string, a <> b /\ hash_payload (as_bytes a) = hash_payload (as_bytes b).

(** What a run of the encoder leaves: each entry encoded after the one before
    it was committed. *)
Fixpoint chain_run (c : Chain) (entries : list (Entry * Z)) : result AuditError (list EncodedRecord * Chain) :=
  match entries with
  | [] => Ok ([], c)
  | (e, now) :: entries =>
      let? r := chain_encode c e now in
      let? (rs, c') := chain_run (chain_commit c r) entries in
      Ok (r :: rs, c')
  end.

Definition stored (r : EncodedRecord) : StoredRecord :=
  mkStoredRecord (er_seq r) (er_payload r) (Some (er_hash r)).

(** ** Lemmas *)

Lemma as_bytes_inj a b : as_bytes a = as_bytes b -> a = b.
Proof. intros E. by rewrite <- (str_of_as a), <- (str_of_as b), E. Qed.

Lemma verify_record_Ok r prev h :
  verify_record r prev = Ok h <-> links (sr_seq r) prev r /\ h = hash_payload (as_bytes (sr_payload r)).
Proof.
  unfold verify_record, links. destruct (json_header (sr_payload r)) as [[seq text]|e]; simpl.
  2: { split; [done|]. intros ((_ & (? & [=] & _) & _) & _). }
  destruct (Z.eqb_spec seq (sr_seq r)) as [->|Hne]; simpl.
  2: { split; [done|]. intros ((_ & (? & [= E _] & _) & _) & _). congruence. }
  destruct (hex_decode_into text (zeroed HASH_LEN)) as [[[]|e] claimed] eqn:Hd.
  2: { split; [done|]. intros ((_ & (? & [= <-] & Hd') & _) & _). congruence. }
  case_bool_decide as Hp; simpl.
  2: { split; [done|]. intros ((_ & (? & [= <-] & Hd') & _) & _). congruence. }
  subst claimed. destruct (sr_hash r) as [stored|] eqn:Hs; [case_bool_decide as Hst; simpl|].
  - split; [intros [= <-]|intros [_ ->]; done].
    split; [|done]. split_and!; [done|eauto|]. by intros ? [= <-].
  - split; [done|]. intros ((_ & _ & Hall) & _). by destruct Hst; apply Hall.
  - split; [intros [= <-]|intros [_ ->]; done]. split; [|done]. split_and!; [done|eauto|done].
Qed.

Lemma links_seq seq prev r : links seq prev r -> links (sr_seq r) prev r /\ sr_seq r = seq.
Proof. intros Hl. pose proof (proj1 Hl) as E. split; [by rewrite E|done]. Qed.

Fixpoint last_seq (d : Z) (rs : list StoredRecord) : Z :=
  match rs with [] => d | r :: rs => last_seq (sr_seq r) rs end.

Lemma u64_add_mod a b c : u64_add (u64_add a b) c = u64_add a (b + c).
Proof. unfold u64_add. rewrite Zplus_mod_idemp_l. f_equal. lia. Qed.

Lemma verify_loop_Ok rs prev seq count head v :
  verify_loop rs prev (Some seq) count head = Ok v <->
  chained seq prev rs (v_head_hash v) /\ v_head_seq v = last_seq head rs /\
  v_records v = (if decide (rs = []) then count else u64_add count (Z.of_nat (length rs))).
Proof.
  revert prev seq count head. induction rs as [|r rs IH]; intros prev seq count head; simpl.
  - split.
    + intros [= <-]. simpl. split_and!; [constructor|done|done].
    + intros (Hc & Hs & Hr). inversion Hc; subst. destruct v; simpl in *. congruence.
  - destruct (Z.eqb_spec (sr_seq r) seq) as [E|Hne]; simpl.
    2: { split; [done|]. intros (Hc & _). inversion Hc as [|? ? ? ? ? Hl _]; subst.
         by destruct (links_seq _ _ _ Hl). }
    rewrite res_bind_Ok. setoid_rewrite verify_record_Ok. setoid_rewrite IH. rewrite E.
    assert (forall P : bytes -> Prop, (exists a, (links seq prev r /\ a = hash_payload (as_bytes (sr_payload r))) /\ P a)
      <-> links seq prev r /\ P (hash_payload (as_bytes (sr_payload r)))) as Hex by naive_solver.
    rewrite Hex.
    assert ((if decide (rs = []) then u64_add count 1 else u64_add (u64_add count 1) (Z.of_nat (length rs)))
      = u64_add count (Z.of_nat (S (length rs)))) as ->.
    { destruct (decide (rs = [])) as [->|]; [done|]. rewrite u64_add_mod. f_equal. lia. }
    split.
    + intros (Hl & Hc & Hh & Hr). split_and!; [by constructor|done|done].
    + intros (Hc & Hh & Hr). inversion Hc; subst. done.
Qed.

Lemma verify_Ok rs prev v :
  verify rs prev = Ok v <->
  (exists seq, chained seq prev rs (v_head_hash v) /\ (rs = [] \/ sr_seq <$> head rs = Some seq)) /\
  v_head_seq v = last_seq 0 rs /\ v_records v = (Z.of_nat (length rs) mod 2 ^ 64)%Z.
Proof.
  unfold verify. destruct rs as [|r rs]; simpl.
  - split.
    + intros [= <-]. simpl. split_and!; [exists 0%Z; split; [constructor|by left]|done|done].
    + intros ((seq & Hc & _) & Hs & Hr). inversion Hc; subst. f_equal. destruct v; simpl in *.
      f_equal; symmetry; done.
  - rewrite res_bind_Ok. setoid_rewrite verify_record_Ok. setoid_rewrite verify_loop_Ok.
    assert ((if decide (rs = []) then u64_add 0 1 else u64_add (u64_add 0 1) (Z.of_nat (length rs)))
      = (Z.of_nat (S (length rs)) mod 2 ^ 64)%Z) as ->.
    { destruct (decide (rs = [])) as [->|]; [done|]. rewrite u64_add_mod. unfold u64_add. f_equal. lia. }
    split.
    + intros (h & (Hl & ->) & Hc & Hh & Hr). split_and!; [|done|done].
      exists (sr_seq r). split; [by constructor|by right].
    + intros ((seq & Hc & Hs) & Hh & Hr). destruct Hs as [|[= <-]]; [done|].
      inversion Hc; subst. eauto 10.
Qed.

(** The length of a chain fixes its last sequence number. *)
Lemma chained_payloads seq prev1 rs1 prev2 rs2 head :
  chained seq prev1 rs1 head -> chained seq prev2 rs2 head -> length rs1 = length rs2 ->
  (prev1 = prev2 /\ map (fun r => (sr_seq r, sr_payload r)) rs1 = map (fun r => (sr_seq r, sr_payload r)) rs2)
  \/ collision.
Proof.
  intros Hc1. revert prev2 rs2. induction Hc1 as [seq prev1|seq prev1 r1 rs1 head Hl1 Hc1 IH];
    intros prev2 [|r2 rs2] Hc2 Hlen; try done.
  - inversion Hc2; subst. by left.
  - inversion Hc2 as [|? ? ? ? ? Hl2 Hc2']; subst. injection Hlen as Hlen.
    destruct (IH _ _ Hc2' Hlen) as [[Eh Em]|]; [|by right].
    destruct (decide (sr_payload r1 = sr_payload r2)) as [Ep|Hne].
    + left. destruct Hl1 as (Es1 & (t1 & Hj1 & Hd1) & _), Hl2 as (Es2 & (t2 & Hj2 & Hd2) & _).
      rewrite Ep in Hj1. rewrite Hj1 in Hj2. injection Hj2 as <-. rewrite Hd1 in Hd2.
      injection Hd2 as <-. split; [done|]. simpl. by rewrite Em, Es1, Es2, Ep.
    + right. by exists (sr_payload r1), (sr_payload r2).
Qed.

Lemma chain_run_chained {HL : Sha256Laws H} {JL : JsonLaws J} entries : forall c rs c',
  (0 <= next_seq c)%Z -> (next_seq c + Z.of_nat (length entries) <= u64_max)%Z ->
  length (prev_hash c) = HASH_LEN -> chain_run c entries = Ok (rs, c') ->
  chained (next_seq c) (prev_hash c) (map stored rs) (prev_hash c') /\
  length rs = length entries /\ next_seq c' = (next_seq c + Z.of_nat (length entries))%Z /\
  last_seq (next_seq c - 1) (map stored rs) = (next_seq c' - 1)%Z.
Proof.
  induction entries as [|[e now] entries IH]; intros c rs c' Hs Hmax Hp; simpl.
  - intros [= <- <-]. split_and!; [constructor|done|simpl; lia|done].
  - intros Hr. run_ok. destruct v0 as [rs' c'']. injection Hr as <- <-.
    unfold chain_encode in Hres. run_ok. injection Hres as <-. simpl in Hmax.
    assert (u64_add (next_seq c) 1 = next_seq c + 1)%Z as Eadd
      by (unfold u64_add, u64_max in *; rewrite Z.mod_small; lia).
    apply IH in Hres0 as (Hc & Hlen & Hn & Hlast).
    + unfold chain_commit in *. simpl in *. rewrite Eadd in *. split_and!; [|lia|lia|].
      * constructor; [|by rewrite Eadd]. split_and!; [done| |by intros ? [= <-]].
        exists (hex_encode (prev_hash c)). split.
        -- eapply json_header_record; [unfold u64_max in *; lia|done].
        -- apply hex_decode_into_encode. by rewrite Hp.
      * simpl. rewrite <- Hlast. f_equal. lia.
    + unfold chain_commit. simpl. rewrite Eadd. lia.
    + unfold chain_commit. simpl. rewrite Eadd. lia.
    + apply sha256_length.
Qed.

Lemma verify_from_Ok start rs v :
  verify_from start rs = Ok v <->
  chained (first_seq start) (expected_prev start) rs (v_head_hash v) /\
  v_head_seq v = last_seq 0 rs /\ v_records v = (Z.of_nat (length rs) mod 2 ^ 64)%Z.
Proof.
  unfold verify_from. destruct rs as [|r rs].
  - rewrite verify_Ok. split.
    + intros ((seq & Hc & _) & ?). split; [|done]. inversion Hc; subst. constructor.
    + intros (Hc & ?). split; [|done]. eexists. split; [done|by left].
  - destruct (Z.eqb_spec (sr_seq r) (first_seq start)) as [E|Hne]; simpl.
    + rewrite verify_Ok. rewrite <- E. split.
      * intros ((seq & Hc & [|Hs]) & ?); [done|]. injection Hs as Hs. subst seq. by split.
      * intros (Hc & ?). split; [|done]. eexists. split; [done|by right].
    + split; [done|]. intros (Hc & _). inversion Hc as [|? ? ? ? ? Hl _]; subst.
      by destruct (links_seq _ _ _ Hl).
Qed.

(** ** Properties *)

(** C14: Verification accepts exactly the sequences that chain from the start they
    are verified against, and reports their head. *)
Theorem verify_from_correct start rs v :
  verify_from start rs = Ok v <->
  chained (first_seq start) (expected_prev start) rs (v_head_hash v) /\
  v_head_seq v = last_seq 0 rs /\ v_records v = (Z.of_nat (length rs) mod 2 ^ 64)%Z.
Proof. apply verify_from_Ok. Qed.

(** C15: A history cannot be rewritten under its own head: two verified runs of the
    same length from the same start that end in the same hash hold the same
    payloads at the same sequence numbers, or SHA-256 collides on two texts. *)
Theorem verified_history_unique start rs1 rs2 v1 v2 :
  verify_from start rs1 = Ok v1 -> verify_from start rs2 = Ok v2 ->
  length rs1 = length rs2 -> v_head_hash v1 = v_head_hash v2 ->
  map (fun r => (sr_seq r, sr_payload r)) rs1 = map (fun r => (sr_seq r, sr_payload r)) rs2
  \/ collision.
Proof.
  intros (Hc1 & _)%verify_from_Ok (Hc2 & _)%verify_from_Ok Hlen Hh.
  rewrite <- Hh in Hc2. destruct (chained_payloads _ _ _ _ _ _ Hc1 Hc2 Hlen) as [[_ ?]|?]; auto.
Qed.

(** What the chain encodes and commits, from genesis or after a cut, verifies. *)
Theorem chain_run_verifies {HL : Sha256Laws H} {JL : JsonLaws J} start c entries rs c' :
  first_seq start = next_seq c -> expected_prev start = prev_hash c ->
  length (prev_hash c) = HASH_LEN -> (1 <= next_seq c)%Z ->
  (next_seq c + Z.of_nat (length entries) <= u64_max)%Z ->
  chain_run c entries = Ok (rs, c') ->
  verify_from start (map stored rs) =
    Ok (mkVerified (Z.of_nat (length entries))
          (if decide (entries = []) then 0%Z else (next_seq c' - 1)%Z) (prev_hash c')).
Proof.
  intros Ef Ep Hp H1 Hmax Hr. apply verify_from_Ok. rewrite Ef, Ep. simpl.
  destruct (chain_run_chained entries c rs c') as (Hc & Hlen & Hn & Hlast); [lia|done..|].
  rewrite length_map, Hlen. split_and!; [done| |].
  - destruct entries as [|x entries]; [by destruct rs|]. destruct rs as [|r rs]; [done|].
    simpl in *. by rewrite Hlast.
  - unfold u64_max in Hmax. rewrite Z.mod_small; lia.
Qed.
End spec.

(** ** A small environment to run the code in

    The sequence number in unary, the action and the previous hash; and a digest
    that keeps the first 32 bytes. *)
Section toy.
Definition bar : ascii := "|"%char.
Definition toy_json : Json := {|
  json_record seq _ prev e :=
    if contains newline prev then Err "a newline"
    else Ok (zeros (Z.to_nat seq) ++ String bar (action_str (e_action e) ++ String bar prev))%string;
  json_header s :=
    match split_once bar s with
    | None => Err "no record"
    | Some (seq, rest) =>
        match split_once bar rest with
        | None => Err "no record"
        | Some (_, prev) => Ok (len seq, prev)
        end
    end;
|}.
Definition toy_sha256 : Sha256 := fun b => take 32 (b ++ repeat "0"%char 32).

Lemma toy_sha256_laws : Sha256Laws toy_sha256.
Proof. intros b. unfold sha256, toy_sha256. rewrite length_take, length_app, repeat_length. lia. Qed.

Lemma zeros_no_bar n c : c <> "0"%char -> contains c (zeros n) = false.
Proof.
  intros Hc. induction n as [|n IH]; [done|]. cbn [zeros contains].
  by rewrite (proj2 (Ascii.eqb_neq "0"%char c)), IH by congruence.
Qed.

Lemma zeros_length n : String.length (zeros n) = n.
Proof. induction n; simpl; congruence. Qed.

Lemma toy_json_laws : JsonLaws toy_json.
Proof.
  split.
  - intros seq ts prev e s Hs. simpl. destruct (contains newline prev); [done|]. intros [= <-].
    rewrite split_once_app by by apply zeros_no_bar. rewrite split_once_app by by destruct (e_action e).
    unfold len. rewrite zeros_length. do 2 f_equal. lia.
  - intros seq ts prev e s. simpl. destruct (contains newline prev) eqn:Hn; [done|]. intros [= <-].
    split.
    + intros E. apply (f_equal String.length) in E. rewrite str_length_app in E. simpl in E. lia.
    + rewrite contains_app, zeros_no_bar by done. simpl. rewrite contains_app. simpl. rewrite Hn.
      by destruct (e_action e).
Qed.
End toy.

Definition example_entries : list (Entry * Z) :=
  [(entry_allowed ActRead, 0%Z); (entry_denied ActWrite "not-granted", 5%Z)].
Definition example_run : list EncodedRecord * Chain :=
  match chain_run (H := toy_sha256) (J := toy_json) chain_new example_entries with
  | Ok p => p
  | Err _ => ([], chain_new)
  end.

Lemma chain_run_verifies_witness :
  verify_from (H := toy_sha256) (J := toy_json) Genesis (map stored (fst example_run)) =
    Ok (mkVerified 2 2 (prev_hash (snd example_run))).
Proof.
  apply (chain_run_verifies (HL := toy_sha256_laws) (JL := toy_json_laws) Genesis chain_new
    example_entries (fst example_run) (snd example_run)); vm_compute; congruence.
Defined.

Lemma verified_history_unique_witness :
  let rs := map stored (fst example_run) in
  map (fun r => (sr_seq r, sr_payload r)) rs = map (fun r => (sr_seq r, sr_payload r)) rs \/
  collision (H := toy_sha256).
Proof.
  apply (verified_history_unique (H := toy_sha256) (J := toy_json) Genesis _ _
    (mkVerified 2 2 (prev_hash (snd example_run))) (mkVerified 2 2 (prev_hash (snd example_run))));
    vm_compute; reflexivity.
Defined.

(** A record changed after the fact is found. *)
Example tampered_record_found :
  verify_from (H := toy_sha256) (J := toy_json) Genesis
    (map (fun r => if (sr_seq r =? 1)%Z
                   then mkStoredRecord 1 ("0|write|" ++ hex_encode GENESIS)%string None else r)
         (map stored (fst example_run))) = Err (mkChainBreak 2 PrevHashMismatch).
Proof. vm_compute. reflexivity. Qed.
