(* ===== verification/Sink.v ===== *)
(** * The audit sink ([ciphr-audit/src/device.rs])

    One chain, several devices.  A record counts once at least one device holds
    it; a device that missed one is quarantined so that what it holds stays a
    prefix of the chain.  The interface a device promises is the class
    [AuditDevice] with [AuditDeviceLaws]; the file device and the store's device
    are its implementations. *)

From Stdlib Require Import ZArith NArith Lia Ascii String.
From stdpp Require Import base tactics list strings.
From S2P Require Import Prelude Text Hex Path Vocabulary Time Chain.

(** The trait.  Writing and reopening change the device; asking for its head
    does not. *)
Class AuditDevice (D : Type) : Type := {
  dev_name : D -> string;
  dev_write : EncodedRecord -> D -> result string unit * D;
  dev_head_seq : D -> result string (option Z);
  dev_reopen : D -> result string unit * D;
}.

(** What the sink needs of a device: a successful write appends the record and a
    failed one leaves what it holds, and its name never changes. *)
Class AuditDeviceLaws (D : Type) `{!AuditDevice D} : Type := {
  dev_log : D -> list EncodedRecord;
  dev_write_ok : forall r d d', dev_write r d = (Ok tt, d') ->
    dev_log d' = dev_log d ++ [r] /\ dev_name d' = dev_name d;
  dev_write_err : forall r d d' e, dev_write r d = (Err e, d') ->
    dev_log d' = dev_log d /\ dev_name d' = dev_name d;
}.

Record Quarantined : Type := mkQuarantined {
  q_device : string;
  q_last_held : option Z;
  q_missed_from : Z;
}.

Record Written : Type := mkWritten {
  w_seq : Z;
  w_hash : bytes;
  w_failures : list DeviceFailure;
  w_quarantined : list Quarantined;
}.

Record Slot (D : Type) : Type := mkSlot { slot_device : D; slot_quarantined : option Quarantined }.
Arguments mkSlot {D}.
Arguments slot_device {D}.
Arguments slot_quarantined {D}.

Record AuditSink (D : Type) : Type := mkSink { slots : list (Slot D); sink_chain : Chain }.
Arguments mkSink {D}.
Arguments slots {D}.
Arguments sink_chain {D}.

Section sink.
Context {H : Sha256} {J : Json} {D : Type} `{!AuditDevice D}.

Definition slot_active (s : Slot D) : bool :=
  match slot_quarantined s with Some _ => false | None => true end.

(** The closure of [AuditSink::new]. *)
Definition slot_of_device (head : Z) (device : D) : Slot D :=
  mkSlot device
    match dev_head_seq device with
    | Ok (Some seq) =>
        if negb (seq =? head)%Z
        then Some (mkQuarantined (dev_name device) (Some seq) (u64_sat_add seq 1))
        else None
    | _ => None
    end.

Definition AuditSink_new (devices : list D) (chain : Chain) : result AuditError (AuditSink D) :=
  match devices with
  | [] => Err NoDevices
  | _ =>
      let head := u64_sat_sub (next_seq chain) 1 in
      Ok (mkSink (map (slot_of_device head) devices) chain)
  end.

Definition sink_quarantined (s : AuditSink D) : list Quarantined :=
  omap slot_quarantined (slots s).

Definition sink_next_seq (s : AuditSink D) : Z := next_seq (sink_chain s).
Definition sink_head_hash (s : AuditSink D) : bytes := prev_hash (sink_chain s).
Definition device_names (s : AuditSink D) : list string :=
  map (fun slot => dev_name (slot_device slot)) (slots s).

(** The first loop of [record]: write to every device in order, one failing
    does not stop the others. *)
Fixpoint write_all (record : EncodedRecord) (l : list (Slot D))
    : list (Slot D) * list DeviceFailure * nat :=
  match l with
  | [] => ([], [], 0%nat)
  | slot :: l =>
      if negb (slot_active slot) then
        let '(l, failures, attempted) := write_all record l in (slot :: l, failures, attempted)
      else
        let '(r, device) := dev_write record (slot_device slot) in
        let '(l, failures, attempted) := write_all record l in
        (mkSlot device None :: l,
         match r with
         | Ok _ => failures
         | Err reason => mkDeviceFailure (dev_name device) reason :: failures
         end,
         S attempted)
  end.

(** The second loop: the devices that failed are stopped. *)
Fixpoint quarantine_failed (failures : list DeviceFailure) (record : EncodedRecord)
    (l : list (Slot D)) : list (Slot D) * list Quarantined :=
  match l with
  | [] => ([], [])
  | slot :: l =>
      let '(l, stopped) := quarantine_failed failures record l in
      if slot_active slot then
        let name := dev_name (slot_device slot) in
        if existsb (fun failure => String.eqb (df_device failure) name) failures then
          let q := mkQuarantined name
                     (if (1 <=? er_seq record)%Z then Some (er_seq record - 1)%Z else None)
                     (er_seq record) in
          (mkSlot (slot_device slot) (Some q) :: l, q :: stopped)
        else (slot :: l, stopped)
      else (slot :: l, stopped)
  end.

Definition sink_record (entry : Entry) (now_millis : Z) : stm (AuditSink D) AuditError Written :=
  fun s =>
    match chain_encode (sink_chain s) entry now_millis with
    | Err e => (Err e, s)
    | Ok record =>
        let '(l, failures, attempted) := write_all record (slots s) in
        if (attempted =? 0)%nat || (length failures =? attempted)%nat then
          (Err (AllDevicesFailed failures), mkSink l (sink_chain s))
        else
          let '(l, stopped) := quarantine_failed failures record l in
          (Ok (mkWritten (er_seq record) (er_hash record) failures stopped),
           mkSink l (chain_commit (sink_chain s) record))
    end.

(** Every device is asked, quarantined or not. *)
Fixpoint reopen_all (l : list (Slot D)) : list (Slot D) * list DeviceFailure :=
  match l with
  | [] => ([], [])
  | slot :: l =>
      let '(r, device) := dev_reopen (slot_device slot) in
      let '(l, failures) := reopen_all l in
      (mkSlot device (slot_quarantined slot) :: l,
       match r with
       | Ok _ => failures
       | Err reason => mkDeviceFailure (dev_name device) reason :: failures
       end)
  end.

Definition sink_reopen (s : AuditSink D) : list DeviceFailure * AuditSink D :=
  let '(l, failures) := reopen_all (slots s) in (failures, mkSink l (sink_chain s)).

(** ** What a sequence of calls leaves *)

(** Run [record] over a sequence of entries: the records that were committed,
    the entries they are for, and the sink afterwards. *)
Fixpoint sink_run (entries : list (Entry * Z)) (s : AuditSink D)
    : list EncodedRecord * list (Entry * Z) * AuditSink D :=
  match entries with
  | [] => ([], [], s)
  | (e, now) :: entries =>
      let '(r, s1) := sink_record e now s in
      let '(rs, accepted, s2) := sink_run entries s1 in
      match r, chain_encode (sink_chain s) e now with
      | Ok _, Ok record => (record :: rs, (e, now) :: accepted, s2)
      | _, _ => (rs, accepted, s2)
      end
  end.

(** What one slot may hold after a run: all of the committed records, or those
    before the one it missed. *)
Definition slot_follows {L : AuditDeviceLaws D} (committed : list EncodedRecord) (s0 s : Slot D) : Prop :=
  dev_name (slot_device s) = dev_name (slot_device s0) /\
  match slot_quarantined s0, slot_quarantined s with
  | Some q, q' => q' = Some q /\ dev_log (slot_device s) = dev_log (slot_device s0)
  | None, None => dev_log (slot_device s) = dev_log (slot_device s0) ++ committed
  | None, Some q => exists before r after, committed = before ++ r :: after /\
      q_missed_from q = er_seq r /\ q_device q = dev_name (slot_device s0) /\
      dev_log (slot_device s) = dev_log (slot_device s0) ++ before
  end.
End sink.

Section sink_lemmas.
Context {H : Sha256} {J : Json} {D : Type} `{!AuditDevice D} {L : AuditDeviceLaws D}.
Implicit Types (s : Slot D) (l : list (Slot D)).

Definition slot_name s : string := dev_name (slot_device s).

Definition named_in (failures : list DeviceFailure) (name : string) : bool :=
  existsb (fun failure => String.eqb (df_device failure) name) failures.

Lemma named_in_true failures name :
  named_in failures name = true <-> exists f, f ∈ failures /\ df_device f = name.
Proof.
  unfold named_in. rewrite List.existsb_exists. setoid_rewrite String.eqb_eq.
  by setoid_rewrite list_elem_of_In.
Qed.

(** What a write attempt leaves of a slot. *)
Definition slot_wrote (r : EncodedRecord) (failed : bool) s s' : Prop :=
  slot_name s' = slot_name s /\ slot_quarantined s' = slot_quarantined s /\
  match slot_quarantined s with
  | Some _ => s' = s
  | None => dev_log (slot_device s') =
              if failed then dev_log (slot_device s) else dev_log (slot_device s) ++ [r]
  end.

Lemma dev_write_slot r device :
  let '(res, device') := dev_write r device in
  slot_wrote r (negb (is_ok res)) (mkSlot device None) (mkSlot device' None).
Proof.
  destruct (dev_write r device) as [[[]|e] device'] eqn:Hw; simpl.
  - apply dev_write_ok in Hw as [? ?]. by split_and!.
  - apply dev_write_err in Hw as [? ?]. by split_and!.
Qed.

Lemma write_all_spec r l l' failures attempted :
  NoDup (map slot_name l) -> write_all r l = (l', failures, attempted) ->
  Forall2 (fun s s' => slot_wrote r (named_in failures (slot_name s)) s s') l l' /\
  (forall name, named_in failures name = true -> name ∈ map slot_name l).
Proof.
  revert l' failures attempted. induction l as [|s l IH]; intros l' failures attempted Hnd; simpl.
  { intros [= <- <- <-]. split; [constructor|done]. }
  apply NoDup_cons in Hnd as [Hni Hnd]. fold (slot_name s) in *.
  destruct (write_all r l) as [[l1 f1] n1] eqn:E. destruct (IH _ _ _ Hnd eq_refl) as [HF Hn].
  assert (named_in f1 (slot_name s) = false) as Hs1.
  { apply not_true_is_false. intros Ht. by apply Hni, Hn. }
  destruct s as [device [q|]]; simpl in *.
  - intros [= <- <- <-]. split; [constructor; [by rewrite Hs1|done]|].
    intros name Hname. right. by apply Hn.
  - pose proof (dev_write_slot r device) as Hw. destruct (dev_write r device) as [res device'].
    intros [= <- <- <-]. unfold slot_name in Hs1 at 1. simpl in Hs1.
    destruct res as [[]|reason]; simpl in Hw.
    + split; [constructor; [unfold slot_name; simpl; by rewrite Hs1|done]|].
      intros name Hname. right. by apply Hn.
    + pose proof (proj1 Hw) as Hname. unfold slot_name in Hname. simpl in Hname. split.
      * constructor.
        -- unfold slot_name at 1, named_in. simpl. by rewrite Hname, String.eqb_refl.
        -- eapply Forall2_impl_left; [exact HF|]. intros s s' Hin Hsw. unfold named_in. simpl.
           rewrite Hname, (proj2 (String.eqb_neq _ _)); [done|].
           intros Heq. apply Hni. unfold slot_name at 1. simpl. rewrite Heq.
           apply list_elem_of_In, in_map. by apply list_elem_of_In.
      * intros name. unfold named_in. simpl. rewrite orb_true_iff, String.eqb_eq, Hname.
        intros [<-|Hin]; [by left|]. right. by apply Hn.
Qed.

Lemma write_all_failures_le r l l' failures attempted :
  write_all r l = (l', failures, attempted) -> (length failures <= attempted)%nat.
Proof.
  revert l' failures attempted. induction l as [|s l IH]; intros l' failures attempted; simpl.
  { by intros [= <- <- <-]. }
  destruct (write_all r l) as [[l1 f1] n1] eqn:E. specialize (IH _ _ _ eq_refl).
  destruct (negb _); [intros [= <- <- <-]; done|].
  destruct (dev_write _ _) as [[]]; intros [= <- <- <-]; simpl; lia.
Qed.

Lemma write_all_all_failed r l l' failures attempted :
  write_all r l = (l', failures, attempted) -> length failures = attempted ->
  Forall2 (slot_wrote r true) l l'.
Proof.
  revert l' failures attempted. induction l as [|s l IH]; intros l' failures attempted; simpl.
  { intros [= <- <- <-]. constructor. }
  destruct (write_all r l) as [[l1 f1] n1] eqn:E. pose proof (write_all_failures_le _ _ _ _ _ E).
  destruct s as [device [q|]]; simpl.
  - intros [= <- <- <-] Hl. constructor; [done|]. by eapply IH.
  - pose proof (dev_write_slot r device) as Hw. destruct (dev_write r device) as [[[]|] device'];
      intros [= <- <- <-]; simpl; intros Hl; [lia|]. constructor; [done|]. eapply IH; [done|lia].
Qed.

Lemma quarantine_failed_spec failures r l :
  Forall2 (fun s s' => slot_device s' = slot_device s /\
    slot_quarantined s' =
      if slot_active s && named_in failures (slot_name s)
      then Some (mkQuarantined (slot_name s)
                   (if (1 <=? er_seq r)%Z then Some (er_seq r - 1)%Z else None) (er_seq r))
      else slot_quarantined s) l (fst (quarantine_failed failures r l)).
Proof.
  induction l as [|s l IH]; simpl; [constructor|].
  destruct (quarantine_failed failures r l) as [l' stopped]. simpl in IH.
  fold (slot_name s) (named_in failures (slot_name s)).
  destruct (slot_active s) eqn:Ha; [destruct (named_in failures (slot_name s)) eqn:Hf|];
    (constructor; [by rewrite Ha, ?Hf|done]).
Qed.

Lemma quarantine_failed_list failures r l l' stopped :
  quarantine_failed failures r l = (l', stopped) ->
  stopped = map (fun s => mkQuarantined (slot_name s)
      (if (1 <=? er_seq r)%Z then Some (er_seq r - 1)%Z else None) (er_seq r))
    (List.filter (fun s => slot_active s && named_in failures (slot_name s)) l).
Proof.
  revert l' stopped. induction l as [|s l IH]; intros l' stopped; simpl; [by intros [= <- <-]|].
  destruct (quarantine_failed failures r l) as [l1 st1]. specialize (IH _ _ eq_refl).
  fold (slot_name s) (named_in failures (slot_name s)).
  destruct (slot_active s); simpl; [|intros [= <- <-]; done].
  destruct (named_in failures (slot_name s)); intros [= <- <-]; simpl; [|done].
  unfold slot_name. by f_equal.
Qed.

Lemma slot_follows_nil r s s' : slot_wrote r true s s' -> slot_follows [] s s'.
Proof.
  intros (Hn & Hq & Hl). split; [done|]. rewrite Hq. destruct (slot_quarantined s) as [q|].
  - split; [done|]. by rewrite Hl.
  - by rewrite app_nil_r.
Qed.

Lemma slot_follows_refl s : slot_follows [] s s.
Proof. split; [done|]. destruct (slot_quarantined s); [done|]. by rewrite app_nil_r. Qed.

Lemma slot_follows_trans c1 c2 s0 s1 s2 :
  slot_follows c1 s0 s1 -> slot_follows c2 s1 s2 -> slot_follows (c1 ++ c2) s0 s2.
Proof.
  intros [Hn1 H1] [Hn2 H2]. split; [by rewrite Hn2|].
  destruct (slot_quarantined s0) as [q0|].
  - destruct H1 as [E1 Hl1]. rewrite E1 in H2. destruct H2 as [E2 Hl2]. by rewrite E2, Hl2.
  - destruct (slot_quarantined s1) as [q1|].
    + destruct H2 as [-> Hl2]. destruct H1 as (b & r & a & -> & ? & ? & Hl1).
      exists b, r, (a ++ c2). split_and!; [by rewrite <- app_assoc|done|done|by rewrite Hl2].
    + destruct (slot_quarantined s2) as [q2|].
      * destruct H2 as (b & r & a & -> & ? & Hd & Hl2). exists (c1 ++ b), r, a.
        split_and!; [by rewrite <- app_assoc|done|by rewrite Hd|]. by rewrite Hl2, H1, app_assoc.
      * by rewrite H2, H1, app_assoc.
Qed.

Lemma slots_follow_trans c1 c2 l0 l1 l2 :
  Forall2 (slot_follows c1) l0 l1 -> Forall2 (slot_follows c2) l1 l2 ->
  Forall2 (slot_follows (c1 ++ c2)) l0 l2.
Proof.
  intros H1. revert l2. induction H1 as [|s0 s1 l0 l1 Hs _ IH]; intros l2 H2;
    inversion H2; subst; constructor; eauto using slot_follows_trans.
Qed.

Lemma slots_follow_refl l : Forall2 (slot_follows []) l l.
Proof. induction l; constructor; auto using slot_follows_refl. Qed.

(** One call of [record], for the slots and the chain. *)
Lemma sink_record_step e now sk res sk' :
  NoDup (device_names sk) -> sink_record e now sk = (res, sk') ->
  match res with
  | Err err =>
      sink_chain sk' = sink_chain sk /\ Forall2 (slot_follows []) (slots sk) (slots sk')
  | Ok w => exists r, chain_encode (sink_chain sk) e now = Ok r /\
      w_seq w = er_seq r /\ w_hash w = er_hash r /\
      sink_chain sk' = chain_commit (sink_chain sk) r /\
      Forall2 (slot_follows [r]) (slots sk) (slots sk')
  end.
Proof.
  intros Hnd. unfold sink_record. destruct (chain_encode (sink_chain sk) e now) as [r|err] eqn:He.
  2: { intros [= <- <-]. split; [done|]. apply slots_follow_refl. }
  destruct (write_all r (slots sk)) as [[l failures] attempted] eqn:Hw.
  destruct ((attempted =? 0)%nat || (length failures =? attempted)%nat) eqn:Hf.
  - intros [= <- <-]. split; [done|]. simpl.
    pose proof (write_all_failures_le _ _ _ _ _ Hw) as Hle.
    apply orb_true_iff in Hf. rewrite !Nat.eqb_eq in Hf.
    eapply Forall2_impl; [eapply write_all_all_failed; [exact Hw|destruct Hf; lia]|].
    apply slot_follows_nil.
  - destruct (quarantine_failed failures r l) as [l2 stopped] eqn:Hq.
    intros [= <- <-]. exists r. split_and!; [done|done|done|done|]. simpl.
    destruct (write_all_spec _ _ _ _ _ Hnd Hw) as [HF _].
    pose proof (quarantine_failed_spec failures r l) as HQ. rewrite Hq in HQ. simpl in HQ.
    clear -HF HQ. revert l2 HQ. induction HF as [|s s' l l' Hs HF IH]; intros l2 HQ;
      inversion HQ as [|? s'' ? l'' Hs' HQ']; subst; constructor; [|by apply IH].
    destruct Hs as (Hn & Hqs & Hl), Hs' as (Hd & Hq). unfold slot_active in Hq.
    unfold slot_follows. rewrite Hd. split; [exact Hn|].
    rewrite Hq, Hqs, Hn. destruct (slot_quarantined s) as [q|]; simpl.
    + by rewrite Hl.
    + destruct (named_in failures (slot_name s)); [|done].
      exists [], r, []. by rewrite app_nil_r.
Qed.

Lemma device_names_follow c sk sk' :
  Forall2 (slot_follows c) (slots sk) (slots sk') -> device_names sk' = device_names sk.
Proof.
  unfold device_names. intros HF. induction HF as [|s s' l l' [Hn _] _ IH]; simpl; [done|].
  by rewrite Hn, IH.
Qed.
End sink_lemmas.

Section sink_properties.
Context {H : Sha256} {J : Json} {D : Type} `{!AuditDevice D} {L : AuditDeviceLaws D}.

Lemma write_all_accepted r l l' failures attempted :
  NoDup (map slot_name l) -> write_all r l = (l', failures, attempted) ->
  (length failures < attempted)%nat ->
  exists s, s ∈ l /\ slot_quarantined s = None /\ named_in failures (slot_name s) = false.
Proof.
  revert l' failures attempted. induction l as [|s l IH]; intros l' failures attempted Hnd Hw Hlt.
  { simpl in Hw. injection Hw as <- <- <-. simpl in Hlt. lia. }
  pose proof Hnd as [Hni Hnd']%NoDup_cons. pose proof Hw as Hw0. simpl in Hw.
  destruct (write_all r l) as [[l1 f1] n1] eqn:E.
  destruct (write_all_spec _ _ _ _ _ Hnd' E) as [_ Hsub].
  destruct s as [device [q|]]; simpl in Hw.
  - injection Hw as <- <- <-. destruct (IH _ _ _ Hnd' eq_refl Hlt) as (s & Hs & Hq & Hf).
    exists s. split_and!; [by right|done|done].
  - pose proof (dev_write_slot r device) as Hd.
    destruct (dev_write r device) as [[[]|reason] device']; injection Hw as <- <- <-.
    + exists (mkSlot device None). split_and!; [left|done|].
      apply not_true_is_false. intros Ht. by apply Hni, Hsub.
    + simpl in Hlt. destruct (IH _ _ _ Hnd' eq_refl) as (s & Hs & Hq & Hf); [lia|].
      exists s. split_and!; [by right|done|]. unfold named_in in *. simpl. rewrite Hf.
      destruct Hd as [Hn _]. unfold slot_name in Hn at 1 2. simpl in Hn.
      rewrite Hn, (proj2 (String.eqb_neq _ _)); [done|].
      intros Heq. apply Hni. unfold slot_name at 1. simpl. rewrite Heq.
      apply list_elem_of_In, in_map. by apply list_elem_of_In.
Qed.

Lemma sink_run_follows entries sk rs accepted sk' :
  NoDup (device_names sk) -> sink_run entries sk = (rs, accepted, sk') ->
  Forall2 (slot_follows rs) (slots sk) (slots sk') /\
  chain_run (sink_chain sk) accepted = Ok (rs, sink_chain sk').
Proof.
  revert sk rs accepted sk'. induction entries as [|[e now] entries IH]; intros sk rs accepted sk' Hnd; simpl.
  { intros [= <- <- <-]. split; [|done]. apply slots_follow_refl. }
  destruct (sink_record e now sk) as [res sk1] eqn:Hr. pose proof (sink_record_step _ _ _ _ _ Hnd Hr) as Hs.
  destruct (sink_run entries sk1) as [[rs1 acc1] sk2] eqn:Hrun.
  destruct res as [w|err].
  - destruct Hs as (r & He & _ & _ & Hc & HF). rewrite He. intros [= <- <- <-].
    pose proof (device_names_follow _ _ _ HF) as Hn.
    apply IH in Hrun as [HF2 Hcr]; [|by rewrite Hn]. split.
    + change (r :: rs1) with ([r] ++ rs1). by eapply slots_follow_trans.
    + simpl. rewrite He. simpl. rewrite <- Hc, Hcr. done.
  - destruct Hs as [Hc HF]. intros Heq.
    assert ((rs1, acc1, sk2) = (rs, accepted, sk')) as [= <- <- <-]
      by by destruct (chain_encode (sink_chain sk) e now).
    pose proof (device_names_follow _ _ _ HF) as Hn.
    apply IH in Hrun as [HF2 Hcr]; [|by rewrite Hn]. rewrite <- Hc. split; [|done].
    change rs1 with ([] ++ rs1). by eapply slots_follow_trans.
Qed.

Lemma sink_record_durable e now sk res sk' :
  NoDup (device_names sk) -> sink_record e now sk = (res, sk') ->
  match res with
  | Ok w =>
      exists r s s', chain_encode (sink_chain sk) e now = Ok r /\ w_seq w = next_seq (sink_chain sk) /\
        sink_chain sk' = chain_commit (sink_chain sk) r /\ s ∈ slots sk /\ s' ∈ slots sk' /\
        slot_quarantined s = None /\ slot_quarantined s' = None /\
        dev_log (slot_device s') = dev_log (slot_device s) ++ [r]
  | Err _ =>
      sink_chain sk' = sink_chain sk /\
      Forall2 (fun s s' => slot_quarantined s' = slot_quarantined s /\
                 dev_log (slot_device s') = dev_log (slot_device s)) (slots sk) (slots sk')
  end.
Proof.
  intros Hnd Hr. pose proof (sink_record_step _ _ _ _ _ Hnd Hr) as Hs. destruct res as [w|err].
  2: { destruct Hs as [Hc HF]. split; [done|]. eapply Forall2_impl; [exact HF|].
       intros s s' [_ Hm]. destruct (slot_quarantined s) as [q|]; [done|].
       destruct (slot_quarantined s'); [|by rewrite app_nil_r in Hm].
       destruct Hm as (b & r & a & Hb & _). by destruct b. }
  destruct Hs as (r & He & Hseq & _ & Hc & _).
  assert (er_seq r = next_seq (sink_chain sk)) as Hq.
  { unfold chain_encode in He. run_ok. by injection He as <-. }
  unfold sink_record in Hr. rewrite He in Hr.
  destruct (write_all r (slots sk)) as [[l failures] attempted] eqn:Hw.
  destruct ((attempted =? 0)%nat || (length failures =? attempted)%nat) eqn:Hf; [done|].
  apply orb_false_iff in Hf as [_ Hf%Nat.eqb_neq].
  pose proof (write_all_failures_le _ _ _ _ _ Hw).
  destruct (write_all_accepted _ _ _ _ _ Hnd Hw ltac:(lia)) as (s & Hin & Hsq & Hsf).
  destruct (write_all_spec _ _ _ _ _ Hnd Hw) as [HF _].
  destruct (quarantine_failed failures r l) as [l2 stopped] eqn:HQ.
  injection Hr as <- <-. simpl in *.
  pose proof (quarantine_failed_spec failures r l) as HQs. rewrite HQ in HQs. simpl in HQs.
  apply list_elem_of_lookup in Hin as [i Hi].
  destruct (Forall2_lookup_l _ _ _ _ _ HF Hi) as (s1 & Hi1 & Hn1 & Hq1 & Hl1).
  destruct (Forall2_lookup_l _ _ _ _ _ HQs Hi1) as (s2 & Hi2 & Hd2 & Hq2).
  rewrite Hsq in *. rewrite Hn1, Hsf, andb_false_r, Hq1 in Hq2. rewrite Hsf in Hl1.
  exists r, s, s2. split_and!; [done|congruence|done| | |done|done|by rewrite Hd2].
  - by eapply list_elem_of_lookup_2.
  - by eapply list_elem_of_lookup_2.
Qed.

(** ** Properties *)



(** C16: Whatever the devices did, what the sink committed is one verifiable chain
    that ends in the head the sink reports. *)
Theorem sink_history_verifies {HL : Sha256Laws H} {JL : JsonLaws J} start entries sk rs accepted sk' :
  first_seq start = next_seq (sink_chain sk) -> expected_prev start = prev_hash (sink_chain sk) ->
  length (prev_hash (sink_chain sk)) = HASH_LEN -> (1 <= next_seq (sink_chain sk))%Z ->
  (next_seq (sink_chain sk) + Z.of_nat (length accepted) <= u64_max)%Z ->
  NoDup (device_names sk) -> sink_run entries sk = (rs, accepted, sk') ->
  exists v, verify_from start (map stored rs) = Ok v /\ v_head_hash v = sink_head_hash sk' /\
    v_records v = Z.of_nat (length rs).
Proof.
  intros Hf He Hp H1 Hmax Hnd Hr. destruct (sink_run_follows _ _ _ _ _ Hnd Hr) as [_ Hc].
  eexists. split; [by eapply chain_run_verifies|]. split; [done|]. simpl.
  destruct (chain_run_chained accepted (sink_chain sk) rs (sink_chain sk')) as (_ & Hl & _);
    [lia|done..|]. by rewrite Hl.
Qed.

(** A device is stopped at the start exactly when it holds records and its last
    one is not the head of the chain. *)
Theorem sink_new_quarantines devices chain sk :
  AuditSink_new devices chain = Ok sk ->
  map slot_device (slots sk) = devices /\
  forall s, s ∈ slots sk ->
    (slot_quarantined s = None <->
     forall seq, dev_head_seq (slot_device s) = Ok (Some seq) -> seq = u64_sat_sub (next_seq chain) 1).
Proof.
  unfold AuditSink_new. destruct devices as [|d devices]; [done|]. intros [= <-]. simpl.
  change (slot_of_device (u64_sat_sub (next_seq chain) 1) d :: map _ devices)
    with (map (slot_of_device (u64_sat_sub (next_seq chain) 1)) (d :: devices)). split.
  - f_equal. rewrite map_map. apply map_id.
  - intros s Hs. apply list_elem_of_In, in_map_iff in Hs as (x & <- & _).
    unfold slot_of_device. simpl. destruct (dev_head_seq x) as [[seq|]|]; try naive_solver.
    destruct (Z.eqb_spec seq (u64_sat_sub (next_seq chain) 1)); simpl; naive_solver.
Qed.
End sink_properties.

(** ** A device to run the code with

    It keeps records in memory and refuses the writes it is told to refuse. *)
Record MemDevice : Type := mkMemDevice {
  mem_name : string;
  mem_faults : list bool;
  mem_log : list EncodedRecord;
}.

#[export] Instance mem_device : AuditDevice MemDevice := {
  dev_name := mem_name;
  dev_write r d :=
    match mem_faults d with
    | true :: fs => (Err "disk full", mkMemDevice (mem_name d) fs (mem_log d))
    | fs => (Ok tt, mkMemDevice (mem_name d) (tail fs) (mem_log d ++ [r]))
    end;
  dev_head_seq d := Ok (er_seq <$> last (mem_log d));
  dev_reopen d := (Ok tt, d);
}.

#[export] Instance mem_device_laws : AuditDeviceLaws MemDevice.
Proof.
  refine {| dev_log := mem_log |}; intros r d d'; unfold dev_write; simpl;
    destruct (mem_faults d) as [|[] fs]; intros; simplify_eq; done.
Defined.

Definition example_sink : AuditSink MemDevice :=
  mkSink [mkSlot (mkMemDevice "a" [] []) None; mkSlot (mkMemDevice "b" [false; true] []) None] chain_new.

Definition example_sink_run : list EncodedRecord * list (Entry * Z) * AuditSink MemDevice :=
  sink_run (H := toy_sha256) (J := toy_json) (example_entries ++ example_entries) example_sink.

Lemma example_sink_names : NoDup (device_names example_sink).
Proof. apply (bool_decide_unpack _). vm_compute. exact I. Qed.


(** Device [b] refused the second record and was stopped there. *)
Example stopped_device :
  map (fun s => (er_seq <$> mem_log (slot_device s), q_missed_from <$> slot_quarantined s))
    (slots (snd example_sink_run)) = [([1; 2; 3; 4], None); ([1], Some 2)]%Z.
Proof. vm_compute. reflexivity. Qed.

Lemma sink_history_verifies_witness :
  exists v, verify_from (H := toy_sha256) (J := toy_json) Genesis
      (map stored (fst (fst example_sink_run))) = Ok v /\
    v_head_hash v = sink_head_hash (snd example_sink_run) /\ v_records v = 4%Z.
Proof.
  apply (sink_history_verifies (HL := toy_sha256_laws) (JL := toy_json_laws) Genesis
    (example_entries ++ example_entries) example_sink (fst (fst example_sink_run))
    (snd (fst example_sink_run)) (snd example_sink_run));
    try exact example_sink_names; vm_compute; congruence.
Defined.


Lemma sink_new_quarantines_witness :
  let old := mkMemDevice "old" [] [mkEncodedRecord 1 0 [] [] "x"] in
  let sk := mkSink [mkSlot old (Some (mkQuarantined "old" (Some 1%Z) 2%Z))] (mkChain 5 []) in
  map slot_device (slots sk) = [old] /\
  forall s, s ∈ slots sk ->
    (slot_quarantined s = None <->
     forall seq, dev_head_seq (slot_device s) = Ok (Some seq) -> seq = 4%Z).
Proof.
  intros old sk. apply (sink_new_quarantines [old] (mkChain 5 []) sk). vm_compute. reflexivity.
Defined.
