(* ===== verification/Anchor.v ===== *)
(** * Anchors ([ciphr-audit/src/anchor.rs])

    An anchor is a record of the chain head kept outside the store.  The theorem
    it is for: no two histories accepted under one anchor differ anywhere up to
    it, unless SHA-256 collides. *)

From Stdlib Require Import ZArith NArith Lia Ascii String.
From stdpp Require Import base tactics list strings.
From S2P Require Import Prelude Text Hex Path Vocabulary Time Chain.

Definition FORMAT_VERSION : Z := 1.

Record Anchor : Type := mkAnchor { taken_at : string; anchor_seq : Z; anchor_hash : bytes }.

(** The derived [Wire]. *)
Record Wire : Type := mkWire {
  wire_anchor : Z;
  wire_taken_at : string;
  wire_seq : Z;
  wire_hash : string;
}.

(** [serde_json] on [Wire]. *)
Class WireJson : Type := {
  json_wire : Wire -> result string string;
  json_parse_wire : string -> result string Wire;
}.
Class WireJsonLaws (W : WireJson) : Prop := {
  json_wire_parse : forall w s, json_wire w = Ok s -> json_parse_wire s = Ok w;
  json_wire_line : forall w s, json_wire w = Ok s -> contains newline s = false;
}.

Inductive AnchorError : Type :=
| AnchorMalformed (detail : string)
| UnknownVersion (found : Z)
| NotAHash (detail : string)
| ZeroSequence.

Definition anchor_error_display (e : AnchorError) : string :=
  match e with
  | AnchorMalformed detail => "not an anchor record: " ++ detail
  | UnknownVersion found =>
      "anchor format version " ++ dec found ++ " is not one this build can read (expected "
        ++ dec FORMAT_VERSION ++ ")"
  | NotAHash detail => "the anchored hash is unusable: " ++ detail
  | ZeroSequence => "the record anchors sequence 0, and no record has that sequence number"
  end.

Definition anchor_over (v : Verified) (now_millis : Z) : Anchor :=
  mkAnchor (rfc3339_millis now_millis) (v_head_seq v) (v_head_hash v).

Definition anchor_as_start (a : Anchor) : Start := AfterCut (anchor_seq a) (anchor_hash a).

Section wire.
Context {W : WireJson}.

Definition anchor_encode (a : Anchor) : string :=
  let wire := mkWire FORMAT_VERSION (taken_at a) (anchor_seq a) (hex_encode (anchor_hash a)) in
  match json_wire wire with Ok s => s | Err _ => EmptyString end.

Definition anchor_parse (line : string) : result AnchorError Anchor :=
  let? wire := map_err AnchorMalformed (json_parse_wire line) in
  if negb (wire_anchor wire =? FORMAT_VERSION)%Z then Err (UnknownVersion (wire_anchor wire))
  else if (wire_seq wire =? 0)%Z then Err ZeroSequence
  else match hex_decode_into (wire_hash wire) (zeroed HASH_LEN) with
       | (Err error, _) => Err (NotAHash (hex_error_display error))
       | (Ok _, hash) => Ok (mkAnchor (wire_taken_at wire) (wire_seq wire) hash)
       end.

(** [contents.lines().rfind(|line| !line.trim().is_empty())] *)
Definition anchor_latest (contents : string) : result AnchorError (option Anchor) :=
  match List.find (fun line => negb (is_empty (trim line))) (rev (lines contents)) with
  | None => Ok None
  | Some line => res_map Some (anchor_parse line)
  end.
End wire.

Section anchored.
Context {H : Sha256} {J : Json}.

Definition verify_with_anchor (anchor : Anchor) (start : Start) (records : list StoredRecord)
    : result ChainBreak Verified :=
  let unreachable head_seq := mkChainBreak (anchor_seq anchor) (AnchorUnreachable head_seq) in
  match records with
  | [] => Err (unreachable 0%Z)
  | first :: _ =>
      let head_seq := match last records with Some record => sr_seq record | None => 0%Z end in
      let? verified := verify_from start records in
      if (anchor_seq anchor =? u64_sat_sub (first_seq start) 1)%Z then
        let claimed := expected_prev start in
        if negb (bool_decide (claimed = anchor_hash anchor)) then
          Err (mkChainBreak (anchor_seq anchor)
                 (AnchorMismatch (hex_encode (anchor_hash anchor)) (hex_encode claimed)))
        else Ok verified
      else if (anchor_seq anchor <? sr_seq first)%Z || (head_seq <? anchor_seq anchor)%Z then
        Err (unreachable head_seq)
      else
        match List.find (fun record => (sr_seq record =? anchor_seq anchor)%Z) records with
        | None => Err (unreachable (v_head_seq verified))
        | Some anchored =>
            let computed := hash_payload (as_bytes (sr_payload anchored)) in
            if negb (bool_decide (computed = anchor_hash anchor)) then
              Err (mkChainBreak (anchor_seq anchor)
                     (AnchorMismatch (hex_encode (anchor_hash anchor)) (hex_encode computed)))
            else Ok verified
        end
  end.

(** ** Lemmas *)

Lemma chained_take seq prev rs head i r :
  chained seq prev rs head -> (0 <= seq)%Z -> (seq + Z.of_nat (length rs) <= u64_max)%Z ->
  rs !! i = Some r ->
  sr_seq r = (seq + Z.of_nat i)%Z /\
  chained seq prev (take (S i) rs) (hash_payload (as_bytes (sr_payload r))).
Proof.
  intros Hc. revert i. induction Hc as [seq prev|seq prev x rs head Hl Hc IH]; intros i Hs Hm Hi;
    [done|]. simpl in Hm.
  assert (u64_add seq 1 = seq + 1)%Z as E by (unfold u64_add, u64_max in *; rewrite Z.mod_small; lia).
  destruct i as [|i]; simpl in Hi.
  - injection Hi as ->. split; [destruct Hl; lia|]. simpl. rewrite take_0.
    constructor; [done|constructor].
  - rewrite E in *. destruct (IH i) as [Hr Ht]; [lia|lia|done|]. split; [lia|].
    simpl. constructor; [done|]. by rewrite E.
Qed.

(** The record an anchor names in a verified history, by position. *)
Lemma find_anchored seq prev rs head anchor r :
  chained seq prev rs head -> (0 <= seq)%Z -> (seq + Z.of_nat (length rs) <= u64_max)%Z ->
  List.find (fun record => (sr_seq record =? anchor)%Z) rs = Some r ->
  rs !! Z.to_nat (anchor - seq) = Some r /\ (seq <= anchor)%Z.
Proof.
  intros Hc Hs Hm Hf. apply List.find_some in Hf as [Hin Hr%Z.eqb_eq].
  apply list_elem_of_In, list_elem_of_lookup in Hin as [i Hi].
  destruct (chained_take _ _ _ _ _ _ Hc Hs Hm Hi) as [E _].
  replace (Z.to_nat (anchor - seq)) with i by lia. split; [done|lia].
Qed.

(** What acceptance under an anchor means. *)
Lemma verify_with_anchor_Ok a start rs v :
  verify_with_anchor a start rs = Ok v ->
  verify_from start rs = Ok v /\
  ((anchor_seq a = u64_sat_sub (first_seq start) 1 /\ anchor_hash a = expected_prev start) \/
   exists r, List.find (fun record => (sr_seq record =? anchor_seq a)%Z) rs = Some r /\
     hash_payload (as_bytes (sr_payload r)) = anchor_hash a).
Proof.
  unfold verify_with_anchor. destruct rs as [|first rs]; [done|]. intros Hv. run_ok.
  destruct (Z.eqb_spec (anchor_seq a) (u64_sat_sub (first_seq start) 1)) as [E|].
  - case_bool_decide as Hh; simpl in Hv; [|done]. injection Hv as <-. split; [done|]. by left.
  - destruct (_ || _); [done|]. destruct (List.find _ _) as [r|]; [|done].
    case_bool_decide as Hh; simpl in Hv; [|done]. injection Hv as <-. split; [done|]. right. eauto.
Qed.

(** ** Properties *)

(** Two histories accepted under the same anchor are the same up to it: rewriting
    any record the anchor covers takes two texts with one digest. *)
Theorem anchored_history_unique a start rs1 rs2 v1 v2 :
  (1 <= first_seq start)%Z ->
  (first_seq start + Z.of_nat (length rs1) <= u64_max)%Z ->
  (first_seq start + Z.of_nat (length rs2) <= u64_max)%Z ->
  verify_with_anchor a start rs1 = Ok v1 -> verify_with_anchor a start rs2 = Ok v2 ->
  let covered := Z.to_nat (anchor_seq a - first_seq start + 1) in
  map (fun r => (sr_seq r, sr_payload r)) (take covered rs1) =
    map (fun r => (sr_seq r, sr_payload r)) (take covered rs2) \/ collision.
Proof.
  intros H1 Hm1 Hm2 [Hv1 Ha1]%verify_with_anchor_Ok [Hv2 Ha2]%verify_with_anchor_Ok covered.
  apply verify_from_Ok in Hv1 as [Hc1 _], Hv2 as [Hc2 _].
  assert (0 <= first_seq start)%Z as H0 by lia.
  assert (forall rs v, chained (first_seq start) (expected_prev start) rs (v_head_hash v) ->
    (first_seq start + Z.of_nat (length rs) <= u64_max)%Z ->
    ((anchor_seq a = u64_sat_sub (first_seq start) 1 /\ anchor_hash a = expected_prev start) \/
     exists r, List.find (fun record => (sr_seq record =? anchor_seq a)%Z) rs = Some r /\
       hash_payload (as_bytes (sr_payload r)) = anchor_hash a) ->
    (first_seq start <= anchor_seq a)%Z ->
    length (take covered rs) = covered /\
    chained (first_seq start) (expected_prev start) (take covered rs) (anchor_hash a)) as Hcase.
  { intros rs v Hc Hm [[E _]|(r & Hr & Hh)] Hle.
    - unfold u64_sat_sub in E. exfalso. lia.
    - destruct (find_anchored _ _ _ _ _ _ Hc H0 Hm Hr) as [Hi _].
      destruct (chained_take _ _ _ _ _ _ Hc H0 Hm Hi) as [_ Ht]. rewrite Hh in Ht.
      replace covered with (S (Z.to_nat (anchor_seq a - first_seq start))) by (subst covered; lia).
      split; [|done]. rewrite length_take. apply lookup_lt_Some in Hi. lia. }
  destruct (Z.le_gt_cases (first_seq start) (anchor_seq a)) as [Hle|Hlt].
  - destruct (Hcase _ _ Hc1 Hm1 Ha1 Hle) as [Hl1 Ht1], (Hcase _ _ Hc2 Hm2 Ha2 Hle) as [Hl2 Ht2].
    destruct (chained_payloads _ _ _ _ _ _ Ht1 Ht2) as [[_ E]|Hx]; [congruence|by left|by right].
  - left. replace covered with 0%nat by (subst covered; lia). by rewrite !take_0.
Qed.

(** An anchor written to a file is the anchor read back from it. *)
Theorem anchor_parse_encode {W : WireJson} {WL : WireJsonLaws W} a :
  is_ok (json_wire (mkWire FORMAT_VERSION (taken_at a) (anchor_seq a) (hex_encode (anchor_hash a)))) = true ->
  (1 <= anchor_seq a)%Z -> length (anchor_hash a) = HASH_LEN ->
  anchor_parse (anchor_encode a) = Ok a.
Proof.
  intros Hok Hs Hl. unfold anchor_parse, anchor_encode.
  destruct (json_wire _) as [s|] eqn:Hw; [|done]. rewrite (json_wire_parse _ _ Hw). simpl.
  rewrite (proj2 (Z.eqb_neq _ _)) by lia. rewrite hex_decode_into_encode by by rewrite Hl.
  by destruct a.
Qed.
End anchored.

(** ** Witnesses *)

Definition example_anchor : Anchor :=
  mkAnchor "2024-01-01T00:00:00.000Z" 1
    (match fst example_run with r :: _ => er_hash r | [] => [] end).

Lemma anchored_history_unique_witness :
  let rs := map stored (fst example_run) in
  map (fun r => (sr_seq r, sr_payload r)) (take 1 rs) =
    map (fun r => (sr_seq r, sr_payload r)) (take 1 rs) \/ collision (H := toy_sha256).
Proof.
  intros rs.
  apply (anchored_history_unique (H := toy_sha256) (J := toy_json) example_anchor Genesis rs rs
    (mkVerified 2 2 (prev_hash (snd example_run))) (mkVerified 2 2 (prev_hash (snd example_run))));
    vm_compute; congruence.
Defined.

(** The wire format by hand: the fields between bars. *)
Definition toy_wire : WireJson := {|
  json_wire w :=
    if (wire_anchor w =? 1)%Z && (0 <=? wire_seq w)%Z && negb (contains newline (wire_taken_at w))
       && negb (contains newline (wire_hash w)) && negb (contains bar (wire_taken_at w)) then
      Ok (zeros (Z.to_nat (wire_seq w)) ++ String bar (wire_taken_at w ++ String bar (wire_hash w)))%string
    else Err "unsupported";
  json_parse_wire s :=
    match split_once bar s with
    | None => Err "no anchor"
    | Some (seq, rest) =>
        match split_once bar rest with
        | None => Err "no anchor"
        | Some (taken, hash) => Ok (mkWire 1 taken (len seq) hash)
        end
    end;
|}.

Lemma toy_wire_laws : WireJsonLaws toy_wire.
Proof.
  split; intros [an taken seq hash] s; simpl.
  - destruct (Z.eqb_spec an 1) as [->|], (Z.leb_spec 0 seq), (contains newline taken),
      (contains newline hash), (contains bar taken) eqn:Hb; simpl; try done. intros [= <-].
    rewrite split_once_app by by apply zeros_no_bar. rewrite split_once_app by done.
    unfold len. rewrite zeros_length, Z2Nat.id by done. done.
  - destruct (Z.eqb_spec an 1), (0 <=? seq)%Z, (contains newline taken) eqn:Ht,
      (contains newline hash) eqn:Hh, (contains bar taken); simpl; try done. intros [= <-].
    rewrite contains_app, zeros_no_bar by done. simpl. rewrite contains_app, Ht. simpl. done.
Qed.

Lemma anchor_parse_encode_witness :
  let a := mkAnchor "t" 3 GENESIS in
  anchor_parse (W := toy_wire) (anchor_encode (W := toy_wire) a) = Ok a.
Proof.
  apply (anchor_parse_encode (WL := toy_wire_laws)); vm_compute; congruence.
Defined.
