(* ===== verification/FileDevice.v ===== *)
(** * The file device and its archives ([ciphr-audit]: file.rs, archive.rs)

    The operating system is a small store of inodes and names in which any call
    can fail, and a write can fail part-way; the faults are a list the calls
    consume.  The device appends lines, truncates after a failed write, rotates
    under a size limit without replacing an archive, and finds its head by
    reading the file backwards in blocks. *)

From Stdlib Require Import ZArith NArith Lia Ascii String.
From stdpp Require Import base tactics list strings gmap.
From S2P Require Import Prelude Text Hex Path Vocabulary Time Chain Sink.

(** ** The operating system *)

(** The outcome of the next call: [None] succeeds; a fault is the error's text,
    and for a write how many bytes reached the file first. *)
Record fault : Type := mkFault { f_error : string; f_partial : nat }.

Record os : Type := mkOs {
  os_inodes : gmap nat bytes;
  os_names : gmap string nat;
  os_faults : list (option fault);
  (** whether the next existence checks fail to see the file *)
  os_blind : list bool;
}.

Definition os_call {A} (on_fault : fault -> os -> os) (m : os -> result string A * os)
    : stm os string A :=
  fun s =>
    match os_faults s with
    | Some f :: fs => (Err (f_error f), on_fault f (mkOs (os_inodes s) (os_names s) fs (os_blind s)))
    | fs => m (mkOs (os_inodes s) (os_names s) (tail fs) (os_blind s))
    end.
Definition os_plain {A} (m : os -> result string A * os) : stm os string A := os_call (fun _ s => s) m.

Definition os_fresh (s : os) : nat := S (foldr Nat.max 0 (map fst (map_to_list (os_inodes s)))).

(** [OpenOptions::new().create(true).append(true).open(path)] *)
Definition os_open_append (path : string) : stm os string nat :=
  os_plain (fun s =>
    match os_names s !! path with
    | Some i => (Ok i, s)
    | None =>
        let i := os_fresh s in
        (Ok i, mkOs (<[i := []]> (os_inodes s)) (<[path := i]> (os_names s)) (os_faults s) (os_blind s))
    end).

Definition os_content (i : nat) (s : os) : bytes := default [] (os_inodes s !! i).
(** [metadata().len()] of an open file. *)
Definition os_len (i : nat) : stm os string Z :=
  os_plain (fun s => (Ok (Z.of_nat (length (os_content i s))), s)).
(** [Path::exists]: an error is an answer of no. *)
Definition os_exists (path : string) : stm os string bool :=
  fun s => (Ok (bool_decide (is_Some (os_names s !! path)) && negb (default false (head (os_blind s)))),
            mkOs (os_inodes s) (os_names s) (os_faults s) (tail (os_blind s))).
(** [std::fs::rename] on Unix: the target, if there is one, is replaced. *)
Definition os_rename (from to : string) : stm os string unit :=
  os_plain (fun s =>
    match os_names s !! from with
    | Some i => (Ok tt, mkOs (os_inodes s) (<[to := i]> (delete from (os_names s))) (os_faults s) (os_blind s))
    | None => (Err "No such file or directory (os error 2)", s)
    end).
Definition os_put (i : nat) (b : bytes) (s : os) : os :=
  mkOs (<[i := b]> (os_inodes s)) (os_names s) (os_faults s) (os_blind s).
(** [write_all] on a file opened for appending: a failure may leave a prefix. *)
Definition os_write_all (i : nat) (line : bytes) : stm os string unit :=
  os_call (fun f s => os_put i (os_content i s ++ take (f_partial f) line) s)
          (fun s => (Ok tt, os_put i (os_content i s ++ line) s)).
Definition os_sync_data (i : nat) : stm os string unit := os_plain (fun s => (Ok tt, s)).
Definition os_set_len (i : nat) (n : nat) : stm os string unit :=
  os_plain (fun s =>
    let b := os_content i s in
    (Ok tt, os_put i (take n b ++ repeat zero (n - length b)) s)).

(** ** The device (file.rs) *)

Definition ATTEMPTS_PER_STAMP : nat := 100.
Definition BLOCK : nat := 8 * 1024.

Record FileDevice : Type := mkFileDevice {
  fd_name : string;
  fd_path : string;
  fd_file : nat;
  fd_written : Z;
  fd_rotate_at : option Z;
}.

(** A device and the part of the system it works in. *)
Record FileWorld : Type := mkFileWorld { fw_device : FileDevice; fw_os : os }.

Definition FileDevice_open (path : string) (rotate_at : option Z) : stm os string FileDevice :=
  let! file := os_open_append path in
  let! written := os_len file in
  mret (mkFileDevice ("file:" ++ path) path file written rotate_at).

(** [stamp.replace(':', "-")] *)
Fixpoint replace_char (a b : ascii) (s : string) : string :=
  match s with
  | EmptyString => EmptyString
  | String c s => String (if Ascii.eqb c a then b else c) (replace_char a b s)
  end.

Definition archive_suffix (now_millis next_seq : Z) : string :=
  "." ++ replace_char ":" "-" (rfc3339_millis now_millis) ++ "-" ++ dec (u64_sat_sub next_seq 1).

Definition archive_path (path suffix : string) : string := path ++ suffix.

(** The search for a free name: attempts [attempt], [attempt + 1], ... while the
    name in hand is taken. *)
Fixpoint free_archive (path suffix : string) (attempts : nat) (attempt : Z) (rotated : string)
    : stm os string string :=
  match attempts with
  | O => mret rotated
  | S attempts =>
      let! taken := os_exists rotated in
      if (taken : bool) then
        free_archive path suffix attempts (attempt + 1)
          (archive_path path (suffix ++ "." ++ dec attempt))
      else mret rotated
  end.

Definition file_rotate (d : FileDevice) (now_millis next_seq : Z) : stm os string FileDevice :=
  let suffix := archive_suffix now_millis next_seq in
  let! rotated := free_archive (fd_path d) suffix ATTEMPTS_PER_STAMP 1 (archive_path (fd_path d) suffix) in
  let! taken := os_exists rotated in
  if (taken : bool) then
    mfail (dec (Z.of_nat ATTEMPTS_PER_STAMP) ++ " archives already exist for " ++ fd_path d ++ suffix)%string
  else
    let! _ := os_rename (fd_path d) rotated in
    let! file := os_open_append (fd_path d) in
    mret (mkFileDevice (fd_name d) (fd_path d) file 0 (fd_rotate_at d)).

(** [rotate_at] is reached by this line. *)
Definition must_rotate (d : FileDevice) (line_len : Z) : bool :=
  match fd_rotate_at d with
  | Some limit => (0 <? fd_written d)%Z && (limit <? u64_add (fd_written d) line_len)%Z
  | None => false
  end.

(** The append after the rotation check: write, sync, and on a failure truncate
    back to where the file ended, ignoring the outcome of the truncation. *)
Definition file_append (d : FileDevice) (line : bytes) : stm os string FileDevice :=
  let! outcome := mtry (let! _ := os_write_all (fd_file d) line in os_sync_data (fd_file d)) in
  match outcome with
  | Err error =>
      let! _ := mtry (F := string) (os_set_len (fd_file d) (Z.to_nat (fd_written d))) in
      let! _ := mtry (F := string) (os_sync_data (fd_file d)) in
      mfail ("could not write to " ++ fd_path d ++ ": " ++ error)%string
  | Ok _ =>
      mret (mkFileDevice (fd_name d) (fd_path d) (fd_file d)
              (u64_add (fd_written d) (Z.of_nat (length line))) (fd_rotate_at d))
  end.

Definition record_line (record : EncodedRecord) : bytes := as_bytes (er_payload record) ++ [newline].

Definition file_write (record : EncodedRecord) (w : FileWorld) : result string unit * FileWorld :=
  let d := fw_device w in
  let line := record_line record in
  let '(rotated, s) :=
    if must_rotate d (Z.of_nat (length line)) then
      mmap_err (fun error => "could not rotate " ++ fd_path d ++ ": " ++ error)%string
        (file_rotate d (er_ts_millis record) (er_seq record)) (fw_os w)
    else (Ok d, fw_os w) in
  match rotated with
  | Err error => (Err error, mkFileWorld d s)
  | Ok d =>
      match file_append d line s with
      | (Err error, s) => (Err error, mkFileWorld d s)
      | (Ok d, s) => (Ok tt, mkFileWorld d s)
      end
  end.

(** [iter().rposition(p)] *)
Fixpoint rposition (p : ascii -> bool) (l : bytes) : option nat :=
  match l with
  | [] => None
  | c :: l =>
      match rposition p l with
      | Some i => Some (S i)
      | None => if p c then Some 0%nat else None
      end
  end.

Definition is_newline (c : ascii) : bool := Ascii.eqb c newline.

(** The loop of [head_seq], over the content of the open file. *)
Fixpoint last_line_loop (fuel : nat) (content : bytes) (read_from : nat) (tail_ : bytes) : bytes :=
  match fuel with
  | O => []
  | S fuel =>
      let take_ := Nat.min BLOCK read_from in
      let read_from := (read_from - take_)%nat in
      let block := take take_ (drop read_from content) in
      let tail_ := block ++ tail_ in
      let end_ := match rposition (fun c => negb (is_newline c)) tail_ with
                  | Some at_ => S at_ | None => 0%nat end in
      match rposition is_newline (take end_ tail_) with
      | Some start => drop (S start) (take end_ tail_)
      | None =>
          if (read_from =? 0)%nat then take end_ tail_
          else last_line_loop fuel content read_from tail_
      end
  end.
(** Each round but the last reads a block, so a round per byte is enough. *)
Definition last_line (content : bytes) : bytes :=
  last_line_loop (S (length content)) content (length content) [].

(** [serde_json] reading a line as a [Value], and [get] of the member [seq]
    as a [u64]. *)
Class JsonValue : Type := json_seq : string -> result string (option Z).
(** A record has its sequence number as that member. *)
Class JsonValueLaws (J : Json) (V : JsonValue) : Prop :=
  json_seq_record : forall seq ts prev e s, (0 <= seq <= u64_max)%Z ->
    json_record seq ts prev e = Ok s -> json_seq s = Ok (Some seq).

Section head.
Context {V : JsonValue}.

(** Opening the file for reading and measuring it may fail; the read itself is
    of the content at that moment. *)
Definition file_head_seq (w : FileWorld) : result string (option Z) :=
  let d := fw_device w in
  match os_names (fw_os w) !! fd_path d with
  | None => Err ("cannot open " ++ fd_path d ++ " to read its head: No such file or directory (os error 2)")%string
  | Some i =>
      let content := os_content i (fw_os w) in
      if (length content =? 0)%nat then Ok None
      else
        match last_line content with
        | [] => Ok None
        | line =>
            let? text := ok_or ("the last line of " ++ fd_path d ++ " is not UTF-8")%string (from_utf8 line) in
            let? seq := map_err (fun error =>
              "the last line of " ++ fd_path d ++ " is not a record: " ++ error)%string (json_seq text) in
            match seq with
            | Some seq => Ok (Some seq)
            | None => Err ("the last line of " ++ fd_path d ++ " carries no sequence number")%string
            end
        end
  end.
End head.

Definition file_reopen (w : FileWorld) : result string unit * FileWorld :=
  let d := fw_device w in
  match os_open_append (fd_path d) (fw_os w) with
  | (Err error, s) => (Err ("could not reopen " ++ fd_path d ++ ": " ++ error)%string, mkFileWorld d s)
  | (Ok file, s) =>
      match os_len file s with
      | (Err error, s) =>
          (Err ("could not stat " ++ fd_path d ++ ": " ++ error)%string,
           mkFileWorld (mkFileDevice (fd_name d) (fd_path d) file (fd_written d) (fd_rotate_at d)) s)
      | (Ok n, s) =>
          (Ok tt, mkFileWorld (mkFileDevice (fd_name d) (fd_path d) file n (fd_rotate_at d)) s)
      end
  end.

#[export] Instance file_device {V : JsonValue} : AuditDevice FileWorld := {
  dev_name w := fd_name (fw_device w);
  dev_write := file_write;
  dev_head_seq := file_head_seq;
  dev_reopen := file_reopen;
}.

(** ** Reading the head backwards *)

Lemma rposition_spec p l :
  match rposition p l with
  | Some i => exists a c b, l = a ++ c :: b /\ length a = i /\ p c = true /\
                Forall (fun x => p x = false) b
  | None => Forall (fun x => p x = false) l
  end.
Proof.
  induction l as [|x l IH]; simpl; [constructor|]. destruct (rposition p l) as [i|].
  - destruct IH as (a & c & b & -> & <- & Hc & Hb). by exists (x :: a), c, b.
  - destruct (p x) eqn:Hx; [by exists [], x, l|by constructor].
Qed.

(** The last line of a file that is not a run of empty lines. *)
Definition is_last_line (content line : bytes) : Prop :=
  (line = [] /\ Forall (fun c => is_newline c = true) content) \/
  (exists pre post, content = pre ++ line ++ post /\ line <> [] /\
     Forall (fun c => is_newline c = false) line /\ Forall (fun c => is_newline c = true) post /\
     (pre = [] \/ exists p, pre = p ++ [newline])).

Lemma take_app_at {A} (a : list A) c b : take (S (length a)) (a ++ c :: b) = a ++ [c].
Proof. replace (S (length a)) with (length (a ++ [c])) by (rewrite length_app; simpl; lia).
  change (c :: b) with ([c] ++ b). rewrite app_assoc. apply take_app_length. Qed.

Lemma drop_app_at {A} (a : list A) c b : drop (S (length a)) (a ++ c :: b) = b.
Proof. replace (S (length a)) with (length (a ++ [c])) by (rewrite length_app; simpl; lia).
  change (c :: b) with ([c] ++ b). rewrite app_assoc. apply drop_app_length. Qed.

Lemma last_line_loop_spec fuel content read_from tail_ :
  (read_from < fuel)%nat -> (read_from <= length content)%nat -> tail_ = drop read_from content ->
  is_last_line content (last_line_loop fuel content read_from tail_).
Proof.
  revert read_from tail_. induction fuel as [|fuel IH]; intros rf t Hf Hl ->; [lia|].
  cbn [last_line_loop]. set (k := Nat.min BLOCK rf).
  assert (take k (drop (rf - k) content) ++ drop rf content = drop (rf - k) content) as ->.
  { replace rf with (k + (rf - k))%nat at 2 by lia. rewrite Nat.add_comm, <- drop_drop. apply take_drop. }
  assert (content = take (rf - k) content ++ drop (rf - k) content) as Hsplit by by rewrite take_drop.
  set (t := drop (rf - k) content) in *.
  assert (rf = 0%nat \/ (rf - k < rf)%nat) as Hdec by (subst k; unfold BLOCK; lia).
  pose proof (rposition_spec (fun c => negb (is_newline c)) t) as He.
  destruct (rposition (fun c => negb (is_newline c)) t) as [at_|].
  - destruct He as (a & c & b & Et & <- & Hc%negb_true_iff & Hb). rewrite Et, take_app_at.
    pose proof (rposition_spec is_newline (a ++ [c])) as Hs.
    destruct (rposition is_newline (a ++ [c])) as [start|].
    + destruct Hs as (x & n & y & Ex & <- & Hn & Hy). rewrite Ex, drop_app_at. right.
      apply Ascii.eqb_eq in Hn as Hnl. subst n.
      exists (take (rf - k) content ++ x ++ [newline]), b. split_and!.
      * rewrite Hsplit at 1. rewrite Et. change (c :: b) with ([c] ++ b). rewrite (app_assoc a), Ex.
        rewrite <- !app_assoc. done.
      * intros ->. apply app_inj_tail in Ex as [_ ->]. rewrite Hn in Hc. done.
      * done.
      * eapply Forall_impl; [exact Hb|]. by intros z ?%negb_false_iff.
      * right. exists (take (rf - k) content ++ x). by rewrite app_assoc.
    + destruct (Nat.eqb_spec (rf - k) 0) as [E0|Hne].
      * right. exists [], b. split_and!.
        -- rewrite Hsplit, E0, take_0, Et. simpl. by rewrite <- app_assoc.
        -- by destruct a.
        -- done.
        -- eapply Forall_impl; [exact Hb|]. by intros z ?%negb_false_iff.
        -- by left.
      * rewrite <- Et. apply IH; [lia|lia|done].
  - rewrite take_0. simpl. destruct (Nat.eqb_spec (rf - k) 0) as [E0|Hne].
    + left. split; [done|]. rewrite Hsplit, E0, take_0. simpl.
      eapply Forall_impl; [exact He|]. by intros z ?%negb_false_iff.
    + apply IH; [lia|lia|done].
Qed.

(** Reading backwards in blocks finds the last line, whatever the block
    boundaries. *)
Theorem last_line_correct content : is_last_line content (last_line content).
Proof. apply last_line_loop_spec; [lia|done|]. by rewrite drop_all. Qed.

(** ** Writing *)

(** The live path names its own inode, and existence checks tell the truth. *)
Record os_wf (path : string) (file : nat) (s : os) : Prop := {
  wf_live : os_names s !! path = Some file;
  wf_inj : forall a b i, os_names s !! a = Some i -> os_names s !! b = Some i -> a = b;
  wf_inodes : forall a i, os_names s !! a = Some i -> is_Some (os_inodes s !! i);
  wf_seeing : os_blind s = [];
}.

Definition file_wf (w : FileWorld) : Prop :=
  os_wf (fd_path (fw_device w)) (fd_file (fw_device w)) (fw_os w) /\
  fd_written (fw_device w) = Z.of_nat (length (os_content (fd_file (fw_device w)) (fw_os w))).

(** Every file but the live one keeps its name and its content. *)
Definition archives_kept (path : string) (s s' : os) : Prop :=
  forall name i, name <> path -> os_names s !! name = Some i ->
    os_names s' !! name = Some i /\ os_content i s' = os_content i s.

(** Some file still begins with these bytes. *)
Definition bytes_kept (b : bytes) (s : os) : Prop :=
  exists name i more, os_names s !! name = Some i /\ os_content i s = b ++ more.

(** A call that changed at most the content of one inode. *)
Definition only_inode (i : nat) (s s' : os) : Prop :=
  os_names s' = os_names s /\ os_blind s' = os_blind s /\
  (forall j, j <> i -> os_inodes s' !! j = os_inodes s !! j) /\
  (is_Some (os_inodes s !! i) -> is_Some (os_inodes s' !! i)).

#[export] Instance only_inode_preorder i : PreOrder (only_inode i).
Proof.
  split.
  - intros s. by split_and!.
  - intros s1 s2 s3 (N1 & B1 & J1 & I1) (N2 & B2 & J2 & I2). split_and!; [congruence|congruence| |auto].
    intros j Hj. by rewrite J2, J1.
Qed.

Lemma only_inode_wf path i s s' : only_inode i s s' -> os_wf path i s -> os_wf path i s'.
Proof.
  intros (N & B & J & I) [W1 W2 W3 W4]. split; rewrite ?N, ?B; try done.
  intros a j Ha. destruct (decide (j = i)) as [->|Hj]; [apply I; eauto|]. rewrite J by done. eauto.
Qed.

Lemma only_inode_kept path i s s' : only_inode i s s' -> os_wf path i s -> archives_kept path s s'.
Proof.
  intros (N & _ & J & _) [W1 W2 _ _] name j Hne Hj. rewrite N. split; [done|].
  unfold os_content. rewrite J; [done|]. intros ->. by apply Hne, (W2 _ _ i).
Qed.

Lemma os_call_only {A} i on_fault (m : os -> result string A * os) s r s' :
  (forall f s, only_inode i s (on_fault f s)) -> (forall s, only_inode i s (snd (m s))) ->
  os_call on_fault m s = (r, s') -> only_inode i s s'.
Proof.
  intros Hf Hm. unfold os_call.
  assert (forall fs, only_inode i s (mkOs (os_inodes s) (os_names s) fs (os_blind s))) as Hs
    by (intros fs; by split_and!).
  destruct (os_faults s) as [|[f|] fs]; intros E.
  - etrans; [apply (Hs [])|]. change s' with (snd (r, s')). rewrite <- E. apply Hm.
  - injection E as <- <-. etrans; [apply Hs|apply Hf].
  - etrans; [apply (Hs fs)|]. change s' with (snd (r, s')). rewrite <- E. apply Hm.
Qed.

Lemma os_put_only i b s : only_inode i s (os_put i b s).
Proof.
  split_and!; [done|done| |]; simpl.
  - intros j Hj. by rewrite lookup_insert_ne.
  - intros _. rewrite lookup_insert_eq. eauto.
Qed.

Lemma os_content_put i b s : os_content i (os_put i b s) = b.
Proof. unfold os_content, os_put. simpl. by rewrite lookup_insert_eq. Qed.

Lemma os_write_all_spec i line s r s' :
  os_write_all i line s = (r, s') ->
  only_inode i s s' /\ exists more, os_content i s' = os_content i s ++ more /\
    (r = Ok tt -> more = line).
Proof.
  intros E. split.
  - eapply os_call_only; [| |exact E]; intros; [apply os_put_only|apply os_put_only].
  - unfold os_write_all, os_call in E.
    destruct (os_faults s) as [|[f|] fs]; injection E as <- <-; rewrite os_content_put; eexists; by split.
Qed.

Lemma os_sync_data_spec i s r s' : os_sync_data i s = (r, s') ->
  only_inode i s s' /\ os_content i s' = os_content i s.
Proof.
  intros E. split; [eapply os_call_only; [| |exact E]; by intros|].
  unfold os_sync_data, os_plain, os_call in E.
  by destruct (os_faults s) as [|[f|] fs]; injection E as <- <-.
Qed.

Lemma os_set_len_spec i b more s r s' :
  os_content i s = b ++ more -> os_set_len i (length b) s = (r, s') ->
  only_inode i s s' /\ exists more', os_content i s' = b ++ more'.
Proof.
  intros Hc E. split.
  - eapply os_call_only; [| |exact E]; intros; [done|apply os_put_only].
  - unfold os_set_len, os_plain, os_call in E.
    destruct (os_faults s) as [|[f|] fs]; injection E as <- <-; [|by exists more|];
      rewrite os_content_put; unfold os_content in *; simpl; rewrite Hc, take_app_length; by eexists.
Qed.

Lemma file_append_spec d line s r s' :
  file_append d line s = (r, s') ->
  fd_written d = Z.of_nat (length (os_content (fd_file d) s)) ->
  only_inode (fd_file d) s s' /\
  (exists more, os_content (fd_file d) s' = os_content (fd_file d) s ++ more) /\
  match r with
  | Ok d' => os_content (fd_file d) s' = os_content (fd_file d) s ++ line /\
      d' = mkFileDevice (fd_name d) (fd_path d) (fd_file d)
             (u64_add (fd_written d) (Z.of_nat (length line))) (fd_rotate_at d)
  | Err _ => True
  end.
Proof.
  intros E Hw. unfold file_append in E. unfold mbind at 1, mtry at 1 in E.
  destruct (mbind _ _ s) as [outcome s1] eqn:E1.
  assert (only_inode (fd_file d) s s1 /\
    exists more, os_content (fd_file d) s1 = os_content (fd_file d) s ++ more /\
      (outcome = Ok tt -> more = line)) as (H1 & more & Hm & Hok).
  { apply mbind_inv in E1 as [(u & s2 & Ea & Eb)|(e & Ea & ->)].
    - apply os_write_all_spec in Ea as (Ha & more & Hm & Hok).
      apply os_sync_data_spec in Eb as [Hb Hc]. destruct u. split; [by etrans|].
      exists more. rewrite Hc. split; [done|auto].
    - apply os_write_all_spec in Ea as (Ha & more & Hm & _). split; [done|]. by exists more. }
  destruct outcome as [[]|error]; cbn beta iota in E.
  - unfold mret in E. injection E as <- <-. rewrite (Hok eq_refl) in Hm.
    split_and!; [done|eauto|done|done].
  - unfold mbind, mtry, mfail in E. rewrite Hw, Nat2Z.id in E.
    destruct (os_set_len _ _ s1) as [r2 s2] eqn:E2. destruct (os_sync_data _ s2) as [r3 s3] eqn:E3.
    injection E as <- <-. apply (os_set_len_spec _ _ _ _ _ _ Hm) in E2 as (H2 & more' & Hm').
    apply os_sync_data_spec in E3 as [H3 Hc]. split_and!; [|rewrite Hc; eauto|done].
    etrans; [done|]. by etrans.
Qed.

(** ** Rotation *)

Lemma os_content_names i s names fs bl :
  os_content i (mkOs (os_inodes s) names fs bl) = os_content i s.
Proof. done. Qed.

Lemma os_exists_spec path s r s' : os_blind s = [] -> os_exists path s = (r, s') ->
  r = Ok (bool_decide (is_Some (os_names s !! path))) /\ s' = s.
Proof.
  intros Hb. unfold os_exists. rewrite Hb. simpl. rewrite andb_true_r. intros [= <- <-].
  split; [done|]. destruct s; simpl in *; congruence.
Qed.

Lemma free_archive_spec path suffix n k rotated s : os_blind s = [] ->
  exists x, free_archive path suffix n k rotated s = (Ok x, s).
Proof.
  intros Hb. revert k rotated. induction n as [|n IH]; intros k rotated; simpl; [by exists rotated|].
  unfold mbind. destruct (os_exists rotated s) as [r s'] eqn:E.
  apply os_exists_spec in E as [-> ->]; [|done].
  destruct (bool_decide _); [apply IH|by exists rotated].
Qed.

Lemma fold_max_lt l i : i ∈ l -> (i <= foldr Nat.max 0 l)%nat.
Proof. induction l as [|x l IH]; [set_solver|]. intros [->|Hi]%elem_of_cons; simpl; [lia|]. specialize (IH Hi). lia. Qed.

Lemma os_fresh_new s : os_inodes s !! os_fresh s = None.
Proof.
  destruct (os_inodes s !! os_fresh s) as [b|] eqn:E; [|done].
  apply elem_of_map_to_list, list_elem_of_In, (in_map fst), list_elem_of_In, fold_max_lt in E.
  simpl in E. unfold os_fresh in E. lia.
Qed.

Lemma os_rename_spec from to i s r s' :
  os_names s !! from = Some i -> os_rename from to s = (r, s') ->
  os_inodes s' = os_inodes s /\ os_blind s' = os_blind s /\
  os_names s' = match r with Ok _ => <[to := i]> (delete from (os_names s)) | Err _ => os_names s end.
Proof.
  intros Hf. unfold os_rename, os_plain, os_call.
  destruct (os_faults s) as [|[f|] fs]; simpl; rewrite ?Hf; by intros [= <- <-].
Qed.

Lemma os_open_append_spec path s r s' : os_open_append path s = (r, s') ->
  os_blind s' = os_blind s /\
  match r with
  | Ok i => (os_names s !! path = Some i /\ os_names s' = os_names s /\ os_inodes s' = os_inodes s) \/
            (os_names s !! path = None /\ os_names s' = <[path := i]> (os_names s) /\
             os_inodes s !! i = None /\ os_inodes s' = <[i := []]> (os_inodes s))
  | Err _ => os_names s' = os_names s /\ os_inodes s' = os_inodes s
  end.
Proof.
  unfold os_open_append, os_plain, os_call.
  destruct (os_faults s) as [|[f|] fs]; simpl.
  2: by intros [= <- <-].
  all: destruct (os_names s !! path) as [i|] eqn:Hp; intros [= <- <-]; simpl; split; [done|by left|done|].
  all: right; split_and!; [done|done| |done]; refine (os_fresh_new (mkOs (os_inodes s) _ _ _)).
Qed.

(** After the live file was renamed to a name nothing had. *)
Lemma renamed_kept path rotated i s s' :
  os_wf path i s -> os_names s !! rotated = None -> os_inodes s' = os_inodes s ->
  os_names s' = <[rotated := i]> (delete path (os_names s)) -> archives_kept path s s'.
Proof.
  intros Hwf Hr Hi Hn name j Hne Hj. rewrite Hn. unfold os_content. rewrite Hi. split; [|done].
  rewrite lookup_insert_ne, lookup_delete_ne by congruence. done.
Qed.

(** The live file is renamed and a new one takes its name. *)
Lemma renamed_wf path i rotated file s s1 s2 :
  os_wf path i s -> rotated <> path -> os_inodes s1 = os_inodes s ->
  os_names s1 = <[rotated := i]> (delete path (os_names s)) ->
  os_names s2 = <[path := file]> (os_names s1) -> os_inodes s1 !! file = None ->
  os_inodes s2 = <[file := []]> (os_inodes s1) -> os_blind s2 = [] -> os_wf path file s2.
Proof.
  intros [W1 W2 W3 W4] Hne Hi1 Hn1 Hn2 Hnew Hi2 Hb.
  assert (forall a j, os_names s1 !! a = Some j -> j <> file) as Hold.
  { intros a j Ha ->. rewrite Hn1 in Ha. rewrite <- Hi1 in W3. destruct (decide (a = rotated)) as [->|Ha'].
    - rewrite lookup_insert_eq in Ha. injection Ha as Ha. destruct (W3 _ _ W1) as [? Hw]. rewrite Ha in Hw. congruence.
    - rewrite lookup_insert_ne in Ha by done. apply lookup_delete_Some in Ha as [_ Ha].
     destruct (W3 _ _ Ha) as [? Hw]. congruence. }
  split.
  - by rewrite Hn2, lookup_insert_eq.
  - intros a b j. rewrite Hn2. intros [[<- <-]|[Ha1 Ha]]%lookup_insert_Some
      [[<- Eb]|[Hbn Hb']]%lookup_insert_Some; [done| | |].
    ++ by apply Hold in Hb'.
    ++ subst j. by apply Hold in Ha.
    ++ rewrite Hn1 in Ha, Hb'. apply lookup_insert_Some in Ha as [[<- <-]|[Ha2 Ha]],
         Hb' as [[<- Eb]|[Hbr Hb']]; [done| | |].
       ** apply lookup_delete_Some in Hb' as [Hb3 Hb']. by destruct Hb3; eapply W2.
       ** subst j. apply lookup_delete_Some in Ha as [Ha3 Ha]. by destruct Ha3; eapply W2.
       ** apply lookup_delete_Some in Ha as [_ Ha], Hb' as [_ Hb']. by eapply W2.
  - intros a j. rewrite Hn2, Hi2. intros [[<- <-]|[_ Ha]]%lookup_insert_Some.
    ++ by rewrite lookup_insert_eq.
    ++ rewrite lookup_insert_ne by (intros <-; by apply Hold in Ha). rewrite Hi1, Hn1 in *.
       apply lookup_insert_Some in Ha as [[_ <-]|[_ Ha]]; [by eapply W3|].
       apply lookup_delete_Some in Ha as [_ Ha]. by eapply W3.
  - congruence.
Qed.

Lemma file_rotate_spec d now seq s r s' :
  os_wf (fd_path d) (fd_file d) s -> file_rotate d now seq s = (r, s') ->
  archives_kept (fd_path d) s s' /\
  match r with
  | Err _ => bytes_kept (os_content (fd_file d) s) s'
  | Ok d' => exists rotated, rotated <> fd_path d /\ os_names s' !! rotated = Some (fd_file d) /\
      os_content (fd_file d) s' = os_content (fd_file d) s /\
      os_wf (fd_path d) (fd_file d') s' /\ os_content (fd_file d') s' = [] /\
      d' = mkFileDevice (fd_name d) (fd_path d) (fd_file d') 0 (fd_rotate_at d) /\
      free_archive (fd_path d) (archive_suffix now seq) ATTEMPTS_PER_STAMP 1
        (archive_path (fd_path d) (archive_suffix now seq)) s = (Ok rotated, s)
  end.
Proof.
  intros Hwf. pose proof Hwf as [W1 W2 W3 W4]. unfold file_rotate.
  set (suffix := archive_suffix now seq).
  destruct (free_archive_spec (fd_path d) suffix ATTEMPTS_PER_STAMP 1 (archive_path (fd_path d) suffix) s W4)
    as [rotated Hfree]. unfold mbind at 1. rewrite Hfree.
  unfold mbind at 1. destruct (os_exists rotated s) as [ex s0] eqn:Hex.
  apply os_exists_spec in Hex as [-> ->]; [|done].
  assert (bytes_kept (os_content (fd_file d) s) s) as Hkept
    by (exists (fd_path d), (fd_file d), []; by rewrite app_nil_r).
  case_bool_decide as Hr.
  { unfold mfail. intros [= <- <-]. by split. }
  assert (os_names s !! rotated = None) as Hnone by (by destruct (os_names s !! rotated); [destruct Hr|]).
  assert (rotated <> fd_path d) as Hne by congruence.
  unfold mbind at 1. destruct (os_rename (fd_path d) rotated s) as [rr s1] eqn:Hren.
  apply (os_rename_spec _ _ _ _ _ _ W1) in Hren as (Hi1 & Hb1 & Hn1). destruct rr as [[]|e].
  2: { intros [= <- <-]. split.
       - intros name j _ Hj. unfold os_content. by rewrite Hn1, Hi1.
       - exists (fd_path d), (fd_file d), []. unfold os_content. by rewrite Hn1, Hi1, app_nil_r. }
  pose proof (renamed_kept _ _ _ _ _ Hwf Hnone Hi1 Hn1) as Hk1.
  unfold mbind. destruct (os_open_append (fd_path d) s1) as [ro s2] eqn:Hop.
  apply os_open_append_spec in Hop as (Hb2 & Hop).
  assert (os_names s1 !! rotated = Some (fd_file d)) as Hrot by by rewrite Hn1, lookup_insert_eq.
  assert (os_names s1 !! fd_path d = None) as Hlive
    by by rewrite Hn1, lookup_insert_ne, lookup_delete_eq by done.
  destruct ro as [file|e].
  - destruct Hop as [(Hx & _)|(_ & Hn2 & Hnew & Hi2)]; [congruence|].
    unfold mret. intros [= <- <-]. simpl.
    assert (forall j, is_Some (os_inodes s !! j) -> os_content j s2 = os_content j s) as Hsame.
    { intros j Hj. unfold os_content. rewrite Hi2, <- Hi1. rewrite lookup_insert_ne; [done|].
      intros <-. rewrite <- Hi1 in Hj. rewrite Hnew in Hj. by destruct Hj. }
    split.
    + intros name j Hne' Hj. split; [|by apply Hsame, (W3 name)]. rewrite Hn2, lookup_insert_ne by done.
      by apply Hk1.
    + exists rotated. split_and!; [done| |apply Hsame; eauto| | |done|done].
      * by rewrite Hn2, lookup_insert_ne.
      * apply (renamed_wf _ (fd_file d) rotated file s s1); first [done|congruence].
      * unfold os_content. by rewrite Hi2, lookup_insert_eq.
  - destruct Hop as [Hn2 Hi2]. intros [= <- <-]. split.
    + intros name j Hne' Hj. unfold os_content. rewrite Hn2, Hi2. by apply Hk1.
    + exists rotated, (fd_file d), []. unfold os_content. by rewrite Hn2, Hi2, Hi1, app_nil_r.
Qed.

(** ** Properties *)

(** C27: A write that succeeds appends exactly the record's line to the live file,
    which is the file it was or, after a rotation, a new one.  Whatever fails,
    no other file is renamed or changed, and everything the live file held is
    still held by some file. *)
Theorem file_write_keeps_everything r w res w' :
  file_wf w ->
  (fd_written (fw_device w) + Z.of_nat (length (record_line r)) <= u64_max)%Z ->
  file_write r w = (res, w') ->
  archives_kept (fd_path (fw_device w)) (fw_os w) (fw_os w') /\
  bytes_kept (os_content (fd_file (fw_device w)) (fw_os w)) (fw_os w') /\
  match res with
  | Ok _ => file_wf w' /\
      (os_content (fd_file (fw_device w')) (fw_os w') = record_line r \/
       os_content (fd_file (fw_device w')) (fw_os w') =
         os_content (fd_file (fw_device w)) (fw_os w) ++ record_line r)
  | Err _ => True
  end.
Proof.
  destruct w as [d s]. intros [Hwf Hlen] Hmax. simpl in *. unfold file_write. simpl.
  set (line := record_line r) in *.
  destruct (must_rotate d (Z.of_nat (length line))).
  - unfold mmap_err. destruct (file_rotate d _ _ s) as [rr s1] eqn:Hrot.
    apply (file_rotate_spec _ _ _ _ _ _ Hwf) in Hrot as [Hk1 Hrot].
    destruct rr as [d1|e]; simpl; [|by intros [= <- <-]].
    destruct Hrot as (rotated & Hne & Hn1 & Hc1 & Hwf1 & He1 & Ed & _).
    destruct (file_append d1 line s1) as [ra s2] eqn:Happ.
    assert (fd_path d1 = fd_path d) as Ep by by rewrite Ed.
    apply file_append_spec in Happ as (Ho & (more & Hm) & Hok); [|by rewrite He1, Ed].
    pose proof (only_inode_kept _ _ _ _ Ho Hwf1) as Hk2.
    assert (archives_kept (fd_path d) s s2) as Hk.
    { intros name j Hj1 Hj2. destruct (Hk1 _ _ Hj1 Hj2) as [Ha Hb].
      destruct (Hk2 _ _ Hj1 Ha) as [Hc Hd]. by rewrite Hd, Hb. }
    destruct (Hk2 _ _ Hne Hn1) as [Hn2 Hc2].
    assert (bytes_kept (os_content (fd_file d) s) s2) as Hb.
    { exists rotated, (fd_file d), []. by rewrite Hn2, Hc2, Hc1, app_nil_r. }
    destruct ra as [d2|e]; intros [= <- <-]; simpl; [|done]. destruct Hok as [Hc ->].
    rewrite He1 in Hc. split_and!; [done|done| |by left]. split; simpl; [|rewrite Hc].
    + rewrite Ep. by eapply only_inode_wf.
    + rewrite Ed. simpl. unfold u64_add, u64_max in *. rewrite Z.mod_small; lia.
  - destruct (file_append d line s) as [ra s2] eqn:Happ.
    apply file_append_spec in Happ as (Ho & (more & Hm) & Hok); [|done].
    pose proof (only_inode_kept _ _ _ _ Ho Hwf) as Hk.
    pose proof (only_inode_wf _ _ _ _ Ho Hwf) as Hwf2.
    assert (bytes_kept (os_content (fd_file d) s) s2) as Hb.
    { exists (fd_path d), (fd_file d), more. split; [by apply Hwf2|done]. }
    destruct ra as [d2|e]; intros [= <- <-]; simpl; [|done]. destruct Hok as [Hc ->].
    split_and!; [done|done| |by right]. split; simpl; [done|]. rewrite Hc, length_app, Hlen in *.
    unfold u64_add, u64_max in *. rewrite Z.mod_small; lia.
Qed.

(** A device whose live file holds one record and is full: the next write rotates. *)
Definition full_world (r : EncodedRecord) : FileWorld :=
  mkFileWorld (mkFileDevice "file:log" "log" 1 (Z.of_nat (length (record_line r))) (Some 1%Z))
    (mkOs {[1%nat := record_line r]} {["log" := 1%nat]} [] []).
Definition one_record : EncodedRecord := mkEncodedRecord 1 0 GENESIS GENESIS "first".

Lemma full_world_wf : file_wf (full_world one_record).
Proof.
  split; [|reflexivity]. split; simpl.
  - reflexivity.
  - intros a b i [-> _]%lookup_singleton_Some [-> _]%lookup_singleton_Some. done.
  - intros a i [_ <-]%lookup_singleton_Some. by eexists.
  - done.
Qed.

Lemma file_write_keeps_everything_witness :
  let w := full_world one_record in
  bytes_kept (os_content 1 (fw_os w))
    (fw_os (snd (file_write (mkEncodedRecord 2 0 GENESIS GENESIS "second") w))).
Proof.
  intros w.
  destruct (file_write (mkEncodedRecord 2 0 GENESIS GENESIS "second") w) as [res w'] eqn:Hw.
  apply (file_write_keeps_everything _ w res w' full_world_wf) in Hw as (_ & Hb & _); [exact Hb|].
  vm_compute. congruence.
Defined.
