(* ===== verification/Archive.v ===== *)
(** * The archive reader ([ciphr-audit/src/archive.rs])

    Whether records that are about to be cut exist in the file device's files: the
    rotation set is found by name, and records are found by the digest of a line.
    The last part connects the two sides: the names the file device gives its
    archives are the names this reader looks for. *)

From Stdlib Require Import ZArith NArith Lia Ascii String.
From stdpp Require Import base tactics list strings gmap sorting.
From S2P Require Import Prelude Text Hex Path Vocabulary Time Chain Sink FileDevice.

(** ** Paths and the file system

    The parts of [std::path] that are used: trailing separators and [.] components
    do not count, the last component is a file name unless it is [..]. *)

Fixpoint trim_components (rev_segments : list string) : list string :=
  match rev_segments with
  | [] => []
  | [first] => [first]
  | last :: rest => if is_empty last || String.eqb last "." then trim_components rest else last :: rest
  end.

Definition path_of_components (rev_segments : list string) : string :=
  let text := join (str1 slash) (rev rev_segments) in
  match rev_segments with [first] => if is_empty first then str1 slash else text | _ => text end.

(** [path.parent()] with [path.file_name()]. *)
Definition parent_and_name (path : string) : option (string * string) :=
  match trim_components (rev (split_on slash path)) with
  | name :: rest =>
      if is_empty name || String.eqb name "." || String.eqb name ".." then None
      else Some (match rest with
                 | [] => EmptyString
                 | _ => path_of_components (trim_components rest)
                 end, name)
  | [] => None
  end.

(** [directory.join(name)], for a name that is one component. *)
Definition join_path (directory name : string) : string :=
  match str_rev directory with
  | String c _ => if Ascii.eqb c slash then directory ++ name else directory ++ str1 slash ++ name
  | EmptyString => name
  end.

(** What the reader asks of the system: whether a path is a file or a directory,
    the entries of a directory, and the content of a file, which may end in an
    error of the read. *)
Record disk : Type := mkDisk {
  dk_is_file : string -> bool;
  dk_is_dir : string -> bool;
  dk_read_dir : string -> result string (list (result string bytes));
  dk_open : string -> result string (bytes * option string);
}.

(** ** The rotation set *)

Definition STAMP_LEN : nat := 24.

(** [text.get(..n)] with [text.get(n..)]: both exist when [n] is the end of a
    character. *)
Definition is_char_boundary (s : string) (n : nat) : bool :=
  match drop n (as_bytes s) with
  | [] => (String.length s =? n)%nat
  | c :: _ => negb ((128 <=? N_of_ascii c)%N && (N_of_ascii c <? 192)%N)
  end.
Definition get_split (n : nat) (s : string) : option (string * string) :=
  if is_char_boundary s n then Some (str_of_bytes (take n (as_bytes s)), str_of_bytes (drop n (as_bytes s))) else None.

Definition is_digits (text : string) : bool := negb (is_empty text) && forallb is_ascii_digit (chars text).

Definition is_archive_tail (tail : string) : bool :=
  if is_empty tail then true
  else match strip_prefix "-" tail with
  | None => false
  | Some rest =>
      let '(sequence, counter) :=
        match split_once "."%char rest with
        | Some (sequence, counter) => (sequence, Some counter)
        | None => (rest, None)
        end in
      is_digits sequence && match counter with None => true | Some counter => is_digits counter end
  end.

Definition stamp_char (index : nat) (c : N) : bool :=
  if bool_decide (index ∈ [4; 7; 13; 16]) then (c =? 45)%N
  else if (index =? 10)%nat then (c =? 84)%N
  else if (index =? 19)%nat then (c =? 46)%N
  else if (index =? 23)%nat then (c =? 90)%N
  else is_ascii_digit c.

Definition is_rotation_stamp (suffix : string) : bool :=
  match get_split STAMP_LEN suffix with
  | None => false
  | Some (stamp, tail) =>
      match strip_suffix "Z" stamp with
      | None => false
      | Some _ =>
          forallb (fun '(index, c) => stamp_char index c) (combine (seq 0 (length (chars stamp))) (chars stamp))
          && is_archive_tail tail
      end
  end.

(** The loop over the entries of the directory. *)
Fixpoint rotated_entries (dk : disk) (directory prefix : string) (entries : list (result string bytes))
    : result string (list string) :=
  match entries with
  | [] => Ok []
  | entry :: entries =>
      let? name := entry in
      let? rotated := rotated_entries dk directory prefix entries in
      match from_utf8 name, from_utf8 (as_bytes prefix) with
      | Some candidate, Some prefix =>
          match strip_prefix prefix candidate with
          | Some stamp =>
              if is_rotation_stamp stamp && dk_is_file dk (join_path directory candidate)
              then Ok (join_path directory candidate :: rotated) else Ok rotated
          | None => Ok rotated
          end
      | _, _ => Ok rotated
      end
  end.

Definition rotation_set (dk : disk) (path : string) : result string (list string) :=
  let set := if dk_is_file dk path then [path] else [] in
  match parent_and_name path with
  | None => Ok set
  | Some (directory, name) =>
      let directory := if is_empty directory then "."%string else directory in
      if negb (dk_is_dir dk directory) then Ok set
      else
        let? entries := dk_read_dir dk directory in
        let? rotated := rotated_entries dk directory (name ++ ".") entries in
        Ok (set ++ sort_by String.leb rotated)
  end.

(** ** Coverage *)

Record Coverage : Type := mkCoverage { cov_missing : list Z; cov_found : Z; cov_lines : Z; cov_files : Z }.
Definition is_complete (c : Coverage) : bool := match cov_missing c with [] => true | _ => false end.

(** [BufRead::lines]: the pieces of [lines], each of them checked to be UTF-8; the
    error a read ends in stands after the complete lines. *)
Definition buffered_lines (content : bytes * option string) : list (result string string) :=
  let read (b : string) := ok_or "stream did not contain valid UTF-8"%string (from_utf8 (as_bytes b)) in
  match snd content with
  | None => map read (lines (str_of_bytes (fst content)))
  | Some error =>
      map (fun b => read (drop_cr b)) (removelast (split_on newline (str_of_bytes (fst content)))) ++ [Err error]
  end.

Section coverage.
Context {H : Sha256}.

#[local] Abbreviation Outstanding := (gmap bytes Z).

(** The lines of one file, until nothing is outstanding. *)
Fixpoint read_lines (read : list (result string string)) (outstanding : Outstanding) (lines : Z)
    : result string (Outstanding * Z) :=
  match read with
  | [] => Ok (outstanding, lines)
  | line :: read =>
      let? line := line in
      if is_empty (trim line) then read_lines read outstanding lines
      else
        let outstanding := delete (hash_payload (as_bytes line)) outstanding in
        let lines := u64_add lines 1 in
        if bool_decide (outstanding = ∅) then Ok (outstanding, lines) else read_lines read outstanding lines
  end.

Fixpoint read_files (dk : disk) (files : list string) (outstanding : Outstanding) (lines : Z)
    : result string (Outstanding * Z) :=
  match files with
  | [] => Ok (outstanding, lines)
  | file :: files =>
      let? content := dk_open dk file in
      let? (outstanding, lines) := read_lines (buffered_lines content) outstanding lines in
      read_files dk files outstanding lines
  end.

(** A later record with the same digest replaces an earlier one. *)
Definition collect (m : Outstanding) (wanted : list StoredRecord) : Outstanding :=
  fold_left (fun m record => <[hash_payload (as_bytes (sr_payload record)) := sr_seq record]> m) wanted m.
Definition outstanding_of (wanted : list StoredRecord) : Outstanding := collect ∅ wanted.

Definition coverage_of (dk : disk) (files : list string) (wanted : list StoredRecord) : result string Coverage :=
  let outstanding := outstanding_of wanted in
  let asked := Z.of_nat (size outstanding) in
  let? (outstanding, lines) := read_files dk files outstanding 0 in
  let missing := sort_by Z.leb (map snd (map_to_list outstanding)) in
  Ok (mkCoverage missing (asked - Z.of_nat (length missing)) lines (Z.of_nat (length files))).
End coverage.

(** ** Lemmas: the names of the archives *)

Lemma replace_char_app a b s t : replace_char a b (s ++ t) = (replace_char a b s ++ replace_char a b t)%string.
Proof. induction s; simpl; congruence. Qed.

Lemma replace_char_digits n s : digits_text n s = true -> replace_char ":" "-" s = s.
Proof.
  intros [_ H]%digits_text_spec. induction s as [|c s IH]; [done|]. apply Forall_cons in H as [Hc H].
  simpl. rewrite IH by done. destruct (Ascii.eqb_spec c ":"%char) as [->|_]; [by vm_compute in Hc|done].
Qed.

Lemma get_split_app a b : (forall c rest, b = String c rest -> plain c = true) ->
  get_split (String.length a) (a ++ b) = Some (a, b).
Proof.
  intros Hb. unfold get_split, is_char_boundary. rewrite as_bytes_app.
  rewrite <- length_as_bytes, drop_app_length, take_app_length. unfold as_bytes, str_of_bytes.
  rewrite !string_of_list_ascii_of_string. destruct b as [|c b]; simpl.
  - by rewrite str_app_nil_r, length_as_bytes, Nat.eqb_refl.
  - specialize (Hb c b eq_refl). unfold plain in Hb. apply andb_true_iff in Hb as [_ Hb%N.leb_le].
    by rewrite (proj2 (N.leb_gt 128 _)) by lia.
Qed.

Definition stamp_of (millis : Z) : string := replace_char ":" "-" (rfc3339_millis millis).

(** The text of a timestamp with its colons replaced has the shape that is looked for. *)
Lemma stamp_shape millis : (0 <= millis <= last_millis)%Z ->
  String.length (stamp_of millis) = STAMP_LEN /\ (exists r, strip_suffix "Z" (stamp_of millis) = Some r) /\
  forallb (fun '(index, c) => stamp_char index c)
    (combine (seq 0 (length (chars (stamp_of millis)))) (chars (stamp_of millis))) = true.
Proof.
  intros H. unfold stamp_of.
  destruct (rfc3339_blocks millis H) as (y & m & d & h & mi & s & ms & -> & Hy & Hm & Hd & Hh & Hmi & Hs & Hms).
  rewrite !replace_char_app, (replace_char_digits 4 y), (replace_char_digits 2 m), (replace_char_digits 2 d),
    (replace_char_digits 2 h), (replace_char_digits 2 mi), (replace_char_digits 2 s), (replace_char_digits 3 ms) by done.
  split_and!.
  - apply digits_text_spec in Hy as [Hy _], Hm as [Hm _], Hd as [Hd _], Hh as [Hh _], Hmi as [Hmi _], Hs as [Hs _], Hms as [Hms _].
    rewrite !str_length_app, Hy, Hm, Hd, Hh, Hmi, Hs, Hms. reflexivity.
  - eexists. apply strip_suffix_Some. rewrite <- !str_app_assoc. reflexivity.
  - unfold digits_text in *.
    destruct y as [|y0 [|y1 [|y2 [|y3 [|]]]]]; try discriminate.
    destruct m as [|m0 [|m1 [|]]], d as [|d0 [|d1 [|]]], h as [|h0 [|h1 [|]]]; try discriminate.
    destruct mi as [|i0 [|i1 [|]]], s as [|k0 [|k1 [|]]], ms as [|f0 [|f1 [|f2 [|]]]]; try discriminate.
    cbn -[is_digit_char] in Hy, Hm, Hd, Hh, Hmi, Hs, Hms.
    repeat match goal with E : _ && _ = true |- _ => apply andb_true_iff in E as [? ?] end.
    rewrite chars_plain by (cbn; repeat (apply Forall_cons; split; [first [by apply digit_plain|done]|]); constructor).
    cbn -[is_ascii_digit N_of_ascii]. unfold stamp_char. cbn -[is_ascii_digit N_of_ascii N.eqb].
    unfold is_digit_char in *. repeat match goal with E : is_ascii_digit (N_of_ascii _) = true |- _ => rewrite E; clear E end.
    reflexivity.
Qed.

Lemma dec_is_digits z : (0 <= z)%Z -> is_digits (dec z) = true.
Proof.
  intros Hz. unfold is_digits. destruct (dec_digit_chars z Hz) as [_ Hne]. destruct (dec_digits z Hz) as (_ & Hf & _).
  apply andb_true_iff. split; [by destruct (dec z)|].
  apply forallb_forall. intros c Hc. rewrite Forall_forall in Hf. by apply Hf, list_elem_of_In.
Qed.

Lemma digits_without_dot z : (0 <= z)%Z -> contains "."%char (dec z) = false.
Proof.
  intros Hz. destruct (dec_digit_chars z Hz) as [Hf _]. induction (dec z) as [|c s IH]; [done|].
  apply Forall_cons in Hf as [Hc Hf]. simpl. rewrite IH by done. rewrite orb_false_r.
  apply Ascii.eqb_neq. intros ->. by vm_compute in Hc.
Qed.

(** The name of an archive, with or without a number for the attempt. *)
Lemma archive_tail_numbered n k : (0 <= n)%Z -> (0 <= k)%Z ->
  is_archive_tail ("-" ++ dec n) = true /\ is_archive_tail (("-" ++ dec n) ++ "." ++ dec k) = true.
Proof.
  intros Hn Hk. unfold is_archive_tail. cbn [append is_empty strip_prefix]. rewrite Ascii.eqb_refl. split.
  - destruct (split_once "."%char (dec n)) as [[a b]|] eqn:E; [|by rewrite dec_is_digits].
    exfalso. clear -E Hn. pose proof (digits_without_dot n Hn) as Hd. revert a b E Hd.
    induction (dec n) as [|c s IH]; intros a b; simpl; [done|]. intros E [Hc Hs]%orb_false_iff. rewrite Hc in E.
    destruct (split_once "."%char s) as [[x y]|]; [by eapply IH|done].
  - assert (split_once "."%char (dec n ++ String "."%char (dec k)) = Some (dec n, dec k)) as ->.
    { pose proof (digits_without_dot n Hn) as Hd. induction (dec n) as [|c s IH]; [done|].
      apply orb_false_iff in Hd as [Hc Hs]. simpl. by rewrite Hc, IH. }
    by rewrite !dec_is_digits.
Qed.

Lemma stamped_suffix now tail : (0 <= now <= last_millis)%Z -> is_archive_tail tail = true ->
  (forall c rest, tail = String c rest -> plain c = true) -> is_rotation_stamp (stamp_of now ++ tail) = true.
Proof.
  intros Hnow Ht Hp. destruct (stamp_shape now Hnow) as (Hl & (r & Hr) & Hs). unfold is_rotation_stamp.
  rewrite <- Hl, get_split_app by done. by rewrite Hr, Hs, Ht.
Qed.

Definition archive_stamp (now seq : Z) (tail : string) : string := stamp_of now ++ ("-" ++ dec (u64_sat_sub seq 1)) ++ tail.

Lemma archive_stamp_found now seq : (0 <= now <= last_millis)%Z ->
  is_rotation_stamp (archive_stamp now seq EmptyString) = true /\
  forall k, (0 <= k)%Z -> is_rotation_stamp (archive_stamp now seq ("." ++ dec k)) = true.
Proof.
  intros Hnow. assert (0 <= u64_sat_sub seq 1)%Z as Hs by (unfold u64_sat_sub; lia).
  split; [|intros k Hk]; (apply stamped_suffix; [done| |by intros c rest [= <- _]]).
  - rewrite str_app_nil_r. by apply (archive_tail_numbered _ 0).
  - by apply archive_tail_numbered.
Qed.

Lemma free_archive_named (P : string -> Prop) path suffix n : forall k rotated s x s',
  free_archive path suffix n k rotated s = (Ok x, s') -> (0 <= k)%Z -> P rotated ->
  (forall k, (0 <= k)%Z -> P (archive_path path (suffix ++ "." ++ dec k))) -> P x.
Proof.
  induction n as [|n IH]; intros k rotated s x s' H Hk Hr HP; [by apply pair_equal_spec in H as [[= <-] _]|].
  cbn [free_archive] in H. unfold mbind in H. destruct (os_exists rotated s) as [[[|]|] s1]; [|by apply pair_equal_spec in H as [[= <-] _]|done].
  eapply IH; [exact H|lia|by apply HP|done].
Qed.

(** ** Properties: the names *)

(** What a rotation sets aside carries a name the archive reader recognizes, at
    any time up to the end of the year 9999, numbered attempts included. *)
Theorem rotated_archive_is_recognized d now seq s d' s' :
  os_wf (fd_path d) (fd_file d) s -> (0 <= now <= last_millis)%Z ->
  file_rotate d now seq s = (Ok d', s') ->
  exists stamp, is_rotation_stamp stamp = true /\
    os_names s' !! (fd_path d ++ "." ++ stamp)%string = Some (fd_file d) /\
    os_content (fd_file d) s' = os_content (fd_file d) s.
Proof.
  intros Hwf Hnow H. apply (file_rotate_spec _ _ _ _ _ _ Hwf) in H as (_ & rotated & _ & Hn & Hc & _ & _ & _ & Hf).
  destruct (archive_stamp_found now seq Hnow) as [H0 Hk].
  apply (free_archive_named (fun x => exists stamp, is_rotation_stamp stamp = true /\ x = fd_path d ++ "." ++ stamp)%string) in Hf
    as (stamp & Hs & ->); [by exists stamp|lia| |].
  - eexists. split; [exact H0|]. unfold archive_path, archive_suffix, archive_stamp, stamp_of. by rewrite str_app_nil_r.
  - intros k Hk0. eexists. split; [exact (Hk k Hk0)|]. unfold archive_path, archive_suffix, archive_stamp, stamp_of.
    by rewrite !str_app_assoc.
Qed.

Lemma rotated_archive_is_recognized_witness : exists d' s',
  file_rotate (fw_device (full_world one_record)) 1 2 (fw_os (full_world one_record)) = (Ok d', s') /\
  exists stamp, is_rotation_stamp stamp = true /\ os_names s' !! ("log." ++ stamp)%string = Some 1%nat.
Proof.
  destruct (file_rotate (fw_device (full_world one_record)) 1 2 (fw_os (full_world one_record))) as [[d'|e] s'] eqn:E.
  - exists d', s'. split; [done|].
    destruct (rotated_archive_is_recognized _ 1 2 _ _ _ (proj1 full_world_wf) ltac:(vm_compute; split; congruence) E)
      as (stamp & Hs & Hn & _).
    by exists stamp.
  - exfalso. vm_compute in E. discriminate.
Defined.

(** ** Lemmas: the rotation set *)

(** An entry of the directory that is an archive of the file [name]. *)
Definition archive_entry (dk : disk) (directory prefix p : string) (entry : result string bytes) : Prop :=
  exists name stamp, entry = Ok name /\ from_utf8 name = Some (prefix ++ stamp)%string /\
    is_Some (from_utf8 (as_bytes prefix)) /\ is_rotation_stamp stamp = true /\
    p = join_path directory (prefix ++ stamp) /\ dk_is_file dk p = true.

Lemma rotated_entries_spec dk directory prefix entries rotated p :
  rotated_entries dk directory prefix entries = Ok rotated ->
  p ∈ rotated <-> Exists (archive_entry dk directory prefix p) entries.
Proof.
  revert rotated. induction entries as [|entry entries IH]; intros rotated H; cbn [rotated_entries] in H.
  { injection H as <-. rewrite Exists_nil. set_solver. }
  destruct entry as [name|e]; [|done]. cbn [res_bind] in H.
  destruct (rotated_entries _ _ _ entries) as [rest|e] eqn:Hr; [|done]. cbn [res_bind] in H.
  specialize (IH _ eq_refl). rewrite Exists_cons, <- IH. clear IH Hr.
  assert (forall P : Prop, (archive_entry dk directory prefix p (Ok name) -> P) -> (P -> False) ->
    p ∈ rest <-> archive_entry dk directory prefix p (Ok name) \/ p ∈ rest) as Hno by tauto.
  destruct (from_utf8 name) as [candidate|] eqn:Hn.
  2: { injection H as <-. apply (Hno False); [|done]. intros (? & ? & [= ->] & E & _). congruence. }
  destruct (from_utf8 (as_bytes prefix)) as [prefix'|] eqn:Hp.
  2: { injection H as <-. apply (Hno False); [|done]. intros (? & ? & _ & _ & [? ?] & _). congruence. }
  pose proof (from_utf8_utf8 _ _ Hp) as [_ ->]. unfold str_of_bytes, as_bytes in H.
  rewrite string_of_list_ascii_of_string in H.
  destruct (strip_prefix prefix candidate) as [stamp|] eqn:Hs.
  2: { injection H as <-. apply (Hno False); [|done]. intros (? & stamp & [= ->] & E & _). rewrite Hn in E.
       injection E as ->. enough (strip_prefix prefix (prefix ++ stamp) = Some stamp) by congruence. by apply strip_prefix_Some. }
  apply strip_prefix_Some in Hs as ->. destruct (is_rotation_stamp stamp && _) eqn:Hok; injection H as <-.
  - apply andb_true_iff in Hok as [Hst Hf]. rewrite elem_of_cons. split.
    + intros [->|?]; [left|by right]. exists name, stamp. rewrite Hp. by split_and!.
    + intros [(n & st & [= <-] & E & _ & _ & -> & _)|?]; [left|by right]. rewrite Hn in E. injection E as E.
      by apply str_app_inj_l in E as ->.
  - apply (Hno False); [|done]. intros (n & st & [= <-] & E & _ & Hst & -> & Hf). rewrite Hn in E. injection E as E.
    apply str_app_inj_l in E as ->. by rewrite Hst, Hf in Hok.
Qed.

(** The directory the archives of a file are looked for in, with the file's name. *)
Definition archive_place (dk : disk) (path : string) : option (string * string) :=
  match parent_and_name path with
  | Some (directory, name) =>
      let directory := if is_empty directory then "."%string else directory in
      if dk_is_dir dk directory then Some (directory, name) else None
  | None => None
  end.

(** The rotation set is the file itself, if it is there, and exactly the entries
    of its directory that are files and whose names are the file's name, a dot
    and a rotation stamp. *)
Theorem rotation_set_correct dk path set p : rotation_set dk path = Ok set ->
  p ∈ set <-> (p = path /\ dk_is_file dk path = true) \/
    exists directory name entries, archive_place dk path = Some (directory, name) /\
      dk_read_dir dk directory = Ok entries /\ Exists (archive_entry dk directory (name ++ ".") p) entries.
Proof.
  unfold rotation_set, archive_place. intros H.
  assert (p ∈ (if dk_is_file dk path then [path] else []) <-> p = path /\ dk_is_file dk path = true) as Hlive.
  { destruct (dk_is_file dk path); [rewrite list_elem_of_singleton; tauto|]. rewrite elem_of_nil. intuition done. }
  destruct (parent_and_name path) as [[directory name]|].
  2: { injection H as <-. rewrite Hlive. split; [tauto|]. by intros [?|(? & ? & ? & ? & _)]. }
  cbv zeta in *. set (dir := if is_empty directory then "."%string else directory) in *.
  destruct (dk_is_dir dk dir); cbn [negb] in H.
  2: { injection H as <-. rewrite Hlive. split; [tauto|]. by intros [?|(? & ? & ? & ? & _)]. }
  destruct (dk_read_dir dk dir) as [entries|e] eqn:Hd; [|done]. cbn [res_bind] in H.
  destruct (rotated_entries _ _ _ entries) as [rotated|e] eqn:Hr; [|done]. injection H as <-.
  rewrite elem_of_app, Hlive, sort_by_perm, (rotated_entries_spec _ _ _ _ _ _ Hr). split.
  - intros [?|?]; [by left|]. right. by exists dir, name, entries.
  - intros [?|(d & n & es & [= <- <-] & E & ?)]; [by left|]. right. rewrite Hd in E. by injection E as ->.
Qed.

(** ** Lemmas: coverage *)

#[local] Abbreviation Outstanding := (gmap bytes Z).

Section coverage_lemmas.
Context {H : Sha256}.

(** The lines of an archive that count, by digest. *)
Definition file_lines (dk : disk) (file : string) : list string :=
  match dk_open dk file with
  | Ok content => List.filter (fun line => negb (is_empty (trim line))) (omap res_ok (buffered_lines content))
  | Err _ => []
  end.
Definition archive_lines (dk : disk) (files : list string) : list string := flat_map (file_lines dk) files.
Definition digests (l : list string) : list bytes := map (fun line => hash_payload (as_bytes line)) l.

(** What a reader of [l] leaves of [out]. *)
Definition left_of (out : Outstanding) (l : list string) (out' : Outstanding) : Prop :=
  forall h seq, out' !! h = Some seq <-> out !! h = Some seq /\ h ∉ digests l.

Lemma left_of_nil out : left_of out [] out.
Proof. intros h seq. split; [|by intros [? _]]. intros ?. split; [done|]. apply not_elem_of_nil. Qed.

Lemma left_of_empty l : left_of ∅ l ∅.
Proof. intros h seq. rewrite lookup_empty. split; [done|by intros [? _]]. Qed.

Lemma left_of_app out a mid b out' : left_of out a mid -> left_of mid b out' -> left_of out (a ++ b) out'.
Proof.
  intros Ha Hb h seq. rewrite (Hb h seq), (Ha h seq). unfold digests. rewrite map_app, elem_of_app. tauto.
Qed.

Lemma left_of_delete out line : left_of out [line] (delete (hash_payload (as_bytes line)) out).
Proof.
  intros h seq. rewrite lookup_delete_Some. unfold digests. cbn [map]. rewrite list_elem_of_singleton. firstorder congruence.
Qed.

Lemma read_lines_spec read : forall out n out' n',
  read_lines read out n = Ok (out', n') ->
  left_of out (List.filter (fun line => negb (is_empty (trim line))) (omap res_ok read)) out'.
Proof.
  induction read as [|line read IH]; intros out n out' n' Hr; cbn [read_lines] in Hr.
  { injection Hr as <- _. apply left_of_nil. }
  destruct line as [line|e]; [|done]. cbn [res_bind] in Hr. cbn [omap list_omap res_ok].
  cbn [List.filter]. destruct (is_empty (trim line)); cbn [negb]; [by eapply IH|].
  eapply (left_of_app _ [line]); [apply left_of_delete|]. cbv zeta in Hr.
  case_bool_decide as He; [|by eapply IH]. injection Hr as <- _. rewrite He. apply left_of_empty.
Qed.

Lemma read_files_spec dk files : forall out n out' n',
  read_files dk files out n = Ok (out', n') -> left_of out (archive_lines dk files) out'.
Proof.
  induction files as [|file files IH]; intros out n out' n' Hr; cbn [read_files] in Hr.
  { injection Hr as <- _. apply left_of_nil. }
  destruct (dk_open dk file) as [content|e] eqn:Ho; [|done]. cbn [res_bind] in Hr.
  destruct (read_lines _ out n) as [[mid n1]|e] eqn:Hl; [|done]. cbn [res_bind] in Hr.
  unfold archive_lines. cbn [flat_map]. eapply left_of_app; [|by eapply IH].
  unfold file_lines. rewrite Ho. by eapply read_lines_spec.
Qed.

Lemma collect_spec wanted : forall m : Outstanding,
  (forall h, is_Some (collect m wanted !! h)
     <-> is_Some (m !! h) \/ exists r, r ∈ wanted /\ hash_payload (as_bytes (sr_payload r)) = h) /\
  (forall h seq, collect m wanted !! h = Some seq ->
     m !! h = Some seq \/ exists r, r ∈ wanted /\ hash_payload (as_bytes (sr_payload r)) = h /\ sr_seq r = seq).
Proof.
  unfold collect. induction wanted as [|r wanted IH]; intros m; cbn [fold_left].
  { split; [|by left]. intros h. split; [by left|]. intros [?|(? & ?%elem_of_nil & _)]; done. }
  destruct (IH (<[hash_payload (as_bytes (sr_payload r)) := sr_seq r]> m)) as [IH1 IH2]. split.
  - intros h. rewrite IH1, lookup_insert_is_Some'. split.
    + intros [[<-|?]|(r' & ? & ?)]; [right; exists r; split; [left|done]|by left|right; exists r'; split; [by right|done]].
    + intros [?|(r' & [->|?]%elem_of_cons & Hr)]; [left; by right|left; by left|right; by exists r'].
  - intros h seq [Hi|(r' & ? & ?)]%IH2; [|right; exists r'; split; [by right|done]].
    apply lookup_insert_Some in Hi as [[<- <-]|[_ ?]]; [|by left]. right. exists r. split; [left|done].
Qed.
End coverage_lemmas.

(** ** Properties: coverage *)

(** A record is held by the files when its payload is one of their lines, or when
    two texts with one digest are exhibited. *)
Definition held {H : Sha256} (lines : list string) (record : StoredRecord) : Prop :=
  sr_payload record ∈ lines \/ collision.

Lemma digest_held {H : Sha256} lines r : hash_payload (as_bytes (sr_payload r)) ∈ digests lines -> held lines r.
Proof.
  intros (line & Hd & Hl)%list_elem_of_fmap. unfold held.
  destruct (decide (sr_payload r = line)) as [->|Hne]; [by left|right]. by exists (sr_payload r), line.
Qed.

Lemma nothing_missing {H : Sha256} (out : Outstanding) n f l :
  is_complete (mkCoverage (sort_by Z.leb (map snd (map_to_list out))) n f l) = true <-> out = ∅.
Proof.
  unfold is_complete. cbn [cov_missing]. pose proof (sort_by_perm Z.leb (map snd (map_to_list out))) as Hp. split.
  - destruct (sort_by _ _); [|done]. intros _. apply Permutation_nil, map_eq_nil in Hp. by apply map_to_list_empty_iff.
  - intros ->. rewrite map_to_list_empty in *. by apply Permutation_sym, Permutation_nil in Hp as ->.
Qed.

Lemma coverage_complete {H : Sha256} dk files wanted c :
  coverage_of dk files wanted = Ok c ->
  (is_complete c = true <->
    Forall (fun r => hash_payload (as_bytes (sr_payload r)) ∈ digests (archive_lines dk files)) wanted).
Proof.
  unfold coverage_of. intros Hc. destruct (read_files _ _ _ _) as [[out n]|e] eqn:Hr; [|done].
  injection Hc as <-. apply read_files_spec in Hr. destruct (collect_spec wanted ∅) as [Hin Hseq].
  rewrite nothing_missing, Forall_forall. split.
  - intros -> r Hw. destruct (Hin (hash_payload (as_bytes (sr_payload r)))) as [_ Hi].
    destruct Hi as [seq Hs]; [right; by exists r|].
    destruct (decide (hash_payload (as_bytes (sr_payload r)) ∈ digests (archive_lines dk files))); [done|].
    enough ((∅ : Outstanding) !! hash_payload (as_bytes (sr_payload r)) = Some seq) by done. by apply Hr.
  - intros Hall. apply map_empty. intros h. destruct (out !! h) as [seq|] eqn:E; [|done].
    apply Hr in E as [E Hn]. destruct (proj1 (Hin h)) as [[? ?]|(r & Hw & <-)]; [by exists seq|done|].
    by destruct Hn; apply Hall.
Qed.

Lemma complete_held {H : Sha256} dk files wanted c :
  coverage_of dk files wanted = Ok c -> is_complete c = true -> Forall (held (archive_lines dk files)) wanted.
Proof. intros Hc%coverage_complete Hd%Hc. eapply Forall_impl; [exact Hd|]. intros r. apply digest_held. Qed.

(** The answer is complete exactly when every record asked about has its digest
    among the lines; then every payload is a line of the files, byte for byte, or
    a collision is exhibited.  Otherwise what is reported missing are records
    asked about whose payload is no line of them, in order, and the counts add up. *)
Theorem coverage_of_correct {H : Sha256} dk files wanted c :
  coverage_of dk files wanted = Ok c ->
  (is_complete c = true <->
    Forall (fun r => hash_payload (as_bytes (sr_payload r)) ∈ digests (archive_lines dk files)) wanted) /\
  (is_complete c = true -> Forall (held (archive_lines dk files)) wanted) /\
  (forall seq, seq ∈ cov_missing c -> exists r, r ∈ wanted /\ sr_seq r = seq /\ sr_payload r ∉ archive_lines dk files) /\
  Sorted (fun a b => (a <=? b)%Z = true) (cov_missing c) /\
  (cov_found c + Z.of_nat (length (cov_missing c)) = Z.of_nat (size (outstanding_of wanted)))%Z /\
  cov_files c = Z.of_nat (length files).
Proof.
  intros Hc. split; [by apply coverage_complete|]. split; [by eapply complete_held|].
  unfold coverage_of in Hc. destruct (read_files _ _ _ _) as [[out n]|e] eqn:Hr; [|done].
  injection Hc as <-. cbn [cov_missing cov_found cov_files].
  apply read_files_spec in Hr. destruct (collect_spec wanted ∅) as [Hin Hseq].
  split_and!; [|apply sort_by_sorted; intros x y; rewrite Z.leb_gt, Z.leb_le; lia|lia|done].
  intros seq. rewrite sort_by_perm. intros ([h s] & -> & Hm%elem_of_map_to_list)%list_elem_of_fmap. cbn [snd].
  apply Hr in Hm as [Hm Hn]. apply Hseq in Hm as [?|(r & Hw & <- & <-)]; [done|]. exists r. split_and!; [done..|].
  intros Hl. apply Hn. by apply (list_elem_of_fmap_2 (fun line => hash_payload (as_bytes line))).
Qed.

(** A disk that holds one log and one archive of it. *)
Definition demo_disk : disk :=
  let archive := "log.2026-08-19T21-04-07.912Z-3"%string in
  let files : gmap string string := {["log"%string := ("four" ++ str1 newline)%string; ("./" ++ archive)%string := ("one" ++ str1 newline ++ "two" ++ str1 newline)%string]} in
  mkDisk (fun p => bool_decide (is_Some (files !! p))) (fun p => String.eqb p ".")
    (fun _ => Ok [Ok (as_bytes "log"); Ok (as_bytes archive); Ok (as_bytes "log.old")])
    (fun p => match files !! p with Some text => Ok (as_bytes text, None) | None => Err "No such file"%string end).

Definition demo_wanted : list StoredRecord := [mkStoredRecord 1 "one" None; mkStoredRecord 2 "two" None].

Lemma rotation_set_correct_witness :
  "./log.2026-08-19T21-04-07.912Z-3"%string ∈ ["log"; "./log.2026-08-19T21-04-07.912Z-3"]%string /\
  exists entries, dk_read_dir demo_disk "." = Ok entries.
Proof.
  split; [|by eexists].
  apply (rotation_set_correct demo_disk "log" _ "./log.2026-08-19T21-04-07.912Z-3"); [vm_compute; reflexivity|].
  right. exists "."%string, "log"%string. eexists. split; [vm_compute; reflexivity|]. split; [reflexivity|].
  right. left. exists (as_bytes "log.2026-08-19T21-04-07.912Z-3"), "2026-08-19T21-04-07.912Z-3"%string.
  split_and!; vm_compute; first [reflexivity|by eexists].
Defined.

Lemma coverage_of_correct_witness : exists c,
  coverage_of (H := toy_sha256) demo_disk ["log"; "./log.2026-08-19T21-04-07.912Z-3"] demo_wanted = Ok c /\
  Forall (held (H := toy_sha256) (archive_lines demo_disk ["log"; "./log.2026-08-19T21-04-07.912Z-3"])) demo_wanted.
Proof.
  eexists. split; [vm_compute; reflexivity|].
  apply (coverage_of_correct (H := toy_sha256) demo_disk ["log"; "./log.2026-08-19T21-04-07.912Z-3"] demo_wanted
    (mkCoverage [] 2 3 2)); vm_compute; reflexivity.
Defined.
