(* ===== verification/Db.v ===== *)
(** * The database under the store ([ciphr-store]: error.rs, migrations/*.sql)

    The tables as the schema of version 6 declares them, one record per row, and
    statements as functions on them.  Any statement can fail: the outcomes of the
    next ones are a list the statements consume.  A transaction restores the
    tables when its body or its commit fails. *)

From Stdlib Require Import ZArith NArith Lia Ascii String.
From stdpp Require Import base tactics list strings gmap.
From S2P Require Import Prelude Text Hex Path Vocabulary Crypto.

(** ** Errors (error.rs) *)

(** [rusqlite::Error]: a constraint violation is told apart, the rest is its text. *)
Inductive SqlError : Type :=
| SqlConstraint (message : string)
| SqlOther (message : string).

Inductive StoreError : Type :=
| Locked (holder : option Z)
| StoreIo (detail : string)
| NotFound (path : string)
| VersionNotFound (path : string) (version : SecretVersion)
| VersionDeleted (path : string) (version : SecretVersion)
| VersionDestroyed (path : string) (version : SecretVersion)
| TokenNotFound (token_id : string)
| Reserved (path : string)
| AlreadyInitialized
| NotInitialized
| SchemaTooNew (found supported : Z)
| VersionOverflow (path : string)
| Corrupt (detail : string)
| CutRefused (detail : string)
| MigrationFailed (version : Z) (name : string) (source : SqlError)
| Sqlite (error : SqlError)
| CryptoFailed (error : CryptoError)
| PathInvalid (error : PathError)
| RotationInvalid (error : RotationError).

Definition sql_error_display (e : SqlError) : string :=
  match e with SqlConstraint m => m | SqlOther m => m end.

Definition store_error_display (e : StoreError) : string :=
  match e with
  | Locked (Some pid) =>
      "the store is in use by process " ++ dec pid
        ++ "; stop it, run this, start it again. Two writers collide on the audit sequence and leave the first one refusing every request."
  | Locked None =>
      "a lock file exists whose holder cannot be verified. If no ciphr process is using this store, remove the '.lock' file beside it."
  | StoreIo detail => detail
  | NotFound path => "no secret at '" ++ path ++ "'"
  | VersionNotFound path version => "'" ++ path ++ "' has no version " ++ dec (version_get version)
  | VersionDeleted path version =>
      "version " ++ dec (version_get version) ++ " of '" ++ path ++ "' is deleted"
  | VersionDestroyed path version =>
      "version " ++ dec (version_get version) ++ " of '" ++ path ++ "' was destroyed"
  | TokenNotFound token_id => "no token with id '" ++ token_id ++ "'"
  | Reserved path =>
      "'" ++ RESERVED_PREFIX ++ "/' is reserved and cannot hold secrets, so '" ++ path ++ "' was refused"
  | AlreadyInitialized => "the store is already initialized"
  | NotInitialized => "the store is not initialized"
  | SchemaTooNew found supported =>
      "database schema version " ++ dec found ++ " is newer than the supported " ++ dec supported
  | VersionOverflow path => "'" ++ path ++ "' has exhausted its version numbers"
  | Corrupt detail => "stored data is malformed: " ++ detail
  | CutRefused detail => "the audit log was not cut: " ++ detail
  | MigrationFailed version name source =>
      "migration " ++ dec version ++ " (" ++ name ++ ") failed: " ++ sql_error_display source
  | Sqlite error => "database error: " ++ sql_error_display error
  | CryptoFailed error => crypto_error_display error
  | PathInvalid error => "stored path is invalid: " ++ path_error_display error
  | RotationInvalid error => "stored rotation class is invalid: " ++ rotation_error_display error
  end.

(** ** The tables *)

(** [secrets] *)
Record SecretRow : Type := mkSecretRow {
  s_id : Z;
  s_path : string;
  s_current : Z;
  s_rotation : string;
  s_created_at : Z;
  s_updated_at : Z;
  s_tier : option string;
}.

(** [secret_versions] *)
Record VersionRow : Type := mkVersionRow {
  r_secret : Z;
  r_version : Z;
  r_dek_id : string;
  r_dek_nonce : bytes;
  r_wrapped_dek : bytes;
  r_value_nonce : bytes;
  r_ciphertext : bytes;
  r_created_at : Z;
  r_created_by : string;
  r_deleted_at : option Z;
  r_destroyed_at : option Z;
}.

(** [tokens] *)
Record TokenRow : Type := mkTokenRow {
  t_token_id : string;
  t_identity : string;
  t_verifier : string;
  t_created_at : Z;
  t_created_by : string;
  t_expires_at : option Z;
  t_last_used_at : option Z;
  t_revoked_at : option Z;
  t_honeypot : Z;
}.

(** [tripwire] *)
Record TripRow : Type := mkTripRow {
  w_id : Z;
  w_tripped_at : Z;
  w_kind : string;
  w_path : option string;
  w_token_id : option string;
  w_identity : option string;
  w_tier : string;
  w_cleared_at : option Z;
}.

(** [audit_log] *)
Record LogRow : Type := mkLogRow {
  l_seq : Z;
  l_ts : Z;
  l_prev_hash : string;
  l_hash : string;
  l_payload : string;
}.

(** [audit_cut] *)
Record CutRow : Type := mkCutRow {
  c_id : Z;
  c_cut_at : Z;
  c_seq : Z;
  c_hash : string;
  c_removed : Z;
  c_anchor : option string;
}.

Record Db : Type := mkDb {
  db_meta : gmap string string;
  db_secrets : list SecretRow;
  db_versions : list VersionRow;
  db_tokens : list TokenRow;
  db_trips : list TripRow;
  db_log : list LogRow;
  db_cuts : list CutRow;
  db_schema : Z;
}.

Definition set_meta (m : gmap string string) (d : Db) : Db :=
  mkDb m (db_secrets d) (db_versions d) (db_tokens d) (db_trips d) (db_log d) (db_cuts d) (db_schema d).
Definition set_secrets (l : list SecretRow) (d : Db) : Db :=
  mkDb (db_meta d) l (db_versions d) (db_tokens d) (db_trips d) (db_log d) (db_cuts d) (db_schema d).
Definition set_versions (l : list VersionRow) (d : Db) : Db :=
  mkDb (db_meta d) (db_secrets d) l (db_tokens d) (db_trips d) (db_log d) (db_cuts d) (db_schema d).
Definition set_tokens (l : list TokenRow) (d : Db) : Db :=
  mkDb (db_meta d) (db_secrets d) (db_versions d) l (db_trips d) (db_log d) (db_cuts d) (db_schema d).
Definition set_trips (l : list TripRow) (d : Db) : Db :=
  mkDb (db_meta d) (db_secrets d) (db_versions d) (db_tokens d) l (db_log d) (db_cuts d) (db_schema d).
Definition set_log (l : list LogRow) (d : Db) : Db :=
  mkDb (db_meta d) (db_secrets d) (db_versions d) (db_tokens d) (db_trips d) l (db_cuts d) (db_schema d).
Definition set_cuts (l : list CutRow) (d : Db) : Db :=
  mkDb (db_meta d) (db_secrets d) (db_versions d) (db_tokens d) (db_trips d) (db_log d) l (db_schema d).

(** A fresh database of the current schema. *)
Definition SCHEMA_VERSION : Z := 6.
Definition db_empty : Db := mkDb ∅ [] [] [] [] [] [] SCHEMA_VERSION.

(** The connection: the tables and what the next statements meet. *)
Record Store : Type := mkStore { st_db : Db; st_faults : list (option string) }.

Definition store_m (A : Type) : Type := stm Store StoreError A.

(** One statement. *)
Definition sql {A} (f : Db -> result SqlError (A * Db)) : store_m A :=
  fun s =>
    match st_faults s with
    | Some e :: fs => (Err (Sqlite (SqlOther e)), mkStore (st_db s) fs)
    | fs =>
        match f (st_db s) with
        | Ok (a, d) => (Ok a, mkStore d (tail fs))
        | Err e => (Err (Sqlite e), mkStore (st_db s) (tail fs))
        end
    end.
(** A [SELECT]. *)
Definition sql_read {A} (f : Db -> A) : store_m A := sql (fun d => Ok (f d, d)).
(** An [UPDATE] or [DELETE]: the number of rows it changed. *)
Definition sql_change (f : Db -> Z * Db) : store_m Z := sql (fun d => Ok (f d)).

(** [transaction_with_behavior(Immediate)] ... [commit()]: begin, body, commit;
    an error at any of the three leaves the tables as they were. *)
Definition transaction {A} (body : store_m A) : store_m A :=
  fun s0 =>
    match sql_read (fun _ => tt) s0 with
    | (Err e, s1) => (Err e, s1)
    | (Ok _, s1) =>
        match body s1 with
        | (Err e, s2) => (Err e, mkStore (st_db s1) (st_faults s2))
        | (Ok a, s2) =>
            match sql_read (fun _ => tt) s2 with
            | (Err e, s3) => (Err e, mkStore (st_db s1) (st_faults s3))
            | (Ok _, s3) => (Ok a, s3)
            end
        end
    end.

(** Rows changed by an update of the rows that satisfy a condition. *)
Definition update_where {A} (p : A -> bool) (f : A -> A) (l : list A) : Z * list A :=
  (Z.of_nat (length (List.filter p l)), map (fun x => if p x then f x else x) l).

(** [INTEGER PRIMARY KEY]: one more than the largest id. *)
Definition next_id (ids : list Z) : Z := (foldr Z.max 0 ids + 1)%Z.

(** ** Lemmas *)

Lemma sql_Ok {A} (f : Db -> result SqlError (A * Db)) s a s' :
  sql f s = (Ok a, s') -> f (st_db s) = Ok (a, st_db s').
Proof.
  unfold sql. destruct (st_faults s) as [|[e|] fs]; [| done |];
    destruct (f (st_db s)) as [[x d]|]; intros [= <- <-]; done.
Qed.

Lemma sql_Err {A} (f : Db -> result SqlError (A * Db)) s e s' :
  sql f s = (Err e, s') -> st_db s' = st_db s.
Proof.
  unfold sql. destruct (st_faults s) as [|[x|] fs]; [|by intros [= <- <-]|];
    destruct (f (st_db s)) as [[x d]|]; intros [= <- <-]; done.
Qed.

Lemma sql_read_spec {A} (f : Db -> A) s r s' :
  sql_read f s = (r, s') -> st_db s' = st_db s /\ (forall a, r = Ok a -> a = f (st_db s)).
Proof.
  unfold sql_read. destruct r as [a|e]; intros H.
  - apply sql_Ok in H. simpl in H. injection H as -> ->. split; [done|]. by intros ? [= <-].
  - by apply sql_Err in H.
Qed.

Lemma sql_read_Ok {A} (f : Db -> A) s a s' :
  sql_read f s = (Ok a, s') -> a = f (st_db s) /\ st_db s' = st_db s.
Proof. intros H. apply sql_read_spec in H as [? Ha]. eauto. Qed.

Lemma sql_change_Ok f s a s' :
  sql_change f s = (Ok a, s') -> (a, st_db s') = f (st_db s).
Proof. unfold sql_change. intros H. apply sql_Ok in H. by injection H as ->. Qed.

(** A transaction that returns an error changed nothing; one that succeeds did
    what its body did. *)
Lemma transaction_Err {A} (body : store_m A) s e s' :
  transaction body s = (Err e, s') -> st_db s' = st_db s.
Proof.
  unfold transaction. destruct (sql_read _ s) as [[u|e1] s1] eqn:E1;
    apply sql_read_spec in E1 as [H1 _]; [|by intros [= <- <-]].
  destruct (body s1) as [[a|e2] s2] eqn:E2; [|by intros [= <- <-]].
  destruct (sql_read _ s2) as [[u3|e3] s3] eqn:E3; by intros [= <- <-].
Qed.

Lemma transaction_Ok {A} (body : store_m A) s a s' :
  transaction body s = (Ok a, s') ->
  exists s1 s2, st_db s1 = st_db s /\ body s1 = (Ok a, s2) /\ st_db s' = st_db s2.
Proof.
  unfold transaction. destruct (sql_read _ s) as [[u|e1] s1] eqn:E1;
    apply sql_read_spec in E1 as [H1 _]; [|done].
  destruct (body s1) as [[x|e2] s2] eqn:E2; [|done].
  destruct (sql_read _ s2) as [[u3|e3] s3] eqn:E3; [|done]. apply sql_read_spec in E3 as [H3 _].
  intros [= <- <-]. by exists s1, s2.
Qed.

(** A computation that never changes the tables. *)
Definition reads_only {A} (m : store_m A) : Prop :=
  respects (fun s s' : Store => st_db s' = st_db s) m.

#[export] Instance same_db_preorder : PreOrder (fun s s' : Store => st_db s' = st_db s).
Proof. split; [by intros s|]. intros a b c H1 H2. by rewrite H2. Qed.

Lemma reads_only_sql {A} (f : Db -> A) : reads_only (sql_read f).
Proof. intros s r s' H. by apply sql_read_spec in H as [? _]. Qed.

#[export] Hint Resolve reads_only_sql : ciphr.

(** Prove that a computation only reads, call by call. *)
Ltac reads :=
  unfold reads_only;
  repeat first
    [ apply respects_bind; [typeclasses eauto| |intros ?]
    | apply respects_ret; typeclasses eauto
    | apply respects_fail; typeclasses eauto
    | apply respects_lift; typeclasses eauto
    | match goal with |- respects _ ?m => change (reads_only m); solve [auto 1 with ciphr] end
    | progress (match goal with |- respects _ (match ?x with _ => _ end) => destruct x end) ].
