(* ===== verification/Store.v ===== *)
(** * Secrets in the store ([ciphr-store]: store.rs, sqlite.rs)

    Every method of the [Store] trait as its statements.  The clock is an
    argument.  The central theorems: a write is all or nothing and allocates a
    version number never used before for its path; what was written is what is
    read; a destroyed version never comes back; a listing is exactly a subtree. *)

From Stdlib Require Import ZArith NArith Lia Ascii String.
From stdpp Require Import base tactics list strings gmap sorting.
From S2P Require Import Prelude Text Hex Path Vocabulary Crypto Db.

Record SealState : Type := mkSealState { seal_state_id : string; seal_wrapped : WrappedRootKey }.

Record SecretMetadata : Type := mkSecretMetadata {
  sm_path : SecretPath;
  sm_current_version : option SecretVersion;
  sm_rotation : Rotation;
  sm_created_at : Z;
  sm_updated_at : Z;
}.

Record ListedSecret : Type := mkListedSecret { ls_path : SecretPath; ls_rotation : Rotation }.

Record VersionSummary : Type := mkVersionSummary {
  vs_version : SecretVersion;
  vs_created_at : Z;
  vs_created_by : string;
  vs_deleted_at : option Z;
  vs_destroyed_at : option Z;
}.

Record StoredVersion : Type := mkStoredVersion {
  sv_path : SecretPath;
  sv_version : SecretVersion;
  sv_value : EncryptedValue;
  sv_created_at : Z;
  sv_created_by : string;
}.

(** ** Reading and writing the seal *)

Definition META_SEAL_ID : string := "seal_id".
Definition META_ROOT_KEY_ID : string := "root_key_id".
Definition META_ROOT_KEY_NONCE : string := "root_key_nonce".
Definition META_ROOT_KEY_WRAPPED : string := "root_key_wrapped".

Definition read_meta (key : string) : store_m (option string) :=
  sql_read (fun d => db_meta d !! key).

Definition write_meta (entry : string * string) : store_m unit :=
  sql (fun d => Ok (tt, set_meta (<[fst entry := snd entry]> (db_meta d)) d)).

Definition write_seal (state : SealState) : store_m unit :=
  let w := seal_wrapped state in
  mfor [(META_SEAL_ID, seal_state_id state);
        (META_ROOT_KEY_ID, RootKeyId_to_hex (wrapped_id w));
        (META_ROOT_KEY_NONCE, hex_encode (wrapped_nonce w));
        (META_ROOT_KEY_WRAPPED, hex_encode (wrapped_ciphertext w))] write_meta.

Definition to_nonce (b : bytes) (what : string) : result StoreError bytes :=
  if (length b =? NONCE_LEN)%nat then Ok b
  else Err (Corrupt ("the stored " ++ what ++ " is not " ++ dec (Z.of_nat NONCE_LEN) ++ " bytes")).

Definition decode_nonce (input what : string) : result StoreError bytes :=
  let? b := map_err (fun _ => Corrupt ("the stored " ++ what ++ " is not valid hexadecimal"))
              (hex_decode input) in
  to_nonce b what.

(** The four rows taken together. *)
Definition decode_seal (seal_id root_key_id nonce wrapped : option string)
    : result StoreError (option SealState) :=
  match seal_id, root_key_id, nonce, wrapped with
  | None, None, None, None => Ok None
  | Some seal_id, Some root_key_id, Some nonce, Some wrapped =>
      let? id := map_err (fun _ => Corrupt "the stored root key identifier is not valid hexadecimal")
                   (RootKeyId_from_hex root_key_id) in
      let? nonce := decode_nonce nonce "root key nonce" in
      let? ciphertext := map_err (fun _ => Corrupt "the wrapped root key is not valid hexadecimal")
                           (hex_decode wrapped) in
      Ok (Some (mkSealState seal_id (mkWrappedRootKey id nonce ciphertext)))
  | _, _, _, _ => Err (Corrupt "the seal record is incomplete")
  end.

Definition seal_state : store_m (option SealState) :=
  let! seal_id := read_meta META_SEAL_ID in
  let! root_key_id := read_meta META_ROOT_KEY_ID in
  let! nonce := read_meta META_ROOT_KEY_NONCE in
  let! wrapped := read_meta META_ROOT_KEY_WRAPPED in
  mlift (decode_seal seal_id root_key_id nonce wrapped).

Definition initialize (state : SealState) : store_m unit :=
  let! current := seal_state in
  match current with
  | Some _ => mfail AlreadyInitialized
  | None => transaction (write_seal state)
  end.

Definition replace_seal (state : SealState) : store_m unit :=
  let! current := seal_state in
  match current with
  | None => mfail NotInitialized
  | Some current =>
      if negb (bool_decide (root_id_bytes (wrapped_id (seal_wrapped current)) =
                            root_id_bytes (wrapped_id (seal_wrapped state))))
      then mfail (Corrupt "the replacement seal record is for a different root key")
      else transaction (write_seal state)
  end.

Definition schema_version : store_m Z := sql_read db_schema.

(** ** Secrets *)

Definition reject_reserved (path : SecretPath) : result StoreError unit :=
  if is_reserved path then Err (Reserved (path_str path)) else Ok tt.

(** [WHERE path = ?1] *)
Definition find_secret (path : SecretPath) (d : Db) : option SecretRow :=
  List.find (fun r => String.eqb (s_path r) (path_str path)) (db_secrets d).

(** [WHERE secret_id = ?1 AND version = ?2] *)
Definition is_version (secret_id : Z) (version : SecretVersion) (r : VersionRow) : bool :=
  ((r_secret r =? secret_id) && (r_version r =? version_get version))%Z.
Definition find_version (secret_id : Z) (version : SecretVersion) (d : Db) : option VersionRow :=
  List.find (is_version secret_id version) (db_versions d).

Definition out_of_range (path : SecretPath) : StoreError :=
  Corrupt ("current_version of '" ++ path_str path ++ "' is out of range").

Definition secret_id (path : SecretPath) : store_m (option (Z * Z * Rotation)) :=
  let! row := sql_read (find_secret path) in
  match row with
  | None => mret None
  | Some row =>
      let! current := mlift (ok_or (out_of_range path) (u32_try_from (s_current row))) in
      let! rotation := mlift (map_err RotationInvalid (Rotation_parse (s_rotation row))) in
      mret (Some (s_id row, current, rotation))
  end.

Definition require_secret (path : SecretPath) : store_m (Z * Z * Rotation) :=
  let! found := secret_id path in
  mlift (ok_or (NotFound (path_str path)) found).

(** [INSERT INTO secrets ... VALUES (?1, 0, ?2, ?3, ?3)] and [last_insert_rowid]. *)
Definition insert_secret (path : SecretPath) (now : Z) : store_m Z :=
  sql (fun d =>
    let id := next_id (map s_id (db_secrets d)) in
    if existsb (fun r => String.eqb (s_path r) (path_str path)) (db_secrets d)
    then Err (SqlConstraint "UNIQUE constraint failed: secrets.path")
    else Ok (id, set_secrets (db_secrets d ++
           [mkSecretRow id (path_str path) 0 (rotation_str Rotation_default) now now None]) d)).

(** [INSERT INTO secret_versions]: the key is (secret, version), and the secret
    has to exist. *)
Definition insert_version (row : VersionRow) : store_m unit :=
  sql (fun d =>
    if existsb (fun r => (r_secret r =? r_secret row) && (r_version r =? r_version row))%Z (db_versions d)
    then Err (SqlConstraint "UNIQUE constraint failed: secret_versions.secret_id, secret_versions.version")
    else if negb (existsb (fun r => (s_id r =? r_secret row)%Z) (db_secrets d))
    then Err (SqlConstraint "FOREIGN KEY constraint failed")
    else Ok (tt, set_versions (db_versions d ++ [row]) d)).

(** [UPDATE secrets SET current_version, updated_at, rotation = COALESCE(?4, rotation)
    WHERE id = ?1] *)
Definition update_current (id version now : Z) (rotation : option Rotation) : store_m Z :=
  sql_change (fun d =>
    let '(n, l) := update_where (fun r => (s_id r =? id)%Z)
      (fun r => mkSecretRow (s_id r) (s_path r) version
                  (match rotation with Some c => rotation_str c | None => s_rotation r end)
                  (s_created_at r) now (s_tier r)) (db_secrets d) in
    (n, set_secrets l d)).

(** The number the next version of a path gets. *)
Definition next_version (path : SecretPath) (current : Z) : result StoreError SecretVersion :=
  match version_new current with
  | None => Ok version_FIRST
  | Some version => ok_or (VersionOverflow (path_str path)) (version_next version)
  end.

Definition version_row (secret_id : Z) (version : SecretVersion) (value : EncryptedValue)
    (now : Z) (created_by : string) : VersionRow :=
  mkVersionRow secret_id (version_get version) (DekId_to_hex (ev_dek_id value)) (ev_dek_nonce value)
    (ev_wrapped_dek value) (ev_value_nonce value) (ev_ciphertext value) now created_by None None.

Definition put_with_rotation (path : SecretPath) (created_by : string) (rotation : option Rotation)
    (encrypt : SecretVersion -> result CryptoError EncryptedValue) (now : Z) : store_m SecretVersion :=
  let! _ := mlift (reject_reserved path) in
  transaction (
    let! existing := sql_read (find_secret path) in
    let! (secret_id, current) :=
      match existing with
      | Some row => mret (s_id row, s_current row)
      | None => let! id := insert_secret path now in mret (id, 0%Z)
      end in
    let! current := mlift (ok_or (out_of_range path) (u32_try_from current)) in
    let! next := mlift (next_version path current) in
    let! value := mlift (map_err CryptoFailed (encrypt next)) in
    let! _ := insert_version (version_row secret_id next value now created_by) in
    let! _ := update_current secret_id (version_get next) now rotation in
    mret next).

Definition put (path : SecretPath) (created_by : string)
    (encrypt : SecretVersion -> result CryptoError EncryptedValue) (now : Z) : store_m SecretVersion :=
  put_with_rotation path created_by None encrypt now.

Definition stored_version (path : SecretPath) (wanted : SecretVersion) (row : VersionRow)
    : result StoreError StoredVersion :=
  match r_destroyed_at row with
  | Some _ => Err (VersionDestroyed (path_str path) wanted)
  | None =>
      match r_deleted_at row with
      | Some _ => Err (VersionDeleted (path_str path) wanted)
      | None =>
          let? dek_id := map_err
              (fun _ => Corrupt "a stored data key identifier is not valid hexadecimal")
              (DekId_from_hex (r_dek_id row)) in
          let? dek_nonce := to_nonce (r_dek_nonce row) "data key nonce" in
          let? value_nonce := to_nonce (r_value_nonce row) "value nonce" in
          Ok (mkStoredVersion path wanted
                (mkEncryptedValue dek_id dek_nonce (r_wrapped_dek row) value_nonce (r_ciphertext row))
                (r_created_at row) (r_created_by row))
      end
  end.

Definition get (path : SecretPath) (version : option SecretVersion) : store_m StoredVersion :=
  let! (secret_id, current, _) := require_secret path in
  let! wanted := match version with
                 | Some version => mret version
                 | None => mlift (ok_or (NotFound (path_str path)) (version_new current))
                 end in
  let! row := sql_read (find_version secret_id wanted) in
  match row with
  | None => mfail (VersionNotFound (path_str path) wanted)
  | Some row => mlift (stored_version path wanted row)
  end.

Definition metadata (path : SecretPath) : store_m SecretMetadata :=
  let! (_, current, rotation) := require_secret path in
  let! row := sql (fun d => match find_secret path d with
                            | Some row => Ok (row, d)
                            | None => Err (SqlOther "Query returned no rows")
                            end) in
  mret (mkSecretMetadata path (version_new current) rotation (s_created_at row) (s_updated_at row)).

Definition summary_of (path : SecretPath) (row : VersionRow) : result StoreError VersionSummary :=
  let? version := ok_or (Corrupt ("'" ++ path_str path ++ "' has a version number out of range"))
                    (u32_try_from (r_version row) ≫= version_new) in
  Ok (mkVersionSummary version (r_created_at row) (r_created_by row) (r_deleted_at row)
        (r_destroyed_at row)).

Definition versions (path : SecretPath) : store_m (list VersionSummary) :=
  let! (secret_id, _, _) := require_secret path in
  let! rows := sql_read (fun d =>
    sort_by (fun a b => (r_version a <=? r_version b)%Z)
      (List.filter (fun r => (r_secret r =? secret_id)%Z) (db_versions d))) in
  mlift (res_mapM (summary_of path) rows).

(** ** Listing *)

(** The half-open range of texts that begin with the prefix and a slash: the
    character after [/] is [0]. *)
Definition subtree_bounds (prefix : SecretPath) : string * string :=
  ((path_str prefix ++ "/")%string, (path_str prefix ++ "0")%string).

(** [WHERE path = ?1 OR (path >= ?2 AND path < ?3)], or every row. *)
Definition in_listing (prefix : option SecretPath) (path : string) : bool :=
  match prefix with
  | None => true
  | Some prefix =>
      let '(lower, upper) := subtree_bounds prefix in
      String.eqb path (path_str prefix) || (str_leb lower path && str_ltb path upper)
  end.

Definition listing_rows (prefix : option SecretPath) (d : Db) : list SecretRow :=
  sort_by (fun a b => str_leb (s_path a) (s_path b))
    (List.filter (fun r => in_listing prefix (s_path r)) (db_secrets d)).

Section listing.
Context {U : Unicode}.

Definition list_paths (prefix : option SecretPath) : store_m (list SecretPath) :=
  let! rows := sql_read (listing_rows prefix) in
  mlift (res_mapM (fun r => map_err PathInvalid (SecretPath_parse (s_path r))) rows).

Definition list_with_rotation (prefix : option SecretPath) : store_m (list ListedSecret) :=
  let! rows := sql_read (listing_rows prefix) in
  mlift (res_mapM (fun r =>
    let? path := map_err PathInvalid (SecretPath_parse (s_path r)) in
    let? rotation := map_err RotationInvalid (Rotation_parse (s_rotation r)) in
    Ok (mkListedSecret path rotation)) rows).
End listing.

(** ** Changing what is there *)

Definition set_rotation (path : SecretPath) (rotation : Rotation) (now : Z) : store_m unit :=
  let! changed := sql_change (fun d =>
    let '(n, l) := update_where (fun r => String.eqb (s_path r) (path_str path))
      (fun r => mkSecretRow (s_id r) (s_path r) (s_current r) (rotation_str rotation)
                  (s_created_at r) now (s_tier r)) (db_secrets d) in
    (n, set_secrets l d)) in
  if (changed =? 0)%Z then mfail (NotFound (path_str path)) else mret tt.

Definition version_exists (path : SecretPath) (secret_id : Z) (version : SecretVersion) : store_m bool :=
  let! row := sql_read (find_version secret_id version) in
  match row with
  | None => mfail (VersionNotFound (path_str path) version)
  | Some row => mret (match r_destroyed_at row with Some _ => true | None => false end)
  end.

Definition set_deleted (at_ : option Z) (r : VersionRow) : VersionRow :=
  mkVersionRow (r_secret r) (r_version r) (r_dek_id r) (r_dek_nonce r) (r_wrapped_dek r)
    (r_value_nonce r) (r_ciphertext r) (r_created_at r) (r_created_by r) at_ (r_destroyed_at r).
Definition set_destroyed (now : Z) (r : VersionRow) : VersionRow :=
  mkVersionRow (r_secret r) (r_version r) (r_dek_id r) (r_dek_nonce r) []
    (r_value_nonce r) (r_ciphertext r) (r_created_at r) (r_created_by r) (r_deleted_at r)
    (Some (match r_destroyed_at r with Some t => t | None => now end)).

Definition update_versions (p : VersionRow -> bool) (f : VersionRow -> VersionRow) : store_m Z :=
  sql_change (fun d => let '(n, l) := update_where p f (db_versions d) in (n, set_versions l d)).

Definition delete (path : SecretPath) (version : SecretVersion) (now : Z) : store_m unit :=
  let! _ := mlift (reject_reserved path) in
  let! (secret_id, _, _) := require_secret path in
  let! changed := update_versions
    (fun r => is_version secret_id version r && is_none (r_deleted_at r)) (set_deleted (Some now)) in
  if (changed =? 0)%Z then
    let! _ := version_exists path secret_id version in mret tt
  else mret tt.

Definition undelete (path : SecretPath) (version : SecretVersion) : store_m unit :=
  let! (secret_id, _, _) := require_secret path in
  let! destroyed := version_exists path secret_id version in
  if (destroyed : bool) then mfail (VersionDestroyed (path_str path) version)
  else
    let! _ := update_versions (is_version secret_id version) (set_deleted None) in
    mret tt.

Definition destroy (path : SecretPath) (version : SecretVersion) (now : Z) : store_m unit :=
  let! (secret_id, _, _) := require_secret path in
  let! _ := version_exists path secret_id version in
  let! _ := update_versions (is_version secret_id version) (set_destroyed now) in
  mret tt.

(** ** The invariant *)

Record store_wf (d : Db) : Prop := {
  wf_paths : NoDup (map s_path (db_secrets d));
  wf_ids : NoDup (map s_id (db_secrets d));
  wf_current : forall s, s ∈ db_secrets d -> (0 <= s_current s <= u32_max)%Z;
  wf_rotation : forall s, s ∈ db_secrets d -> exists c, s_rotation s = rotation_str c;
  wf_keys : NoDup (map (fun r => (r_secret r, r_version r)) (db_versions d));
  wf_rows : forall r, r ∈ db_versions d -> exists s, s ∈ db_secrets d /\ s_id s = r_secret r /\
              (1 <= r_version r <= s_current s)%Z;
}.

(** One call of a method that writes, with any outcome, on any connection whose
    tables are these. *)
Inductive store_step : Db -> Db -> Prop :=
| step_put path by_ rotation encrypt now s r s' :
    put_with_rotation path by_ rotation encrypt now s = (r, s') -> store_step (st_db s) (st_db s')
| step_set_rotation path rotation now s r s' :
    set_rotation path rotation now s = (r, s') -> store_step (st_db s) (st_db s')
| step_delete path version now s r s' :
    delete path version now s = (r, s') -> store_step (st_db s) (st_db s')
| step_undelete path version s r s' :
    undelete path version s = (r, s') -> store_step (st_db s) (st_db s')
| step_destroy path version now s r s' :
    destroy path version now s = (r, s') -> store_step (st_db s) (st_db s')
| step_initialize state s r s' :
    initialize state s = (r, s') -> store_step (st_db s) (st_db s')
| step_replace_seal state s r s' :
    replace_seal state s = (r, s') -> store_step (st_db s) (st_db s').

(** ** Lemmas: what each method does to the tables *)

Lemma mlift_inv {S E A} (r : result E A) (s : S) x s' : mlift r s = (x, s') -> x = r /\ s' = s.
Proof. by intros [= <- <-]. Qed.

Lemma mlift_Ok {S E A} (r : result E A) (s : S) a s' : mlift r s = (Ok a, s') -> r = Ok a /\ s' = s.
Proof. by intros [= -> <-]. Qed.

Lemma mret_Ok {S E A} (x : A) (s : S) a s' : mret (E := E) x s = (Ok a, s') -> a = x /\ s' = s.
Proof. by intros [= <- <-]. Qed.

Lemma secret_id_reads path : reads_only (secret_id path).
Proof. unfold secret_id. reads. Qed.
#[local] Hint Resolve secret_id_reads : ciphr.

Lemma require_secret_reads path : reads_only (require_secret path).
Proof. unfold require_secret. reads. Qed.
#[local] Hint Resolve require_secret_reads : ciphr.

Lemma version_exists_reads path id v : reads_only (version_exists path id v).
Proof. unfold version_exists. reads. Qed.
#[local] Hint Resolve version_exists_reads : ciphr.

Lemma seal_state_reads : reads_only seal_state.
Proof. unfold seal_state, read_meta. reads. Qed.

Lemma reads_get path version : reads_only (get path version).
Proof.
  unfold get. unfold reads_only. apply respects_bind; [typeclasses eauto|apply require_secret_reads|].
  intros [[id current] rotation]. reads.
Qed.

(** What is read is of the path, and of the version that was asked for. *)
Lemma get_names path version s stored :
  fst (get path version s) = Ok stored ->
  sv_path stored = path /\ forall wanted, version = Some wanted -> sv_version stored = wanted.
Proof.
  destruct (get path version s) as [r s'] eqn:Hr. cbn [fst]. intros ->. unfold get in Hr.
  apply mbind_Ok in Hr as ([[id current] rotation] & s1 & _ & Hr).
  apply mbind_Ok in Hr as (wanted & s2 & Hw & Hr). apply mbind_Ok in Hr as (row & s3 & _ & Hr).
  destruct row as [row|]; [|done]. apply mlift_Ok in Hr as [Hr _].
  unfold stored_version in Hr. destruct (r_destroyed_at row); [done|]. destruct (r_deleted_at row); [done|].
  apply res_bind_Ok in Hr as (dek & _ & Hr). apply res_bind_Ok in Hr as (n1 & _ & Hr).
  apply res_bind_Ok in Hr as (n2 & _ & [= <-]). simpl. split; [done|].
  intros w ->. by injection Hw as ->.
Qed.

Lemma reads_metadata path : reads_only (metadata path).
Proof.
  unfold metadata, reads_only. apply respects_bind; [typeclasses eauto|apply require_secret_reads|].
  intros [[id current] rotation]. apply respects_bind; [typeclasses eauto| |intros row; reads].
  intros s r s' Hr. destruct r as [row|e].
  - apply sql_Ok in Hr. destruct (find_secret path (st_db s)); [|done]. by injection Hr.
  - by rewrite (sql_Err _ _ _ _ Hr).
Qed.

Lemma reads_versions path : reads_only (versions path).
Proof.
  unfold versions, reads_only. apply respects_bind; [typeclasses eauto|apply require_secret_reads|].
  intros [[id current] rotation]. reads.
Qed.

Lemma reads_list {U : Unicode} prefix : reads_only (list_with_rotation prefix).
Proof. unfold list_with_rotation. reads. Qed.

Lemma require_secret_Ok path s id current rotation s' :
  require_secret path s = (Ok (id, current, rotation), s') ->
  st_db s' = st_db s /\ exists row, find_secret path (st_db s) = Some row /\ s_id row = id /\
    s_current row = current /\ (0 <= current <= u32_max)%Z /\ Rotation_parse (s_rotation row) = Ok rotation.
Proof.
  intros H. split; [by eapply require_secret_reads|].
  unfold require_secret in H. apply mbind_Ok in H as (found & s1 & H1 & [H2 ->]%mlift_Ok).
  apply ok_or_Ok in H2 as ->. unfold secret_id in H1.
  apply mbind_Ok in H1 as (row & s2 & [-> Hs2]%sql_read_Ok & H1).
  destruct (find_secret path (st_db s)) as [row|]; [|by apply mret_Ok in H1 as [? _]].
  apply mbind_Ok in H1 as (c & s3 & [Hc ->]%mlift_Ok & H1).
  apply mbind_Ok in H1 as (ro & s4 & [Hr ->]%mlift_Ok & [[= -> -> ->] ->]%mret_Ok).
  apply ok_or_Ok in Hc. unfold u32_try_from in Hc.
  destruct ((0 <=? s_current row) && (s_current row <=? u32_max))%Z eqn:Hb; [|done].
  injection Hc as <-. apply map_err_Ok in Hr. exists row. split_and!; try done; lia.
Qed.

Lemma find_secret_Some path d row :
  find_secret path d = Some row -> row ∈ db_secrets d /\ s_path row = path_str path.
Proof.
  intros H. apply List.find_some in H as [H1 H2%String.eqb_eq]. by rewrite list_elem_of_In.
Qed.

Lemma find_version_Some id v d row :
  find_version id v d = Some row ->
  row ∈ db_versions d /\ r_secret row = id /\ r_version row = version_get v.
Proof.
  intros H. apply List.find_some in H as [H1 H2]. unfold is_version in H2.
  rewrite andb_true_iff, !Z.eqb_eq in H2. by rewrite list_elem_of_In.
Qed.

(** The row and the secret a write ends up with. *)
Definition put_secret (path : SecretPath) (now : Z) (d : Db) (id current : Z) (l : list SecretRow) : Prop :=
  (exists row, find_secret path d = Some row /\ id = s_id row /\ current = s_current row /\
     l = db_secrets d) \/
  (find_secret path d = None /\ id = next_id (map s_id (db_secrets d)) /\ current = 0%Z /\
   l = db_secrets d ++ [mkSecretRow id (path_str path) 0 (rotation_str Rotation_default) now now None]).

Definition bump (id version now : Z) (rotation : option Rotation) (r : SecretRow) : SecretRow :=
  if (s_id r =? id)%Z then
    mkSecretRow (s_id r) (s_path r) version
      (match rotation with Some c => rotation_str c | None => s_rotation r end)
      (s_created_at r) now (s_tier r)
  else r.

Lemma put_Ok path by_ rotation encrypt now s v s' :
  put_with_rotation path by_ rotation encrypt now s = (Ok v, s') ->
  let d := st_db s in
  exists id current l value,
    is_reserved path = false /\ put_secret path now d id current l /\
    (0 <= current <= u32_max)%Z /\ next_version path current = Ok v /\ encrypt v = Ok value /\
    (forall r, r ∈ db_versions d -> (r_secret r, r_version r) <> (id, version_get v)) /\
    st_db s' = set_secrets (map (bump id (version_get v) now rotation) l)
                 (set_versions (db_versions d ++ [version_row id v value now by_]) d).
Proof.
  intros H d. unfold put_with_rotation in H.
  apply mbind_Ok in H as (u & s0 & [Hres ->]%mlift_Ok & H).
  assert (is_reserved path = false) as Hr.
  { unfold reject_reserved in Hres. by destruct (is_reserved path). }
  apply transaction_Ok in H as (s1 & s2 & Hs1 & H & Hs').
  apply mbind_Ok in H as (existing & s3 & [-> Hs3]%sql_read_Ok & H). rewrite Hs1 in H, Hs3. fold d in H, Hs3.
  apply mbind_Ok in H as ([id current] & s4 & Hid & H).
  apply mbind_Ok in H as (c & s5 & [Hc ->]%mlift_Ok & H). apply ok_or_Ok in Hc.
  apply mbind_Ok in H as (next & s6 & [Hn ->]%mlift_Ok & H).
  apply mbind_Ok in H as (value & s7 & [Hv ->]%mlift_Ok & H). apply map_err_Ok in Hv.
  apply mbind_Ok in H as ([] & s8 & Hins & H).
  apply mbind_Ok in H as (n & s9 & Hup & [-> ->]%mret_Ok).
  assert (exists l, put_secret path now d id current l /\ st_db s4 = set_secrets l d) as (l & Hl & Hs4).
  { destruct (find_secret path d) as [row|] eqn:Hf.
    - apply mret_Ok in Hid as [[= -> ->] ->]. exists (db_secrets d). split.
      + left. by exists row.
      + rewrite Hs3. by destruct d.
    - apply mbind_Ok in Hid as (id' & s10 & Hi & [[= -> ->] ->]%mret_Ok).
      unfold insert_secret in Hi. apply sql_Ok in Hi. rewrite Hs3 in Hi. cbn zeta in Hi.
      destruct (existsb _ _); [done|]. injection Hi as Hi1 Hi2. subst id'. eexists. split.
      + right. split_and!; done.
      + by rewrite <- Hi2. }
  unfold insert_version in Hins. apply sql_Ok in Hins.
  rewrite Hs4 in Hins. simpl in Hins.
  destruct (existsb _ (db_versions d)) eqn:Hex; [done|].
  destruct (negb _); [done|]. injection Hins as Hins.
  unfold update_current in Hup. apply sql_change_Ok in Hup. simpl in Hup. injection Hup as _ Hup.
  unfold u32_try_from in Hc.
  destruct ((0 <=? current) && (current <=? u32_max))%Z eqn:Hb; [|done]. injection Hc as <-.
  exists id, current, l, value. split_and!; try done; [lia|lia| |].
  - intros r Hr1 [= E1 E2]. assert (existsb (fun x => (r_secret x =? id) && (r_version x =? version_get next))%Z
      (db_versions d) = true) as Ht; [|rewrite Ht in Hex; discriminate Hex].
    apply List.existsb_exists. exists r. rewrite <- list_elem_of_In. split; [done|].
    by rewrite E1, E2, !Z.eqb_refl.
  - rewrite Hs', Hup, <- Hins. done.
Qed.

(** A change of version rows that keeps their keys and never revives a destroyed
    one. *)
Definition keeps_versions (g : VersionRow -> VersionRow) : Prop :=
  forall r, r_secret (g r) = r_secret r /\ r_version (g r) = r_version r /\
    (is_Some (r_destroyed_at r) -> r_destroyed_at (g r) = r_destroyed_at r /\
       (r_wrapped_dek r = [] -> r_wrapped_dek (g r) = [])).
Definition keeps_secrets (f : SecretRow -> SecretRow) : Prop :=
  forall s, s_id (f s) = s_id s /\ s_path (f s) = s_path s /\ s_current (f s) = s_current s /\
    ((exists c, s_rotation s = rotation_str c) -> exists c, s_rotation (f s) = rotation_str c).

Definition put_effect (d d' : Db) : Prop :=
  exists path by_ rotation now id current l value v,
    put_secret path now d id current l /\ (0 <= current <= u32_max)%Z /\
    next_version path current = Ok v /\
    (forall r, r ∈ db_versions d -> (r_secret r, r_version r) <> (id, version_get v)) /\
    d' = set_secrets (map (bump id (version_get v) now rotation) l)
           (set_versions (db_versions d ++ [version_row id v value now by_]) d).

Inductive store_effect (d d' : Db) : Prop :=
| eff_versions g : keeps_versions g -> d' = set_versions (map g (db_versions d)) d -> store_effect d d'
| eff_secrets f : keeps_secrets f -> d' = set_secrets (map f (db_secrets d)) d -> store_effect d d'
| eff_meta m : d' = set_meta m d -> store_effect d d'
| eff_put : put_effect d d' -> store_effect d d'.

Lemma eff_same d : store_effect d d.
Proof.
  apply (eff_versions _ _ id); [by intros r; split_and!|]. rewrite map_id. by destruct d.
Qed.

Lemma update_versions_effect (p : VersionRow -> bool) (f : VersionRow -> VersionRow) s r s' :
  keeps_versions (fun x => if p x then f x else x) -> update_versions p f s = (r, s') ->
  store_effect (st_db s) (st_db s') /\
  (forall n, r = Ok n -> st_db s' = set_versions (map (fun x => if p x then f x else x) (db_versions (st_db s))) (st_db s)).
Proof.
  intros Hk Hu. destruct r as [n|e].
  - apply sql_change_Ok in Hu. simpl in Hu. injection Hu as _ Hu. rewrite Hu.
    split; [by eapply eff_versions|]. done.
  - apply sql_Err in Hu. rewrite Hu. split; [apply eff_same|done].
Qed.

Lemma same_then_effect s s1 s' : st_db s1 = st_db s ->
  store_effect (st_db s1) (st_db s') -> store_effect (st_db s) (st_db s').
Proof. by intros ->. Qed.

Lemma delete_keeps (p : VersionRow -> bool) now : keeps_versions (fun r => if p r then set_deleted now r else r).
Proof. intros r. destruct (p r); by split_and!. Qed.
Lemma destroy_keeps (p : VersionRow -> bool) now : keeps_versions (fun r => if p r then set_destroyed now r else r).
Proof. intros r. destruct (p r); split_and!; try done. intros [t Ht]. simpl. by rewrite Ht. Qed.

Lemma write_seal_effect l s r s' : mfor l write_meta s = (r, s') ->
  exists m, st_db s' = set_meta m (st_db s).
Proof.
  revert s. induction l as [|x l IH]; intros s; simpl.
  - intros [= <- <-]. exists (db_meta (st_db s)). by destruct (st_db s).
  - intros [(u & s1 & H1 & H2)|(e & H1 & ->)]%mbind_inv.
    + apply sql_Ok in H1. injection H1 as _ H1. apply IH in H2 as [m Hm].
      exists m. by rewrite Hm, <- H1.
    + apply sql_Err in H1. rewrite H1. exists (db_meta (st_db s)). by destruct (st_db s).
Qed.

Lemma seal_write_meta state s r s' :
  transaction (write_seal state) s = (r, s') -> exists m, st_db s' = set_meta m (st_db s).
Proof.
  destruct r as [u|e]; intros H.
  - apply transaction_Ok in H as (s1 & s2 & E1 & H & ->). rewrite <- E1. by eapply write_seal_effect.
  - apply transaction_Err in H. exists (db_meta (st_db s)). rewrite H. by destruct (st_db s).
Qed.

Lemma seal_write_effect state s r s' :
  transaction (write_seal state) s = (r, s') -> store_effect (st_db s) (st_db s').
Proof. intros [m Hm]%seal_write_meta. by eapply eff_meta. Qed.

(** Creating the store writes its seal and nothing else. *)
Lemma initialize_meta state s r s' : initialize state s = (r, s') -> exists m, st_db s' = set_meta m (st_db s).
Proof.
  assert (exists m, st_db s = set_meta m (st_db s)) as Hsame by (exists (db_meta (st_db s)); by destruct (st_db s)).
  intros [(o & s1 & H1%seal_state_reads & H)|(e & H1%seal_state_reads & _)]%mbind_inv; [|by rewrite H1].
  destruct o as [current|]; [injection H as _ <-; by rewrite H1|].
  apply seal_write_meta in H as [m Hm]. exists m. by rewrite Hm, H1.
Qed.

Lemma require_secret_step path {A} (k : Z * Z * Rotation -> store_m A) s r s' :
  mbind (require_secret path) k s = (r, s') ->
  st_db s' = st_db s \/
  exists row c ro s1, st_db s1 = st_db s /\ find_secret path (st_db s) = Some row /\
    k (s_id row, c, ro) s1 = (r, s').
Proof.
  intros [([[id c] ro] & s1 & H1 & H2)|(e & H1 & _)]%mbind_inv.
  - apply require_secret_Ok in H1 as (E & row & Hf & <- & _). right. by exists row, c, ro, s1.
  - left. by eapply require_secret_reads.
Qed.

(** Every step is one of four kinds of change. *)
(** Each call, on success and on failure. *)
Lemma put_moves path by_ rotation enc now s r s' : put_with_rotation path by_ rotation enc now s = (r, s') -> store_effect (st_db s) (st_db s').
Proof.
  intros H.
  destruct r as [v|e].
  + apply put_Ok in H as (id & c & l & value & _ & ? & ? & ? & _ & ? & ?).
    apply eff_put. unfold put_effect. eauto 20.
  + unfold put_with_rotation in H. apply mbind_inv in H as [(u & s1 & [_ ->]%mlift_Ok & H)|(e' & H & _)].
    * apply transaction_Err in H. rewrite H. apply eff_same.
    * apply mlift_inv in H as [_ ->]. apply eff_same.
Qed.

Lemma set_rotation_moves path rotation now s r s' : set_rotation path rotation now s = (r, s') -> store_effect (st_db s) (st_db s').
Proof.
  intros H.
  unfold set_rotation in H. apply mbind_inv in H as [(n & s1 & H1 & H2)|(e & H1 & _)].
  + apply sql_change_Ok in H1. simpl in H1. injection H1 as _ H1.
    assert (st_db s' = st_db s1) as -> by by destruct (n =? 0)%Z; injection H2 as _ <-.
    rewrite H1. eapply eff_secrets; [|done]. intros x.
    destruct (String.eqb _ _); split_and!; try done. by exists rotation.
  + apply sql_Err in H1. rewrite H1. apply eff_same.
Qed.

Lemma delete_moves path v now s r s' : delete path v now s = (r, s') -> store_effect (st_db s) (st_db s').
Proof.
  intros H.
  unfold delete in H. apply mbind_inv in H as [(u & s0 & [_ ->]%mlift_Ok & H)|(e & H & _)].
  2: { apply mlift_inv in H as [_ ->]. apply eff_same. }
  apply require_secret_step in H as [->|(row & c & ro & s1 & E1 & _ & H)]; [apply eff_same|].
  apply (same_then_effect _ _ _ E1).
  apply mbind_inv in H as [(n & s2 & H2 & H)|(e & H & _)].
  + apply update_versions_effect in H2 as [H2 _]; [|apply delete_keeps].
    assert (st_db s' = st_db s2) as ->; [|done].
    destruct (n =? 0)%Z; [|by injection H as _ <-].
    apply mbind_inv in H as [(b & s3 & H3 & [= _ <-])|(e & H3 & _)]; by eapply version_exists_reads.
  + by apply update_versions_effect in H as [H _]; [|apply delete_keeps].
Qed.

Lemma undelete_moves path v s r s' : undelete path v s = (r, s') -> store_effect (st_db s) (st_db s').
Proof.
  intros H.
  unfold undelete in H.
  apply require_secret_step in H as [->|(row & c & ro & s1 & E1 & _ & H)]; [apply eff_same|].
  apply (same_then_effect _ _ _ E1).
  apply mbind_inv in H as [(b & s2 & H2 & H)|(e & H2 & _)];
    apply version_exists_reads in H2; [|rewrite H2; apply eff_same].
  apply (same_then_effect _ _ _ H2). destruct b; [injection H as _ <-; apply eff_same|].
  apply mbind_inv in H as [(n & s3 & H3 & [= _ <-])|(e & H3 & _)];
    by apply update_versions_effect in H3 as [H3 _]; [|apply delete_keeps].
Qed.

Lemma destroy_moves path v now s r s' : destroy path v now s = (r, s') -> store_effect (st_db s) (st_db s').
Proof.
  intros H.
  unfold destroy in H.
  apply require_secret_step in H as [->|(row & c & ro & s1 & E1 & _ & H)]; [apply eff_same|].
  apply (same_then_effect _ _ _ E1).
  apply mbind_inv in H as [(b & s2 & H2 & H)|(e & H2 & _)];
    apply version_exists_reads in H2; [|rewrite H2; apply eff_same].
  apply (same_then_effect _ _ _ H2).
  apply mbind_inv in H as [(n & s3 & H3 & [= _ <-])|(e & H3 & _)];
    by apply update_versions_effect in H3 as [H3 _]; [|apply destroy_keeps].
Qed.

Lemma initialize_moves state s r s' : initialize state s = (r, s') -> store_effect (st_db s) (st_db s').
Proof.
  intros H.
  unfold initialize in H. apply mbind_inv in H as [(o & s1 & H1 & H)|(e & H1 & _)];
    apply seal_state_reads in H1; [|rewrite H1; apply eff_same].
  apply (same_then_effect _ _ _ H1). destruct o; [injection H as _ <-; apply eff_same|].
  by eapply seal_write_effect.
Qed.

Lemma replace_seal_moves state s r s' : replace_seal state s = (r, s') -> store_effect (st_db s) (st_db s').
Proof.
  intros H.
  unfold replace_seal in H. apply mbind_inv in H as [(o & s1 & H1 & H)|(e & H1 & _)];
    apply seal_state_reads in H1; [|rewrite H1; apply eff_same].
  apply (same_then_effect _ _ _ H1). destruct o as [cur|]; [|injection H as _ <-; apply eff_same].
  destruct (negb _); [injection H as _ <-; apply eff_same|]. by eapply seal_write_effect.
Qed.

Lemma store_step_effect d d' : store_step d d' -> store_effect d d'.
Proof.
  destruct 1; eauto using put_moves, set_rotation_moves, delete_moves, undelete_moves, destroy_moves, initialize_moves, replace_seal_moves.
Qed.

(** ** The invariant is preserved *)

Lemma next_id_fresh ids : (next_id ids ∉ ids)%Z.
Proof.
  intros H. assert (forall l x, x ∈ l -> (x <= foldr Z.max 0 l)%Z) as Hle.
  { induction l as [|y l IH]; intros x; [set_solver|]. intros [->|Hx]%elem_of_cons; simpl; [lia|].
    specialize (IH x Hx). lia. }
  apply Hle in H. unfold next_id in H. lia.
Qed.

Lemma find_secret_None path d : find_secret path d = None -> path_str path ∉ map s_path (db_secrets d).
Proof.
  intros H (r & E & Hr)%elem_of_map. apply list_elem_of_In in Hr.
  pose proof (List.find_none _ _ H r Hr) as Hn. simpl in Hn. by rewrite E, String.eqb_refl in Hn.
Qed.

Lemma next_version_spec path current v : (0 <= current <= u32_max)%Z ->
  next_version path current = Ok v -> (version_get v = current + 1 /\ current < u32_max)%Z.
Proof.
  unfold next_version, version_new, version_next, u32_try_from, u32_max. intros Hc.
  destruct (Z.eqb_spec current 0) as [->|Hne]; [by intros [= <-]|]. simpl.
  destruct ((0 <=? current + 1) && (current + 1 <=? 4294967295))%Z eqn:Hle; simpl; [|done].
  intros [= <-]. simpl. lia.
Qed.

Lemma bump_fields id v now rotation r :
  s_id (bump id v now rotation r) = s_id r /\ s_path (bump id v now rotation r) = s_path r /\
  s_current (bump id v now rotation r) = (if (s_id r =? id)%Z then v else s_current r) /\
  ((exists c, s_rotation r = rotation_str c) -> exists c, s_rotation (bump id v now rotation r) = rotation_str c).
Proof.
  unfold bump. destruct (Z.eqb_spec (s_id r) id); simpl; split_and!; try done.
  destruct rotation as [c|]; [by exists c|done].
Qed.

(** The secrets a write works on are well formed, and one of them has its id,
    its path and its current version. *)
Lemma put_secret_wf path now d id current l : store_wf d -> put_secret path now d id current l ->
  NoDup (map s_path l) /\ NoDup (map s_id l) /\
  (forall s, s ∈ l -> (0 <= s_current s <= u32_max)%Z /\ exists c, s_rotation s = rotation_str c) /\
  (forall s, s ∈ db_secrets d -> s ∈ l) /\
  (exists s, s ∈ l /\ s_id s = id /\ s_path s = path_str path /\ s_current s = current) /\
  (forall s, s ∈ l -> s ∉ db_secrets d -> s_id s = id).
Proof.
  intros [W1 W2 W3 W4 W5 W6] [(row & Hf & -> & -> & ->)|(Hf & -> & -> & ->)].
  - apply find_secret_Some in Hf as [Hin Hp]. split_and!; try done; [by auto|by exists row].
  - apply find_secret_None in Hf. rewrite !map_app. simpl.
    split_and!.
    + by apply NoDup_app_one.
    + apply NoDup_app_one; [done|]. apply next_id_fresh.
    + intros s [Hs| ->%list_elem_of_singleton]%elem_of_app; [by auto|]. simpl. split; [done|].
      by exists Rotation_default.
    + intros s Hs. apply elem_of_app. by left.
    + eexists. split; [apply elem_of_app; right; by apply list_elem_of_singleton|done].
    + intros s [Hs| ->%list_elem_of_singleton]%elem_of_app Hn; done.
Qed.

Lemma store_wf_put d d' : store_wf d -> put_effect d d' -> store_wf d'.
Proof.
  intros Hwf (path & by_ & rotation & now & id & current & l & value & v & Hp & Hc & Hn & Hk & ->).
  destruct (put_secret_wf _ _ _ _ _ _ Hwf Hp) as (P1 & P2 & P3 & P4 & (s0 & S1 & S2 & S3 & S4) & _).
  apply next_version_spec in Hn as [Hv Hmax]; [|done]. destruct Hwf as [W1 W2 W3 W4 W5 W6].
  pose proof (bump_fields id (version_get v) now rotation) as Hb.
  split; simpl.
  - rewrite map_map. erewrite map_ext; [exact P1|]. intros r. apply Hb.
  - rewrite map_map. erewrite map_ext; [exact P2|]. intros r. apply Hb.
  - intros s (r & -> & Hr)%elem_of_map. destruct (Hb r) as (_ & _ & -> & _).
    destruct (s_id r =? id)%Z; [unfold u32_max in *; lia|]. by apply P3.
  - intros s (r & -> & Hr)%elem_of_map. apply Hb. by apply P3.
  - rewrite map_app. simpl. apply NoDup_app_one; [done|].
    intros (r & E & Hr)%elem_of_map. by apply (Hk r).
  - intros r [Hr| ->%list_elem_of_singleton]%elem_of_app.
    + destruct (W6 r Hr) as (s & Hs & Hid & Hle). exists (bump id (version_get v) now rotation s).
      destruct (Hb s) as (-> & _ & -> & _). split_and!; [|done|lia|].
      * apply elem_of_map. exists s. auto.
      * destruct (Z.eqb_spec (s_id s) id) as [E|]; [|lia].
        assert (s = s0) as -> by (apply (NoDup_map_inj s_id l); [done|auto|done|congruence]). lia.
    + exists (bump id (version_get v) now rotation s0). destruct (Hb s0) as (-> & _ & -> & _). simpl.
      rewrite S2, Z.eqb_refl. split_and!; [|done|lia|lia]. apply elem_of_map. by exists s0.
Qed.

Lemma store_wf_effect d d' : store_wf d -> store_effect d d' -> store_wf d'.
Proof.
  intros Hwf [g Hg ->|f Hf ->|m ->|Hp]; [..|by eapply store_wf_put]; destruct Hwf as [W1 W2 W3 W4 W5 W6].
  - split; simpl; try done.
    + rewrite map_map. erewrite map_ext; [exact W5|]. intros r. by destruct (Hg r) as (-> & -> & _).
    + intros r (x & -> & Hx)%elem_of_map. destruct (Hg x) as (-> & -> & _). auto.
  - split; simpl; try done.
    + rewrite map_map. erewrite map_ext; [exact W1|]. intros r. apply Hf.
    + rewrite map_map. erewrite map_ext; [exact W2|]. intros r. apply Hf.
    + intros s (x & -> & Hx)%elem_of_map. destruct (Hf x) as (_ & _ & -> & _). auto.
    + intros s (x & -> & Hx)%elem_of_map. apply Hf. auto.
    + intros r Hr. destruct (W6 r Hr) as (s & Hs & Hid & Hle). exists (f s).
      destruct (Hf s) as (-> & _ & -> & _). split_and!; try done; [|lia..].
      apply elem_of_map. by exists s.
  - by split.
Qed.

(** ** Properties *)

Lemma store_step_wf d d' : store_wf d -> store_step d d' -> store_wf d'.
Proof. intros Hwf Hs%store_step_effect. by eapply store_wf_effect. Qed.

(** Unique paths and keys, current versions in range, and every stored version
    at most the current one: kept by every call, whatever its outcome. *)
Theorem store_step_keeps_wf d d' : store_wf d -> store_step d d' -> store_wf d'.
Proof. apply store_step_wf. Qed.

Lemma sql_read_clean {A} (f : Db -> A) d : sql_read f (mkStore d []) = (Ok (f d), mkStore d []).
Proof. done. Qed.

Lemma require_secret_clean d path row : store_wf d -> find_secret path d = Some row ->
  exists c, require_secret path (mkStore d []) = (Ok (s_id row, s_current row, c), mkStore d []).
Proof.
  intros Hwf Hf. pose proof Hf as [Hin _]%find_secret_Some.
  destruct (wf_rotation _ Hwf _ Hin) as [c Hc]. pose proof (wf_current _ Hwf _ Hin) as Hr.
  exists c. unfold require_secret, secret_id, mbind, mlift. rewrite sql_read_clean, Hf.
  assert (u32_try_from (s_current row) = Some (s_current row)) as ->.
  { unfold u32_try_from. by rewrite !(proj2 (Z.leb_le _ _)) by lia. }
  simpl. by rewrite Hc, Rotation_parse_str.
Qed.

Lemma get_clean d path row version wanted vr :
  store_wf d -> find_secret path d = Some row ->
  match version with Some v => wanted = v | None => version_new (s_current row) = Some wanted end ->
  find_version (s_id row) wanted d = Some vr ->
  fst (get path version (mkStore d [])) = stored_version path wanted vr.
Proof.
  intros Hwf Hf Hw Hv. destruct (require_secret_clean _ _ _ Hwf Hf) as [c Hr].
  unfold get. unfold mbind at 1. rewrite Hr.
  assert (match version with
          | Some version => mret version
          | None => mlift (ok_or (NotFound (path_str path)) (version_new (s_current row)))
          end (mkStore d []) = (Ok wanted, mkStore d [])) as E.
  { destruct version; [by subst|]. unfold mlift. by rewrite Hw. }
  unfold mbind at 1. rewrite E. unfold mbind. rewrite sql_read_clean, Hv. done.
Qed.

Lemma find_secret_unique d path row : store_wf d -> row ∈ db_secrets d -> s_path row = path_str path ->
  find_secret path d = Some row.
Proof.
  intros Hwf Hin Hp. destruct (find_secret path d) as [row'|] eqn:Hf.
  - apply find_secret_Some in Hf as [Hin' Hp']. f_equal.
    apply (NoDup_map_inj s_path (db_secrets d)); [apply Hwf|done|done|congruence].
  - apply find_secret_None in Hf. destruct Hf. apply elem_of_map. by exists row.
Qed.

Lemma find_version_unique d id v r : store_wf d -> r ∈ db_versions d -> r_secret r = id ->
  r_version r = version_get v -> find_version id v d = Some r.
Proof.
  intros Hwf Hin Hid Hv. destruct (find_version id v d) as [r'|] eqn:Hf.
  - apply find_version_Some in Hf as (Hin' & Hid' & Hv'). f_equal.
    apply (NoDup_map_inj (fun r => (r_secret r, r_version r)) (db_versions d));
      [apply Hwf|done|done|simpl; congruence].
  - unfold find_version in Hf. apply list_elem_of_In in Hin.
    pose proof (List.find_none _ _ Hf r Hin) as Hn. unfold is_version in Hn.
    by rewrite Hid, Hv, !Z.eqb_refl in Hn.
Qed.

(** What [encrypt] has to return for its value to be readable again: the fixed
    sizes of the types it is made of. *)
Definition value_sized (v : EncryptedValue) : Prop :=
  length (dek_id_bytes (ev_dek_id v)) = ID_LEN /\ length (ev_dek_nonce v) = NONCE_LEN /\
  length (ev_value_nonce v) = NONCE_LEN.

Lemma stored_version_row path id v value now by_ : value_sized value ->
  stored_version path v (version_row id v value now by_) = Ok (mkStoredVersion path v value now by_).
Proof.
  intros (H1 & H2 & H3). unfold stored_version, version_row. simpl.
  unfold DekId_from_hex, DekId_to_hex, fixed_from_hex.
  rewrite hex_decode_into_encode by by rewrite H1. simpl.
  unfold to_nonce. rewrite H2, H3. simpl. by destruct value as [[]].
Qed.

(** C19: A write is all or nothing, for every statement that can fail: on an error
    the tables are what they were.  On success the version is one more than the
    current one, so that no version of the path ever had its number, and reading
    the path gives exactly what was encrypted for that version. *)
Theorem put_all_or_nothing path by_ rotation encrypt now s r s' :
  store_wf (st_db s) -> put_with_rotation path by_ rotation encrypt now s = (r, s') ->
  match r with
  | Err _ => st_db s' = st_db s
  | Ok v => exists value,
      is_reserved path = false /\ encrypt v = Ok value /\
      (forall row x, find_secret path (st_db s) = Some row -> x ∈ db_versions (st_db s) ->
         r_secret x = s_id row -> (r_version x < version_get v)%Z) /\
      (value_sized value ->
       fst (get path None (mkStore (st_db s') [])) = Ok (mkStoredVersion path v value now by_))
  end.
Proof.
  intros Hwf H. destruct r as [v|e].
  2: { unfold put_with_rotation in H. apply mbind_inv in H as [(u & s1 & [_ ->]%mlift_Ok & H)|(e' & H & _)].
       - by apply transaction_Err in H.
       - by apply mlift_inv in H as [_ ->]. }
  assert (store_wf (st_db s')) as Hwf'.
  { eapply store_step_wf; [exact Hwf|]. by eapply step_put. }
  apply put_Ok in H as (id & current & l & value & Hres & Hp & Hc & Hn & He & Hk & Hs').
  pose proof (put_secret_wf _ _ _ _ _ _ Hwf Hp) as (P1 & P2 & P3 & P4 & (s0 & S1 & S2 & S3 & S4) & _).
  apply next_version_spec in Hn as [Hv Hmax]; [|done].
  exists value. split_and!; [done|done| |].
  - intros row x Hf Hx Hid. destruct Hp as [(row' & Hf' & -> & -> & _)|(Hf' & _)]; [|congruence].
    rewrite Hf in Hf'. injection Hf' as <-. apply find_secret_Some in Hf as [Hin _].
    destruct (wf_rows _ Hwf x Hx) as (s1 & Hs1 & E1 & Hle).
    assert (s1 = row) as -> by (apply (NoDup_map_inj s_id (db_secrets (st_db s))); [apply Hwf|done|done|congruence]).
    lia.
  - intros Hsz. rewrite <- (stored_version_row path id v value now by_ Hsz).
    set (b := bump id (version_get v) now rotation).
    destruct (bump_fields id (version_get v) now rotation s0) as (B1 & B2 & B3 & _).
    rewrite S2, Z.eqb_refl in B3. fold b in B1, B2, B3.
    assert (b s0 ∈ db_secrets (st_db s')) as Hb.
    { rewrite Hs'. simpl. apply elem_of_map. by exists s0. }
    apply (get_clean (st_db s') path (b s0) None v); [done| | |].
    + apply find_secret_unique; [done|done|congruence].
    + rewrite B3. unfold version_new. rewrite (proj2 (Z.eqb_neq _ _)) by lia. by destruct v.
    + rewrite B1, S2. apply find_version_unique; [done| |done|done].
      rewrite Hs'. simpl. apply elem_of_app. right. by apply list_elem_of_singleton.
Qed.

(** ** Destruction is final *)

(** A destroyed row of a path: its time is set and its data key is gone. *)
Definition destroyed_in (path : SecretPath) (v : SecretVersion) (d : Db) : Prop :=
  exists row r, row ∈ db_secrets d /\ s_path row = path_str path /\ r ∈ db_versions d /\
    r_secret r = s_id row /\ r_version r = version_get v /\ is_Some (r_destroyed_at r) /\
    r_wrapped_dek r = [].

Lemma destroyed_effect path v d d' : store_wf d -> store_effect d d' ->
  destroyed_in path v d -> destroyed_in path v d'.
Proof.
  intros Hwf Hs (row & r & H1 & H2 & H3 & H4 & H5 & H6 & H7).
  destruct Hs as [g Hg ->|f Hf ->|m ->|Hp].
  - destruct (Hg r) as (G1 & G2 & G3). destruct (G3 H6) as [G4 G5]. exists row, (g r).
    split_and!; simpl; try done; [apply elem_of_map; by exists r|congruence|congruence|by rewrite G4|auto].
  - destruct (Hf row) as (F1 & F2 & _). exists (f row), r.
    split_and!; simpl; try done; [apply elem_of_map; by exists row|congruence|congruence].
  - exists row, r. by split_and!.
  - destruct Hp as (p & by_ & rotation & now & id & current & l & value & v' & Hp & _ & _ & _ & ->).
    destruct (put_secret_wf _ _ _ _ _ _ Hwf Hp) as (_ & _ & _ & P4 & _).
    destruct (bump_fields id (version_get v') now rotation row) as (B1 & B2 & _).
    exists (bump id (version_get v') now rotation row), r.
    split_and!; simpl; try done; [apply elem_of_map; exists row; auto|congruence| |congruence].
    apply elem_of_app. by left.
Qed.

Lemma destroyed_get path v d : store_wf d -> destroyed_in path v d ->
  fst (get path (Some v) (mkStore d [])) = Err (VersionDestroyed (path_str path) v).
Proof.
  intros Hwf (row & r & H1 & H2 & H3 & H4 & H5 & [t H6] & H7).
  rewrite (get_clean d path row (Some v) v r); [|done|by apply find_secret_unique|done|
    by apply find_version_unique].
  unfold stored_version. by rewrite H6.
Qed.

Lemma destroy_Ok path v now s s' : destroy path v now s = (Ok tt, s') ->
  exists row r, find_secret path (st_db s) = Some row /\
    find_version (s_id row) v (st_db s) = Some r /\
    st_db s' = set_versions (map (fun x => if is_version (s_id row) v x then set_destroyed now x else x)
                               (db_versions (st_db s))) (st_db s).
Proof.
  unfold destroy. intros H. apply mbind_Ok in H as ([[id c] ro] & s1 & H1 & H).
  apply require_secret_Ok in H1 as (E1 & row & Hf & <- & _).
  apply mbind_Ok in H as (b & s2 & H2 & H). apply mbind_Ok in H as (n & s3 & H3 & [= <-]).
  pose proof (version_exists_reads _ _ _ _ _ _ H2) as E2. simpl in E2.
  unfold version_exists in H2. apply mbind_Ok in H2 as (o & s4 & [-> Es4]%sql_read_Ok & H2).
  rewrite E1 in H2. destruct (find_version (s_id row) v (st_db s)) as [r|] eqn:Hr; [|done].
  apply update_versions_effect in H3 as [_ H3]; [|apply destroy_keeps].
  exists row, r. split_and!; [done|done|]. by rewrite (H3 n eq_refl), E2, E1.
Qed.

Lemma destroy_destroys path v now s s' : destroy path v now s = (Ok tt, s') ->
  destroyed_in path v (st_db s').
Proof.
  intros (row & r & Hf & Hr & ->)%destroy_Ok.
  apply find_secret_Some in Hf as [F1 F2]. pose proof Hr as Hx%List.find_some.
  destruct Hx as [_ Hx]. apply find_version_Some in Hr as (R1 & R2 & R3).
  exists row, (set_destroyed now r). split_and!; simpl; try done.
  apply elem_of_map. exists r. by rewrite Hx.
Qed.

(** Once a version is destroyed it is destroyed: no sequence of later calls, with
    whatever outcomes, makes it readable again or brings its data key back. *)
Theorem destroyed_is_final path v now s s' d :
  store_wf (st_db s) -> destroy path v now s = (Ok tt, s') -> rtc store_step (st_db s') d ->
  fst (get path (Some v) (mkStore d [])) = Err (VersionDestroyed (path_str path) v) /\
  forall row r, find_secret path d = Some row -> find_version (s_id row) v d = Some r ->
    r_wrapped_dek r = [].
Proof.
  intros Hwf Hd Hsteps.
  assert (store_wf (st_db s')) as Hwf' by (eapply store_step_wf; [exact Hwf|by eapply step_destroy]).
  apply destroy_destroys in Hd.
  assert (store_wf d /\ destroyed_in path v d) as [Hwd Hdd].
  { clear Hwf. induction Hsteps as [x|x y z Hxy _ IH]; [done|]. apply IH.
    - eapply destroyed_effect; [exact Hwf'|by apply store_step_effect|done].
    - by eapply store_step_wf. }
  split; [by apply destroyed_get|].
  intros row r Hf Hr. destruct Hdd as (row' & r' & D1 & D2 & D3 & D4 & D5 & _ & D7).
  rewrite (find_secret_unique _ _ _ Hwd D1 D2) in Hf. injection Hf as <-.
  rewrite (find_version_unique _ _ _ _ Hwd D3 D4 D5) in Hr. by injection Hr as <-.
Qed.

(** ** Deletion is not *)

Lemma stored_version_Ok_fields path v r sv : stored_version path v r = Ok sv ->
  r_destroyed_at r = None /\ r_deleted_at r = None.
Proof. unfold stored_version. by destruct (r_destroyed_at r), (r_deleted_at r). Qed.

Lemma find_version_map id v g d :
  (forall r, r_secret (g r) = r_secret r /\ r_version (g r) = r_version r) ->
  find_version id v (set_versions (map g (db_versions d)) d) = g <$> find_version id v d.
Proof.
  intros Hg. unfold find_version. simpl. induction (db_versions d) as [|r l IH]; simpl; [done|].
  assert (is_version id v (g r) = is_version id v r) as ->.
  { unfold is_version. by destruct (Hg r) as [-> ->]. }
  by destruct (is_version id v r).
Qed.

Lemma delete_Ok path v now s s' row r :
  delete path v now s = (Ok tt, s') -> find_secret path (st_db s) = Some row ->
  find_version (s_id row) v (st_db s) = Some r ->
  exists g, st_db s' = set_versions (map g (db_versions (st_db s))) (st_db s) /\
    (forall r, r_secret (g r) = r_secret r /\ r_version (g r) = r_version r) /\
    g r = match r_deleted_at r with None => set_deleted (Some now) r | Some _ => r end.
Proof.
  unfold delete. intros H Hf Hr. apply mbind_Ok in H as (u & s0 & [_ ->]%mlift_Ok & H).
  apply mbind_Ok in H as ([[id c] ro] & s1 & H1 & H).
  apply require_secret_Ok in H1 as (E1 & row' & Hf' & <- & _). rewrite Hf in Hf'. injection Hf' as <-.
  apply mbind_Ok in H as (n & s2 & H2 & H).
  assert (st_db s' = st_db s2) as ->.
  { destruct (n =? 0)%Z; [|by injection H as <-].
    apply mbind_Ok in H as (b & s3 & H3%version_exists_reads & [= <-]). done. }
  apply update_versions_effect in H2 as [_ H2]; [|apply delete_keeps].
  eexists. split; [rewrite (H2 n eq_refl), E1; reflexivity|]. split.
  - intros x. by destruct (is_version _ _ _ && _).
  - apply List.find_some in Hr as [_ ->]. simpl. by destruct (r_deleted_at r).
Qed.

Lemma undelete_Ok path v s s' row r :
  undelete path v s = (Ok tt, s') -> find_secret path (st_db s) = Some row ->
  find_version (s_id row) v (st_db s) = Some r ->
  exists g, st_db s' = set_versions (map g (db_versions (st_db s))) (st_db s) /\
    (forall r, r_secret (g r) = r_secret r /\ r_version (g r) = r_version r) /\
    g r = set_deleted None r.
Proof.
  unfold undelete. intros H Hf Hr. apply mbind_Ok in H as ([[id c] ro] & s1 & H1 & H).
  apply require_secret_Ok in H1 as (E1 & row' & Hf' & <- & _). rewrite Hf in Hf'. injection Hf' as <-.
  apply mbind_Ok in H as (b & s2 & H2%version_exists_reads & H). simpl in H2.
  destruct b; [done|]. apply mbind_Ok in H as (n & s3 & H3 & [= <-]).
  apply update_versions_effect in H3 as [_ H3]; [|apply delete_keeps].
  eexists. split; [rewrite (H3 n eq_refl), H2, E1; reflexivity|]. split.
  - intros x. by destruct (is_version _ _ _).
  - by apply List.find_some in Hr as [_ ->].
Qed.

(** A deleted version is refused as deleted; undeleting it gives back exactly
    what could be read before. *)
Theorem undelete_restores path v now s s1 s2 sv :
  store_wf (st_db s) ->
  fst (get path (Some v) (mkStore (st_db s) [])) = Ok sv ->
  delete path v now s = (Ok tt, s1) -> undelete path v s1 = (Ok tt, s2) ->
  fst (get path (Some v) (mkStore (st_db s1) [])) = Err (VersionDeleted (path_str path) v) /\
  fst (get path (Some v) (mkStore (st_db s2) [])) = Ok sv.
Proof.
  intros Hwf Hg Hd Hu.
  assert (store_wf (st_db s1)) as Hwf1 by (eapply store_step_wf; [exact Hwf|by eapply step_delete]).
  assert (store_wf (st_db s2)) as Hwf2 by (eapply store_step_wf; [exact Hwf1|by eapply step_undelete]).
  destruct (get path (Some v) (mkStore (st_db s) [])) as [rg sg] eqn:Hget. simpl in Hg. subst rg.
  unfold get in Hget. apply mbind_Ok in Hget as ([[id c] ro] & s3 & H3 & Hget).
  apply require_secret_Ok in H3 as (E3 & row & Hf & <- & _). simpl in E3, Hf.
  apply mbind_Ok in Hget as (w & s4 & [-> ->]%mret_Ok & Hget).
  apply mbind_Ok in Hget as (o & s5 & [-> _]%sql_read_Ok & Hget). rewrite E3 in Hget.
  destruct (find_version (s_id row) v (st_db s)) as [r|] eqn:Hr; [|done].
  apply mlift_Ok in Hget as [Hsv _]. pose proof (stored_version_Ok_fields _ _ _ _ Hsv) as [Hde Hdl].
  destruct (delete_Ok _ _ _ _ _ _ _ Hd Hf Hr) as (g & Eg & Hkg & Hgr). rewrite Hdl in Hgr.
  assert (find_secret path (st_db s1) = Some row) as Hf1 by by rewrite Eg.
  assert (find_version (s_id row) v (st_db s1) = Some (set_deleted (Some now) r)) as Hr1.
  { rewrite Eg, find_version_map by done. by rewrite Hr, <- Hgr. }
  destruct (undelete_Ok _ _ _ _ _ _ Hu Hf1 Hr1) as (h & Eh & Hkh & Hhr).
  assert (find_secret path (st_db s2) = Some row) as Hf2 by by rewrite Eh.
  assert (find_version (s_id row) v (st_db s2) = Some r) as Hr2.
  { rewrite Eh, find_version_map by done. rewrite Hr1. simpl. rewrite Hhr.
    destruct r. simpl in *. by subst. }
  rewrite (get_clean _ _ row (Some v) v _ Hwf1 Hf1 eq_refl Hr1).
  rewrite (get_clean _ _ row (Some v) v _ Hwf2 Hf2 eq_refl Hr2). split; [|done].
  unfold stored_version. simpl. by rewrite Hde.
Qed.

(** ** Listing is the subtree *)

Lemma compare_cons a b s t :
  String.compare (String a s) (String b t) =
    match Ascii.compare a b with Eq => String.compare s t | c => c end.
Proof. done. Qed.

Lemma ascii_compare_N a b : Ascii.compare a b = (N_of_ascii a ?= N_of_ascii b)%N.
Proof. done. Qed.

Lemma in_subtree_range q p :
  str_leb (q ++ "/") p && str_ltb p (q ++ "0") = true <-> exists r, p = (q ++ String slash r)%string.
Proof.
  unfold str_leb, str_ltb. revert p. induction q as [|a q IH]; intros p.
  - change ((EmptyString ++ "/")%string) with (String "/" EmptyString).
    change ((EmptyString ++ "0")%string) with (String "0" EmptyString). split.
    + destruct p as [|c p]; [done|]. rewrite !compare_cons, !ascii_compare_N.
      change (N_of_ascii "/") with 47%N. change (N_of_ascii "0") with 48%N.
      destruct (N.compare_spec 47 (N_of_ascii c)) as [E|Hlt|]; [| |done].
      * intros _. exists p. assert (c = slash) as ->; [|done].
        rewrite <- (ascii_N_embedding c), <- E. done.
      * destruct (N.compare_spec (N_of_ascii c) 48) as [E2| |]; [|lia|done].
        simpl. by destruct p.
    + intros (r & ->). simpl. by destruct r.
  - destruct p as [|c p]; [split; [done|intros (r & [=])]|].
    change ((String a q ++ "/")%string) with (String a (q ++ "/")%string).
    change ((String a q ++ "0")%string) with (String a (q ++ "0")%string).
    rewrite !compare_cons, !ascii_compare_N.
    destruct (N.compare_spec (N_of_ascii a) (N_of_ascii c)) as [E|Hlt|Hgt].
    + assert (a = c) as <- by (by rewrite <- (ascii_N_embedding a), E, ascii_N_embedding).
      rewrite N.compare_refl, IH. split; intros (r & Hr); exists r; [by rewrite Hr|by injection Hr].
    + destruct (N.compare_spec (N_of_ascii c) (N_of_ascii a)); [lia|lia|]. simpl. split; [done|].
      intros (r & [= -> _]). lia.
    + simpl. split; [done|]. intros (r & [= -> _]). lia.
Qed.

Lemma in_listing_spec prefix p :
  in_listing prefix (path_str p) = true <->
  match prefix with None => True | Some q => path_starts_with p q = true end.
Proof.
  destruct prefix as [q|]; simpl; [|done].
  rewrite orb_true_iff, String.eqb_eq, in_subtree_range. by rewrite path_starts_with_text.
Qed.

Lemma str_leb_total a b : str_leb a b = false -> str_leb b a = true.
Proof.
  unfold str_leb. rewrite (String.compare_antisym b a). by destruct (String.compare a b).
Qed.

(** Listing a prefix gives exactly the stored paths at or below it, each once and
    in order, and never a sibling that merely begins with the same text. *)
Theorem list_paths_is_subtree {U : Unicode} prefix d :
  store_wf d ->
  (forall s, s ∈ db_secrets d -> SecretPath_parse (s_path s) = Ok (mkSecretPath (s_path s))) ->
  exists l, fst (list_paths prefix (mkStore d [])) = Ok l /\
    NoDup l /\ Sorted (fun p q => str_leb (path_str p) (path_str q) = true) l /\
    forall p, p ∈ l <->
      path_str p ∈ map s_path (db_secrets d) /\
      match prefix with None => True | Some q => path_starts_with p q = true end.
Proof.
  intros Hwf Hparse. exists (map (fun r => mkSecretPath (s_path r)) (listing_rows prefix d)).
  assert (forall r, r ∈ listing_rows prefix d <->
            r ∈ db_secrets d /\ in_listing prefix (s_path r) = true) as Hin.
  { intros r. unfold listing_rows. by rewrite sort_by_perm, !list_elem_of_In, List.filter_In. }
  split_and!.
  - unfold list_paths, mbind. rewrite sql_read_clean. simpl.
    apply res_mapM_all_ok. intros r Hr. apply Hin in Hr as [Hr _]. by rewrite Hparse.
  - assert (NoDup (map s_path (listing_rows prefix d))) as Hnd.
    { unfold listing_rows. rewrite sort_by_perm.
      pose proof (wf_paths _ Hwf) as Hp. clear -Hp.
      induction (db_secrets d) as [|r l IH]; simpl; [constructor|].
      simpl in Hp. apply NoDup_cons in Hp as [Hr Hp].
      destruct (in_listing _ _); simpl; [|by apply IH]. apply NoDup_cons. split; [|by apply IH]. rewrite elem_of_map. intros (x & E & Hx). apply Hr.
      apply elem_of_map. exists x. split; [done|]. apply list_elem_of_In, List.filter_In in Hx as [Hx _].
      by apply list_elem_of_In. }
    apply (NoDup_fmap_1 path_str). change (fmap path_str) with (map path_str).
    by rewrite map_map.
  - pose proof (sort_by_sorted (fun a b => str_leb (s_path a) (s_path b))
      (List.filter (fun r => in_listing prefix (s_path r)) (db_secrets d))
      (fun a b => str_leb_total _ _)) as Hs. fold (listing_rows prefix d) in Hs.
    clear -Hs.
    induction Hs as [|r l Hs IH Hd]; simpl; [constructor|]. constructor; [exact IH|].
    destruct Hd; by constructor.
  - intros p. rewrite !elem_of_map. split.
    + intros (r & -> & [Hr Hl]%Hin). split; [by exists r|]. by apply (in_listing_spec prefix (mkSecretPath (s_path r))).
    + intros ((r & E & Hr) & Hp). exists r. destruct p as [p]. simpl in E. subst p. split; [done|].
      apply Hin. split; [done|]. by apply (in_listing_spec prefix (mkSecretPath (s_path r))).
Qed.

(** ** Witnesses *)

Lemma store_wf_empty : store_wf db_empty.
Proof. split; simpl; try apply NoDup_nil_2; intros ? H; by apply elem_of_nil in H. Qed.

Definition example_encrypted : EncryptedValue :=
  mkEncryptedValue (mkDekId (zeroed 16)) (zeroed 12) [zero] (zeroed 12) [zero; zero].
Definition example_put (p : string) (s : Store) : result StoreError SecretVersion * Store :=
  put (mkSecretPath p) "writer" (fun _ => Ok example_encrypted) 7 s.
Definition example_store : Store :=
  snd (example_put "a/bc" (snd (example_put "a/b" (snd (example_put "a/b" (mkStore db_empty [])))))).

Lemma store_step_keeps_wf_witness :
  store_step db_empty (st_db (snd (example_put "a/b" (mkStore db_empty [])))) /\
  store_wf (st_db (snd (example_put "a/b" (mkStore db_empty [])))).
Proof.
  assert (store_step db_empty (st_db (snd (example_put "a/b" (mkStore db_empty []))))) as Hs.
  { apply (step_put (mkSecretPath "a/b") "writer" None (fun _ => Ok example_encrypted) 7
      (mkStore db_empty []) (Ok version_FIRST)). reflexivity. }
  split; [exact Hs|]. exact (store_step_keeps_wf _ _ store_wf_empty Hs).
Defined.

Lemma example_store_wf : store_wf (st_db example_store).
Proof.
  unfold example_store.
  assert (forall p s, store_wf (st_db s) -> store_wf (st_db (snd (example_put p s)))) as H.
  { intros p s Hwf. unfold example_put. destruct (put _ _ _ _ s) as [r s'] eqn:E.
    eapply store_wf_effect; [exact Hwf|]. apply store_step_effect. by eapply step_put. }
  do 3 apply H. apply store_wf_empty.
Qed.

Lemma put_all_or_nothing_witness : exists value,
  is_reserved (mkSecretPath "a/b") = false /\ Ok example_encrypted = Ok (E := CryptoError) value /\
  (forall row x, find_secret (mkSecretPath "a/b") (st_db example_store) = Some row ->
     x ∈ db_versions (st_db example_store) -> r_secret x = s_id row -> (r_version x < 3)%Z) /\
  (value_sized value ->
   fst (get (mkSecretPath "a/b") None (mkStore (st_db (snd (example_put "a/b" example_store))) []))
     = Ok (mkStoredVersion (mkSecretPath "a/b") (mkVersion 3) value 7 "writer")).
Proof.
  apply (put_all_or_nothing (mkSecretPath "a/b") "writer" None (fun _ => Ok example_encrypted) 7
    example_store (Ok (mkVersion 3)) (snd (example_put "a/b" example_store)) example_store_wf).
  vm_compute. reflexivity.
Defined.

Definition example_destroyed : Store := snd (destroy (mkSecretPath "a/b") (mkVersion 1) 9 example_store).

Lemma destroyed_is_final_witness :
  fst (get (mkSecretPath "a/b") (Some (mkVersion 1)) (mkStore (st_db example_destroyed) []))
    = Err (VersionDestroyed "a/b" (mkVersion 1)) /\
  forall row r, find_secret (mkSecretPath "a/b") (st_db example_destroyed) = Some row ->
    find_version (s_id row) (mkVersion 1) (st_db example_destroyed) = Some r -> r_wrapped_dek r = [].
Proof.
  apply (destroyed_is_final (mkSecretPath "a/b") (mkVersion 1) 9 example_store example_destroyed
    (st_db example_destroyed) example_store_wf); [vm_compute; reflexivity|apply rtc_refl].
Defined.

Definition example_deleted : Store := snd (delete (mkSecretPath "a/b") (mkVersion 2) 9 example_store).
Definition example_undeleted : Store := snd (undelete (mkSecretPath "a/b") (mkVersion 2) example_deleted).

Lemma undelete_restores_witness :
  fst (get (mkSecretPath "a/b") (Some (mkVersion 2)) (mkStore (st_db example_deleted) []))
    = Err (VersionDeleted "a/b" (mkVersion 2)) /\
  fst (get (mkSecretPath "a/b") (Some (mkVersion 2)) (mkStore (st_db example_undeleted) []))
    = Ok (mkStoredVersion (mkSecretPath "a/b") (mkVersion 2) example_encrypted 7 "writer").
Proof.
  apply (undelete_restores (mkSecretPath "a/b") (mkVersion 2) 9 example_store _ _ _ example_store_wf);
    vm_compute; reflexivity.
Defined.

Lemma list_paths_is_subtree_witness :
  exists l, fst (list_paths (U := ascii_unicode) (Some (mkSecretPath "a/b")) (mkStore (st_db example_store) [])) = Ok l /\
    NoDup l /\ Sorted (fun p q => str_leb (path_str p) (path_str q) = true) l /\
    forall p, p ∈ l <->
      path_str p ∈ map s_path (db_secrets (st_db example_store)) /\
      path_starts_with p (mkSecretPath "a/b") = true.
Proof.
  apply (list_paths_is_subtree (U := ascii_unicode) (Some (mkSecretPath "a/b")) (st_db example_store)
    example_store_wf).
  intros s Hs. vm_compute in Hs.
  repeat (apply elem_of_cons in Hs as [->|Hs]; [vm_compute; reflexivity|]). by apply elem_of_nil in Hs.
Defined.

(** A full disk at the third statement of a write leaves nothing behind. *)
Example put_rolls_back :
  put (mkSecretPath "a/b") "writer" (fun _ => Ok example_encrypted) 7
    (mkStore db_empty [None; None; None; Some "disk full"])
  = (Err (Sqlite (SqlOther "disk full")), mkStore db_empty []).
Proof. vm_compute. reflexivity. Qed.
