(* ===== verification/Tokens.v ===== *)
(** * Tokens in the store ([ciphr-store/src/tokens.rs])

    Issuing, authenticating, listing and revoking.  [authenticate] is an option:
    [None] is the panic of [Token::parse] on a text with a character cut in two,
    which no header value the server accepts contains. *)

From Stdlib Require Import ZArith NArith Lia Ascii String.
From stdpp Require Import base tactics list strings gmap.
From S2P Require Import Prelude Text Hex Path Vocabulary Crypto Token Db Store.

(** [ [0; 32] ] *)
Definition ABSENT_VERIFIER : bytes := zeroed 32.

Record Authenticated : Type := mkAuthenticated { auth_identity : string; auth_token_id : string }.

Inductive TokenPurpose : Type := Credential_ | Honeypot_.

Inductive Authentication : Type :=
| Valid (a : Authenticated)
| Invalid
| Bait (token_id identity : string).

Record TokenRecord : Type := mkTokenRecord {
  tr_token_id : string;
  tr_identity : string;
  tr_created_at : Z;
  tr_created_by : string;
  tr_expires_at : option Z;
  tr_last_used_at : option Z;
  tr_revoked_at : option Z;
  tr_honeypot : bool;
}.

(** [revoked_at.is_none() && expires_at.is_none_or(|expiry| expiry > now)] *)
Definition is_usable_at (t : TokenRecord) (now : Z) : bool :=
  is_none (tr_revoked_at t) &&
  match tr_expires_at t with None => true | Some expiry => (now <? expiry)%Z end.

Inductive TokenState : Type := StateValid | StateExpired | StateRevoked.

Definition state_at (t : TokenRecord) (now : Z) : TokenState :=
  if negb (is_none (tr_revoked_at t)) then StateRevoked
  else if match tr_expires_at t with None => false | Some expiry => (expiry <=? now)%Z end
  then StateExpired else StateValid.

Definition token_state_str (s : TokenState) : string :=
  match s with StateValid => "valid" | StateExpired => "expired" | StateRevoked => "revoked" end.

Definition token_record (r : TokenRow) : TokenRecord :=
  mkTokenRecord (t_token_id r) (t_identity r) (t_created_at r) (t_created_by r) (t_expires_at r)
    (t_last_used_at r) (t_revoked_at r) (negb (t_honeypot r =? 0)%Z).

(** [WHERE token_id = ?1] *)
Definition has_token_id (token_id : string) (r : TokenRow) : bool := String.eqb (t_token_id r) token_id.
Definition find_token (token_id : string) (d : Db) : option TokenRow :=
  List.find (has_token_id token_id) (db_tokens d).

Definition token (token_id : string) : store_m (option TokenRecord) :=
  sql_read (fun d => token_record <$> find_token token_id d).

(** [INSERT INTO tokens]; the key is the token id. *)
Definition insert_token (row : TokenRow) : store_m unit :=
  sql (fun d =>
    if existsb (has_token_id (t_token_id row)) (db_tokens d)
    then Err (SqlConstraint "UNIQUE constraint failed: tokens.token_id")
    else Ok (tt, set_tokens (db_tokens d ++ [row]) d)).

Definition update_tokens (p : TokenRow -> bool) (f : TokenRow -> TokenRow) : store_m Z :=
  sql_change (fun d => let '(n, l) := update_where p f (db_tokens d) in (n, set_tokens l d)).

Definition set_last_used (now : Z) (r : TokenRow) : TokenRow :=
  mkTokenRow (t_token_id r) (t_identity r) (t_verifier r) (t_created_at r) (t_created_by r)
    (t_expires_at r) (Some now) (t_revoked_at r) (t_honeypot r).
Definition set_revoked (now : Z) (r : TokenRow) : TokenRow :=
  mkTokenRow (t_token_id r) (t_identity r) (t_verifier r) (t_created_at r) (t_created_by r)
    (t_expires_at r) (t_last_used_at r) (Some now) (t_honeypot r).
(** [COALESCE(revoked_at, ?2)] *)
Definition set_revoked_once (now : Z) (r : TokenRow) : TokenRow :=
  set_revoked (match t_revoked_at r with Some t => t | None => now end) r.

Definition verifier_for (token_id : string) : store_m (option TokenVerifier) :=
  let! stored := sql_read (fun d => t_verifier <$> find_token token_id d) in
  match stored with
  | None => mret None
  | Some text =>
      let! v := mlift (map_err (fun _ => Corrupt "a stored token verifier is not readable")
                         (verifier_from_hex text)) in
      mret (Some v)
  end.

(** [ORDER BY created_at DESC, token_id] *)
Definition token_leb (a b : TokenRow) : bool :=
  (t_created_at b <? t_created_at a)%Z ||
  ((t_created_at a =? t_created_at b)%Z && str_leb (t_token_id a) (t_token_id b)).

Definition tokens (identity : option string) : store_m (list TokenRecord) :=
  sql_read (fun d =>
    map token_record (sort_by token_leb (List.filter (fun r =>
      match identity with None => true | Some name => String.eqb (t_identity r) name end) (db_tokens d)))).

Definition revoke_token (token_id : string) (now : Z) : store_m bool :=
  let! changed := update_tokens (fun r => has_token_id token_id r && is_none (t_revoked_at r))
                    (set_revoked now) in
  if (0 <? changed)%Z then mret true
  else
    let! found := token token_id in
    match found with
    | Some _ => mret false
    | None => mfail (TokenNotFound token_id)
    end.

Definition revoke_identity_tokens (identity : string) (now : Z) : store_m Z :=
  update_tokens (fun r => String.eqb (t_identity r) identity && is_none (t_revoked_at r))
    (set_revoked_once now).

Section mac.
Context {M : Mac}.

Definition issue_token (identity : string) (t : Token) (pepper : TokenPepper) (created_by : string)
    (expires_at : option Z) (purpose : TokenPurpose) (now : Z) : store_m unit :=
  insert_token (mkTokenRow (TokenId_as_text (token_id t)) identity
    (verifier_to_hex (token_verifier t pepper)) now created_by expires_at None None
    (match purpose with Honeypot_ => 1 | Credential_ => 0 end)%Z).

(** After the token parsed. *)
Definition authenticate_token (t : Token) (pepper : TokenPepper) (now : Z) : store_m Authentication :=
  let! record := token (TokenId_as_text (token_id t)) in
  let! stored := match record with
                 | Some record => verifier_for (tr_token_id record)
                 | None => mret None
                 end in
  let expected := match stored with Some v => v | None => mkTokenVerifier ABSENT_VERIFIER end in
  let matched := verifier_matches expected (token_verifier t pepper) in
  match record with
  | None => mret Invalid
  | Some record =>
      if negb matched then mret Invalid
      else if tr_honeypot record then mret (Bait (tr_token_id record) (tr_identity record))
      else if negb (is_usable_at record now) then mret Invalid
      else
        let! _ := mtry (F := StoreError)
                    (update_tokens (has_token_id (tr_token_id record)) (set_last_used now)) in
        mret (Valid (mkAuthenticated (tr_identity record) (tr_token_id record)))
  end.

Definition authenticate (presented : string) (pepper : TokenPepper) (now : Z)
    : option (store_m Authentication) :=
  match Token_parse presented with
  | None => None
  | Some (Err _) => Some (mret Invalid)
  | Some (Ok t) => Some (authenticate_token t pepper now)
  end.

(** ** Lemmas *)

Lemma verifier_hex_round v : length (verifier_bytes v) = 32%nat -> verifier_from_hex (verifier_to_hex v) = Ok v.
Proof.
  intros H. unfold verifier_from_hex, verifier_to_hex, fixed_from_hex.
  rewrite hex_decode_into_encode by by rewrite H. by destruct v.
Qed.

Lemma find_token_Some id d row : find_token id d = Some row -> row ∈ db_tokens d /\ t_token_id row = id.
Proof.
  intros H. apply List.find_some in H as [H1 H2%String.eqb_eq]. by rewrite list_elem_of_In.
Qed.

Lemma verifier_matches_true a b : verifier_matches a b = true <-> verifier_bytes a = verifier_bytes b.
Proof. apply bool_decide_eq_true. Qed.

(** What the rows say about a token, without the order of the checks. *)
Definition row_accepts (d : Db) (t : Token) (pepper : TokenPepper) (row : TokenRow) : Prop :=
  find_token (TokenId_as_text (token_id t)) d = Some row /\
  exists v, verifier_from_hex (t_verifier row) = Ok v /\
    verifier_bytes v = hmac_sha256 (pepper_bytes pepper) (token_secret t).

Lemma authenticate_token_Ok t pepper now s a s' :
  authenticate_token t pepper now s = (Ok a, s') ->
  match a with
  | Valid a => exists row, row_accepts (st_db s) t pepper row /\ t_honeypot row = 0%Z /\
      t_revoked_at row = None /\ (forall e, t_expires_at row = Some e -> (now < e)%Z) /\
      a = mkAuthenticated (t_identity row) (t_token_id row)
  | Bait id identity => exists row, row_accepts (st_db s) t pepper row /\ t_honeypot row <> 0%Z /\
      id = t_token_id row /\ identity = t_identity row
  | Invalid => st_db s' = st_db s
  end.
Proof.
  unfold authenticate_token. intros H. apply mbind_Ok in H as (record & s1 & [-> E1]%sql_read_Ok & H).
  destruct (find_token (TokenId_as_text (token_id t)) (st_db s)) as [row|] eqn:Hf; simpl in H.
  2: { apply mbind_Ok in H as (o & s2 & [-> ->]%mret_Ok & H). by apply mret_Ok in H as [-> ->]. }
  apply mbind_Ok in H as (stored & s2 & Hv & H).
  unfold verifier_for in Hv. apply mbind_Ok in Hv as (text & s3 & [-> E3]%sql_read_Ok & Hv).
  pose proof (find_token_Some _ _ _ Hf) as [Hin Hid]. rewrite E1, Hid, Hf in Hv. simpl in Hv.
  apply mbind_Ok in Hv as (v & s4 & [Hv4 ->]%mlift_Ok & [-> ->]%mret_Ok). apply map_err_Ok in Hv4.
  assert (st_db s3 = st_db s) as E4 by by rewrite E3.
  destruct (verifier_matches v _) eqn:Hm; simpl in H; [|by apply mret_Ok in H as [-> ->]].
  apply verifier_matches_true in Hm.
  assert (row_accepts (st_db s) t pepper row) as Hacc by (split; [done|by exists v]).
  destruct (Z.eqb_spec (t_honeypot row) 0) as [Eh|Hne]; simpl in H.
  2: { apply mret_Ok in H as [-> ->]. by exists row. }
  destruct (is_usable_at (token_record row) now) eqn:Hu; simpl in H; [|by apply mret_Ok in H as [-> ->]].
  apply mbind_Ok in H as (u & s5 & _ & [-> ->]%mret_Ok). exists row.
  unfold is_usable_at in Hu. simpl in Hu. apply andb_true_iff in Hu as [Hr He].
  split_and!; [done|done|by destruct (t_revoked_at row)| |done].
  intros e Hee. rewrite Hee in He. lia.
Qed.

(** The only rows a token call changes are those of [tokens]; revocations are
    never taken back and identities and verifiers never change. *)
Definition tokens_grow (d d' : Db) : Prop :=
  forall r, r ∈ db_tokens d -> exists r', r' ∈ db_tokens d' /\ t_token_id r' = t_token_id r /\
    t_identity r' = t_identity r /\ t_verifier r' = t_verifier r /\ t_honeypot r' = t_honeypot r /\
    t_expires_at r' = t_expires_at r /\ (is_Some (t_revoked_at r) -> is_Some (t_revoked_at r')).

#[export] Instance tokens_grow_preorder : PreOrder (fun s s' : Db => tokens_grow s s').
Proof.
  split.
  - intros d r Hr. exists r. by split_and!.
  - intros d1 d2 d3 H1 H2 r Hr. destruct (H1 r Hr) as (r2 & Hr2 & E1 & E2 & E3 & E4 & E5 & E6).
    destruct (H2 r2 Hr2) as (r3 & Hr3 & F1 & F2 & F3 & F4 & F5 & F6). exists r3.
    split_and!; [done|congruence..|auto].
Qed.

(** One call that changes tokens, with any outcome. *)
Inductive token_step : Db -> Db -> Prop :=
| tstep_issue identity t pepper by_ expires purpose now s r s' :
    issue_token identity t pepper by_ expires purpose now s = (r, s') -> token_step (st_db s) (st_db s')
| tstep_authenticate t pepper now s r s' :
    authenticate_token t pepper now s = (r, s') -> token_step (st_db s) (st_db s')
| tstep_revoke id now s r s' :
    revoke_token id now s = (r, s') -> token_step (st_db s) (st_db s')
| tstep_revoke_identity identity now s r s' :
    revoke_identity_tokens identity now s = (r, s') -> token_step (st_db s) (st_db s').

Definition tokens_wf (d : Db) : Prop := NoDup (map t_token_id (db_tokens d)).

(** A change of token rows that takes nothing back. *)
Definition keeps_tokens (g : TokenRow -> TokenRow) : Prop :=
  forall r, t_token_id (g r) = t_token_id r /\ t_identity (g r) = t_identity r /\
    t_verifier (g r) = t_verifier r /\ t_honeypot (g r) = t_honeypot r /\
    t_expires_at (g r) = t_expires_at r /\ (is_Some (t_revoked_at r) -> is_Some (t_revoked_at (g r))).

Lemma map_keeps d g : keeps_tokens g ->
  tokens_grow d (set_tokens (map g (db_tokens d)) d) /\
  (tokens_wf d -> tokens_wf (set_tokens (map g (db_tokens d)) d)).
Proof.
  intros Hg. split.
  - intros r Hr. exists (g r). split; [|apply Hg]. apply elem_of_map. by exists r.
  - unfold tokens_wf. simpl. rewrite map_map. intros Hnd.
    rewrite (map_ext _ t_token_id); [done|]. intros r. apply Hg.
Qed.

Lemma update_tokens_inv (p : TokenRow -> bool) (f : TokenRow -> TokenRow) s r s' :
  keeps_tokens (fun x => if p x then f x else x) -> update_tokens p f s = (r, s') ->
  tokens_grow (st_db s) (st_db s') /\ (tokens_wf (st_db s) -> tokens_wf (st_db s')) /\
  forall n, r = Ok n -> n = Z.of_nat (length (List.filter p (db_tokens (st_db s)))) /\
    db_tokens (st_db s') = map (fun x => if p x then f x else x) (db_tokens (st_db s)).
Proof.
  intros Hk H. destruct r as [n|e].
  - apply sql_change_Ok in H. simpl in H. injection H as Hn Hs. rewrite Hs.
    destruct (map_keeps (st_db s) _ Hk) as [Hg Hw]. split_and!; [done|done|].
    intros ? [= <-]. by split.
  - apply sql_Err in H. rewrite H. split_and!; [reflexivity|done|done].
Qed.

Lemma last_used_keeps (p : TokenRow -> bool) now : keeps_tokens (fun r => if p r then set_last_used now r else r).
Proof. intros r. destruct (p r); by split_and!. Qed.
Lemma revoked_keeps (p : TokenRow -> bool) now : keeps_tokens (fun r => if p r then set_revoked now r else r).
Proof. intros r. destruct (p r); split_and!; try done; by eexists. Qed.
Lemma revoked_once_keeps (p : TokenRow -> bool) now :
  keeps_tokens (fun r => if p r then set_revoked_once now r else r).
Proof. intros r. destruct (p r); split_and!; try done; by eexists. Qed.

Lemma token_reads id : reads_only (token id).
Proof. apply reads_only_sql. Qed.
#[local] Hint Resolve token_reads : ciphr.

Lemma reads_tokens identity : reads_only (tokens identity).
Proof. unfold tokens. reads. Qed.

Lemma authenticate_token_effect t pepper now s r s' :
  authenticate_token t pepper now s = (r, s') ->
  tokens_grow (st_db s) (st_db s') /\ (tokens_wf (st_db s) -> tokens_wf (st_db s')).
Proof.
  assert (forall s', st_db s' = st_db s ->
    tokens_grow (st_db s) (st_db s') /\ (tokens_wf (st_db s) -> tokens_wf (st_db s'))) as Hsame.
  { intros s1 ->. split; [reflexivity|done]. }
  unfold authenticate_token. intros [(record & s1 & [E1 _]%sql_read_spec & H)|(e & [E1 _]%sql_read_spec & _)]%mbind_inv;
    [|by apply Hsame].
  assert (forall o, reads_only (match o with Some record => verifier_for (tr_token_id record) | None => mret None end))
    as Hreads by (intros [rec|]; unfold verifier_for; reads).
  apply mbind_inv in H as [(stored & s2 & E2%Hreads & H)|(e & E2%Hreads & _)]; simpl in E2.
  2: { apply Hsame. congruence. }
  assert (st_db s2 = st_db s) as E by congruence.
  destruct record as [record|]; [|injection H as _ <-; by apply Hsame].
  destruct (negb _); [injection H as _ <-; by apply Hsame|].
  destruct (tr_honeypot record); [injection H as _ <-; by apply Hsame|].
  destruct (negb _); [injection H as _ <-; by apply Hsame|].
  unfold mbind, mtry in H. destruct (update_tokens _ _ s2) as [ru s3] eqn:Hu. injection H as _ <-.
  apply update_tokens_inv in Hu as (Hg & Hw & _); [|apply last_used_keeps]. by rewrite E in Hg, Hw.
Qed.

Lemma token_step_inv d d' : token_step d d' -> tokens_grow d d' /\ (tokens_wf d -> tokens_wf d').
Proof.
  intros [identity t pepper by_ expires purpose now s r s' H|t pepper now s r s' H|id now s r s' H
    |identity now s r s' H].
  - destruct r as [u|e].
    + unfold issue_token, insert_token in H. apply sql_Ok in H.
      destruct (existsb _ _) eqn:Hex; [done|]. injection H as _ <-. split.
      * intros x Hx. exists x. split_and!; try done. simpl. apply elem_of_app. by left.
      * unfold tokens_wf. simpl. rewrite map_app. simpl. intros Hnd. apply NoDup_app_one; [done|].
        intros (x & E & Hx)%elem_of_map.
        assert (existsb (has_token_id (TokenId_as_text (token_id t))) (db_tokens (st_db s)) = true) as Ht.
        { apply List.existsb_exists. exists x. rewrite <- list_elem_of_In. split; [done|].
          unfold has_token_id. by rewrite <- E, String.eqb_refl. }
        simpl in Hex. rewrite Ht in Hex. discriminate Hex.
    + apply sql_Err in H. rewrite H. split; [reflexivity|done].
  - by eapply authenticate_token_effect.
  - unfold revoke_token in H. apply mbind_inv in H as [(n & s1 & H1 & H)|(e & H1 & _)];
      apply update_tokens_inv in H1 as (Hg & Hw & _); try apply revoked_keeps; [|done].
    assert (st_db s' = st_db s1) as ->; [|done].
    destruct (0 <? n)%Z; [by injection H as _ <-|].
    apply mbind_inv in H as [(o & s2 & H2%token_reads & H)|(e & H2%token_reads & _)]; [|done].
    destruct o; by injection H as _ <-.
  - unfold revoke_identity_tokens in H.
    apply update_tokens_inv in H as (Hg & Hw & _); [done|apply revoked_once_keeps].
Qed.

(** Where the identity has no token that stands, there is nothing to do. *)
Lemma revoke_identity_nothing identity now s found s0 :
  fst (tokens (Some identity) s0) = Ok found -> st_db s0 = st_db s ->
  List.filter (fun record => is_none (tr_revoked_at record)) found = [] ->
  st_db (snd (revoke_identity_tokens identity now s)) = st_db s.
Proof.
  destruct (tokens (Some identity) s0) as [r s0'] eqn:Ht. cbn [fst]. intros -> Hs Hnone.
  apply sql_read_Ok in Ht as [-> _]. rewrite Hs in Hnone.
  destruct (revoke_identity_tokens identity now s) as [[n|e] s'] eqn:Hr; cbn [snd];
    [|by apply sql_Err in Hr].
  apply sql_change_Ok in Hr. injection Hr as _ ->.
  assert (map (fun x => if String.eqb (t_identity x) identity && is_none (t_revoked_at x)
                        then set_revoked_once now x else x) (db_tokens (st_db s)) = db_tokens (st_db s)) as ->.
  { rewrite <- (map_id (db_tokens (st_db s))) at 2. apply map_ext_in. intros x Hx.
    destruct (String.eqb (t_identity x) identity && is_none (t_revoked_at x)) eqn:Hb; [|done].
    apply andb_true_iff in Hb as [Hi Hn]. exfalso.
    enough (token_record x ∈ ([] : list TokenRecord)) as Hin by by apply elem_of_nil in Hin.
    rewrite <- Hnone. apply list_elem_of_In, List.filter_In. split; [|done].
    apply in_map_iff. exists x. split; [done|]. apply list_elem_of_In. rewrite sort_by_perm.
    apply list_elem_of_In, List.filter_In. by split. }
  by destruct (st_db s).
Qed.

Definition revoked_in (id : string) (d : Db) : Prop :=
  exists r, r ∈ db_tokens d /\ t_token_id r = id /\ is_Some (t_revoked_at r).

Lemma revoke_Ok id now s b s' : revoke_token id now s = (Ok b, s') -> revoked_in id (st_db s').
Proof.
  unfold revoke_token. intros H. apply mbind_Ok in H as (n & s1 & H1 & H).
  apply update_tokens_inv in H1 as (_ & _ & Hn); [|apply revoked_keeps].
  destruct (Hn n eq_refl) as [En Et]. clear Hn.
  destruct (Z.ltb_spec 0 n) as [Hpos|Hz].
  - apply mret_Ok in H as [_ ->].
    destruct (List.filter (fun r => has_token_id id r && is_none (t_revoked_at r)) (db_tokens (st_db s)))
      as [|x l] eqn:Hl; [simpl in En; lia|].
    assert (x ∈ List.filter (fun r => has_token_id id r && is_none (t_revoked_at r)) (db_tokens (st_db s)))
      as Hx by (rewrite Hl; left).
    apply list_elem_of_In, List.filter_In in Hx as [Hx Hp]. exists (set_revoked now x). split_and!.
    + rewrite Et. apply elem_of_map. exists x. rewrite Hp. split; [done|]. by apply list_elem_of_In.
    + simpl. apply andb_true_iff in Hp as [Hp%String.eqb_eq _]. done.
    + by eexists.
  - apply mbind_Ok in H as (o & s2 & [-> E2]%sql_read_Ok & H).
    destruct (find_token id (st_db s1)) as [row|] eqn:Hf; [|done]. apply mret_Ok in H as [_ ->].
    apply find_token_Some in Hf as [Hin Hid]. exists row. rewrite E2. split_and!; [done|done|].
    rewrite Et in Hin. apply elem_of_map in Hin as (x & -> & Hx).
    destruct (has_token_id id x && is_none (t_revoked_at x)) eqn:Hp; [by eexists|].
    unfold has_token_id in Hp. rewrite Hid, String.eqb_refl in Hp. simpl in Hp.
    by destruct (t_revoked_at x).
Qed.

(** ** Properties *)

(** C24: On a working connection whose stored verifiers can be read, authentication
    decides exactly this: a credential is accepted when its token is known, the
    keyed hash of its secret is the stored one, it is not bait, not revoked and
    not expired; bait that matches is reported as bait; everything else is
    invalid, and only an accepted credential changes anything. *)
Theorem authenticate_correct d presented t pepper now :
  Token_parse presented = Some (Ok t) ->
  (forall row, row ∈ db_tokens d -> is_ok (verifier_from_hex (t_verifier row)) = true) ->
  exists m a s', authenticate presented pepper now = Some m /\ m (mkStore d []) = (Ok a, s') /\
    match a with
    | Valid a => exists row, row_accepts d t pepper row /\ t_honeypot row = 0%Z /\
        t_revoked_at row = None /\ (forall e, t_expires_at row = Some e -> (now < e)%Z) /\
        a = mkAuthenticated (t_identity row) (t_token_id row)
    | Bait id identity => exists row, row_accepts d t pepper row /\ t_honeypot row <> 0%Z /\
        id = t_token_id row /\ identity = t_identity row
    | Invalid => st_db s' = d /\ forall row, row_accepts d t pepper row ->
        t_honeypot row = 0%Z /\ (t_revoked_at row <> None \/
        exists e, t_expires_at row = Some e /\ (e <= now)%Z)
    end.
Proof.
  intros Hp Hread. unfold authenticate. rewrite Hp.
  exists (authenticate_token t pepper now).
  destruct (authenticate_token t pepper now (mkStore d [])) as [r s'] eqn:Hrun.
  assert (exists a, r = Ok a /\ (a = Invalid -> forall row, row_accepts d t pepper row ->
     t_honeypot row = 0%Z /\ (t_revoked_at row <> None \/ exists e, t_expires_at row = Some e /\ (e <= now)%Z)))
    as (a & -> & Hinv).
  { revert Hrun. unfold authenticate_token, mbind at 1, token. rewrite sql_read_clean.
    destruct (find_token (TokenId_as_text (token_id t)) d) as [row|] eqn:Hf; simpl.
    2: { intros [= <- <-]. exists Invalid. split; [done|]. intros _ row [Hrow _]. congruence. }
    pose proof (find_token_Some _ _ _ Hf) as [Hin Hid]. specialize (Hread _ Hin).
    destruct (verifier_from_hex (t_verifier row)) as [v|] eqn:Hv; [|done].
    unfold verifier_for, mbind at 1 2 3. rewrite sql_read_clean, Hid, Hf. simpl. rewrite Hv. simpl.
    assert (forall row', row_accepts d t pepper row' -> row' = row /\ verifier_matches v (token_verifier t pepper) = true) as Hacc.
    { intros row' [Hf' (v' & Hv' & Hb)]. rewrite Hf in Hf'. injection Hf' as <-. split; [done|].
      rewrite Hv in Hv'. injection Hv' as <-. by apply verifier_matches_true. }
    destruct (verifier_matches v _) eqn:Hm; simpl.
    2: { intros [= <- <-]. exists Invalid. split; [done|]. intros _ row' [_ ?]%Hacc. congruence. }
    destruct (Z.eqb_spec (t_honeypot row) 0) as [Eh|]; simpl; [|intros [= <- <-]; by eexists].
    destruct (is_usable_at (token_record row) now) eqn:Hu; simpl.
    - intros [= <- <-]. by eexists.
    - intros [= <- <-]. exists Invalid. split; [done|]. intros _ row' [-> _]%Hacc. split; [done|].
      unfold is_usable_at in Hu. simpl in Hu. apply andb_false_iff in Hu as [Hu|Hu].
      + left. by destruct (t_revoked_at row).
      + right. destruct (t_expires_at row) as [e|]; [|done]. exists e. split; [done|]. lia. }
  exists a, s'. split_and!; [done|done|].
  pose proof (authenticate_token_Ok _ _ _ _ _ _ Hrun) as H. destruct a; try exact H. by split; auto.
Qed.

(** A revoked token is never accepted again, whatever calls follow. *)
Theorem revoked_is_final id now s b s' d :
  tokens_wf (st_db s) -> revoke_token id now s = (Ok b, s') -> rtc token_step (st_db s') d ->
  forall t pepper now' s1 a s2, st_db s1 = d ->
    authenticate_token t pepper now' s1 = (Ok (Valid a), s2) -> auth_token_id a <> id.
Proof.
  intros Hwf Hr Hsteps t pepper now' s1 a s2 Hd Ha.
  assert (tokens_wf (st_db s')) as Hwf'.
  { eapply (token_step_inv (st_db s)); [by eapply tstep_revoke|done]. }
  apply revoke_Ok in Hr.
  assert (tokens_wf d /\ revoked_in id d) as [Hwd (r & R1 & R2 & R3)].
  { clear Hwf Hd. induction Hsteps as [x|x y z Hxy%token_step_inv _ IH]; [done|].
    destruct Hxy as [Hg Hw]. apply IH; [|by apply Hw].
    destruct Hr as (r & R1 & R2 & R3). destruct (Hg r R1) as (r' & G1 & G2 & _ & _ & _ & _ & G3).
    exists r'. split_and!; [done|congruence|auto]. }
  apply authenticate_token_Ok in Ha as (row & [Hf _] & _ & Hnone & _ & ->). rewrite Hd in Hf. simpl.
  intros E. apply find_token_Some in Hf as [Hin _].
  assert (r = row) as -> by (apply (NoDup_map_inj t_token_id (db_tokens d)); [done|done|done|congruence]).
  rewrite Hnone in R3. by destruct R3.
Qed.

(** A token that was issued authenticates as its identity until it expires. *)
Theorem issued_token_authenticates {ML : MacLaws M} d identity t pepper by_ expires now later s' :
  token_wf t ->
  issue_token identity t pepper by_ expires Credential_ now (mkStore d []) = (Ok tt, s') ->
  (forall e, expires = Some e -> (later < e)%Z) ->
  exists m s2, authenticate (expose_text t) pepper later = Some m /\
    m (mkStore (st_db s') []) =
      (Ok (Valid (mkAuthenticated identity (TokenId_as_text (token_id t)))), s2).
Proof.
  intros Hwf Hi Hexp. unfold authenticate.
  assert (Token_parse (expose_text t) = Some (Ok t)) as -> by by apply token_parse_expose_text.
  unfold issue_token, insert_token in Hi. apply sql_Ok in Hi. simpl in Hi.
  destruct (existsb _ _) eqn:Hex; [done|]. injection Hi as Hs.
  set (row := mkTokenRow _ _ _ _ _ _ _ _ _) in Hs.
  assert (find_token (TokenId_as_text (token_id t)) (st_db s') = Some row) as Hf.
  { rewrite <- Hs. unfold find_token. simpl. clear Hs. induction (db_tokens d) as [|x l IH]; simpl in *.
    - unfold has_token_id. simpl. by rewrite String.eqb_refl.
    - apply orb_false_iff in Hex as [-> Hex]. by apply IH. }
  eexists. eexists. split; [done|]. unfold authenticate_token, mbind, token.
  rewrite sql_read_clean, Hf. simpl. unfold verifier_for, mbind. rewrite sql_read_clean, Hf. simpl.
  rewrite verifier_hex_round by apply hmac_length. simpl.
  rewrite (proj2 (verifier_matches_true _ _)) by done. simpl.
  assert (is_usable_at (token_record row) later = true) as ->.
  { unfold is_usable_at. simpl. destruct expires as [e|]; [|done]. apply Z.ltb_lt. by apply Hexp. }
  simpl. reflexivity.
Qed.
End mac.

(** ** Witnesses *)

Definition toy_mac : Mac := fun k m => take 32 (m ++ k ++ zeroed 32).
Lemma toy_mac_laws : MacLaws toy_mac.
Proof.
  intros k m. unfold hmac_sha256, toy_mac. rewrite length_take, !length_app.
    change (length (zeroed 32)) with 32%nat. lia.
Qed.

Definition example_token : Token := mkToken (mkTokenId (zeroed 6)) (repeat "s"%char 32).
Definition example_token_id : string := TokenId_as_text (token_id example_token).
Definition example_pepper : TokenPepper := mkTokenPepper (repeat "p"%char 32).
Definition example_issued : Store :=
  snd (issue_token (M := toy_mac) "deploy-runner" example_token example_pepper "admin" (Some 100%Z)
         Credential_ 1 (mkStore db_empty [])).

Lemma issued_token_authenticates_witness :
  exists m s2, authenticate (M := toy_mac) (expose_text example_token) example_pepper 50 = Some m /\
    m (mkStore (st_db example_issued) []) =
      (Ok (Valid (mkAuthenticated "deploy-runner" example_token_id)), s2).
Proof.
  apply (issued_token_authenticates (ML := toy_mac_laws) db_empty "deploy-runner" example_token
    example_pepper "admin" (Some 100%Z) 1 50 example_issued).
  - split; reflexivity.
  - vm_compute. reflexivity.
  - intros e [= <-]. lia.
Defined.

Definition example_revoked : Store := snd (revoke_token example_token_id 60 example_issued).

(** Another token of the same identity, issued after the revocation. *)
Definition example_second : Token := mkToken (mkTokenId (repeat "t"%char 6)) (repeat "u"%char 32).
Definition example_reissued : Store :=
  snd (issue_token (M := toy_mac) "deploy-runner" example_second example_pepper "admin" None Credential_ 61
         example_revoked).
Definition example_accepted : Authenticated :=
  mkAuthenticated "deploy-runner" (TokenId_as_text (token_id example_second)).

Lemma revoked_is_final_witness :
  fst (authenticate_token (M := toy_mac) example_second example_pepper 70 example_reissued) =
    Ok (Valid example_accepted) /\
  auth_token_id example_accepted <> example_token_id.
Proof.
  assert (fst (authenticate_token (M := toy_mac) example_second example_pepper 70 example_reissued) =
    Ok (Valid example_accepted)) as E by (vm_compute; reflexivity).
  split; [exact E|].
  destruct (authenticate_token (M := toy_mac) example_second example_pepper 70 example_reissued) as [r s2] eqn:Ha.
  simpl in E. rewrite E in Ha.
  refine (revoked_is_final (M := toy_mac) example_token_id 60 example_issued true example_revoked
    (st_db example_reissued) _ _ _ example_second example_pepper 70 example_reissued _ s2 eq_refl Ha).
  - apply (bool_decide_unpack _). vm_compute. exact I.
  - vm_compute. reflexivity.
  - apply rtc_once. eapply (tstep_issue (M := toy_mac) "deploy-runner" example_second example_pepper "admin" None
      Credential_ 61 example_revoked). apply surjective_pairing.
Defined.

Lemma authenticate_correct_witness :
  exists m a s', authenticate (M := toy_mac) (expose_text example_token) example_pepper 200 = Some m /\
    m (mkStore (st_db example_issued) []) = (Ok a, s') /\
    match a with
    | Valid a => exists row, row_accepts (M := toy_mac) (st_db example_issued) example_token example_pepper row /\
        t_honeypot row = 0%Z /\ t_revoked_at row = None /\
        (forall e, t_expires_at row = Some e -> (200 < e)%Z) /\
        a = mkAuthenticated (t_identity row) (t_token_id row)
    | Bait id identity => exists row,
        row_accepts (M := toy_mac) (st_db example_issued) example_token example_pepper row /\
        t_honeypot row <> 0%Z /\ id = t_token_id row /\ identity = t_identity row
    | Invalid => st_db s' = st_db example_issued /\ forall row,
        row_accepts (M := toy_mac) (st_db example_issued) example_token example_pepper row ->
        t_honeypot row = 0%Z /\ (t_revoked_at row <> None \/
        exists e, t_expires_at row = Some e /\ (e <= 200)%Z)
    end.
Proof.
  apply (authenticate_correct (M := toy_mac)).
  - vm_compute. reflexivity.
  - intros row Hrow. vm_compute in Hrow. apply elem_of_cons in Hrow as [->|Hrow];
      [vm_compute; reflexivity|by apply elem_of_nil in Hrow].
Defined.

(** The same token once it has expired. *)
Example expired_token_invalid :
  (fun m => fst (m (mkStore (st_db example_issued) []))) <$>
    authenticate (M := toy_mac) (expose_text example_token) example_pepper 200 = Some (Ok Invalid).
Proof. vm_compute. reflexivity. Qed.
