(* ===== verification/Honeypots.v ===== *)
(** * Bait and the tripwire ([ciphr-store/src/honeypots.rs])

    Bait is a secret with a tier or a token with a flag; a trip is a row that
    stays open until it is cleared.  One open trip per piece of bait is a
    constraint of the schema, and [latch_trip] is idempotent because of it. *)

From Stdlib Require Import ZArith NArith Lia Ascii String.
From stdpp Require Import base tactics list strings gmap.
From S2P Require Import Prelude Text Hex Path Vocabulary Crypto Token Db Store Tokens.

Inductive HoneypotTier : Type := TierAlert.
Definition tier_str (t : HoneypotTier) : string := match t with TierAlert => "alert" end.

Definition HoneypotTier_parse (text : string) : result StoreError HoneypotTier :=
  if String.eqb text "alert" then Ok TierAlert
  else Err (Corrupt ("unknown honeypot tier " ++ str_debug text ++ "; only 'alert' is built")).

Inductive BaitKind : Type := BaitSecret | BaitToken.
Definition bait_kind_str (k : BaitKind) : string :=
  match k with BaitSecret => "secret" | BaitToken => "token" end.

Record Honeypot : Type := mkHoneypot {
  h_kind : BaitKind;
  h_path : option string;
  h_token_id : option string;
  h_identity : option string;
  h_tier : HoneypotTier;
  h_tripped : bool;
}.

Record Trip : Type := mkTrip {
  trip_at : Z;
  trip_kind : BaitKind;
  trip_path : option string;
  trip_token_id : option string;
  trip_identity : option string;
  trip_tier : HoneypotTier;
  trip_cleared_at : option Z;
}.

(** [UPDATE secrets SET honeypot_tier = ?2 WHERE path = ?1] *)
Definition set_honeypot (path : SecretPath) (tier : option HoneypotTier) : store_m unit :=
  let! changed := sql_change (fun d =>
    let '(n, l) := update_where (fun r => String.eqb (s_path r) (path_str path))
      (fun r => mkSecretRow (s_id r) (s_path r) (s_current r) (s_rotation r) (s_created_at r)
                  (s_updated_at r) (option_map tier_str tier)) (db_secrets d) in
    (n, set_secrets l d)) in
  if (changed =? 0)%Z then mfail (NotFound (path_str path)) else mret tt.

Definition honeypot_tier (path : SecretPath) : store_m (option HoneypotTier) :=
  let! stored := sql_read (fun d => s_tier <$> find_secret path d) in
  match stored with
  | Some (Some text) => let! tier := mlift (HoneypotTier_parse text) in mret (Some tier)
  | _ => mret None
  end.

(** The reference of a trip row of a kind: the path or the token id. *)
Definition trip_reference (kind : BaitKind) (w : TripRow) : option string :=
  match kind with BaitSecret => w_path w | BaitToken => w_token_id w end.

(** [kind = ?1 AND {column} = ?2 AND cleared_at IS NULL] *)
Definition is_open_trip (kind : BaitKind) (reference : string) (w : TripRow) : bool :=
  String.eqb (w_kind w) (bait_kind_str kind) && bool_decide (trip_reference kind w = Some reference) &&
  is_none (w_cleared_at w).

Definition has_open_trip (kind : BaitKind) (reference : string) (d : Db) : bool :=
  existsb (is_open_trip kind reference) (db_trips d).

(** The two queries of [honeypots], each with its rows decoded as they arrive. *)
Definition honeypot_secrets (d : Db) : list SecretRow :=
  sort_by (fun a b => str_leb (s_path a) (s_path b))
    (List.filter (fun r => negb (is_none (s_tier r))) (db_secrets d)).
Definition honeypot_tokens (d : Db) : list TokenRow :=
  sort_by token_leb (List.filter (fun r => (t_honeypot r =? 1)%Z) (db_tokens d)).

Definition honeypots : store_m (list Honeypot) :=
  let! rows := sql_read (fun d =>
    map (fun r => (s_path r, default EmptyString (s_tier r), has_open_trip BaitSecret (s_path r) d))
      (honeypot_secrets d)) in
  let! secrets := mlift (res_mapM (fun '(path, tier, tripped) =>
    let? tier := HoneypotTier_parse tier in
    Ok (mkHoneypot BaitSecret (Some path) None None tier tripped)) rows) in
  let! toks := sql_read (fun d =>
    map (fun r => mkHoneypot BaitToken None (Some (t_token_id r)) (Some (t_identity r)) TierAlert
                    (has_open_trip BaitToken (t_token_id r) d))
      (honeypot_tokens d)) in
  mret (secrets ++ toks).

(** [INSERT INTO tripwire]: refused by a partial unique index while a trip of the
    same kind and reference is open. *)
Definition insert_trip (kind : BaitKind) (reference : string) (identity : option string)
    (tier : HoneypotTier) (now : Z) : store_m unit :=
  sql (fun d =>
    if has_open_trip kind reference d
    then Err (SqlConstraint "UNIQUE constraint failed")
    else
      let '(path, token_id) :=
        match kind with BaitSecret => (Some reference, None) | BaitToken => (None, Some reference) end in
      Ok (tt, set_trips (db_trips d ++
           [mkTripRow (next_id (map w_id (db_trips d))) now (bait_kind_str kind) path token_id identity
              (tier_str tier) None]) d)).

Definition trip_is_open (kind : BaitKind) (reference : string) : store_m bool :=
  sql_read (has_open_trip kind reference).

Definition latch_trip (kind : BaitKind) (reference : string) (identity : option string)
    (tier : HoneypotTier) (now : Z) : store_m bool :=
  let! outcome := mtry (insert_trip kind reference identity tier now) in
  match outcome with
  | Ok _ => mret true
  | Err (Sqlite (SqlConstraint _)) =>
      let! open := trip_is_open kind reference in
      if (open : bool) then mret false
      else mfail (Sqlite (SqlConstraint "a tripwire row was refused and no trip is open"))
  | Err other => mfail other
  end.

Definition BaitKind_of (kind : string) : result StoreError BaitKind :=
  if String.eqb kind "secret" then Ok BaitSecret
  else if String.eqb kind "token" then Ok BaitToken
  else Err (Corrupt ("unknown tripwire kind " ++ str_debug kind)).

Definition trip_of (w : TripRow) : result StoreError Trip :=
  let? kind := BaitKind_of (w_kind w) in
  let? tier := HoneypotTier_parse (w_tier w) in
  Ok (mkTrip (w_tripped_at w) kind (w_path w) (w_token_id w) (w_identity w) tier (w_cleared_at w)).

(** [ORDER BY tripped_at DESC, id DESC] *)
Definition trip_leb (a b : TripRow) : bool :=
  ((w_tripped_at b <? w_tripped_at a) ||
   ((w_tripped_at a =? w_tripped_at b) && (w_id b <=? w_id a)))%Z.

Definition open_rows (d : Db) : list TripRow :=
  List.filter (fun w => is_none (w_cleared_at w)) (db_trips d).

Definition open_trips : store_m (list Trip) :=
  let! rows := sql_read (fun d => sort_by trip_leb (open_rows d)) in
  mlift (res_mapM trip_of rows).

Definition open_trip_count : store_m Z := sql_read (fun d => Z.of_nat (length (open_rows d))).

Definition set_cleared (now : Z) (w : TripRow) : TripRow :=
  mkTripRow (w_id w) (w_tripped_at w) (w_kind w) (w_path w) (w_token_id w) (w_identity w) (w_tier w)
    (Some now).

Definition clear_trips (now : Z) : store_m Z :=
  sql_change (fun d =>
    let '(n, l) := update_where (fun w => is_none (w_cleared_at w)) (set_cleared now) (db_trips d) in
    (n, set_trips l d)).

(** ** Lemmas *)

Definition trip_row (kind : BaitKind) (reference : string) (identity : option string) (id now : Z) : TripRow :=
  match kind with
  | BaitSecret => mkTripRow id now "secret" (Some reference) None identity "alert" None
  | BaitToken => mkTripRow id now "token" None (Some reference) identity "alert" None
  end.

Lemma insert_trip_spec kind reference identity tier now s r s' :
  insert_trip kind reference identity tier now s = (r, s') ->
  match r with
  | Ok _ => has_open_trip kind reference (st_db s) = false /\
      st_db s' = set_trips (db_trips (st_db s) ++
        [trip_row kind reference identity (next_id (map w_id (db_trips (st_db s)))) now]) (st_db s)
  | Err (Sqlite (SqlConstraint _)) => st_db s' = st_db s /\ has_open_trip kind reference (st_db s) = true
  | Err _ => st_db s' = st_db s
  end.
Proof.
  unfold insert_trip, sql. destruct (st_faults s) as [|[e|] fs]; [|by intros [= <- <-]|];
    (destruct (has_open_trip kind reference (st_db s)) eqn:Ho; [by intros [= <- <-]|]);
    destruct kind, tier; by intros [= <- <-].
Qed.

Lemma trip_row_open kind reference identity id now : is_open_trip kind reference (trip_row kind reference identity id now) = true.
Proof.
  unfold is_open_trip. destruct kind; simpl; by rewrite bool_decide_eq_true_2.
Qed.

(** At most one open trip for each piece of bait. *)
Definition trips_wf (d : Db) : Prop :=
  forall kind reference, (length (List.filter (is_open_trip kind reference) (db_trips d)) <= 1)%nat.

Lemma open_other kind reference identity id now kind' reference' :
  is_open_trip kind' reference' (trip_row kind reference identity id now) = true ->
  kind' = kind /\ reference' = reference.
Proof.
  unfold is_open_trip. destruct kind, kind'; simpl; rewrite ?andb_true_r; try done;
    intros [= E]%bool_decide_eq_true; by split.
Qed.

Lemma filter_none {A} (p : A -> bool) l : existsb p l = false -> List.filter p l = [].
Proof.
  induction l as [|x l IH]; simpl; [done|]. intros [-> H]%orb_false_iff. by apply IH.
Qed.

(** ** Properties *)

(** A trip latches once.  [true] means this call opened it, [false] that it was
    open already and nothing changed; an error changes nothing.  After either
    answer the trip is open, and no call ever opens a second one. *)
Theorem latch_trip_once kind reference identity tier now s r s' :
  trips_wf (st_db s) -> latch_trip kind reference identity tier now s = (r, s') ->
  trips_wf (st_db s') /\
  match r with
  | Ok true => has_open_trip kind reference (st_db s) = false /\
      has_open_trip kind reference (st_db s') = true
  | Ok false => st_db s' = st_db s /\ has_open_trip kind reference (st_db s) = true
  | Err _ => st_db s' = st_db s
  end.
Proof.
  intros Hwf. unfold latch_trip, mbind at 1, mtry.
  destruct (insert_trip kind reference identity tier now s) as [ri s1] eqn:Hi.
  apply insert_trip_spec in Hi. destruct ri as [u|[| | | | | | | | | | | | | | | [m|m] | | |]];
    try (intros [= <- <-]; rewrite Hi; by split).
  - destruct Hi as [Ho Hs]. intros [= <- <-]. split.
    + intros k ref. rewrite Hs. simpl. rewrite List.filter_app, length_app. simpl.
      destruct (is_open_trip k ref _) eqn:Hk; simpl; [|rewrite Nat.add_0_r; apply Hwf].
      apply open_other in Hk as [-> ->]. unfold has_open_trip in Ho. rewrite filter_none by done. simpl. lia.
    + split; [done|]. unfold has_open_trip. rewrite Hs. simpl. rewrite existsb_app. simpl.
      by rewrite trip_row_open, !orb_true_r.
  - destruct Hi as [Hs Ho]. unfold mbind, trip_is_open.
    destruct (sql_read _ s1) as [ro s2] eqn:Hr. apply sql_read_spec in Hr as [E2 Hro].
    rewrite Hs in E2, Hro. destruct ro as [b|e]; [|intros [= <- <-]; rewrite E2; by split].
    specialize (Hro b eq_refl). rewrite Ho in Hro. subst b. intros [= <- <-]. rewrite E2. by split.
Qed.

(** Clearing closes every open trip and says how many there were. *)
Theorem clear_trips_closes_all now s n s' :
  clear_trips now s = (Ok n, s') ->
  n = Z.of_nat (length (open_rows (st_db s))) /\ open_rows (st_db s') = [] /\
  length (db_trips (st_db s')) = length (db_trips (st_db s)).
Proof.
  intros H. apply sql_change_Ok in H. simpl in H. injection H as -> ->. simpl.
  rewrite length_map. split_and!; [done| |done]. unfold open_rows. simpl.
  induction (db_trips (st_db s)) as [|w l IH]; simpl; [done|].
  destruct (is_none (w_cleared_at w)) eqn:E; simpl; [done|]. by rewrite E.
Qed.

Lemma latch_trip_once_witness :
  let s := mkStore db_empty [] in
  let s' := snd (latch_trip BaitSecret "a/b" (Some "eve") TierAlert 5 s) in
  trips_wf (st_db s') /\ has_open_trip BaitSecret "a/b" (st_db s) = false /\
  has_open_trip BaitSecret "a/b" (st_db s') = true.
Proof.
  apply (latch_trip_once BaitSecret "a/b" (Some "eve") TierAlert 5 (mkStore db_empty []) (Ok true)).
  - intros k r. simpl. lia.
  - vm_compute. reflexivity.
Defined.

Lemma clear_trips_closes_all_witness :
  let s := snd (latch_trip BaitToken "id" None TierAlert 5 (mkStore db_empty [])) in
  let s' := snd (clear_trips 6 s) in
  1%Z = Z.of_nat (length (open_rows (st_db s))) /\ open_rows (st_db s') = [] /\
  length (db_trips (st_db s')) = length (db_trips (st_db s)).
Proof. apply (clear_trips_closes_all 6). vm_compute. reflexivity. Defined.
