(* ===== verification/Migrations.v ===== *)
(** * Opening and upgrading a database ([ciphr-store]: migrations.rs, sqlite.rs)

    A file of an older version is brought up migration by migration, each in one
    transaction with the marker that records it.  [brought] says what a database of
    one version is at a later one, and the theorem says that whatever statement
    fails, what is left is the old database brought to some version.  A table that a
    version does not have yet is an empty table of the model ([schema_ok]). *)

From Stdlib Require Import ZArith NArith Lia Ascii String.
From stdpp Require Import base tactics list strings gmap.
From S2P Require Import Prelude Text Vocabulary Crypto Archive Db Store.

Local Open Scope Z_scope.

(** ** The migrations *)

Record Migration : Type := mkMigration {
  mg_version : Z;
  mg_name : string;
  mg_sql : Db -> Db;
}.

Definition set_schema (v : Z) (d : Db) : Db :=
  mkDb (db_meta d) (db_secrets d) (db_versions d) (db_tokens d) (db_trips d) (db_log d) (db_cuts d) v.

Definition init_sql (d : Db) : Db := set_versions [] (set_secrets [] (set_meta ∅ d)).
Definition audit_sql (d : Db) : Db := set_log [] d.
Definition tokens_sql (d : Db) : Db := set_tokens [] d.
Definition audit_cut_sql (d : Db) : Db := set_cuts [] d.

(** Only [rotatable] is rewritten: it was the default nobody chose. *)
Definition unclassify (r : SecretRow) : SecretRow :=
  mkSecretRow (s_id r) (s_path r) (s_current r)
    (if String.eqb (s_rotation r) "rotatable" then "unclassified" else s_rotation r)
    (s_created_at r) (s_updated_at r) (s_tier r).
Definition rotation_sql (d : Db) : Db := set_secrets (map unclassify (db_secrets d)) d.

Definition without_tier (r : SecretRow) : SecretRow :=
  mkSecretRow (s_id r) (s_path r) (s_current r) (s_rotation r) (s_created_at r) (s_updated_at r) None.
Definition not_bait (r : TokenRow) : TokenRow :=
  mkTokenRow (t_token_id r) (t_identity r) (t_verifier r) (t_created_at r) (t_created_by r) (t_expires_at r)
    (t_last_used_at r) (t_revoked_at r) 0.
Definition honeypots_sql (d : Db) : Db :=
  set_trips [] (set_tokens (map not_bait (db_tokens d)) (set_secrets (map without_tier (db_secrets d)) d)).

Definition MIGRATIONS : list Migration :=
  [mkMigration 1 "init" init_sql; mkMigration 2 "audit" audit_sql; mkMigration 3 "tokens" tokens_sql;
   mkMigration 4 "audit_cut" audit_cut_sql; mkMigration 5 "rotation_unclassified" rotation_sql;
   mkMigration 6 "honeypots" honeypots_sql].

(** [PRAGMA user_version], read as a [u32]. *)
Definition user_version : store_m Z :=
  let! found := sql_read db_schema in
  mlift (ok_or (Sqlite (SqlOther "integer out of range")) (u32_try_from found)).

Definition migration_failed (m : Migration) (e : StoreError) : StoreError :=
  match e with Sqlite source => MigrationFailed (mg_version m) (mg_name m) source | other => other end.

Definition migrate_one (m : Migration) : store_m unit :=
  transaction (
    let! _ := mmap_err (migration_failed m) (sql (fun d => Ok (tt, mg_sql m d))) in
    sql (fun d => Ok (tt, set_schema (mg_version m) d))).

Definition apply_migrations : store_m unit :=
  let! current := user_version in
  if SCHEMA_VERSION <? current then mfail (SchemaTooNew current SCHEMA_VERSION)
  else mfor (List.filter (fun m => current <? mg_version m) MIGRATIONS) migrate_one.

(** ** Connections (sqlite.rs) *)

(** A setting of the connection: it changes no table. *)
Definition pragma : store_m unit := sql_read (fun _ => tt).

Definition prepare_connection : store_m unit :=
  let! _ := pragma in
  let! _ := pragma in
  let! _ := pragma in
  let! _ := pragma in
  apply_migrations.

(** The file is checked and not upgraded. *)
Definition prepare_read_only : store_m unit :=
  let! _ := pragma in
  let! found := user_version in
  if SCHEMA_VERSION <? found then mfail (SchemaTooNew found SCHEMA_VERSION) else mret tt.

(** ** Backing up (sqlite.rs)

    [VACUUM INTO] writes one new file.  A file of a volume is a database, what its
    mode says, and what [PRAGMA integrity_check] says of it.  A call that
    fails may leave something where nothing was. *)

Record SqlFile : Type := mkSqlFile { sf_db : Db; sf_mode : Z; sf_integrity : string }.
Record VolFault : Type := mkVolFault { vf_error : string; vf_leaves : option SqlFile }.
Record Volume : Type := mkVolume {
  vol_files : gmap string SqlFile;
  (** the mode of a new file, and whether the file system keeps a mode it is given *)
  vol_umask : Z;
  vol_keeps_modes : bool;
  vol_faults : list (option VolFault);
}.

Definition vol_with (files : gmap string SqlFile) (faults : list (option VolFault)) (v : Volume) : Volume :=
  mkVolume files (vol_umask v) (vol_keeps_modes v) faults.

(** One call: a fault may leave a file at [path] when there was none. *)
Definition vol_call {A} (path : string) (m : gmap string SqlFile -> result string (A * gmap string SqlFile))
    : stm Volume string A :=
  fun v =>
    match vol_faults v with
    | Some f :: fs =>
        (Err (vf_error f),
         vol_with (match vol_files v !! path, vf_leaves f with
                   | None, Some leftover => <[path := leftover]> (vol_files v)
                   | _, _ => vol_files v
                   end) fs v)
    | fs =>
        match m (vol_files v) with
        | Ok (a, files) => (Ok a, vol_with files (tail fs) v)
        | Err e => (Err e, vol_with (vol_files v) (tail fs) v)
        end
    end.

Definition vol_read {A} (path : string) (f : SqlFile -> A) : stm Volume string A :=
  vol_call path (fun files => match files !! path with
                              | Some file => Ok (f file, files)
                              | None => Err "No such file or directory"
                              end).

Record BackupReport : Type := mkBackupReport { br_bytes : Z; br_schema_version : Z }.

Section backup.
(** How large a file is. *)
Context (file_size : SqlFile -> Z).

(** It refuses to overwrite. *)
Definition vacuum_into (d : Db) (target : string) : stm Volume string unit :=
  fun v => vol_call target (fun files =>
    match files !! target with
    | Some _ => Err "output file already exists"
    | None => Ok (tt, <[target := mkSqlFile d (vol_umask v) "ok"]> files)
    end) v.

Definition set_permissions (path : string) (mode : Z) : stm Volume string unit :=
  fun v => vol_call path (fun files =>
    match files !! path with
    | None => Err "No such file or directory"
    | Some file =>
        Ok (tt, <[path := mkSqlFile (sf_db file) (if vol_keeps_modes v then mode else sf_mode file) (sf_integrity file)]> files)
    end) v.

Definition restrict_to_owner (destination : string) : stm Volume StoreError unit :=
  let! _ := mmap_err (fun error => StoreIo ("the backup at " ++ destination
              ++ " was written but its permissions could not be set to owner-only: " ++ error))
              (set_permissions destination 384) in
  let! mode := mmap_err (fun error => StoreIo ("cannot read back the permissions of " ++ destination ++ ": " ++ error))
                 (vol_read destination sf_mode) in
  if negb (Z.land mode 63 =? 0)
  then mfail (StoreIo ("the backup at " ++ destination ++ " is mode " ++ octal_padded 4 (Z.land mode 4095)
    ++ " and not owner-only. A store file holds the secret inventory, the writer identities and the audit trail in plaintext, so this destination is not somewhere it may be written -- a filesystem that does not carry Unix modes cannot hold a backup safely"))
  else mret tt.

(** [Path::parent], without the empty one. *)
Definition named_parent (path : string) : option string :=
  match parent_and_name path with
  | Some (parent, _) => if is_empty parent then None else Some parent
  | None => None
  end.

Definition destination_refused (exists_ : bool) (destination : string) (error : string) : StoreError :=
  if exists_ then Sqlite (SqlOther error)
  else match named_parent destination with
       | Some parent => StoreIo ("the backup could not be written to " ++ destination ++ ": " ++ error
           ++ ". The destination is the thing to check, not the store: " ++ parent
           ++ " has to exist and be writable by the uid running this command")
       | None => Sqlite (SqlOther error)
       end.

(** The error is told from the volume as the failed call left it. *)
Definition vacuum_checked (d : Db) (destination : string) : stm Volume StoreError unit :=
  fun v => let '(r, v') := vacuum_into d destination v in
           (map_err (destination_refused (negb (is_none (vol_files v' !! destination))) destination) r, v').

Definition sqlite_call {A} (m : stm Volume string A) : stm Volume StoreError A :=
  mmap_err (fun e => Sqlite (SqlOther e)) m.

Definition copy_checked (destination : string) (source_schema : Z) : stm Volume StoreError BackupReport :=
  let! written := mmap_err (fun error => StoreIo ("cannot measure " ++ destination ++ ": " ++ error))
                    (vol_read destination file_size) in
  let! copy := sqlite_call (vol_read destination (fun file => file)) in
  let! integrity := sqlite_call (vol_read destination (fun _ => sf_integrity copy)) in
  if negb (String.eqb integrity "ok")
  then mfail (StoreIo ("the backup at " ++ destination ++ " failed its integrity check: " ++ integrity))
  else
    let! schema := sqlite_call (vol_read destination (fun _ => db_schema (sf_db copy))) in
    if negb (schema =? source_schema)
    then mfail (StoreIo ("the backup at " ++ destination ++ " has schema version " ++ dec schema ++ ", the source has "
                  ++ dec source_schema))
    else mret (mkBackupReport written schema).

(** The source is a connection that reads. *)
Definition backup_into (source : Store) (destination : string) : stm Volume StoreError BackupReport :=
  match user_version source with
  | (Err e, _) => mfail e
  | (Ok source_schema, source) =>
      let! _ := vacuum_checked (st_db source) destination in
      let! _ := restrict_to_owner destination in
      copy_checked destination source_schema
  end.
End backup.

(** ** What a database of one version is at a later one *)

(** No version has rows of a table that came later. *)
Record schema_ok (d : Db) : Prop := {
  ok_range : 0 <= db_schema d <= u32_max;
  ok_meta : db_schema d < 1 -> db_meta d = ∅ /\ db_secrets d = [] /\ db_versions d = [];
  ok_log : db_schema d < 2 -> db_log d = [];
  ok_tokens : db_schema d < 3 -> db_tokens d = [];
  ok_cuts : db_schema d < 4 -> db_cuts d = [];
  ok_trips : db_schema d < 6 -> db_trips d = [];
}.

(** Does an upgrade from the one version to the other pass this migration. *)
Definition passes (from to migration : Z) : bool := (from <? migration) && (migration <=? to).

Definition brought_secret (from to : Z) (r : SecretRow) : SecretRow :=
  mkSecretRow (s_id r) (s_path r) (s_current r)
    (if passes from to 5 && String.eqb (s_rotation r) "rotatable" then "unclassified" else s_rotation r)
    (s_created_at r) (s_updated_at r) (if passes from to 6 then None else s_tier r).

Definition brought_token (from to : Z) (r : TokenRow) : TokenRow :=
  mkTokenRow (t_token_id r) (t_identity r) (t_verifier r) (t_created_at r) (t_created_by r) (t_expires_at r)
    (t_last_used_at r) (t_revoked_at r) (if passes from to 6 then 0 else t_honeypot r).

(** Everything but the two new columns and the default nobody chose is as it was. *)
Definition brought (to : Z) (d : Db) : Db :=
  mkDb (db_meta d) (map (brought_secret (db_schema d) to) (db_secrets d)) (db_versions d)
    (map (brought_token (db_schema d) to) (db_tokens d)) (db_trips d) (db_log d) (db_cuts d) to.

Definition step_of (m : Migration) (d : Db) : Db := set_schema (mg_version m) (mg_sql m d).

Lemma passes_none from migration : passes from from migration = false.
Proof. unfold passes. destruct (Z.ltb_spec from migration), (Z.leb_spec migration from); simpl; lia || done. Qed.

Lemma brought_here d : brought (db_schema d) d = d.
Proof.
  unfold brought, brought_secret, brought_token. rewrite !passes_none. destruct d as [me se ve to tr lo cu sc]. simpl.
  f_equal; (etrans; [|apply map_id]); apply map_ext; by intros [].
Qed.

Lemma map_same {A} (f : A -> A) l : (forall x, f x = x) -> map f l = l.
Proof. intros Hf. rewrite <- (map_id l) at 2. by apply map_ext. Qed.

(** One more migration: what it does is what the reference says. *)
Lemma brought_step m d : schema_ok d -> m ∈ MIGRATIONS -> db_schema d = mg_version m - 1 ->
  step_of m d = brought (mg_version m) d.
Proof.
  intros [_ Hmeta Hlog Htokens Hcuts Htrips] Hm Hs. destruct d as [me se ve to tr lo cu sc]. simpl in *. subst sc.
  unfold MIGRATIONS in Hm. repeat (apply elem_of_cons in Hm as [->|Hm]); [..|by apply elem_of_nil in Hm];
    simpl in *; repeat match goal with Hx : _ < _ -> _ |- _ => first [specialize (Hx ltac:(lia))|clear Hx] end;
    repeat match goal with Hx : _ /\ _ |- _ => destruct Hx end; subst;
    unfold step_of, brought, set_schema; simpl; f_equal;
    first [done | symmetry; apply map_same; by intros [] | apply map_ext; by intros []].
Qed.

Lemma brought_trans a d to : db_schema d <= a -> a <= to -> brought to (brought a d) = brought to d.
Proof.
  intros Ha Hto. unfold brought. simpl. rewrite !map_map. f_equal; apply map_ext; intros r;
    unfold brought_secret, brought_token; simpl; unfold passes; f_equal.
  - destruct (Z.ltb_spec (db_schema d) 5), (Z.leb_spec 5 a), (Z.ltb_spec a 5), (Z.leb_spec 5 to); simpl; try lia;
      destruct (String.eqb (s_rotation r) "rotatable") eqn:E; simpl; rewrite ?E; done.
  - destruct (Z.ltb_spec (db_schema d) 6), (Z.leb_spec 6 a), (Z.ltb_spec a 6), (Z.leb_spec 6 to); simpl; done || lia.
  - destruct (Z.ltb_spec (db_schema d) 6), (Z.leb_spec 6 a), (Z.ltb_spec a 6), (Z.leb_spec 6 to); simpl; done || lia.
Qed.

Lemma brought_ok to d : schema_ok d -> db_schema d <= to <= u32_max -> schema_ok (brought to d).
Proof.
  intros [Hr Hmeta Hlog Htokens Hcuts Htrips] Hto. split; simpl; [lia|..]; intros Hlt;
    try (by (apply Hlog || apply Hcuts || apply Htrips; lia)).
  - destruct Hmeta as (-> & -> & ->); [lia|done].
  - rewrite Htokens by lia. done.
Qed.

(** ** One migration, and all of them *)

Lemma migrate_one_spec m s r s' : migrate_one m s = (r, s') ->
  match r with Ok _ => st_db s' = step_of m (st_db s) | Err _ => st_db s' = st_db s end.
Proof.
  intros Hr. unfold migrate_one in Hr. destruct r as [[]|e]; [|by apply transaction_Err in Hr].
  apply transaction_Ok in Hr as (s1 & s2 & H1 & Hb & H2). rewrite H2. apply mbind_Ok in Hb as ([] & s3 & Hx & Hy).
  apply mmap_err_Ok in Hx. apply sql_Ok in Hx, Hy. injection Hx as Hx. injection Hy as Hy.
  by rewrite <- Hy, <- Hx, H1.
Qed.

(** Consecutive, from the version of the database on. *)
Inductive follow_on : Z -> list Migration -> Prop :=
| follow_nil v : follow_on v []
| follow_cons v m l : mg_version m = v + 1 -> m ∈ MIGRATIONS -> follow_on (v + 1) l -> follow_on v (m :: l).

Lemma follow_on_from v : 0 <= v -> follow_on v (List.filter (fun m => v <? mg_version m) MIGRATIONS).
Proof.
  intros Hv. destruct (Z.le_gt_cases SCHEMA_VERSION v) as [Hle|Hlt]; unfold SCHEMA_VERSION in *.
  - enough (List.filter (fun m => v <? mg_version m) MIGRATIONS = []) as -> by constructor.
    unfold MIGRATIONS. simpl. by rewrite !(proj2 (Z.ltb_ge _ _)) by lia.
  - assert (v = 0 \/ v = 1 \/ v = 2 \/ v = 3 \/ v = 4 \/ v = 5) as Hc by lia.
    repeat destruct Hc as [->|Hc]; [..|subst v]; simpl;
      repeat (constructor; [done|unfold MIGRATIONS; set_solver|]); constructor.
Qed.

Lemma migrate_all l s r s' : follow_on (db_schema (st_db s)) l -> schema_ok (st_db s) ->
  db_schema (st_db s) + Z.of_nat (length l) <= u32_max -> mfor l migrate_one s = (r, s') ->
  exists v, db_schema (st_db s) <= v <= db_schema (st_db s) + Z.of_nat (length l) /\
    st_db s' = brought v (st_db s) /\ (is_ok r = true <-> v = db_schema (st_db s) + Z.of_nat (length l)).
Proof.
  revert s. induction l as [|m l IH]; intros s Hl Hok Hmax Hr; simpl in *.
  - injection Hr as <- <-. exists (db_schema (st_db s)). split_and!; [lia|lia|by rewrite brought_here|]. split; [lia|done].
  - inversion Hl as [|? ? ? Hv Hm Hl']; subst. unfold mbind in Hr. destruct (migrate_one m s) as [[[]|e] s1] eqn:E;
      apply migrate_one_spec in E.
    + assert (st_db s1 = brought (mg_version m) (st_db s)) as E1 by (rewrite E; apply brought_step; [done|done|lia]).
      assert (db_schema (st_db s1) = db_schema (st_db s) + 1) as Es by (rewrite E1; exact Hv).
      destruct (IH s1) as (v & Hv1 & Hd & Hiff); [by rewrite Es| |lia|done|].
      { rewrite E1. apply brought_ok; [done|]. lia. }
      exists v. split_and!; [lia|lia| |rewrite Hiff; lia]. rewrite Hd, E1. apply brought_trans; lia.
    + injection Hr as <- <-. exists (db_schema (st_db s)). split_and!; [lia|lia|by rewrite E, brought_here|].
      split; [done|lia].
Qed.

(** With nothing failing. *)
Lemma migrate_clean l s : st_faults s = [] -> exists s', mfor l migrate_one s = (Ok tt, s') /\ st_faults s' = [].
Proof.
  revert s. induction l as [|m l IH]; intros s Hs; simpl; [by exists s|].
  destruct s as [d fs]. simpl in Hs. subst fs. unfold mbind at 1. unfold migrate_one at 1, transaction, sql_read, sql, mmap_err, mbind.
  simpl. apply IH. done.
Qed.

Lemma after_pragma {A} (k : unit -> store_m A) s r s' : mbind pragma k s = (r, s') ->
  (st_db s' = st_db s /\ is_ok r = false /\ st_faults s <> []) \/
  exists s1, st_db s1 = st_db s /\ (st_faults s = [] -> st_faults s1 = []) /\ k tt s1 = (r, s').
Proof.
  unfold mbind, pragma, sql_read, sql. destruct (st_faults s) as [|[e|] fs]; intros Hk; [right|left|right].
  - eexists. split_and!; [| |exact Hk]; done.
  - by injection Hk as <- <-.
  - eexists. split_and!; [|done|exact Hk]. done.
Qed.

Lemma user_version_spec s r s' : schema_ok (st_db s) -> user_version s = (r, s') ->
  st_db s' = st_db s /\ forall v, r = Ok v -> v = db_schema (st_db s).
Proof.
  intros [Hr _ _ _ _ _] Hu. unfold user_version, mbind in Hu. destruct (sql_read db_schema s) as [[v|e] s1] eqn:E;
    apply sql_read_spec in E as [Hd Hv].
  - injection Hu as <- <-. split; [done|]. intros w Hw%ok_or_Ok. rewrite (Hv v eq_refl) in Hw.
    unfold u32_try_from in Hw. destruct (_ && _); [|done]. by injection Hw.
  - by injection Hu as <- <-.
Qed.

Lemma user_version_clean s : schema_ok (st_db s) -> st_faults s = [] ->
  user_version s = (Ok (db_schema (st_db s)), mkStore (st_db s) []).
Proof.
  intros [Hr _ _ _ _ _] Hf. unfold user_version, sql_read, sql, mbind, mlift. rewrite Hf. simpl. unfold u32_try_from.
  by rewrite (proj2 (Z.leb_le _ _)), (proj2 (Z.leb_le _ _)) by lia.
Qed.

Lemma apply_migrations_spec s r s' : schema_ok (st_db s) -> apply_migrations s = (r, s') ->
  exists v, st_db s' = brought v (st_db s) /\ db_schema (st_db s) <= v /\
    (is_ok r = true -> v = SCHEMA_VERSION) /\ (v = db_schema (st_db s) \/ v <= SCHEMA_VERSION).
Proof.
  intros Hok Hr. unfold apply_migrations in Hr. unfold mbind in Hr. destruct (user_version s) as [[c|e] s1] eqn:Hu;
    destruct (user_version_spec _ _ _ Hok Hu) as [Hd Hc].
  2: { injection Hr as <- <-. exists (db_schema (st_db s)). split_and!; [by rewrite brought_here|lia|done|by left]. }
  rewrite (Hc c eq_refl) in Hr. destruct (Z.ltb_spec SCHEMA_VERSION (db_schema (st_db s))) as [Hnew|Hle].
  { injection Hr as <- <-. exists (db_schema (st_db s)). split_and!; [by rewrite brought_here|lia|done|by left]. }
  pose proof (ok_range _ Hok) as Hrange. unfold SCHEMA_VERSION in *.
  assert (Z.of_nat (length (List.filter (fun m => db_schema (st_db s) <? mg_version m) MIGRATIONS)) = 6 - db_schema (st_db s)) as Hlen.
  { assert (db_schema (st_db s) = 0 \/ db_schema (st_db s) = 1 \/ db_schema (st_db s) = 2 \/ db_schema (st_db s) = 3 \/
      db_schema (st_db s) = 4 \/ db_schema (st_db s) = 5 \/ db_schema (st_db s) = 6) as Hcase by lia.
    by repeat destruct Hcase as [->|Hcase]; [..|rewrite Hcase]. }
  rewrite <- Hd in *. destruct (migrate_all _ _ _ _ (follow_on_from (db_schema (st_db s1)) ltac:(lia)) Hok
    ltac:(rewrite Hlen; unfold u32_max; lia) Hr) as (v & Hv & Hb & Hiff).
  exists v. rewrite Hlen in *. split_and!; [done|lia|intros Hx; apply Hiff in Hx; lia|right; lia].
Qed.

(** Every later version keeps the store's invariant. *)
Lemma brought_wf to d : store_wf d -> store_wf (brought to d).
Proof.
  intros [Hp Hi Hc Hr Hk Hv].
  assert (forall x, x ∈ db_secrets (brought to d) -> exists r, r ∈ db_secrets d /\ x = brought_secret (db_schema d) to r) as Hin.
  { intros x (r & -> & Hx)%list_elem_of_fmap. by exists r. }
  split; try (by (simpl; rewrite map_map)); try done.
  - intros s (r & Hx & ->)%Hin. by apply (Hc r).
  - intros s (r & Hx & ->)%Hin. simpl. destruct (_ && _); [exists Unclassified; done|by apply (Hr r)].
  - intros r Hx. destruct (Hv r Hx) as (s & Hs & Hrest). exists (brought_secret (db_schema d) to s).
    split; [by apply list_elem_of_fmap_2|exact Hrest].
Qed.

(** C20: opening a database of an older version, whatever statement fails: what is left
    is the old database brought to some version, with every row of it; a success
    means the current version; a newer database is refused as it is; and with
    nothing failing it succeeds. *)
Theorem upgrade_is_all_or_nothing s r s' : schema_ok (st_db s) -> prepare_connection s = (r, s') ->
  (exists v, st_db s' = brought v (st_db s) /\ db_schema (st_db s) <= v /\
    (is_ok r = true -> v = SCHEMA_VERSION) /\ (v = db_schema (st_db s) \/ v <= SCHEMA_VERSION)) /\
  (store_wf (st_db s) -> store_wf (st_db s')) /\
  (st_faults s = [] -> db_schema (st_db s) <= SCHEMA_VERSION -> r = Ok tt).
Proof.
  intros Hok Hr.
  enough ((exists v, st_db s' = brought v (st_db s) /\ db_schema (st_db s) <= v /\
    (is_ok r = true -> v = SCHEMA_VERSION) /\ (v = db_schema (st_db s) \/ v <= SCHEMA_VERSION)) /\
    (st_faults s = [] -> db_schema (st_db s) <= SCHEMA_VERSION -> r = Ok tt)) as [Hv Hclean].
  { split_and!; [done| |done]. intros Hwf. destruct Hv as (v & -> & _). by apply brought_wf. }
  assert (forall s1, st_db s1 = st_db s -> is_ok r = false -> st_faults s <> [] -> st_db s' = st_db s1 ->
    (exists v, st_db s' = brought v (st_db s) /\ db_schema (st_db s) <= v /\
    (is_ok r = true -> v = SCHEMA_VERSION) /\ (v = db_schema (st_db s) \/ v <= SCHEMA_VERSION)) /\
    (st_faults s = [] -> db_schema (st_db s) <= SCHEMA_VERSION -> r = Ok tt)) as Hstop.
  { intros s1 H1 Hf Hne Hs. split; [|done]. exists (db_schema (st_db s)). rewrite Hs, H1, brought_here, Hf.
    split_and!; [done|lia|done|by left]. }
  unfold prepare_connection in Hr.
  apply after_pragma in Hr as [(Hd & Hf & Hne)|(s1 & Hd1 & Hf1 & Hr)]; [by apply (Hstop s)|].
  apply after_pragma in Hr as [(Hd & Hf & Hne)|(s2 & Hd2 & Hf2 & Hr)]; [apply (Hstop s1); [congruence|done|tauto|done]|].
  apply after_pragma in Hr as [(Hd & Hf & Hne)|(s3 & Hd3 & Hf3 & Hr)]; [apply (Hstop s2); [congruence|done|tauto|done]|].
  apply after_pragma in Hr as [(Hd & Hf & Hne)|(s4 & Hd4 & Hf4 & Hr)]; [apply (Hstop s3); [congruence|done|tauto|done]|].
  assert (st_db s4 = st_db s) as E by congruence. rewrite <- E in *. split.
  - by apply apply_migrations_spec in Hr.
  - intros Hfs Hle. specialize (Hf4 (Hf3 (Hf2 (Hf1 Hfs)))). clear Hf1 Hf2 Hf3 Hstop.
    unfold apply_migrations, mbind in Hr. rewrite (user_version_clean _ Hok Hf4), (proj2 (Z.ltb_ge _ _)) in Hr by done.
    destruct (migrate_clean (List.filter (fun m => db_schema (st_db s4) <? mg_version m) MIGRATIONS)
      (mkStore (st_db s4) []) eq_refl) as (s5 & E5 & _). rewrite E5 in Hr. by injection Hr as <- _.
Qed.

(** ** Backups *)

(** A call at one path: no other file changes, and a file that was there stays. *)
Definition vol_keeps (path : string) (v v' : Volume) : Prop :=
  (forall other, other <> path -> vol_files v' !! other = vol_files v !! other) /\
  (forall file, vol_files v !! path = Some file -> vol_files v' !! path = Some file).

Lemma vol_call_spec {A} path (m : gmap string SqlFile -> result string (A * gmap string SqlFile)) v r v' :
  vol_call path m v = (r, v') ->
  match r with
  | Ok a => m (vol_files v) = Ok (a, vol_files v')
  | Err _ => vol_keeps path v v' /\ (is_Some (vol_files v !! path) -> vol_files v' = vol_files v)
  end.
Proof.
  unfold vol_call. destruct (vol_faults v) as [|[x|] fs].
  1,3: destruct (m (vol_files v)) as [[a files]|e]; intros [= <- <-]; done.
  intros [= <- <-]. destruct (vol_files v !! path) as [file|] eqn:E, (vf_leaves x) as [leftover|]; try done.
  split; [|by intros [? ?]]. split; simpl; [|by rewrite E]. intros other Ho. by rewrite lookup_insert_ne.
Qed.

(** What is read of a file that is there changes nothing. *)
Lemma vol_read_spec {A} path (f : SqlFile -> A) v r v' file :
  vol_files v !! path = Some file -> vol_read path f v = (r, v') ->
  vol_files v' = vol_files v /\ forall a, r = Ok a -> a = f file.
Proof.
  intros Hf Hr%vol_call_spec. destruct r as [a|e]; [|by destruct Hr as [_ ->]].
  rewrite Hf in Hr. injection Hr as -> <-. split; [done|]. by intros ? [= <-].
Qed.

Section backups.
Context (file_size : SqlFile -> Z).

Lemma mmap_err_read {A} path (f : SqlFile -> A) wrap v r v' file :
  vol_files v !! path = Some file -> mmap_err (F := StoreError) wrap (vol_read path f) v = (r, v') ->
  vol_files v' = vol_files v /\ forall a, r = Ok a -> a = f file.
Proof.
  intros Hf. unfold mmap_err. destruct (vol_read path f v) as [r0 v0] eqn:E. intros [= <- <-].
  destruct (vol_read_spec _ _ _ _ _ _ Hf E) as [-> Ha]. split; [done|]. intros a Hr%map_err_Ok. auto.
Qed.

Lemma restrict_spec destination v r v' file :
  vol_files v !! destination = Some file -> restrict_to_owner destination v = (r, v') ->
  exists mode, vol_files v' = <[destination := mkSqlFile (sf_db file) mode (sf_integrity file)]> (vol_files v) /\
    (is_ok r = true -> Z.land mode 63 = 0).
Proof.
  intros Hf Hr. unfold restrict_to_owner in Hr. unfold mbind at 1, mmap_err in Hr.
  destruct (set_permissions destination 384 v) as [r0 v0] eqn:E. apply vol_call_spec in E.
  destruct r0 as [[]|e]; simpl in Hr.
  2: { injection Hr as <- <-. destruct E as [_ E]. exists (sf_mode file). split; [|done].
       rewrite E by done. symmetry. apply insert_id. by destruct file. }
  rewrite Hf in E. injection E as E.
  assert (vol_files v0 !! destination = Some (mkSqlFile (sf_db file) (if vol_keeps_modes v then 384 else sf_mode file)
    (sf_integrity file))) as Hf0 by (rewrite <- E; apply lookup_insert_eq).
  exists (if vol_keeps_modes v then 384 else sf_mode file). rewrite E. clear E.
  unfold mbind in Hr. match type of Hr with (match ?c with _ => _ end = _) => destruct c as [r1 v1] eqn:E1 end.
  destruct (mmap_err_read _ _ _ _ _ _ _ Hf0 E1) as [<- Hm]. destruct r1 as [mode|e]; [|by injection Hr as <- <-].
  rewrite (Hm mode eq_refl) in Hr. simpl in Hr. destruct (Z.eqb_spec (Z.land (if vol_keeps_modes v then 384 else sf_mode file) 63) 0);
    by injection Hr as <- <-.
Qed.

Lemma copy_checked_spec destination schema v r v' file :
  vol_files v !! destination = Some file -> copy_checked file_size destination schema v = (r, v') ->
  vol_files v' = vol_files v /\ forall report, r = Ok report ->
    report = mkBackupReport (file_size file) schema /\ db_schema (sf_db file) = schema /\ sf_integrity file = "ok"%string.
Proof.
  intros Hf Hr. unfold copy_checked in Hr.
  unfold mbind in Hr at 1. match type of Hr with (match ?c with _ => _ end = _) => destruct c as [r1 v1] eqn:E1 end.
  destruct (mmap_err_read _ _ _ _ _ _ _ Hf E1) as [H1 Hm1]. rewrite <- H1 in Hf |- *.
  destruct r1 as [written|e]; [|by injection Hr as <- <-]. rewrite (Hm1 written eq_refl) in Hr. clear E1 H1 Hm1.
  unfold mbind in Hr at 1. match type of Hr with (match ?c with _ => _ end = _) => destruct c as [r2 v2] eqn:E2 end.
  destruct (mmap_err_read _ _ _ _ _ _ _ Hf E2) as [H2 Hm2]. rewrite <- H2 in Hf |- *.
  destruct r2 as [copy|e]; [|by injection Hr as <- <-]. rewrite (Hm2 copy eq_refl) in Hr. clear E2 H2 Hm2.
  unfold mbind in Hr at 1. match type of Hr with (match ?c with _ => _ end = _) => destruct c as [r3 v3] eqn:E3 end.
  destruct (mmap_err_read _ _ _ _ _ _ _ Hf E3) as [H3 Hm3]. rewrite <- H3 in Hf |- *.
  destruct r3 as [integrity|e]; [|by injection Hr as <- <-]. rewrite (Hm3 integrity eq_refl) in Hr. clear E3 H3 Hm3.
  destruct (String.eqb_spec (sf_integrity file) "ok") as [Hok|]; [|by injection Hr as <- <-]. simpl in Hr.
  unfold mbind in Hr. match type of Hr with (match ?c with _ => _ end = _) => destruct c as [r4 v4] eqn:E4 end.
  destruct (mmap_err_read _ _ _ _ _ _ _ Hf E4) as [H4 Hm4].
  destruct r4 as [found|e]; [|by injection Hr as <- <-]. rewrite (Hm4 found eq_refl) in Hr.
  destruct (Z.eqb_spec (db_schema (sf_db file)) schema) as [Hs|]; simpl in Hr; injection Hr as <- <-; split; try done.
  intros report [= <-]. by rewrite Hs.
Qed.

End backups.

(** ** A database of version 4, and a volume *)

Definition old_db : Db :=
  mkDb ∅ [mkSecretRow 1 "infra/db" 0 "rotatable" 7 7 None; mkSecretRow 2 "infra/key" 0 "seed-only" 7 7 None] [] []
    [] [mkLogRow 1 7 EmptyString EmptyString EmptyString] [] 4.

Lemma old_db_ok : schema_ok old_db.
Proof. split; simpl; try done; unfold u32_max; lia. Qed.

(** The disk is full in the last migration: the one before it is kept. *)
Definition full_in_the_last : Store := mkStore old_db (repeat None 10 ++ [Some "disk full"%string]).

Example stops_between :
  let '(r, s) := prepare_connection full_in_the_last in
  r = Err (MigrationFailed 6 "honeypots" (SqlOther "disk full")) /\ db_schema (st_db s) = 5 /\
  map s_rotation (db_secrets (st_db s)) = ["unclassified"; "seed-only"]%string.
Proof. vm_compute. done. Qed.

Lemma upgrade_is_all_or_nothing_witness :
  exists v, st_db (snd (prepare_connection full_in_the_last)) = brought v old_db /\ 4 <= v.
Proof.
  destruct (prepare_connection full_in_the_last) as [r s'] eqn:E.
  destruct (upgrade_is_all_or_nothing full_in_the_last r s' old_db_ok E) as ((v & Hv & Hle & _) & _).
  exists v. split; [exact Hv|exact Hle].
Defined.

Definition backups : Volume :=
  mkVolume {[ "/backup/old.db"%string := mkSqlFile db_empty 384 "ok" ]} 420 true [].
Definition ten_bytes (file : SqlFile) : Z := 10.

Example a_backup : backup_into ten_bytes (mkStore old_db []) "/backup/new.db" backups =
  (Ok (mkBackupReport 10 4),
   mkVolume {[ "/backup/old.db"%string := mkSqlFile db_empty 384 "ok"; "/backup/new.db"%string := mkSqlFile old_db 384 "ok" ]} 420 true []).
Proof. vm_compute. reflexivity. Qed.

Example never_over_another : fst (backup_into ten_bytes (mkStore old_db []) "/backup/old.db" backups) =
  Err (Sqlite (SqlOther "output file already exists")).
Proof. vm_compute. reflexivity. Qed.

