(* ===== verification/Vault.v ===== *)
(** * What the store promises ([ciphr-store]: the [Store] trait)

    A vault is a map from paths to secrets, and a secret is the history of its
    versions, oldest first: a version's number is its place.  Every method of the
    store is one operation on the vault; [represents] says when tables are a vault,
    and [vault_run] what a vault may answer to a sequence of calls of which some met
    a failing statement. *)

From Stdlib Require Import ZArith NArith Lia Ascii String.
From stdpp Require Import base tactics list strings gmap sorting.
From S2P Require Import Prelude Text Hex Path Vocabulary Crypto Db Store.

(** ** The vault *)

(** A destroyed version has no value. *)
Record VVersion : Type := mkVVersion {
  vv_value : option EncryptedValue;
  vv_created_at : Z;
  vv_created_by : string;
  vv_deleted_at : option Z;
  vv_destroyed_at : option Z;
}.
Record VSecret : Type := mkVSecret {
  vs_rotation : Rotation;
  vs_first_at : Z;
  vs_updated_at : Z;
  vs_history : list VVersion;
}.
Abbreviation Vault := (gmap string VSecret).
Definition vault_m (A : Type) : Type := stm Vault StoreError A.

Definition place (version : SecretVersion) : nat := Z.to_nat (version_get version - 1).
Definition history_at (secret : VSecret) (version : SecretVersion) : option VVersion :=
  if (version_get version <=? 0)%Z then None else vs_history secret !! place version.
Definition change_version (f : VVersion -> VVersion) (version : SecretVersion) (secret : VSecret) : VSecret :=
  mkVSecret (vs_rotation secret) (vs_first_at secret) (vs_updated_at secret)
    (alter f (place version) (vs_history secret)).

Definition require (path : SecretPath) : vault_m VSecret :=
  fun vault => (ok_or (NotFound (path_str path)) (vault !! path_str path), vault).
Definition require_version (path : SecretPath) (secret : VSecret) (version : SecretVersion) : vault_m VVersion :=
  mlift (ok_or (VersionNotFound (path_str path) version) (history_at secret version)).
Definition replace (path : SecretPath) (secret : VSecret) : vault_m unit := mmodify (insert (path_str path) secret).

Definition latest (secret : VSecret) : option SecretVersion := version_new (Z.of_nat (length (vs_history secret))).

(** Writing appends a version, and creates the secret when it is not there. *)
Definition vault_put (path : SecretPath) (created_by : string) (rotation : option Rotation)
    (encrypt : SecretVersion -> result CryptoError EncryptedValue) (now : Z) : vault_m SecretVersion :=
  let! _ := mlift (reject_reserved path) in
  let! found := mgets (fun vault => vault !! path_str path) in
  let secret := default (mkVSecret Rotation_default now now []) found in
  let count := Z.of_nat (length (vs_history secret)) in
  if (u32_max <=? count)%Z then mfail (VersionOverflow (path_str path))
  else
    let next := mkVersion (count + 1) in
    let! value := mlift (map_err CryptoFailed (encrypt next)) in
    let! _ := replace path (mkVSecret (default (vs_rotation secret) rotation) (vs_first_at secret) now
                (vs_history secret ++ [mkVVersion (Some value) now created_by None None])) in
    mret next.

(** What is readable of a version. *)
Definition readable (path : SecretPath) (wanted : SecretVersion) (found : VVersion) : result StoreError StoredVersion :=
  match vv_destroyed_at found, vv_deleted_at found, vv_value found with
  | Some _, _, _ | None, _, None => Err (VersionDestroyed (path_str path) wanted)
  | None, Some _, _ => Err (VersionDeleted (path_str path) wanted)
  | None, None, Some value =>
      Ok (mkStoredVersion path wanted value (vv_created_at found) (vv_created_by found))
  end.

Definition vault_get (path : SecretPath) (version : option SecretVersion) : vault_m StoredVersion :=
  let! secret := require path in
  let! wanted := mlift (match version with
                        | Some version => Ok version
                        | None => ok_or (NotFound (path_str path)) (latest secret)
                        end) in
  let! found := require_version path secret wanted in
  mlift (readable path wanted found).

Definition vault_metadata (path : SecretPath) : vault_m SecretMetadata :=
  let! secret := require path in
  mret (mkSecretMetadata path (latest secret) (vs_rotation secret) (vs_first_at secret) (vs_updated_at secret)).

Definition vault_versions (path : SecretPath) : vault_m (list VersionSummary) :=
  let! secret := require path in
  mret (imap (fun n x => mkVersionSummary (mkVersion (Z.of_nat n + 1)) (vv_created_at x) (vv_created_by x)
                           (vv_deleted_at x) (vv_destroyed_at x)) (vs_history secret)).

Definition vault_set_rotation (path : SecretPath) (rotation : Rotation) (now : Z) : vault_m unit :=
  let! secret := require path in
  replace path (mkVSecret rotation (vs_first_at secret) now (vs_history secret)).

(** The first deletion is the one that is remembered. *)
Definition vault_delete (path : SecretPath) (version : SecretVersion) (now : Z) : vault_m unit :=
  let! _ := mlift (reject_reserved path) in
  let! secret := require path in
  let! _ := require_version path secret version in
  replace path (change_version (fun x => mkVVersion (vv_value x) (vv_created_at x) (vv_created_by x)
    (Some (default now (vv_deleted_at x))) (vv_destroyed_at x)) version secret).

Definition vault_undelete (path : SecretPath) (version : SecretVersion) : vault_m unit :=
  let! secret := require path in
  let! found := require_version path secret version in
  match vv_destroyed_at found with
  | Some _ => mfail (VersionDestroyed (path_str path) version)
  | None =>
      replace path (change_version (fun x => mkVVersion (vv_value x) (vv_created_at x) (vv_created_by x)
        None (vv_destroyed_at x)) version secret)
  end.

(** So is the first destruction. *)
Definition vault_destroy (path : SecretPath) (version : SecretVersion) (now : Z) : vault_m unit :=
  let! secret := require path in
  let! _ := require_version path secret version in
  replace path (change_version (fun x => mkVVersion None (vv_created_at x) (vv_created_by x)
    (vv_deleted_at x) (Some (default now (vv_destroyed_at x)))) version secret).

(** ** What represents what *)

Definition rep_version (r : VersionRow) (x : VVersion) : Prop :=
  r_created_at r = vv_created_at x /\ r_created_by r = vv_created_by x /\
  r_deleted_at r = vv_deleted_at x /\ r_destroyed_at r = vv_destroyed_at x /\
  match vv_value x with
  | None => is_Some (vv_destroyed_at x)
  | Some value => vv_destroyed_at x = None /\ value_sized value /\
      r_dek_id r = DekId_to_hex (ev_dek_id value) /\ r_dek_nonce r = ev_dek_nonce value /\
      r_wrapped_dek r = ev_wrapped_dek value /\ r_value_nonce r = ev_value_nonce value /\
      r_ciphertext r = ev_ciphertext value
  end.

Record rep_secret (d : Db) (row : SecretRow) (secret : VSecret) : Prop := mkRepSecret {
  rep_current : s_current row = Z.of_nat (length (vs_history secret));
  rep_rotation : s_rotation row = rotation_str (vs_rotation secret);
  rep_created : s_created_at row = vs_first_at secret;
  rep_updated : s_updated_at row = vs_updated_at secret;
  rep_history : forall n, option_Forall2 rep_version
    (find_version (s_id row) (mkVersion (Z.of_nat n + 1)) d) (vs_history secret !! n);
}.

Record represents (d : Db) (vault : Vault) : Prop := mkRepresents {
  rep_wf : store_wf d;
  rep_secrets : forall path, option_Forall2 (rep_secret d) (find_secret path d) (vault !! path_str path);
}.

(** A method of the store is its operation on the vault, or a statement failed and
    it did nothing. *)
Definition faulted {A} (r : result StoreError A) : Prop := exists e, r = Err (Sqlite (SqlOther e)).
Definition refines {A} (m : store_m A) (spec : vault_m A) : Prop :=
  forall s vault r s', represents (st_db s) vault -> m s = (r, s') ->
    (faulted r /\ represents (st_db s') vault) \/
    exists vault', spec vault = (r, vault') /\ represents (st_db s') vault'.

(** ** Calls, and what is answered *)

Inductive StoreCall : Type :=
| CallPut (path : SecretPath) (created_by : string) (rotation : option Rotation)
    (encrypt : SecretVersion -> result CryptoError EncryptedValue) (now : Z)
| CallGet (path : SecretPath) (version : option SecretVersion)
| CallMetadata (path : SecretPath)
| CallVersions (path : SecretPath)
| CallSetRotation (path : SecretPath) (rotation : Rotation) (now : Z)
| CallDelete (path : SecretPath) (version : SecretVersion) (now : Z)
| CallUndelete (path : SecretPath) (version : SecretVersion)
| CallDestroy (path : SecretPath) (version : SecretVersion) (now : Z).

Inductive Answered : Type :=
| AnsVersion (v : SecretVersion)
| AnsStored (s : StoredVersion)
| AnsMetadata (m : SecretMetadata)
| AnsVersions (l : list VersionSummary)
| AnsDone.

(** Values of the sizes their types have. *)
Definition call_ok (c : StoreCall) : Prop :=
  match c with
  | CallPut _ _ _ encrypt _ => forall v value, encrypt v = Ok value -> value_sized value
  | _ => True
  end.

Definition answer {S A} (f : A -> Answered) (m : stm S StoreError A) : stm S StoreError Answered :=
  fun s => let '(r, s) := m s in (res_map f r, s).

Definition call_store (c : StoreCall) : store_m Answered :=
  match c with
  | CallPut path by_ rotation encrypt now => answer AnsVersion (put_with_rotation path by_ rotation encrypt now)
  | CallGet path version => answer AnsStored (get path version)
  | CallMetadata path => answer AnsMetadata (metadata path)
  | CallVersions path => answer AnsVersions (versions path)
  | CallSetRotation path rotation now => answer (fun _ => AnsDone) (set_rotation path rotation now)
  | CallDelete path version now => answer (fun _ => AnsDone) (delete path version now)
  | CallUndelete path version => answer (fun _ => AnsDone) (undelete path version)
  | CallDestroy path version now => answer (fun _ => AnsDone) (destroy path version now)
  end.
Definition call_vault (c : StoreCall) : vault_m Answered :=
  match c with
  | CallPut path by_ rotation encrypt now => answer AnsVersion (vault_put path by_ rotation encrypt now)
  | CallGet path version => answer AnsStored (vault_get path version)
  | CallMetadata path => answer AnsMetadata (vault_metadata path)
  | CallVersions path => answer AnsVersions (vault_versions path)
  | CallSetRotation path rotation now => answer (fun _ => AnsDone) (vault_set_rotation path rotation now)
  | CallDelete path version now => answer (fun _ => AnsDone) (vault_delete path version now)
  | CallUndelete path version => answer (fun _ => AnsDone) (vault_undelete path version)
  | CallDestroy path version now => answer (fun _ => AnsDone) (vault_destroy path version now)
  end.

(** The answers of a sequence of calls. *)
Fixpoint store_run (calls : list StoreCall) (s : Store) : list (result StoreError Answered) * Store :=
  match calls with
  | [] => ([], s)
  | c :: calls =>
      let '(r, s) := call_store c s in
      let '(rs, s) := store_run calls s in (r :: rs, s)
  end.

(** What a vault may answer: each call happens, or a statement failed and it did
    not. *)
Inductive vault_run : list StoreCall -> Vault -> list (result StoreError Answered) -> Vault -> Prop :=
| vault_run_end vault : vault_run [] vault [] vault
| vault_run_call c calls vault r vault1 rs vault2 :
    call_vault c vault = (r, vault1) -> vault_run calls vault1 rs vault2 -> vault_run (c :: calls) vault (r :: rs) vault2
| vault_run_fault c calls vault r rs vault2 :
    faulted r -> vault_run calls vault rs vault2 -> vault_run (c :: calls) vault (r :: rs) vault2.
