(* ===== verification/Simulation.v ===== *)
(** * The store keeps the vault's promises

    The simulation between the tables of [Store] and the vault of [Vault], method by
    method and then for any sequence of calls. *)

From Stdlib Require Import ZArith NArith Lia Ascii String.
From stdpp Require Import base tactics list strings gmap sorting.
From S2P Require Import Prelude Text Hex Path Vocabulary Crypto Db Store Vault.

(** ** Lemmas: statements that fail or do not *)

Lemma sql_read_inv {A} (f : Db -> A) s r s' : sql_read f s = (r, s') ->
  st_db s' = st_db s /\ (r = Ok (f (st_db s)) \/ faulted r).
Proof.
  unfold sql_read, sql, faulted. destruct (st_faults s) as [|[e|] fs]; intros [= <- <-]; (split; [done|]); [by left|right; by eexists|by left].
Qed.

Lemma sql_change_inv f s r s' : sql_change f s = (r, s') ->
  (r = Ok (fst (f (st_db s))) /\ st_db s' = snd (f (st_db s))) \/ (faulted r /\ st_db s' = st_db s).
Proof.
  unfold sql_change, sql, faulted. destruct (st_faults s) as [|[e|] fs]; destruct (f (st_db s)) as [n d];
    intros [= <- <-]; [by left|right; split; [by eexists|done]|by left].
Qed.

Lemma rep_find path d vault row : represents d vault -> find_secret path d = Some row ->
  exists secret, vault !! path_str path = Some secret /\ rep_secret d row secret.
Proof.
  intros [_ Hs] Hf. specialize (Hs path). rewrite Hf in Hs. inversion Hs as [? secret Hr E1 E2|]; subst. by exists secret.
Qed.

Lemma require_secret_inv path s vault r s1 : represents (st_db s) vault -> require_secret path s = (r, s1) ->
  st_db s1 = st_db s /\
  (faulted r \/ match find_secret path (st_db s), vault !! path_str path with
                | None, None => r = Err (NotFound (path_str path))
                | Some row, Some secret => rep_secret (st_db s) row secret /\ r = Ok (s_id row, s_current row, vs_rotation secret)
                | _, _ => False
                end).
Proof.
  intros Hrep H. split; [by eapply require_secret_reads|]. unfold require_secret in H.
  unfold secret_id, mbind in H. destruct (sql_read (find_secret path) s) as [read s2] eqn:Hread.
  apply sql_read_inv in Hread as [Hs2 [->|[e ->]]]; [|left; injection H as <- _; by eexists].
  pose proof (rep_secrets _ _ Hrep path) as Hsec. destruct (find_secret path (st_db s)) as [row|] eqn:Hf.
  2: { destruct (vault !! path_str path); [inversion Hsec|]. right. by injection H as <- _. }
  inversion Hsec as [? secret Hr E1 E2|]; subst. right. split; [done|].
  apply find_secret_Some in Hf as [Hin _]. pose proof (wf_current _ (rep_wf _ _ Hrep) _ Hin) as Hc.
  unfold mlift in H. unfold u32_try_from in H. rewrite !(proj2 (Z.leb_le _ _)) in H by lia. simpl in H.
  rewrite (rep_rotation _ _ _ Hr), Rotation_parse_str in H. by injection H as <- _.
Qed.

Lemma rep_at d row secret version : store_wf d -> rep_secret d row secret ->
  option_Forall2 rep_version (find_version (s_id row) version d) (history_at secret version).
Proof.
  intros Hwf Hr. unfold history_at. destruct (Z.leb_spec (version_get version) 0) as [Hle|Hgt].
  - destruct (find_version (s_id row) version d) as [r|] eqn:Hf; [|constructor].
    apply find_version_Some in Hf as (Hin & _ & Hv). destruct (wf_rows _ Hwf _ Hin) as (s & _ & _ & Hb). lia.
  - pose proof (rep_history _ _ _ Hr (place version)) as H. unfold place in *.
    replace (mkVersion (Z.of_nat (Z.to_nat (version_get version - 1)) + 1)) with version in H; [done|].
    destruct version as [v]. simpl in *. f_equal. lia.
Qed.

Lemma history_at_place secret version x : history_at secret version = Some x ->
  (0 < version_get version)%Z /\ vs_history secret !! place version = Some x.
Proof. unfold history_at. destruct (Z.leb_spec (version_get version) 0); [done|]. intros Hx. split; [lia|done]. Qed.

Lemma version_exists_inv path id version s r s1 : version_exists path id version s = (r, s1) ->
  st_db s1 = st_db s /\
  (faulted r \/ r = match find_version id version (st_db s) with
                    | None => Err (VersionNotFound (path_str path) version)
                    | Some row => Ok (match r_destroyed_at row with Some _ => true | None => false end)
                    end).
Proof.
  intros H. split; [by eapply version_exists_reads|]. unfold version_exists, mbind in H.
  destruct (sql_read (find_version id version) s) as [read s2] eqn:Hread.
  apply sql_read_inv in Hread as [_ [->|[e ->]]]; [|left; injection H as <- _; by eexists].
  right. by destruct (find_version id version (st_db s)); injection H as <- _.
Qed.

(** *** Changing one version *)

Lemma find_version_change id v g d id' v' :
  (forall r, r_secret (g r) = r_secret r /\ r_version (g r) = r_version r) ->
  find_version id' v' (set_versions (map (fun r => if is_version id v r then g r else r) (db_versions d)) d) =
  (if (id' =? id)%Z && (version_get v' =? version_get v)%Z then g <$> find_version id' v' d else find_version id' v' d).
Proof.
  intros Hg. rewrite (find_version_map _ _ (fun r => if is_version id v r then g r else r)).
  2: { intros r. destruct (is_version id v r); [apply Hg|done]. }
  destruct (find_version id' v' d) as [r|] eqn:Hf; [|by destruct (_ && _)].
  apply find_version_Some in Hf as (_ & Hid & Hv). simpl. unfold is_version. rewrite Hid, Hv.
  by destruct (_ && _).
Qed.

(** Two paths have rows of different ids. *)
Lemma ids_differ d p q row row' : store_wf d -> find_secret p d = Some row -> find_secret q d = Some row' ->
  s_id row = s_id row' -> path_str p = path_str q.
Proof.
  intros Hwf [Hp Ep]%find_secret_Some [Hq Eq]%find_secret_Some Hid.
  assert (row = row') as -> by (apply (NoDup_map_inj s_id (db_secrets d)); [apply Hwf|done|done|done]). congruence.
Qed.

Lemma represents_change d vault path row secret version g f x :
  represents d vault -> find_secret path d = Some row -> vault !! path_str path = Some secret ->
  history_at secret version = Some x -> rep_secret d row secret ->
  keeps_versions (fun r => if is_version (s_id row) version r then g r else r) ->
  (forall r, r_secret (g r) = r_secret r /\ r_version (g r) = r_version r) ->
  (forall r, find_version (s_id row) version d = Some r -> rep_version r x -> rep_version (g r) (f x)) ->
  represents (set_versions (map (fun r => if is_version (s_id row) version r then g r else r) (db_versions d)) d)
    (<[path_str path := change_version f version secret]> vault).
Proof.
  intros [Hwf Hsec] Hf Hv Hx Hr Hk Hg Hgf. split.
  { eapply store_wf_effect; [exact Hwf|]. by eapply eff_versions. }
  pose proof (history_at_place _ _ _ Hx) as [Hpos Hplace].
  intros q. change (find_secret q (set_versions ?l d)) with (find_secret q d). specialize (Hsec q).
  destruct (decide (path_str q = path_str path)) as [E|Hne].
  - assert (q = path) as -> by (destruct q, path; simpl in E; by subst). rewrite lookup_insert_eq, Hf. constructor.
    destruct Hr as [R1 R2 R3 R4 R5]. split; simpl; try done; [by rewrite length_alter|].
    intros n. rewrite find_version_change by done. rewrite Z.eqb_refl. simpl. specialize (R5 n).
    destruct (Z.eqb_spec (Z.of_nat n + 1) (version_get version)) as [En|Hn].
    + assert (n = place version) as -> by (unfold place; lia). rewrite list_lookup_alter_eq, Hplace in *.
      assert (mkVersion (Z.of_nat (place version) + 1) = version) as Ev by (destruct version; simpl in *; by f_equal).
      rewrite Ev in *. destruct (find_version (s_id row) version d) as [r|] eqn:Hfr; [|inversion R5].
      simpl. constructor. apply Hgf; [done|]. by inversion R5.
    + rewrite list_lookup_alter_ne; [done|]. unfold place. lia.
  - rewrite lookup_insert_ne by done. destruct (find_secret q d) as [row'|] eqn:Hq; inversion Hsec as [? s' Hs' E1 E2|E1 E2]; subst; [|constructor].
    constructor. destruct Hs' as [R1 R2 R3 R4 R5]. split; try done. intros n. rewrite find_version_change by done.
    assert (s_id row' <> s_id row) as Hid by (intros E; apply Hne; by eapply ids_differ).
    rewrite (proj2 (Z.eqb_neq _ _) Hid). apply R5.
Qed.

(** ** Lemmas: each method is its operation *)

Lemma refines_fault {A} (r : result StoreError A) d d' vault : faulted r -> represents d vault -> d' = d ->
  faulted r /\ represents d' vault.
Proof. by intros ? ? ->. Qed.

Lemma rep_same d d' vault : d' = d -> represents d vault -> represents d' vault.
Proof. by intros ->. Qed.

Lemma faulted_err {A B} (e : StoreError) : faulted (A := A) (Err e) -> faulted (A := B) (Err e).
Proof. intros [x [= ->]]. by exists x. Qed.

(** What a method does once its secret is there. *)
Lemma refines_require {A} path (k : Z * Z * Rotation -> store_m A) (spec : VSecret -> vault_m A) :
  (forall s vault row secret r s', represents (st_db s) vault -> find_secret path (st_db s) = Some row ->
     vault !! path_str path = Some secret -> rep_secret (st_db s) row secret ->
     k (s_id row, s_current row, vs_rotation secret) s = (r, s') ->
     (faulted r /\ represents (st_db s') vault) \/
     exists vault', spec secret vault = (r, vault') /\ represents (st_db s') vault') ->
  refines (mbind (require_secret path) k) (mbind (require path) spec).
Proof.
  intros Hk s vault r s' Hrep H. apply mbind_inv in H as [([[id c] ro] & s1 & H1 & H)|(e & H1 & ->)];
    destruct (require_secret_inv _ _ _ _ _ Hrep H1) as [Hs1 [Hfault|Hm]].
  - by destruct Hfault.
  - destruct (find_secret path (st_db s)) as [row|] eqn:Hf, (vault !! path_str path) as [secret|] eqn:Hv; try done.
    destruct Hm as [Hr [= -> -> ->]]. rewrite <- Hs1 in Hrep, Hf, Hr.
    destruct (Hk _ _ _ _ _ _ Hrep Hf Hv Hr H) as [?|(vault' & Hsp & ?)]; [by left|right].
    exists vault'. split; [|done]. unfold mbind, require. by rewrite Hv.
  - left. split; [by eapply faulted_err|]. by rewrite Hs1.
  - destruct (find_secret path (st_db s)) as [row|], (vault !! path_str path) as [secret|] eqn:Hv; try done; [by destruct Hm|].
    injection Hm as ->. right. exists vault. split; [|by rewrite Hs1]. unfold mbind, require. by rewrite Hv.
Qed.

(** What it does once its version is there too, when it first asks whether it is. *)
Lemma refines_exists {A} path (k : bool -> store_m A) (spec : VVersion -> vault_m A) version s vault row secret r s' :
  represents (st_db s) vault -> rep_secret (st_db s) row secret ->
  (forall s1 x destroyed, st_db s1 = st_db s -> history_at secret version = Some x ->
     destroyed = (match vv_destroyed_at x with Some _ => true | None => false end) ->
     k destroyed s1 = (r, s') ->
     (faulted r /\ represents (st_db s') vault) \/
     exists vault', spec x vault = (r, vault') /\ represents (st_db s') vault') ->
  mbind (version_exists path (s_id row) version) k s = (r, s') ->
  (faulted r /\ represents (st_db s') vault) \/
  exists vault', mbind (require_version path secret version) spec vault = (r, vault') /\ represents (st_db s') vault'.
Proof.
  intros Hrep Hr Hk H. pose proof (rep_at _ _ _ version (rep_wf _ _ Hrep) Hr) as Hat.
  apply mbind_inv in H as [(b & s1 & H1 & H)|(e & H1 & ->)];
    destruct (version_exists_inv _ _ _ _ _ _ H1) as [Hs1 [Hfault|Hm]].
  - by destruct Hfault.
  - destruct (find_version (s_id row) version (st_db s)) as [vr|]; [|done]. injection Hm as Hb.
    inversion Hat as [? x Hx E1 E2|]; subst. destruct (Hk s1 x _ Hs1 (eq_sym E2) eq_refl) as [?|(vault' & Hsp & ?)]; [|by left|right].
    { destruct Hx as (_ & _ & _ & <- & _). exact H. }
    exists vault'. split; [|done]. unfold mbind, require_version. by rewrite <- E2.
  - left. split; [by eapply faulted_err|]. by rewrite Hs1.
  - destruct (find_version (s_id row) version (st_db s)) as [vr|]; [done|]. injection Hm as ->.
    inversion Hat as [|E1 E2]; subst. right. exists vault. split; [|by rewrite Hs1].
    unfold mbind, require_version. by rewrite <- E2.
Qed.

Lemma rep_deleted r x at_ : rep_version r x ->
  rep_version (set_deleted at_ r) (mkVVersion (vv_value x) (vv_created_at x) (vv_created_by x) at_ (vv_destroyed_at x)).
Proof. intros (H1 & H2 & H3 & H4 & H5). by split_and!. Qed.

Lemma rep_destroyed r x now : rep_version r x ->
  rep_version (set_destroyed now r) (mkVVersion None (vv_created_at x) (vv_created_by x) (vv_deleted_at x) (Some (default now (vv_destroyed_at x)))).
Proof. intros (H1 & H2 & H3 & H4 & H5). split_and!; try done; [|by eexists]. simpl. rewrite H4. by destruct (vv_destroyed_at x). Qed.

Lemma rep_readable path wanted r x : rep_version r x -> stored_version path wanted r = readable path wanted x.
Proof.
  intros (R1 & R2 & R3 & R4 & R5). unfold stored_version, readable. rewrite R4, R3.
  destruct (vv_destroyed_at x); [done|]. destruct (vv_value x) as [value|]; [|by destruct R5].
  destruct R5 as (_ & (L1 & L2 & L3) & V1 & V2 & V3 & V4 & V5). destruct (vv_deleted_at x); [done|].
  rewrite V1, V2, V3, V4, V5, R1, R2. unfold DekId_from_hex, DekId_to_hex, fixed_from_hex.
  rewrite hex_decode_into_encode by by rewrite L1. simpl. unfold to_nonce. rewrite L2, L3. simpl. by destruct value as [[]].
Qed.

Lemma refines_get_at path wanted s vault row secret r s' :
  represents (st_db s) vault -> rep_secret (st_db s) row secret ->
  (let! found := sql_read (find_version (s_id row) wanted) in
   match found with
   | None => mfail (VersionNotFound (path_str path) wanted)
   | Some row => mlift (stored_version path wanted row)
   end) s = (r, s') ->
  (faulted r /\ represents (st_db s') vault) \/
  exists vault', (let! found := require_version path secret wanted in mlift (readable path wanted found)) vault = (r, vault') /\
    represents (st_db s') vault'.
Proof.
  intros Hrep Hr H. pose proof (rep_at _ _ _ wanted (rep_wf _ _ Hrep) Hr) as Hat.
  unfold mbind in H. destruct (sql_read (find_version (s_id row) wanted) s) as [read s2] eqn:Hread.
  apply sql_read_inv in Hread as [Hs2 [->|[e ->]]].
  2: { injection H as <- <-. left. split; [by eexists|by eapply rep_same]. }
  right. exists vault. unfold mbind, require_version, mlift.
  destruct (find_version (s_id row) wanted (st_db s)) as [vr|]; inversion Hat as [? x Hx E1 E2|E1 E2]; subst;
    injection H as <- <-; (split; [|by eapply rep_same]); [|done].
  cbn [ok_or]. by rewrite (rep_readable _ _ _ _ Hx).
Qed.

Lemma refines_get path version : refines (get path version) (vault_get path version).
Proof.
  apply refines_require. intros s vault row secret r s' Hrep Hf Hv Hr H.
  destruct version as [wanted|]; [exact (refines_get_at _ _ _ _ _ _ _ _ Hrep Hr H)|].
  unfold latest. rewrite <- (rep_current _ _ _ Hr).
  destruct (version_new (s_current row)) as [wanted|]; [exact (refines_get_at _ _ _ _ _ _ _ _ Hrep Hr H)|].
  injection H as <- <-. right. by exists vault.
Qed.

Lemma refines_metadata path : refines (metadata path) (vault_metadata path).
Proof.
  apply refines_require. intros s vault row secret r s' Hrep Hf Hv Hr H.
  unfold mbind, sql in H. rewrite Hf in H.
  destruct (st_faults s) as [|[e|] fs]; injection H as <- <-; [right|left; split; [by eexists|done]|right];
    (exists vault; split; [|done]); unfold mret, latest; by rewrite (rep_current _ _ _ Hr), (rep_created _ _ _ Hr), (rep_updated _ _ _ Hr).
Qed.

Lemma refines_undelete path version : refines (undelete path version) (vault_undelete path version).
Proof.
  apply refines_require. intros s vault row secret r s' Hrep Hf Hv Hr H.
  eapply refines_exists; [exact Hrep|exact Hr| |exact H]. clear H. intros s1 x destroyed Hs1 Hx -> H.
  destruct (vv_destroyed_at x) as [t|] eqn:Hd.
  { injection H as <- <-. right. exists vault. split; [done|by eapply rep_same]. }
  unfold mbind in H. destruct (update_versions _ _ s1) as [n s2] eqn:Hu.
  apply sql_change_inv in Hu as [[-> Hs2]|[[e ->] Hs2]]; injection H as <- <-.
  2: { left. split; [by eexists|]. eapply rep_same; [|exact Hrep]. congruence. }
  right. eexists. split; [reflexivity|]. rewrite Hs2, Hs1. simpl.
  eapply represents_change; try done; [apply delete_keeps|]. intros vr _ Hvr. by apply rep_deleted.
Qed.

Lemma refines_destroy path version now : refines (destroy path version now) (vault_destroy path version now).
Proof.
  apply refines_require. intros s vault row secret r s' Hrep Hf Hv Hr H.
  eapply refines_exists; [exact Hrep|exact Hr| |exact H]. clear H. intros s1 x destroyed Hs1 Hx -> H.
  unfold mbind in H. destruct (update_versions _ _ s1) as [n s2] eqn:Hu.
  apply sql_change_inv in Hu as [[-> Hs2]|[[e ->] Hs2]]; injection H as <- <-.
  2: { left. split; [by eexists|]. eapply rep_same; [|exact Hrep]. congruence. }
  right. eexists. split; [reflexivity|]. rewrite Hs2, Hs1. simpl.
  eapply represents_change; try done; [apply destroy_keeps|]. intros vr _ Hvr. by apply rep_destroyed.
Qed.

Lemma update_none {A} (p : A -> bool) (f : A -> A) l : fst (update_where p f l) = 0%Z -> snd (update_where p f l) = l.
Proof.
  unfold update_where. simpl. induction l as [|x l IH]; simpl; [done|].
  destruct (p x); simpl; [lia|]. intros H. by rewrite IH.
Qed.

Lemma update_some {A} (p : A -> bool) (f : A -> A) l x : x ∈ l -> p x = true -> fst (update_where p f l) <> 0%Z.
Proof.
  intros Hx Hp. unfold update_where. simpl. assert (x ∈ List.filter p l) as Hin
    by (apply list_elem_of_In, List.filter_In; by rewrite <- list_elem_of_In).
  destruct (List.filter p l); [by apply elem_of_nil in Hin|simpl; lia].
Qed.

(** A deletion leaves a version that is deleted as it is. *)
Definition delete_once (now : Z) (r : VersionRow) : VersionRow :=
  if is_none (r_deleted_at r) then set_deleted (Some now) r else r.

Lemma rep_delete_once r x now : rep_version r x -> rep_version (delete_once now r)
  (mkVVersion (vv_value x) (vv_created_at x) (vv_created_by x) (Some (default now (vv_deleted_at x))) (vv_destroyed_at x)).
Proof.
  intros (H1 & H2 & H3 & H4 & H5). unfold delete_once. rewrite H3. destruct (vv_deleted_at x) eqn:E; [|by split_and!].
  by split_and!; rewrite ?H3.
Qed.

Lemma delete_update id version now d :
  snd (let '(n, l) := update_where (fun r => is_version id version r && is_none (r_deleted_at r)) (set_deleted (Some now)) (db_versions d) in
       (n, set_versions l d)) =
  set_versions (map (fun r => if is_version id version r then delete_once now r else r) (db_versions d)) d.
Proof.
  unfold update_where. simpl. f_equal. apply map_ext. intros r. unfold delete_once.
  by destruct (is_version id version r), (is_none (r_deleted_at r)).
Qed.

Lemma refines_delete_at path version now s vault row secret r s' :
  represents (st_db s) vault -> find_secret path (st_db s) = Some row -> vault !! path_str path = Some secret ->
  rep_secret (st_db s) row secret ->
  (let! changed := update_versions (fun r => is_version (s_id row) version r && is_none (r_deleted_at r)) (set_deleted (Some now)) in
   if (changed =? 0)%Z then let! _ := version_exists path (s_id row) version in mret tt else mret tt) s = (r, s') ->
  (faulted r /\ represents (st_db s') vault) \/
  exists vault', (let! _ := require_version path secret version in
    replace path (change_version (fun x => mkVVersion (vv_value x) (vv_created_at x) (vv_created_by x)
      (Some (default now (vv_deleted_at x))) (vv_destroyed_at x)) version secret)) vault = (r, vault') /\
    represents (st_db s') vault'.
Proof.
  intros Hrep Hf Hv Hr H. pose proof (rep_at _ _ _ version (rep_wf _ _ Hrep) Hr) as Hat.
  assert (forall x, history_at secret version = Some x ->
    represents (set_versions (map (fun r => if is_version (s_id row) version r then delete_once now r else r) (db_versions (st_db s))) (st_db s))
      (<[path_str path := change_version (fun x => mkVVersion (vv_value x) (vv_created_at x) (vv_created_by x)
        (Some (default now (vv_deleted_at x))) (vv_destroyed_at x)) version secret]> vault)) as Hnew.
  { intros x Hx. eapply represents_change; try done; [| |intros vr _ Hvr; by apply rep_delete_once].
    - intros vr. unfold delete_once. destruct (is_version _ _ _), (is_none (r_deleted_at vr)); by split_and!.
    - intros vr. unfold delete_once. by destruct (is_none (r_deleted_at vr)). }
  unfold mbind at 1 in H. unfold update_versions in H. destruct (sql_change _ s) as [n s2] eqn:Hu.
  apply sql_change_inv in Hu as [[-> Hs2]|[[e ->] Hs2]].
  2: { injection H as <- <-. left. split; [by eexists|by eapply rep_same]. }
  pose proof Hs2 as Hs2'. rewrite delete_update in Hs2'. simpl in H.
  destruct (Z.eqb_spec (Z.of_nat (length (List.filter (fun r => is_version (s_id row) version r && is_none (r_deleted_at r)) (db_versions (st_db s))))) 0) as [H0|Hn].
  - assert (st_db s2 = st_db s) as Hsame.
    { rewrite Hs2. pose proof (update_none _ (set_deleted (Some now)) _ H0) as Hup. simpl in *. rewrite Hup. by destruct (st_db s). }
    rewrite <- Hs2', Hsame in Hnew.
    apply mbind_inv in H as [(b & s3 & H1 & H)|(e & H1 & ->)];
      destruct (version_exists_inv _ _ _ _ _ _ H1) as [Hs3 [Hfault|Hm]]; rewrite Hsame in Hs3.
    + by destruct Hfault.
    + injection H as <- <-. rewrite Hsame in Hm. destruct (find_version (s_id row) version (st_db s)); [|done].
      inversion Hat as [? x Hx E1 E2|]; subst. right. eexists. split; [unfold mbind, require_version; rewrite <- E2; reflexivity|].
      rewrite Hs3. by eapply Hnew.
    + left. split; [by eapply faulted_err|by eapply rep_same].
    + rewrite Hsame in Hm. destruct (find_version (s_id row) version (st_db s)); [done|]. injection Hm as ->.
      inversion Hat as [|E1 E2]; subst. right. exists vault. split; [unfold mbind, require_version; by rewrite <- E2|by eapply rep_same].
  - injection H as <- <-. right. destruct (find_version (s_id row) version (st_db s)) as [vr|] eqn:Hfv.
    + inversion Hat as [? x Hx E1 E2|]; subst. eexists. split; [unfold mbind, require_version; rewrite <- E2; reflexivity|].
      rewrite Hs2'. by eapply Hnew.
    + destruct Hn. rewrite filter_drop; [done|]. intros x Hx%list_elem_of_In.
      pose proof (List.find_none _ _ Hfv x Hx) as E. by rewrite E.
Qed.

(** A refusal that both make first. *)
Lemma refines_lift {A B} (r : result StoreError B) (m : B -> store_m A) (spec : B -> vault_m A) :
  (forall b, r = Ok b -> refines (m b) (spec b)) -> refines (mbind (mlift r) m) (mbind (mlift r) spec).
Proof.
  intros Hm s vault r' s' Hrep H. destruct r as [b|e]; [exact (Hm b eq_refl s vault r' s' Hrep H)|].
  injection H as <- <-. right. by exists vault.
Qed.

Lemma refines_delete path version now : refines (delete path version now) (vault_delete path version now).
Proof.
  apply refines_lift. intros _ _. apply refines_require. intros s vault row secret r s' Hrep Hf Hv Hr H.
  by eapply refines_delete_at.
Qed.

(** *** Changing one secret *)

Lemma find_secret_change p f q d : (forall r, s_path (f r) = s_path r) ->
  find_secret q (set_secrets (map (fun r => if String.eqb (s_path r) p then f r else r) (db_secrets d)) d) =
  (if String.eqb (path_str q) p then f <$> find_secret q d else find_secret q d).
Proof.
  intros Hf. unfold find_secret. simpl. induction (db_secrets d) as [|r l IH]; simpl; [by destruct (String.eqb _ _)|].
  assert (s_path (if String.eqb (s_path r) p then f r else r) = s_path r) as -> by by destruct (String.eqb (s_path r) p).
  destruct (String.eqb_spec (s_path r) (path_str q)) as [E|]; [rewrite E; by destruct (String.eqb (path_str q) p)|exact IH].
Qed.

Lemma refines_set_rotation path rotation now : refines (set_rotation path rotation now) (vault_set_rotation path rotation now).
Proof.
  intros s vault r s' Hrep H. unfold set_rotation, mbind in H. destruct (sql_change _ s) as [n s2] eqn:Hu.
  apply sql_change_inv in Hu as [[-> Hs2]|[[e ->] Hs2]].
  2: { injection H as <- <-. left. split; [by eexists|by eapply rep_same]. }
  right. pose proof (rep_secrets _ _ Hrep path) as Hsec. simpl in H, Hs2.
  destruct (find_secret path (st_db s)) as [row|] eqn:Hf; inversion Hsec as [? secret Hr E1 E2|E1 E2]; subst.
  - pose proof Hf as [Hin Hp]%find_secret_Some.
    assert (String.eqb (s_path row) (path_str path) = true) as Heq by (rewrite Hp; apply String.eqb_refl).
    pose proof (update_some (fun r => String.eqb (s_path r) (path_str path)) id _ _ Hin Heq) as Hn. simpl in Hn.
    apply Z.eqb_neq in Hn. rewrite Hn in H.
    injection H as <- <-. eexists. split; [unfold vault_set_rotation, mbind, require; rewrite <- E2; reflexivity|].
    rewrite Hs2. set (f := fun r => mkSecretRow (s_id r) (s_path r) (s_current r) (rotation_str rotation) (s_created_at r) now (s_tier r)).
    split.
    { eapply store_wf_effect; [apply Hrep|]. eapply (eff_secrets _ _ (fun r => if String.eqb (s_path r) (path_str path) then f r else r)); [|done].
      intros x. destruct (String.eqb (s_path x) _); split_and!; try done. intros _. by exists rotation. }
    intros q. rewrite (find_secret_change (path_str path) f) by done. pose proof (rep_secrets _ _ Hrep q) as Hq.
    destruct (String.eqb_spec (path_str q) (path_str path)) as [Eq|Hne].
    + assert (q = path) as -> by (destruct q, path; simpl in Eq; by subst). rewrite lookup_insert_eq, Hf. constructor.
      destruct Hr as [R1 R2 R3 R4 R5]. by split.
    + rewrite lookup_insert_ne by done. destruct (find_secret q (st_db s)); inversion Hq as [row1 sec1 Hsec1 F1 F2|]; subst; constructor.
      destruct Hsec1 as [R1 R2 R3 R4 R5]. by split.
  - assert (List.filter (fun r => String.eqb (s_path r) (path_str path)) (db_secrets (st_db s)) = []) as H0.
    { rewrite filter_drop; [done|]. intros x Hx%list_elem_of_In. by eapply List.find_none in Hf. }
    rewrite H0 in H. injection H as <- <-. exists vault. split; [unfold vault_set_rotation, mbind, require; by rewrite <- E2|].
    eapply rep_same; [|exact Hrep]. rewrite Hs2.
    pose proof (update_none (fun r => String.eqb (s_path r) (path_str path)) (fun r => mkSecretRow (s_id r) (s_path r) (s_current r) (rotation_str rotation) (s_created_at r) now (s_tier r)) (db_secrets (st_db s))) as Hup.
    unfold update_where in Hup. rewrite H0 in Hup. simpl in Hup. rewrite (Hup eq_refl). by destruct (st_db s).
Qed.

(** *** Writing *)

Lemma next_version_count path current : (0 <= current <= u32_max)%Z ->
  next_version path current = if (u32_max <=? current)%Z then Err (VersionOverflow (path_str path)) else Ok (mkVersion (current + 1)).
Proof.
  intros Hc. unfold next_version, version_new, version_next, u32_try_from. simpl.
  destruct (Z.eqb_spec current 0) as [->|Hn]; [done|]. simpl.
  destruct (Z.leb_spec u32_max current).
  - rewrite (proj2 (Z.leb_gt (current + 1) u32_max)) by lia. by rewrite andb_false_r.
  - by rewrite !(proj2 (Z.leb_le _ _)) by lia.
Qed.

(** The secret a write finds or makes, as the tables and as the vault have it. *)
Definition found_secret (vault : Vault) (path : SecretPath) (now : Z) : VSecret :=
  default (mkVSecret Rotation_default now now []) (vault !! path_str path).

Definition current_of (path : SecretPath) (d : Db) : Z :=
  match find_secret path d with Some row => s_current row | None => 0%Z end.

Lemma found_current d vault path now : represents d vault ->
  current_of path d =
  Z.of_nat (length (vs_history (found_secret vault path now))).
Proof.
  intros Hrep. pose proof (rep_secrets _ _ Hrep path) as H. unfold found_secret, current_of.
  destruct (find_secret path d) as [row|]; inversion H as [? secret Hr E1 E2|E1 E2]; [|done]. simpl. apply (rep_current _ _ _ Hr).
Qed.

Lemma sql_inv {A} (f : Db -> result SqlError (A * Db)) s r s' : sql f s = (r, s') ->
  faulted r \/ match f (st_db s) with Ok (a, d) => r = Ok a /\ st_db s' = d | Err e => r = Err (Sqlite e) end.
Proof.
  unfold sql, faulted. destruct (st_faults s) as [|[e|] fs]; destruct (f (st_db s)) as [[a d]|e'];
    intros [= <- <-]; try (by right); left; by eexists.
Qed.

Lemma transaction_Err_inv {A} (body : store_m A) s e s' : transaction body s = (Err e, s') ->
  faulted (A := A) (Err e) \/ exists s1 s2, st_db s1 = st_db s /\ body s1 = (Err e, s2).
Proof.
  unfold transaction. destruct (sql_read _ s) as [[u|e1] s1] eqn:E1.
  2: { intros [= <- _]. left. apply sql_read_inv in E1 as [_ [?|[x [= ->]]]]; [done|by exists x]. }
  apply sql_read_spec in E1 as [H1 _]. destruct (body s1) as [[a|e2] s2] eqn:E2.
  - destruct (sql_read _ s2) as [[u3|e3] s3] eqn:E3; [done|]. intros [= <- _]. left.
    apply sql_read_inv in E3 as [_ [?|[x [= ->]]]]; [done|by exists x].
  - intros [= <- _]. right. by exists s1, s2.
Qed.

(** The row a write adds is never there before, and its secret always is. *)
Lemma insert_version_accepted d path now id current l v : store_wf d -> put_secret path now d id current l ->
  (0 <= current <= u32_max)%Z -> next_version path current = Ok v ->
  existsb (fun r => (r_secret r =? id) && (r_version r =? version_get v))%Z (db_versions d) = false /\
  existsb (fun r => (s_id r =? id)%Z) l = true.
Proof.
  intros Hwf Hp Hc [Hv _]%next_version_spec; [|done].
  destruct (put_secret_wf _ _ _ _ _ _ Hwf Hp) as (_ & P2 & _ & P4 & (s0 & S1 & S2 & S3 & S4) & _).
  split; [|apply existsb_exists; exists s0; rewrite <- list_elem_of_In; by rewrite S2, Z.eqb_refl].
  apply not_true_iff_false. intros (r & Hin%list_elem_of_In & [E1%Z.eqb_eq E2%Z.eqb_eq]%andb_true_iff)%existsb_exists.
  destruct (wf_rows _ Hwf _ Hin) as (s & Hs & Hid & Hle).
  assert (s = s0) as -> by (apply (NoDup_map_inj s_id l); [done|by apply P4|done|congruence]). lia.
Qed.

Lemma find_or_insert path now s r s' :
  (match find_secret path (st_db s) with
   | Some row => mret (s_id row, s_current row)
   | None => let! id := insert_secret path now in mret (id, 0%Z)
   end) s = (r, s') ->
  faulted r \/ exists id l, r = Ok (id, current_of path (st_db s)) /\
    put_secret path now (st_db s) id (current_of path (st_db s)) l /\ st_db s' = set_secrets l (st_db s).
Proof.
  unfold current_of. destruct (find_secret path (st_db s)) as [row|] eqn:Hf.
  { intros [= <- <-]. right. exists (s_id row), (db_secrets (st_db s)). split_and!; [done|left; by exists row|by destruct (st_db s)]. }
  unfold mbind, insert_secret. destruct (sql _ s) as [ins s1] eqn:Hins. apply sql_inv in Hins as [[e ->]|Hins].
  { intros [= <- _]. left. by eexists. }
  cbv zeta in Hins. destruct (existsb _ (db_secrets (st_db s))) eqn:Hex.
  { apply existsb_exists in Hex as (x & Hx & Ex). by rewrite (List.find_none _ _ Hf x Hx) in Ex. }
  destruct Hins as [-> Hs1]. intros [= <- <-]. right. eexists _, _. split_and!; [done|right; by split_and!|done].
Qed.

(** Once the number and the value are there, only a statement can fail. *)
Lemma insert_and_bump path by_ rotation now d s id current l next value e s' :
  store_wf d -> put_secret path now d id current l -> (0 <= current <= u32_max)%Z ->
  next_version path current = Ok next -> st_db s = set_secrets l d ->
  (let! _ := insert_version (version_row id next value now by_) in
   let! _ := update_current id (version_get next) now rotation in
   mret next) s = (Err e, s') -> faulted (A := SecretVersion) (Err e).
Proof.
  intros Hwf Hp Hc Hn Hs H. destruct (insert_version_accepted _ _ _ _ _ _ _ Hwf Hp Hc Hn) as [Hno Hyes].
  apply mbind_inv in H as [(u & s1 & _ & H)|(x & H & [= <-])].
  - apply mbind_inv in H as [(n & s2 & _ & H)|(x & H & [= <-])]; [done|].
    apply sql_change_inv in H as [[? _]|[Hf _]]; [done|by eapply faulted_err].
  - apply sql_inv in H as [Hf|H]; [by eapply faulted_err|]. rewrite Hs in H. simpl in H. rewrite Hno, Hyes in H. by destruct H.
Qed.

Lemma put_Err path by_ rotation encrypt now s e s' : store_wf (st_db s) -> (0 <= current_of path (st_db s) <= u32_max)%Z ->
  put_with_rotation path by_ rotation encrypt now s = (Err e, s') ->
  faulted (A := SecretVersion) (Err e) \/ (is_reserved path = true /\ e = Reserved (path_str path)) \/
  (is_reserved path = false /\
   (next_version path (current_of path (st_db s)) = Err e \/
    exists v x, next_version path (current_of path (st_db s)) = Ok v /\ encrypt v = Err x /\ e = CryptoFailed x)).
Proof.
  intros Hwf Hrange H. unfold put_with_rotation in H.
  apply mbind_inv in H as [([] & s0 & [Hres ->]%mlift_Ok & H)|(x & H & [= <-])]; unfold reject_reserved in *.
  2: { destruct (is_reserved path); [|done]. injection H as <- _. right. by left. }
  destruct (is_reserved path); [done|]. clear Hres.
  apply transaction_Err_inv in H as [?|(s1 & s2 & Hs1 & H)]; [by left|]. rewrite <- Hs1 in Hwf, Hrange |- *.
  apply mbind_inv in H as [(existing & s3 & H1 & H)|(x & H1 & [= <-])]; apply sql_read_inv in H1 as [Hs3 [He|He]];
    try done; [|by destruct He|left; by eapply faulted_err].
  injection He as ->. rewrite <- Hs3 in H, Hwf, Hrange |- *. clear s1 Hs1 Hs3.
  apply mbind_inv in H as [([id current] & s4 & Hid & H)|(x & Hid & [= <-])];
    apply find_or_insert in Hid as [Hid|(id' & l & E & Hp & Hs4)]; try done; [by destruct Hid| |left; by eapply faulted_err].
  injection E as -> ->. unfold u32_try_from in H. rewrite !(proj2 (Z.leb_le _ _)) in H by lia.
  apply mbind_inv in H as [(c & s5 & [[= <-] ->]%mlift_Ok & H)|(x & H & _)]; [|done].
  apply mbind_inv in H as [(next & s5 & [Hn ->]%mlift_Ok & H)|(x & H & [= <-])].
  2: { injection H as Hn _. right. right. split; [done|]. by left. }
  apply mbind_inv in H as [(value & s5 & [Hv ->]%mlift_Ok & H)|(x & H & [= <-])].
  2: { injection H as Hv _. right. right. split; [done|]. right. destruct (encrypt next) as [?|y] eqn:Henc; [done|].
       injection Hv as <-. by exists next, y. }
  left. by eapply insert_and_bump.
Qed.

Lemma find_snoc {A} (p : A -> bool) l x :
  List.find p (l ++ [x]) = match List.find p l with Some y => Some y | None => if p x then Some x else None end.
Proof. induction l as [|y l IH]; simpl; [done|]. by destruct (p y). Qed.

Lemma rep_new_version id v value now by_ : value_sized value ->
  rep_version (version_row id v value now by_) (mkVVersion (Some value) now by_ None None).
Proof. by intros. Qed.

Lemma current_in_range d path : store_wf d -> (0 <= current_of path d <= u32_max)%Z.
Proof.
  intros Hwf. unfold current_of. destruct (find_secret path d) as [row|] eqn:Hf; [|done].
  apply find_secret_Some in Hf as [Hin _]. by apply Hwf.
Qed.

(** Other secrets, and their versions, stay as they are. *)
Lemma put_other d path now id current l v value by_ rotation q : store_wf d -> put_secret path now d id current l ->
  path_str q <> path_str path ->
  let d' := set_secrets (map (bump id v now rotation) l) (set_versions (db_versions d ++ [version_row id (mkVersion v) value now by_]) d) in
  find_secret q d' = find_secret q d /\
  forall row, find_secret q d = Some row -> forall n, find_version (s_id row) n d' = find_version (s_id row) n d.
Proof.
  intros Hwf Hp Hne d'. destruct (put_secret_wf _ _ _ _ _ _ Hwf Hp) as (P1 & P2 & _ & P4 & (s0 & S1 & S2 & S3 & _) & _).
  assert (forall row, row ∈ l -> s_path row = path_str q -> s_id row <> id) as Hid.
  { intros row Hin E Eid. apply Hne. assert (row = s0) as ->
      by (apply (NoDup_map_inj s_id l); [done|done|done|congruence]). congruence. }
  assert (find_secret q (set_secrets l d) = find_secret q d) as Hl.
  { destruct Hp as [(row & _ & _ & _ & ->)|(_ & _ & _ & ->)]; [by destruct d|].
    unfold find_secret. simpl. rewrite find_snoc. destruct (List.find _ (db_secrets d)); [done|]. simpl.
    by destruct (String.eqb_spec (path_str path) (path_str q)); [congruence|]. }
  split.
  - rewrite <- Hl. subst d'. unfold find_secret. simpl. clear -Hid. induction l as [|r l IH]; [done|]. simpl.
    destruct (bump_fields id v now rotation r) as (_ & -> & _). destruct (String.eqb_spec (s_path r) (path_str q)) as [E|].
    + unfold bump. rewrite (proj2 (Z.eqb_neq _ _)); [done|]. apply Hid; [by left|done].
    + apply IH. intros row Hin. apply Hid. by right.
  - intros row Hf n. subst d'. unfold find_version. simpl. rewrite find_snoc.
    destruct (List.find _ (db_versions d)); [done|]. unfold is_version. simpl.
    apply find_secret_Some in Hf as [Hin E]. rewrite (proj2 (Z.eqb_neq _ _)); [done|].
    intros Eid. by apply (Hid row (P4 _ Hin) E).
Qed.

(** The row a write works on, and the history it has. *)
Lemma put_before d vault path now id current l : represents d vault -> put_secret path now d id current l ->
  let secret := found_secret vault path now in
  exists row, row ∈ l /\ s_id row = id /\ s_path row = path_str path /\ current = Z.of_nat (length (vs_history secret)) /\
    s_rotation row = rotation_str (vs_rotation secret) /\ s_created_at row = vs_first_at secret /\
    forall n, option_Forall2 rep_version (find_version id (mkVersion (Z.of_nat n + 1)) d) (vs_history secret !! n).
Proof.
  intros Hrep Hp secret. subst secret. unfold found_secret. pose proof (rep_secrets _ _ Hrep path) as Hsec.
  destruct Hp as [(row & Hf & -> & -> & ->)|(Hf & -> & -> & ->)]; rewrite Hf in Hsec;
    inversion Hsec as [? secret Hr E1 E2|E1 E2]; simpl.
  - destruct Hr as [R1 R2 R3 R4 R5]. apply find_secret_Some in Hf as [Hin Hp]. exists row. by split_and!.
  - eexists. split; [apply elem_of_app; right; by apply list_elem_of_singleton|]. split_and!; try done. intros n.
    destruct (find_version _ _ d) as [r|] eqn:Hfv; [|constructor]. destruct (next_id_fresh (map s_id (db_secrets d))).
    apply find_version_Some in Hfv as (Hin & Hid & _). destruct (wf_rows _ (rep_wf _ _ Hrep) _ Hin) as (s & Hs & E & _).
    apply elem_of_map. exists s. split; [congruence|done].
Qed.

(** What a write leaves of its own secret. *)
Lemma put_own d vault path now id current l value by_ rotation : represents d vault ->
  put_secret path now d id current l -> value_sized value ->
  let secret := found_secret vault path now in
  let d' := set_secrets (map (bump id (current + 1) now rotation) l)
              (set_versions (db_versions d ++ [version_row id (mkVersion (current + 1)) value now by_]) d) in
  store_wf d' ->
  option_Forall2 (rep_secret d') (find_secret path d')
    (Some (mkVSecret (default (vs_rotation secret) rotation) (vs_first_at secret) now
      (vs_history secret ++ [mkVVersion (Some value) now by_ None None]))).
Proof.
  intros Hrep Hp Hsz secret d' Hwf'. destruct (put_before _ _ _ _ _ _ _ Hrep Hp) as (row & Hin & Hid & Hpath & Hc & Hrot & Hfirst & Hh).
  fold secret in Hc, Hrot, Hfirst, Hh.
  assert (bump id (current + 1) now rotation row =
    mkSecretRow id (path_str path) (current + 1) (match rotation with Some c => rotation_str c | None => s_rotation row end)
      (s_created_at row) now (s_tier row)) as Hb by (unfold bump; by rewrite Hid, Z.eqb_refl, Hpath).
  rewrite (find_secret_unique d' path (bump id (current + 1) now rotation row)); [|done| |by rewrite Hb].
  2: { subst d'. simpl. apply elem_of_map. by exists row. }
  constructor. rewrite Hb. split; simpl; [rewrite length_app; simpl; lia|destruct rotation; by rewrite ?Hrot|done|done|].
  intros n. specialize (Hh n). subst d'. unfold find_version in *. simpl. rewrite find_snoc.
  destruct (decide (n < length (vs_history secret))%nat) as [Hlt|Hge].
  - rewrite lookup_app_l by done. destruct (List.find _ (db_versions d)); [done|].
    destruct (lookup_lt_is_Some_2 _ _ Hlt) as [x Hx]. rewrite Hx in Hh. inversion Hh.
  - rewrite (lookup_ge_None_2 (vs_history secret)) in Hh by lia. rewrite lookup_app_r by lia.
    destruct (List.find _ (db_versions d)); [inversion Hh|]. unfold is_version. simpl. rewrite Z.eqb_refl. simpl.
    destruct (Z.eqb_spec (current + 1) (Z.of_nat n + 1)) as [E|Hne].
    + replace (n - length (vs_history secret))%nat with 0%nat by lia. simpl. constructor. by apply rep_new_version.
    + rewrite lookup_ge_None_2; [constructor|]. simpl. lia.
Qed.

Lemma put_all_or_nothing_err path by_ rotation encrypt now s e s' :
  put_with_rotation path by_ rotation encrypt now s = (Err e, s') -> st_db s' = st_db s.
Proof.
  unfold put_with_rotation. intros [(u & s1 & [_ ->]%mlift_Ok & H)|(x & H & _)]%mbind_inv.
  - by apply transaction_Err in H.
  - by apply mlift_inv in H as [_ ->].
Qed.

Lemma put_secret_current path now d id current l : put_secret path now d id current l -> current = current_of path d.
Proof. unfold current_of. intros [(row & -> & _ & -> & _)|(-> & _ & -> & _)]; done. Qed.

(** The operation on the vault, with the tables' current number. *)
Lemma vault_put_at path by_ rotation encrypt now d vault : represents d vault ->
  let secret := found_secret vault path now in
  vault_put path by_ rotation encrypt now vault =
  match reject_reserved path, next_version path (current_of path d) with
  | Err e, _ | Ok _, Err e => (Err e, vault)
  | Ok _, Ok next =>
      match encrypt next with
      | Err e => (Err (CryptoFailed e), vault)
      | Ok value => (Ok next, <[path_str path := mkVSecret (default (vs_rotation secret) rotation) (vs_first_at secret) now
          (vs_history secret ++ [mkVVersion (Some value) now by_ None None])]> vault)
      end
  end.
Proof.
  intros Hrep secret. pose proof (found_current _ _ path now Hrep) as Hcur.
  pose proof (current_in_range _ path (rep_wf _ _ Hrep)) as Hrange. unfold vault_put, mbind, mlift, mgets.
  destruct (reject_reserved path); [|done]. change (default (mkVSecret Rotation_default now now []) (vault !! path_str path)) with secret.
  fold secret in Hcur. rewrite next_version_count by done. rewrite <- Hcur.
  destruct (Z.leb_spec u32_max (current_of path d)); [done|]. by destruct (encrypt _).
Qed.

Lemma refines_put path by_ rotation encrypt now : (forall v value, encrypt v = Ok value -> value_sized value) ->
  refines (put_with_rotation path by_ rotation encrypt now) (vault_put path by_ rotation encrypt now).
Proof.
  intros Hsz s vault r s' Hrep H. pose proof (rep_wf _ _ Hrep) as Hwf.
  rewrite (vault_put_at path by_ rotation encrypt now (st_db s) vault Hrep). unfold reject_reserved.
  destruct r as [v|e].
  - right. assert (store_wf (st_db s')) as Hwf' by (eapply store_step_wf; [exact Hwf|by eapply step_put]).
    apply put_Ok in H as (id & current & l & value & Hres & Hp & Hc & Hn & He & _ & Hs').
    pose proof (put_secret_current _ _ _ _ _ _ Hp) as Hcur. rewrite Hres, <- Hcur, Hn, He. eexists. split; [reflexivity|].
    pose proof Hn as Hn'. rewrite next_version_count in Hn' by done. destruct (u32_max <=? current)%Z; [done|]. injection Hn' as <-.
    simpl in Hs'. rewrite Hs' in Hwf' |- *. split; [done|]. intros q.
    destruct (decide (path_str q = path_str path)) as [E|Hne].
    + assert (q = path) as -> by (destruct q, path; simpl in E; by subst). rewrite lookup_insert_eq. eapply put_own; try done.
      by eapply Hsz.
    + rewrite lookup_insert_ne by done.
      destruct (put_other _ _ now _ _ _ (current + 1) value by_ rotation q Hwf Hp Hne) as [-> Hv].
      pose proof (rep_secrets _ _ Hrep q) as Hq. destruct (find_secret q (st_db s)) as [row|];
        inversion Hq as [? sec [R1 R2 R3 R4 R5] F1 F2|]; subst; constructor.
      split; try done. intros n. rewrite (Hv row eq_refl). apply R5.
  - assert (st_db s' = st_db s) as Hs' by (by apply (put_all_or_nothing_err path by_ rotation encrypt now s e)).
    apply put_Err in H as [Hf|[[Hres ->]|[Hres [Hn|(v & x & Hn & He & ->)]]]]; [| | | |done|by apply current_in_range].
    + left. split; [done|by eapply rep_same].
    + right. rewrite Hres. exists vault. split; [done|by eapply rep_same].
    + right. rewrite Hres, Hn. exists vault. split; [done|by eapply rep_same].
    + right. rewrite Hres, Hn, He. exists vault. split; [done|by eapply rep_same].
Qed.

(** *** The history in order *)

(** The rows of a history, oldest first. *)
Definition rows_from (d : Db) (id : Z) (first : nat) (count : nat) : list VersionRow :=
  omap (fun n => find_version id (mkVersion (Z.of_nat n + 1)) d) (seq first count).

Lemma rows_from_rep d id history : forall first,
  (forall n, option_Forall2 rep_version (find_version id (mkVersion (Z.of_nat (first + n) + 1)) d) (history !! n)) ->
  Forall2 rep_version (rows_from d id first (length history)) history /\
  (forall i r, rows_from d id first (length history) !! i = Some r -> r_version r = (Z.of_nat (first + i) + 1)%Z).
Proof.
  induction history as [|x history IH]; intros first H; [split; [constructor|done]|].
  pose proof (H 0%nat) as H0. rewrite Nat.add_0_r in H0. unfold rows_from. simpl.
  inversion H0 as [r ? Hr E1 E2|]; subst. destruct (IH (S first)) as [IH1 IH2].
  { intros n. specialize (H (S n)). rewrite Nat.add_succ_r in H. exact H. }
  split; [by constructor|]. intros [|i] r' Hi.
  - injection Hi as <-. symmetry in E1. apply find_version_Some in E1 as (_ & _ & ->). rewrite Nat.add_0_r. done.
  - apply IH2 in Hi. lia.
Qed.

Lemma in_rows_from d id first count r : r ∈ rows_from d id first count ->
  exists n, (first <= n < first + count)%nat /\ find_version id (mkVersion (Z.of_nat n + 1)) d = Some r.
Proof.
  unfold rows_from. intros (n & Hn & Hf)%list_elem_of_omap. exists n. split; [|done]. apply elem_of_seq in Hn. lia.
Qed.

Lemma numbered_sorted l : forall first : nat, (forall i r, l !! i = Some r -> r_version r = (Z.of_nat (first + i) + 1)%Z) ->
  Sorted (fun a b => (r_version a <=? r_version b)%Z = true) l.
Proof.
  induction l as [|r l IH]; intros first H; [constructor|]. constructor.
  - apply (IH (S first)). intros i x Hi. rewrite (H (S i) x Hi). lia.
  - destruct l as [|x l]; constructor. rewrite (H 0%nat r eq_refl), (H 1%nat x eq_refl). apply Z.leb_le. lia.
Qed.

Lemma numbered_distinct l : (forall i r, l !! i = Some r -> r_version r = (Z.of_nat i + 1)%Z) -> NoDup l.
Proof. intros H. apply NoDup_alt. intros i j r Hi%H Hj%H. lia. Qed.

(** The rows of a secret are the places of its history. *)
Lemma secret_rows d row secret r : store_wf d -> rep_secret d row secret ->
  r ∈ rows_from d (s_id row) 0 (length (vs_history secret)) <-> r ∈ List.filter (fun r => (r_secret r =? s_id row)%Z) (db_versions d).
Proof.
  intros Hwf Hr. transitivity (r ∈ db_versions d /\ r_secret r = s_id row).
  2: { by rewrite !list_elem_of_In, List.filter_In, Z.eqb_eq. }
  split.
  - intros (n & _ & Hf)%in_rows_from. by apply find_version_Some in Hf as (? & ? & _).
  - intros [Hin Hid]. destruct (wf_rows _ Hwf _ Hin) as (s & _ & _ & Hle). set (n := Z.to_nat (r_version r - 1)).
    assert (find_version (s_id row) (mkVersion (Z.of_nat n + 1)) d = Some r) as Hf
      by (apply find_version_unique; [done|done|done|simpl; lia]).
    pose proof (rep_history _ _ _ Hr n) as Hn. rewrite Hf in Hn. inversion Hn as [? x _ E1 E2|]; subst.
    apply list_elem_of_omap. exists n. split; [|done]. apply elem_of_seq.
    assert (n < length (vs_history secret))%nat by (eapply lookup_lt_Some; by rewrite <- E2). lia.
Qed.

Lemma history_rows d row secret : store_wf d -> rep_secret d row secret ->
  sort_by (fun a b => (r_version a <=? r_version b)%Z) (List.filter (fun r => (r_secret r =? s_id row)%Z) (db_versions d)) =
  rows_from d (s_id row) 0 (length (vs_history secret)).
Proof.
  intros Hwf Hr. destruct (rows_from_rep d (s_id row) (vs_history secret) 0 (rep_history _ _ _ Hr)) as [_ Hnum].
  pose proof (secret_rows d row secret) as Hsame. set (rows := rows_from _ _ _ _) in *.
  assert (NoDup (db_versions d)) as Hnd by (eapply NoDup_fmap_1; apply Hwf).
  assert (forall a b : VersionRow, a ∈ rows -> b ∈ rows -> r_version a = r_version b -> a = b) as Huniq.
  { intros a b Ha Hb E. apply list_elem_of_lookup in Ha as [i Hi]. apply list_elem_of_lookup in Hb as [j Hj].
    pose proof (Hnum _ _ Hi). pose proof (Hnum _ _ Hj). assert (i = j) as -> by lia. congruence. }
  assert (Transitive (fun a b => (r_version a <=? r_version b)%Z = true)) as Htr.
  { intros a b c H1%Z.leb_le H2%Z.leb_le. apply Z.leb_le. lia. }
  apply (Sorted_unique_strong (fun a b => (r_version a <=? r_version b)%Z = true)).
  - intros a b Ha Hb H1%Z.leb_le H2%Z.leb_le. rewrite sort_by_perm, <- Hsame in Ha by done. apply Huniq; [done|done|lia].
  - apply sort_by_sorted. intros a b H%Z.leb_gt. apply Z.leb_le. lia.
  - by apply (numbered_sorted _ 0).
  - rewrite sort_by_perm. apply NoDup_Permutation.
    + apply NoDup_ListNoDup, List.NoDup_filter. by apply NoDup_ListNoDup.
    + by apply numbered_distinct.
    + intros r. symmetry. by apply Hsame.
Qed.

Definition summary_at (first n : nat) (x : VVersion) : VersionSummary :=
  mkVersionSummary (mkVersion (Z.of_nat (first + n) + 1)) (vv_created_at x) (vv_created_by x) (vv_deleted_at x) (vv_destroyed_at x).

Lemma summaries path rows history : Forall2 rep_version rows history -> forall first,
  (forall i r, rows !! i = Some r -> r_version r = (Z.of_nat (first + i) + 1)%Z) ->
  (Z.of_nat (first + length history) <= u32_max)%Z ->
  res_mapM (summary_of path) rows = Ok (imap (summary_at first) history).
Proof.
  induction 1 as [|r x rows history (R1 & R2 & R3 & R4 & _) HF IH]; intros first Hnum Hmax; [done|].
  simpl. pose proof (Hnum 0%nat r eq_refl) as Hr. rewrite (IH (S first)).
  - unfold summary_of. rewrite Hr, R1, R2, R3, R4. unfold u32_try_from. simpl length in Hmax.
    rewrite !(proj2 (Z.leb_le _ _)) by lia. simpl. unfold version_new. rewrite (proj2 (Z.eqb_neq _ _)) by lia. simpl. do 2 f_equal.
    apply imap_ext. intros n y _. unfold summary_at. simpl. by rewrite Nat.add_succ_r.
  - intros i y Hi. rewrite (Hnum (S i) y Hi). lia.
  - simpl in Hmax. lia.
Qed.

Lemma refines_versions path : refines (versions path) (vault_versions path).
Proof.
  apply refines_require. intros s vault row secret r s' Hrep Hf Hv Hr H. unfold mbind in H.
  destruct (sql_read _ s) as [read s2] eqn:Hread. apply sql_read_inv in Hread as [Hs2 [->|[e ->]]].
  2: { injection H as <- <-. left. split; [by eexists|by eapply rep_same]. }
  right. exists vault. pose proof (rep_wf _ _ Hrep) as Hwf. rewrite (history_rows _ _ _ Hwf Hr) in H.
  destruct (rows_from_rep (st_db s) (s_id row) (vs_history secret) 0 (rep_history _ _ _ Hr)) as [HF Hnum].
  apply find_secret_Some in Hf as [Hin _]. pose proof (wf_current _ Hwf _ Hin) as Hc. rewrite (rep_current _ _ _ Hr) in Hc.
  rewrite (summaries path _ _ HF 0 Hnum) in H by (simpl; lia).
  injection H as <- <-. split; [done|by eapply rep_same].
Qed.

(** ** The simulation *)

Lemma refines_answer {A} (f : A -> Answered) (m : store_m A) (spec : vault_m A) :
  refines m spec -> refines (answer f m) (answer f spec).
Proof.
  intros Hm s vault r s' Hrep H. unfold answer in H. destruct (m s) as [x s1] eqn:Hx. injection H as <- <-.
  destruct (Hm _ _ _ _ Hrep Hx) as [[[e ->] Hr]|(vault' & Hs & Hr)]; [left; split; [by exists e|done]|right].
  exists vault'. split; [|done]. unfold answer. by rewrite Hs.
Qed.

Lemma refines_call c : call_ok c -> refines (call_store c) (call_vault c).
Proof.
  intros Hok. destruct c; apply refines_answer;
    auto using refines_put, refines_get, refines_metadata, refines_versions, refines_set_rotation, refines_delete,
      refines_undelete, refines_destroy.
Qed.

(** C18: Whatever the calls and whatever statements fail, the tables answer as a vault
    does in which the calls that met a failing statement did not happen, and they
    end as that vault does; a store starts as the empty vault. *)
Theorem store_refines_vault calls s vault : represents (st_db s) vault -> Forall call_ok calls ->
  exists vault', vault_run calls vault (fst (store_run calls s)) vault' /\
    represents (st_db (snd (store_run calls s))) vault'.
Proof.
  intros Hrep Hok. revert s vault Hrep. induction Hok as [|c calls Hc _ IH]; intros s vault Hrep; [exists vault; split; [constructor|done]|].
  cbn [store_run]. destruct (call_store c s) as [r s1] eqn:Hcall.
  destruct (refines_call c Hc _ _ _ _ Hrep Hcall) as [[Hf Hrep1]|(vault1 & Hv & Hrep1)];
    destruct (IH s1 _ Hrep1) as (vault2 & Hrun & Hrep2); destruct (store_run calls s1) as [rs s2];
    exists vault2; (split; [|exact Hrep2]); [by apply vault_run_fault|by eapply vault_run_call].
Qed.

Lemma represents_empty : represents db_empty ∅.
Proof. split; [apply store_wf_empty|]. intros path. rewrite lookup_empty. constructor. Qed.

(** ** A run *)

Definition demo_path : SecretPath := mkSecretPath "app/key".
Definition demo_calls : list StoreCall :=
  [CallPut demo_path "ops" None (fun _ => Ok example_encrypted) 1; CallPut demo_path "ops" (Some Rotatable) (fun _ => Ok example_encrypted) 2;
   CallDelete demo_path (mkVersion 1) 3; CallGet demo_path (Some (mkVersion 1)); CallDestroy demo_path (mkVersion 1) 4;
   CallUndelete demo_path (mkVersion 1); CallGet demo_path None; CallVersions demo_path].

Lemma store_refines_vault_witness : exists vault',
  vault_run demo_calls ∅ (fst (store_run demo_calls (mkStore db_empty [None; None; None; None; None; None; Some "disk I/O error"%string]))) vault'.
Proof.
  destruct (store_refines_vault demo_calls (mkStore db_empty [None; None; None; None; None; None; Some "disk I/O error"%string]) ∅)
    as (vault' & Hv & _); [apply represents_empty| |by exists vault'].
  unfold demo_calls. do 2 (apply Forall_cons; split; [by intros v value [= <-]|]). do 6 (apply Forall_cons; split; [exact I|]). apply Forall_nil, I.
Defined.
