(* ===== verification/StoreAudit.v ===== *)
(** * The audit log in the store ([ciphr-store/src/audit.rs])

    The device that appends to [audit_log], the cut that removes old records
    and keeps the rest verifiable, and the queries.  The fields of a payload that
    a query filters on are read by SQLite's JSON functions: the class
    [LogJson]. *)

From Stdlib Require Import ZArith NArith Lia Ascii String.
From stdpp Require Import base tactics list strings gmap sorting.
From S2P Require Import Prelude Text Hex Path Vocabulary Crypto Time Chain Sink Anchor Db Store.

(** [json_extract] of the principal's name, the path and the outcome. *)
Class LogJson : Type := {
  json_name : string -> option string;
  json_path : string -> option string;
  json_allowed : string -> option bool;
}.

Definition decode_hash (stored : string) : result StoreError bytes :=
  match hex_decode_into stored (zeroed HASH_LEN) with
  | (Ok _, b) => Ok b
  | (Err _, _) => Err (Corrupt "a stored audit hash is not a chain hash")
  end.

Definition decode_count (stored : Z) : result StoreError Z :=
  ok_or (Corrupt "an audit sequence number or count is negative") (u64_try_from stored).

Record AuditCut : Type := mkAuditCut {
  cut_at : Z;
  cut_seq : Z;
  cut_hash : bytes;
  cut_removed : Z;
  cut_anchor : option string;
}.
Definition cut_as_start (c : AuditCut) : Start := AfterCut (cut_seq c) (cut_hash c).

Definition seq_leb (a b : LogRow) : bool := (l_seq a <=? l_seq b)%Z.
(** [ORDER BY seq] *)
Definition log_by_seq (d : Db) : list LogRow := sort_by seq_leb (db_log d).

Definition head_of : store_m (option (Z * bytes)) :=
  let! row := sql_read (fun d => last (log_by_seq d)) in
  match row with
  | None => mret None
  | Some row =>
      let! seq := mlift (decode_count (l_seq row)) in
      let! hash := mlift (decode_hash (l_hash row)) in
      mret (Some (seq, hash))
  end.

(** The table arrives with migration 4. *)
Definition has_cut_table : store_m bool := sql_read (fun d => (4 <=? db_schema d)%Z).

Definition require_cut_table : store_m unit :=
  let! found := has_cut_table in
  if (found : bool) then mret tt
  else mfail (CutRefused "this database has no table to record a cut in: it was migrated by a build from before cutting existed, and removing records without recording where would leave the remainder unverifiable").

(** [ORDER BY id DESC LIMIT 1] *)
Definition last_cut_row (d : Db) : option CutRow :=
  last (sort_by (fun a b => (c_id a <=? c_id b)%Z) (db_cuts d)).

Definition latest_cut_of : store_m (option AuditCut) :=
  let! found := has_cut_table in
  if negb found then mret None
  else
    let! row := sql_read last_cut_row in
    match row with
    | None => mret None
    | Some row =>
        let! seq := mlift (decode_count (c_seq row)) in
        let! hash := mlift (decode_hash (c_hash row)) in
        let! removed := mlift (decode_count (c_removed row)) in
        mret (Some (mkAuditCut (c_cut_at row) seq hash removed (c_anchor row)))
    end.

Definition start_of : store_m Start :=
  let! cut := latest_cut_of in
  mret (match cut with None => Genesis | Some cut => cut_as_start cut end).

Definition chain_to_continue : store_m Chain :=
  let! head := head_of in
  let! cut := latest_cut_of in
  match head, cut with
  | Some (seq, hash), Some cut =>
      if (seq <=? cut_seq cut)%Z then
        mfail (Corrupt ("a cut through sequence " ++ dec (cut_seq cut)
          ++ " is recorded, but the audit log ends at " ++ dec seq
          ++ ": records that survived the cut were removed without recording one"))
      else mret (chain_resume seq hash)
  | Some (seq, hash), None => mret (chain_resume seq hash)
  | None, Some cut =>
      mfail (Corrupt ("the audit log is empty, but a cut through sequence " ++ dec (cut_seq cut)
        ++ " is recorded, and a cut never empties it"))
  | None, None => mret chain_new
  end.

(** ** The cut *)

Definition find_log (seq : Z) (d : Db) : option LogRow :=
  List.find (fun r => (l_seq r =? seq)%Z) (db_log d).

(** [DELETE FROM audit_log WHERE seq <= ?1] *)
Definition delete_through (through : Z) : store_m Z :=
  sql_change (fun d =>
    (Z.of_nat (length (List.filter (fun r => (l_seq r <=? through)%Z) (db_log d))),
     set_log (List.filter (fun r => negb (l_seq r <=? through)%Z) (db_log d)) d)).

Definition insert_cut (row : Z -> CutRow) : store_m unit :=
  sql (fun d => Ok (tt, set_cuts (db_cuts d ++ [row (next_id (map c_id (db_cuts d)))]) d)).

Definition audit_cut (through_seq : Z) (through_hash : bytes) (now_millis : Z) (anchor : option string)
    : store_m AuditCut :=
  let! through := mlift (ok_or (CutRefused ("sequence " ++ dec through_seq ++ " is out of range"))
                           (i64_try_from through_seq)) in
  let! _ := require_cut_table in
  transaction (
    let! stored := sql_read (find_log through) in
    let! stored := mlift (ok_or (CutRefused ("the audit log has no record at sequence " ++ dec through_seq))
                            stored) in
    let! hash := mlift (decode_hash (l_hash stored)) in
    if negb (bool_decide (hash = through_hash)) then
      mfail (CutRefused ("the record at sequence " ++ dec through_seq ++ " is not the one that was verified"))
    else
      let! remaining := sql_read (fun d =>
        Z.of_nat (length (List.filter (fun r => (through <? l_seq r)%Z) (db_log d)))) in
      if (remaining =? 0)%Z then
        mfail (CutRefused ("cutting through sequence " ++ dec through_seq
                          ++ " would leave the queryable log empty"))
      else
        let! previous := latest_cut_of in
        if match previous with Some p => (through_seq <=? cut_seq p)%Z | None => false end then
          mfail (CutRefused ("a cut through sequence "
            ++ dec (match previous with Some p => cut_seq p | None => 0%Z end)
            ++ " is already recorded, so cutting through " ++ dec through_seq
            ++ " would move it backwards"))
        else
          let! removed := delete_through through in
          let removed := default 0%Z (u64_try_from removed) in
          let! _ := insert_cut (fun id => mkCutRow id now_millis through (hex_encode through_hash)
                                  (default i64_max (i64_try_from removed)) anchor) in
          mret (mkAuditCut now_millis through_seq through_hash removed anchor)).

(** ** Reading *)

Record AuditRow : Type := mkAuditRow { ar_seq : Z; ar_hash : bytes; ar_payload : string }.
Definition row_as_stored (r : AuditRow) : StoredRecord :=
  mkStoredRecord (ar_seq r) (ar_payload r) (Some (ar_hash r)).
Definition hash_matches {H : Sha256} (r : AuditRow) : bool :=
  bool_decide (hash_payload (as_bytes (ar_payload r)) = ar_hash r).

Definition audit_row (r : LogRow) : result StoreError AuditRow :=
  let? seq := ok_or (Corrupt "an audit sequence number is negative") (u64_try_from (l_seq r)) in
  let? hash := decode_hash (l_hash r) in
  Ok (mkAuditRow seq hash (l_payload r)).

Definition records : store_m (list AuditRow) :=
  let! rows := sql_read log_by_seq in mlift (res_mapM audit_row rows).

Definition log_len : store_m Z := sql_read (fun d => Z.of_nat (length (db_log d))).

Inductive AuditWindow : Type :=
| Oldest (after_seq : option Z)
| Newest (before_seq : option Z).

Record AuditFilter : Type := mkAuditFilter {
  af_limit : Z;
  af_window : AuditWindow;
  af_since : option Z;
  af_identity : option string;
  af_path : option string;
  af_allowed : option bool;
}.

Section query.
Context {LJ : LogJson}.

(** [?n IS NULL OR column = ?n] *)
Definition matches_opt {A} `{EqDecision A} (wanted : option A) (found : option A) : bool :=
  match wanted with None => true | Some w => bool_decide (found = Some w) end.

Definition in_filter (filter : AuditFilter) (r : LogRow) : bool :=
  match af_since filter with None => true | Some t => (t <=? l_ts r)%Z end &&
  matches_opt (af_identity filter) (json_name (l_payload r)) &&
  matches_opt (af_path filter) (json_path (l_payload r)) &&
  matches_opt (af_allowed filter) (json_allowed (l_payload r)).

(** The bound of a cursor: [i64::try_from(seq).unwrap_or(i64::MAX)]. *)
Definition cursor (seq : Z) : Z := default i64_max (i64_try_from seq).

Definition in_window (w : AuditWindow) (r : LogRow) : bool :=
  match w with
  | Oldest (Some after) => (cursor after <? l_seq r)%Z
  | Newest (Some before) => (l_seq r <? cursor before)%Z
  | _ => true
  end.

(** The two statements: from the oldest, the first [limit]; from the newest, the
    last [limit], given back in order. *)
Definition query_rows (filter : AuditFilter) (d : Db) : list LogRow :=
  let matching := List.filter (fun r => in_window (af_window filter) r && in_filter filter r) (db_log d) in
  match af_window filter with
  | Oldest _ => take_Z (af_limit filter) (sort_by seq_leb matching)
  | Newest _ => sort_by seq_leb (take_Z (af_limit filter) (sort_by (fun a b => seq_leb b a) matching))
  end.

Definition audit_query (filter : AuditFilter) : store_m (list AuditRow) :=
  let! rows := sql_read (query_rows filter) in mlift (res_mapM audit_row rows).
End query.

(** ** The device *)

Record SqliteAuditDevice : Type := mkSqliteAuditDevice { sad_name : string; sad_store : Store }.

(** [INSERT INTO audit_log]: the key is the sequence number, and rows are kept in
    the order of the key. *)
Definition insert_log (row : LogRow) : store_m unit :=
  sql (fun d =>
    if existsb (fun r => (l_seq r =? l_seq row)%Z) (db_log d)
    then Err (SqlConstraint "UNIQUE constraint failed: audit_log.seq")
    else Ok (tt, set_log (insert_by seq_leb row (db_log d)) d)).

Definition sqlite_error_text (e : StoreError) : string :=
  match e with Sqlite e => sql_error_display e | e => store_error_display e end.

Definition log_row (record : EncodedRecord) : LogRow :=
  mkLogRow (default i64_max (i64_try_from (er_seq record))) (er_ts_millis record)
    (prev_hash_hex record) (hash_hex record) (er_payload record).

Definition sqlite_write (record : EncodedRecord) (d : SqliteAuditDevice)
    : result string unit * SqliteAuditDevice :=
  let '(r, s) := insert_log (log_row record) (sad_store d) in
  (map_err (fun e => "could not append to audit_log: " ++ sqlite_error_text e)%string r,
   mkSqliteAuditDevice (sad_name d) s).

(** [SELECT MAX(seq)]; asking may fail like any statement. *)
Definition sqlite_head_seq (d : SqliteAuditDevice) : result string (option Z) :=
  match fst (sql_read (fun db => l_seq <$> last (log_by_seq db)) (sad_store d)) with
  | Ok found => Ok ((fun seq => default 0%Z (u64_try_from seq)) <$> found)
  | Err e => Err ("cannot read the head of " ++ sad_name d ++ ": " ++ sqlite_error_text e)%string
  end.

#[export] Instance sqlite_audit_device : AuditDevice SqliteAuditDevice := {
  dev_name := sad_name;
  dev_write := sqlite_write;
  dev_head_seq := sqlite_head_seq;
  dev_reopen d := (Ok tt, d);
}.

(** ** Lemmas on order *)

Lemma sort_by_id {A} (leb : A -> A -> bool) l :
  StronglySorted (fun a b => leb a b = true) l -> sort_by leb l = l.
Proof.
  induction 1 as [|x l Hl IH Hx]; simpl; [done|]. rewrite IH.
  destruct l as [|y l]; simpl; [done|]. by rewrite (Forall_inv Hx).
Qed.

Lemma last_insert_by {A} (leb : A -> A -> bool) x y k :
  last k = Some x -> leb y x = true -> last (insert_by leb y k) = Some x.
Proof.
  intros Hk Hy. induction k as [|z k IH]; simpl; [done|].
  destruct (leb y z) eqn:Hz; [by simpl|]. destruct k as [|w k].
  - simpl in Hk. injection Hk as ->. congruence.
  - simpl in IH, Hk. specialize (IH Hk). simpl. destruct (leb y w); [by simpl in *|]. exact IH.
Qed.

Lemma last_sort_by {A} (leb : A -> A -> bool) l x :
  (forall y, y ∈ l -> leb y x = true) -> last (sort_by leb (l ++ [x])) = Some x.
Proof.
  induction l as [|y l IH]; intros H; simpl; [done|].
  apply last_insert_by; [|apply H; left]. apply IH. intros z Hz. apply H. by right.
Qed.

(** Rows in the order of their key. *)
Definition log_wf (d : Db) : Prop := StronglySorted (fun a b => (l_seq a < l_seq b)%Z) (db_log d).

Lemma log_wf_leb l : StronglySorted (fun a b => (l_seq a < l_seq b)%Z) l ->
  StronglySorted (fun a b => seq_leb a b = true) l.
Proof.
  induction 1 as [|x l Hl IH Hx]; constructor; [done|].
  eapply Forall_impl; [exact Hx|]. intros y Hy. unfold seq_leb. simpl in Hy. lia.
Qed.

Lemma log_by_seq_id d : log_wf d -> log_by_seq d = db_log d.
Proof. intros Hd. by apply sort_by_id, log_wf_leb. Qed.

Lemma StronglySorted_filter {A} (R : A -> A -> Prop) (p : A -> bool) l :
  StronglySorted R l -> StronglySorted R (List.filter p l).
Proof.
  induction 1 as [|x l Hl IH Hx]; simpl; [constructor|]. destruct (p x); [|done].
  constructor; [done|]. rewrite Forall_forall in *. intros y Hy. apply Hx.
  apply list_elem_of_In in Hy. apply List.filter_In in Hy as [Hy _]. by apply list_elem_of_In.
Qed.

(** ** Lemmas on decoding *)

Lemma decode_hash_Ok s h : decode_hash s = Ok h -> length h = HASH_LEN.
Proof.
  unfold decode_hash. pose proof (hex_decode_into_spec s (zeroed HASH_LEN)) as H.
  destruct (hex_decode_into s (zeroed HASH_LEN)) as [[u|e] b]; [|done].
  intros [= <-]. by destruct H as [-> _].
Qed.

Lemma decode_hash_encode h : length h = HASH_LEN -> decode_hash (hex_encode h) = Ok h.
Proof. intros H. unfold decode_hash. by rewrite hex_decode_into_encode by by rewrite H. Qed.

Lemma u64_try_from_Some z v : u64_try_from z = Some v -> v = z /\ (0 <= z <= u64_max)%Z.
Proof.
  unfold u64_try_from. destruct ((0 <=? z) && (z <=? u64_max))%Z eqn:E; [|done].
  intros [= <-]. split; [done|lia].
Qed.

Lemma decode_count_id z : (0 <= z <= u64_max)%Z -> decode_count z = Ok z.
Proof.
  intros H. unfold decode_count, u64_try_from. by rewrite !(proj2 (Z.leb_le _ _)) by lia.
Qed.

Lemma audit_row_Ok r a : audit_row r = Ok a ->
  ar_seq a = l_seq r /\ ar_payload a = l_payload r /\ decode_hash (l_hash r) = Ok (ar_hash a) /\
  (0 <= l_seq r)%Z.
Proof.
  unfold audit_row, u64_try_from. intros H. run_ok.
  destruct ((0 <=? l_seq r) && (l_seq r <=? u64_max))%Z eqn:E; [|done].
  injection Hres as <-. injection H as <-. simpl. split_and!; try done. lia.
Qed.

Lemma rows_filter (p : Z -> bool) l rows :
  res_mapM audit_row l = Ok rows ->
  res_mapM audit_row (List.filter (fun r => p (l_seq r)) l) = Ok (List.filter (fun a => p (ar_seq a)) rows).
Proof.
  intros H%res_mapM_Ok. induction H as [|r a l rows Hr H IH]; simpl; [done|].
  pose proof (audit_row_Ok _ _ Hr) as (-> & _). destruct (p (l_seq r)); simpl; [|done].
  by rewrite Hr, IH.
Qed.

(** ** Lemmas on chains *)

Section cut.
Context {H : Sha256} {J : Json}.

Lemma chained_drop seq prev rs head i r :
  chained seq prev rs head -> (0 <= seq)%Z -> (seq + Z.of_nat (length rs) <= u64_max)%Z ->
  rs !! i = Some r ->
  chained (seq + Z.of_nat i + 1) (hash_payload (as_bytes (sr_payload r))) (drop (S i) rs) head.
Proof.
  intros Hc. revert i. induction Hc as [seq prev|seq prev x rs head Hl Hc IH]; intros i Hs Hm Hi;
    [done|]. simpl in Hm.
  assert (u64_add seq 1 = seq + 1)%Z as E by (unfold u64_add, u64_max in *; rewrite Z.mod_small; lia).
  destruct i as [|i]; simpl in Hi.
  - injection Hi as ->. change (drop 1 (r :: rs)) with rs. rewrite E in Hc.
    by replace (seq + Z.of_nat 0 + 1)%Z with (seq + 1)%Z by lia.
  - rewrite E in *. specialize (IH i ltac:(lia) ltac:(lia) Hi).
    change (drop (S (S i)) (x :: rs)) with (drop (S i) rs).
    by replace (seq + Z.of_nat (S i) + 1)%Z with (seq + 1 + Z.of_nat i + 1)%Z by lia.
Qed.

(** In a chain the records after a sequence number are those after its position. *)
Lemma chained_filter seq prev rows head i :
  chained seq prev (map row_as_stored rows) head -> (0 <= seq)%Z ->
  (seq + Z.of_nat (length rows) <= u64_max)%Z ->
  List.filter (fun a => negb (ar_seq a <=? seq + Z.of_nat i - 1)%Z) rows = drop i rows.
Proof.
  revert seq prev i. induction rows as [|a rows IH]; intros seq prev i Hc Hs Hm; simpl; [by rewrite drop_nil|].
  inversion Hc as [|? ? ? ? ? Hl Hc']; subst. destruct Hl as [Ha _]. simpl in Ha, Hm.
  assert (u64_add seq 1 = seq + 1)%Z as E by (unfold u64_add, u64_max in *; rewrite Z.mod_small; lia).
  rewrite E in Hc'. rewrite Ha. destruct i as [|i].
  - rewrite (proj2 (Z.leb_gt _ _)) by lia. simpl. f_equal.
    rewrite <- (IH _ _ 0%nat Hc') at 2 by lia. clear IH Ha.
    assert (forall l b s, chained s b (map row_as_stored l) head -> (seq + 1 <= s)%Z -> (0 <= s)%Z ->
      (s + Z.of_nat (length l) <= u64_max)%Z ->
      List.filter (fun a => negb (ar_seq a <=? seq + Z.of_nat 0 - 1)%Z) l =
      List.filter (fun a => negb (ar_seq a <=? seq + 1 + Z.of_nat 0 - 1)%Z) l) as Hall.
    { induction l as [|x l IHl]; intros b s Hx Hle H0 Hmax; simpl; [done|].
      inversion Hx as [|? ? ? ? ? Hlx Hcx]; subst. destruct Hlx as [Hxs _]. simpl in Hxs, Hmax. rewrite Hxs.
      rewrite !(proj2 (Z.leb_gt _ _)) by lia. simpl. f_equal.
      assert (u64_add s 1 = s + 1)%Z as Es by (unfold u64_add, u64_max in *; rewrite Z.mod_small; lia).
      rewrite Es in Hcx. eapply IHl; [exact Hcx|lia..]. }
    eapply Hall; [exact Hc'|lia..].
  - rewrite (proj2 (Z.leb_le _ _)) by lia. simpl. rewrite <- (IH _ _ i Hc') by lia.
    apply List.filter_ext. intros x. do 2 f_equal. lia.
Qed.

Lemma last_seq_drop d rs i : (i < length rs)%nat -> last_seq d (drop i rs) = last_seq d rs.
Proof.
  revert d i. induction rs as [|r rs IH]; intros d i Hi; simpl in *; [lia|].
  destruct i as [|i]; simpl; [done|]. rewrite <- (IH (sr_seq r) i) by lia.
  destruct (drop i rs) eqn:E; [|done]. apply (f_equal length) in E. rewrite length_drop in E. simpl in E. lia.
Qed.

(** ** Lemmas on the cut *)

(** The same tables, with nothing going wrong. *)
Definition clean (s : Store) : Store := mkStore (st_db s) [].

Lemma records_clean s : fst (records (clean s)) = res_mapM audit_row (log_by_seq (st_db s)).
Proof. reflexivity. Qed.

Definition cut_row_start (r : option CutRow) : result StoreError Start :=
  match r with
  | None => Ok Genesis
  | Some row =>
      let? seq := decode_count (c_seq row) in
      let? hash := decode_hash (c_hash row) in
      let? _ := decode_count (c_removed row) in
      Ok (AfterCut seq hash)
  end.

Lemma start_of_clean s : (4 <= db_schema (st_db s))%Z ->
  fst (start_of (clean s)) = cut_row_start (last_cut_row (st_db s)).
Proof.
  intros Hs. unfold start_of, latest_cut_of, has_cut_table, mbind, sql_read, sql. simpl.
  rewrite (proj2 (Z.leb_le _ _)) by done. simpl.
  destruct (last_cut_row (st_db s)) as [row|]; simpl; [|done].
  destruct (decode_count (c_seq row)); simpl; [|done].
  destruct (decode_hash (c_hash row)); simpl; [|done].
  by destruct (decode_count (c_removed row)).
Qed.

(** [chain_to_continue] with nothing going wrong. *)
Lemma continue_clean s : (4 <= db_schema (st_db s))%Z ->
  fst (chain_to_continue (clean s)) =
  let? head := match last (log_by_seq (st_db s)) with
               | None => Ok None
               | Some row => let? seq := decode_count (l_seq row) in
                             let? hash := decode_hash (l_hash row) in Ok (Some (seq, hash))
               end in
  let? cut := match last_cut_row (st_db s) with
              | None => Ok None
              | Some row => let? seq := decode_count (c_seq row) in
                            let? hash := decode_hash (c_hash row) in
                            let? removed := decode_count (c_removed row) in
                            Ok (Some (mkAuditCut (c_cut_at row) seq hash removed (c_anchor row)))
              end in
  fst (match head, cut with
       | Some (seq, hash), Some cut =>
           if (seq <=? cut_seq cut)%Z then
             mfail (Corrupt ("a cut through sequence " ++ dec (cut_seq cut)
               ++ " is recorded, but the audit log ends at " ++ dec seq
               ++ ": records that survived the cut were removed without recording one"))
           else mret (chain_resume seq hash)
       | Some (seq, hash), None => mret (chain_resume seq hash)
       | None, Some cut =>
           mfail (Corrupt ("the audit log is empty, but a cut through sequence " ++ dec (cut_seq cut)
             ++ " is recorded, and a cut never empties it"))
       | None, None => mret chain_new
       end (clean s)).
Proof.
  intros Hs%Z.leb_le. unfold chain_to_continue, head_of, latest_cut_of, has_cut_table, mbind, sql_read, sql.
  simpl.
  destruct (last (log_by_seq _)) as [r|]; simpl.
  - destruct (decode_count (l_seq r)); simpl; [|done]. destruct (decode_hash (l_hash r)); simpl; [|done].
    rewrite Hs. simpl. destruct (last_cut_row (st_db s)) as [row|]; simpl; [|done].
    destruct (decode_count (c_seq row)); simpl; [|done].
    destruct (decode_hash (c_hash row)); simpl; [|done].
    by destruct (decode_count (c_removed row)).
  - rewrite Hs. simpl. destruct (last_cut_row (st_db s)) as [row|]; simpl; [|done].
    destruct (decode_count (c_seq row)); simpl; [|done].
    destruct (decode_hash (c_hash row)); simpl; [|done].
    by destruct (decode_count (c_removed row)).
Qed.

Lemma start_of_nonneg s start : (4 <= db_schema (st_db s))%Z ->
  fst (start_of (clean s)) = Ok start -> (0 <= first_seq start)%Z.
Proof.
  intros Hs. rewrite start_of_clean by done. destruct (last_cut_row _) as [row|]; simpl.
  - unfold decode_count, u64_try_from. intros Hr. run_ok. injection Hr as <-.
    destruct ((0 <=? c_seq row) && (c_seq row <=? u64_max))%Z eqn:E; [|done]. injection Hres as <-.
    simpl. unfold u64_sat_add, u64_max. lia.
  - by intros [= <-].
Qed.

Lemma removed_count_range (n : nat) :
  let count := default 0%Z (u64_try_from (Z.of_nat n)) in
  (0 <= default i64_max (i64_try_from count) <= u64_max)%Z.
Proof.
  intros count. assert (0 <= count <= u64_max)%Z as Hc.
  { subst count. unfold u64_try_from. destruct ((0 <=? Z.of_nat n) && (Z.of_nat n <=? u64_max))%Z eqn:E; simpl;
      unfold u64_max in *; lia. }
  unfold i64_try_from. destruct ((i64_min <=? count) && (count <=? i64_max))%Z; simpl;
    unfold i64_max, u64_max in *; lia.
Qed.

Lemma next_id_max ids x : x ∈ ids -> (x < next_id ids)%Z.
Proof.
  unfold next_id. induction ids as [|y ids IH]; intros Hx; [by apply elem_of_nil in Hx|].
  simpl. apply elem_of_cons in Hx as [->|Hx]; [lia|]. specialize (IH Hx). lia.
Qed.

Lemma reads_only_latest_cut_of : reads_only latest_cut_of.
Proof. unfold latest_cut_of, has_cut_table. reads. Qed.

Lemma require_cut_reads : reads_only require_cut_table.
Proof. unfold require_cut_table, has_cut_table. reads. Qed.

Lemma reads_start : reads_only start_of.
Proof.
  unfold start_of, reads_only. apply respects_bind; [typeclasses eauto|apply reads_only_latest_cut_of|]. intros cut. reads.
Qed.

Lemma reads_chain : reads_only chain_to_continue.
Proof.
  unfold chain_to_continue, reads_only. apply respects_bind; [typeclasses eauto|unfold head_of; reads|]. intros head.
  apply respects_bind; [typeclasses eauto|apply reads_only_latest_cut_of|]. intros cut. reads.
Qed.

(** What a cut that succeeded found and did. *)
Lemma audit_cut_Ok through hash now anchor s c s' :
  audit_cut through hash now anchor s = (Ok c, s') ->
  exists row, find_log through (st_db s) = Some row /\ decode_hash (l_hash row) = Ok hash /\
    (through <= i64_max)%Z /\ (4 <= db_schema (st_db s))%Z /\
    List.filter (fun r => (through <? l_seq r)%Z) (db_log (st_db s)) <> [] /\
    let kept := List.filter (fun r => negb (l_seq r <=? through)%Z) (db_log (st_db s)) in
    let removed := List.filter (fun r => (l_seq r <=? through)%Z) (db_log (st_db s)) in
    let count := default 0%Z (u64_try_from (Z.of_nat (length removed))) in
    c = mkAuditCut now through hash count anchor /\
    st_db s' = set_cuts (db_cuts (st_db s) ++
      [mkCutRow (next_id (map c_id (db_cuts (st_db s)))) now through (hex_encode hash)
        (default i64_max (i64_try_from count)) anchor]) (set_log kept (st_db s)).
Proof.
  unfold audit_cut, require_cut_table, has_cut_table. intros Hc. run_ok. apply mlift_Ok in Hrun as [Ht ->].
  unfold i64_try_from in Ht. apply ok_or_Ok in Ht. destruct ((i64_min <=? through) && (through <=? i64_max))%Z eqn:Hi; [|done]. injection Ht as <-.
  apply sql_read_Ok in Hrun1 as [-> E1]. destruct (4 <=? _)%Z eqn:Hsch; [|done].
  injection Hrun0 as <- <-.
  apply transaction_Ok in Hc as (t1 & t2 & E2 & Hc & E3). run_ok.
  apply sql_read_Ok in Hrun as [-> E4]. apply mlift_Ok in Hrun0 as [Hf ->]. apply ok_or_Ok in Hf.
  apply mlift_Ok in Hrun1 as [Hd ->]. case_bool_decide as Hh; [|done]. simpl in Hc. subst v1. run_ok.
  apply sql_read_Ok in Hrun as [-> E5]. case_match eqn:Hrem; [done|]. run_ok.
  apply (reads_only_latest_cut_of) in Hrun as E6. case_match; [done|]. run_ok.
  apply sql_change_Ok in Hrun0. injection Hrun0 as -> E7. apply sql_Ok in Hrun1. injection Hrun1 as _ E8.
  assert (st_db t1 = st_db s) as Et by congruence. assert (st_db s0 = st_db s) as E0 by congruence.
  assert (st_db s3 = st_db s) as E9 by congruence. rewrite E9 in *. rewrite Et in Hf. rewrite E0 in Hrem.
  exists v0. split_and!; [done|done|lia|lia| |done|].
  - intros Hnil. by rewrite Hnil in Hrem.
  - by rewrite E3, <- E8, E7.
Qed.

Lemma chained_at seq prev rs head i r :
  chained seq prev rs head -> rs !! i = Some r -> exists s p, links s p r.
Proof.
  intros Hc. revert i. induction Hc as [seq prev|seq prev x rs head Hl Hc IH]; intros [|i] Hi; try done.
  - injection Hi as <-. eauto.
  - eauto.
Qed.

(** In a verified log the records after record [through] follow from its hash. *)
Lemma verify_from_tail start rows v through a :
  verify_from start (map row_as_stored rows) = Ok v ->
  (0 <= first_seq start)%Z -> (first_seq start + Z.of_nat (length rows) <= u64_max)%Z ->
  a ∈ rows -> ar_seq a = through -> (0 <= through)%Z ->
  let kept := List.filter (fun a => negb (ar_seq a <=? through)%Z) rows in
  kept <> [] ->
  exists v', verify_from (AfterCut through (ar_hash a)) (map row_as_stored kept) = Ok v' /\
    v_head_hash v' = v_head_hash v /\ v_head_seq v' = v_head_seq v.
Proof.
  intros (Hc & Hh & _)%verify_from_Ok H0 Hm Ha Hs Ht kept Hne.
  apply list_elem_of_lookup in Ha as [i Hi].
  assert (map row_as_stored rows !! i = Some (row_as_stored a)) as Hi' by by rewrite list_lookup_fmap, Hi.
  assert (first_seq start + Z.of_nat (length (map row_as_stored rows)) <= u64_max)%Z as Hm'
    by by rewrite length_map.
  destruct (chained_take _ _ _ _ _ _ Hc H0 Hm' Hi') as [Es _]. simpl in Es.
  pose proof (chained_drop _ _ _ _ _ _ Hc H0 Hm' Hi') as Hd.
  destruct (chained_at _ _ _ _ _ _ Hc Hi') as (s & p & Hl).
  assert (kept = drop (S i) rows) as Ek.
  { rewrite <- (chained_filter _ _ _ _ (S i) Hc H0 Hm). apply List.filter_ext. intros x. do 2 f_equal. lia. }
  rewrite Ek in *. clear kept Ek.
  exists (mkVerified (Z.of_nat (length (drop (S i) rows)) mod 2 ^ 64) (v_head_seq v) (v_head_hash v)).
  split; [|done]. apply verify_from_Ok. simpl. rewrite length_map. split_and!; [| |done].
  - assert (i < length rows)%nat as Hlt by by eapply lookup_lt_Some.
    replace (u64_sat_add through 1) with (through + 1)%Z by (unfold u64_sat_add; lia).
    replace (ar_hash a) with (hash_payload (as_bytes (sr_payload (row_as_stored a))))
      by by (symmetry; destruct Hl as (_ & _ & Hl); apply Hl).
    rewrite fmap_drop. replace (through + 1)%Z with (first_seq start + Z.of_nat i + 1)%Z by lia. exact Hd.
  - rewrite Hh. rewrite fmap_drop. symmetry. apply last_seq_drop. rewrite length_map.
    destruct (decide (S i < length rows)%nat); [done|]. by rewrite drop_ge in Hne by lia.
Qed.

Lemma last_cut_row_app d row l :
  (forall r, r ∈ db_cuts d -> (c_id r <= c_id row)%Z) -> db_cuts d = l ->
  last_cut_row (set_cuts (l ++ [row]) d) = Some row.
Proof.
  intros Hr <-. unfold last_cut_row. simpl. apply last_sort_by. intros y Hy. apply Z.leb_le. auto.
Qed.

Lemma cut_keeps_verifying through hash now anchor s c s' start rows v :
  log_wf (st_db s) -> (0 <= through)%Z ->
  fst (records (clean s)) = Ok rows -> fst (start_of (clean s)) = Ok start ->
  verify_from start (map row_as_stored rows) = Ok v ->
  (first_seq start + Z.of_nat (length rows) <= u64_max)%Z ->
  audit_cut through hash now anchor s = (Ok c, s') ->
  let kept := List.filter (fun a => negb (ar_seq a <=? through)%Z) rows in
  kept <> [] /\ fst (records (clean s')) = Ok kept /\
  fst (start_of (clean s')) = Ok (AfterCut through hash) /\
  exists v', verify_from (AfterCut through hash) (map row_as_stored kept) = Ok v' /\
    v_head_hash v' = v_head_hash v /\ v_head_seq v' = v_head_seq v.
Proof.
  intros Hwf Ht Hrows Hstart Hv Hm Hcut kept.
  apply audit_cut_Ok in Hcut as (row & Hf & Hd & Hmax & Hsch & Hne & _ & Edb).
  rewrite records_clean, log_by_seq_id in Hrows by done.
  assert (0 <= first_seq start)%Z as H0 by by (eapply start_of_nonneg; [|exact Hstart]).
  pose proof (rows_filter (fun z => negb (z <=? through)%Z) _ _ Hrows) as Hkept.
  change (res_mapM audit_row (List.filter (fun r => negb (l_seq r <=? through)%Z) (db_log (st_db s))) = Ok kept) in Hkept.
  apply List.find_some in Hf as [Hin Hseq]. apply list_elem_of_In, list_elem_of_lookup in Hin as [i Hi].
  apply res_mapM_Ok in Hrows as Hall. destruct (Forall2_lookup_l _ _ _ _ _ Hall Hi) as (a & Ha & Hrow).
  apply audit_row_Ok in Hrow as (Ea & _ & Hda & _). rewrite Hd in Hda. injection Hda as ->.
  assert (kept <> []) as Hk.
  { intros Hnil. rewrite Hnil in Hkept. apply res_mapM_Ok, Forall2_nil_inv_r in Hkept.
    apply Hne. rewrite <- Hkept. apply List.filter_ext. intros x. lia. }
  split_and!; [done| | |].
  - rewrite records_clean, log_by_seq_id; [by rewrite Edb|].
    unfold log_wf. rewrite Edb. simpl. by apply StronglySorted_filter.
  - rewrite start_of_clean by by rewrite Edb. rewrite Edb, last_cut_row_app; [|intros r Hr|done].
    + simpl. rewrite decode_count_id by (unfold u64_max, i64_max in *; lia).
      rewrite decode_hash_encode by by eapply decode_hash_Ok. simpl.
      rewrite decode_count_id; [done|]. apply removed_count_range.
    + simpl. apply Z.lt_le_incl, next_id_max. by apply elem_of_map; eauto.
  - eapply verify_from_tail; [done|done|done| |lia|done|done]. by eapply list_elem_of_lookup_2.
Qed.

(** C26: A cut keeps the history verifiable: when the log verifies from where it
    starts, a cut that succeeds removes exactly the records through the named
    one, never all of them; what is left starts at the cut, verifies from it and
    ends in the same head. *)
Theorem audit_cut_keeps_history through hash now anchor s c s' start rows v :
  log_wf (st_db s) -> (0 <= through)%Z ->
  fst (records (clean s)) = Ok rows -> fst (start_of (clean s)) = Ok start ->
  verify_from start (map row_as_stored rows) = Ok v ->
  (first_seq start + Z.of_nat (length rows) <= u64_max)%Z ->
  audit_cut through hash now anchor s = (Ok c, s') ->
  let kept := List.filter (fun a => negb (ar_seq a <=? through)%Z) rows in
  kept <> [] /\ fst (records (clean s')) = Ok kept /\
  fst (start_of (clean s')) = Ok (AfterCut through hash) /\
  exists v', verify_from (AfterCut through hash) (map row_as_stored kept) = Ok v' /\
    v_head_hash v' = v_head_hash v /\ v_head_seq v' = v_head_seq v.
Proof. apply cut_keeps_verifying. Qed.

Lemma chained_last seq prev l a head :
  chained seq prev (map row_as_stored (l ++ [a])) head ->
  head = ar_hash a /\ forall d, last_seq d (map row_as_stored (l ++ [a])) = ar_seq a.
Proof.
  revert seq prev. induction l as [|b l IH]; intros seq prev Hc; simpl in *.
  - inversion Hc as [|? ? ? ? ? Hl Hn]; subst. inversion Hn; subst. split; [|done].
    destruct Hl as (_ & _ & Hl). symmetry. by apply Hl.
  - inversion Hc as [|? ? ? ? ? _ Hn]; subst. destruct (IH _ _ Hn). by split.
Qed.

Lemma chained_last_seq seq prev rs head d : rs <> [] ->
  chained seq prev rs head -> (0 <= seq)%Z -> (seq + Z.of_nat (length rs) <= u64_max)%Z ->
  (seq <= last_seq d rs)%Z.
Proof.
  intros Hne Hc H0 Hm. destruct rs as [|r rs _] using rev_ind; [done|].
  assert (forall d l, last_seq d (l ++ [r]) = sr_seq r) as ->
    by (intros d' l; revert d'; induction l; simpl; auto).
  rewrite length_app in Hm. simpl in Hm.
  destruct (chained_take _ _ _ _ (length rs) r Hc H0) as [E _].
  - rewrite length_app. simpl. lia.
  - by rewrite lookup_app_r, Nat.sub_diag by lia.
  - lia.
Qed.

(** Starting again on a log that verifies continues it: the chain goes on from
    the verified head, or from genesis when nothing was ever written; an empty
    log with a recorded cut is refused, never taken for a new one. *)
Theorem continue_resumes_verified_head s start rows v :
  log_wf (st_db s) -> (4 <= db_schema (st_db s))%Z ->
  fst (records (clean s)) = Ok rows -> fst (start_of (clean s)) = Ok start ->
  verify_from start (map row_as_stored rows) = Ok v ->
  (first_seq start + Z.of_nat (length rows) <= u64_max)%Z ->
  match rows, start with
  | [], Genesis => fst (chain_to_continue (clean s)) = Ok chain_new
  | [], AfterCut _ _ => exists why, fst (chain_to_continue (clean s)) = Err (Corrupt why)
  | _, _ => fst (chain_to_continue (clean s)) = Ok (chain_resume (v_head_seq v) (v_head_hash v))
  end.
Proof.
  intros Hwf Hsch Hrows Hstart (Hc & Hs & _)%verify_from_Ok Hm.
  pose proof (start_of_nonneg _ _ Hsch Hstart) as H0.
  rewrite records_clean in Hrows. rewrite start_of_clean in Hstart by done.
  apply res_mapM_Ok in Hrows.
  destruct rows as [|a rows _] using rev_ind.
  - apply Forall2_nil_inv_r in Hrows. rewrite continue_clean, Hrows by done. simpl.
    destruct (last_cut_row _) as [row|]; simpl in *; [|by injection Hstart as <-].
    run_ok. injection Hstart as <-. rewrite Hres, Hres0, Hres1. simpl. eauto.
  - enough (fst (chain_to_continue (clean s)) = Ok (chain_resume (v_head_seq v) (v_head_hash v)))
      by by destruct rows.
    rewrite continue_clean by done.
    destruct (chained_last _ _ _ _ _ Hc) as [Eh El].
    assert (first_seq start <= last_seq 0 (map row_as_stored (rows ++ [a])))%Z as Hle.
    { eapply chained_last_seq; [|exact Hc|done|by rewrite length_map]. by destruct rows. }
    rewrite El in Hs, Hle. apply Forall2_app_inv_r in Hrows as (l & k & _ & Hk & El').
    inversion Hk as [|r ? k' ? Hr Hn]; subst. inversion Hn; subst. rewrite El', last_snoc. simpl.
    apply audit_row_Ok in Hr as Ha. destruct Ha as (Es & _ & Hd & _). rewrite Es in Hs, Hle.
    unfold audit_row in Hr. run_ok.
    rewrite Hd. injection Hr as <-. simpl in *. subst v0.
    rewrite decode_count_id by by apply u64_try_from_Some in Hres as [_ ?].
    simpl. rewrite Hs, Eh. destruct (last_cut_row _) as [row|]; simpl in *; [|done].
    run_ok. injection Hstart as <-. simpl in *. rewrite Hres1, Hres2, Hres3. simpl.
    assert (v0 < l_seq r)%Z as Hlt by (rewrite length_app in Hm; simpl in Hm; unfold u64_sat_add in *; lia).
    by rewrite (proj2 (Z.leb_gt _ _)) by done.
Qed.
End cut.

(** A log of the example's records, cut through its first. *)
Definition example_log : Store :=
  mkStore (set_log (map log_row (fst example_run)) db_empty) [].
Definition example_cut_hash : bytes := match fst example_run with r :: _ => er_hash r | [] => [] end.

Lemma audit_cut_keeps_history_witness :
  exists s' c v',
    audit_cut 1 example_cut_hash 5 None example_log = (Ok c, s') /\
    verify_from (H := toy_sha256) (J := toy_json) (AfterCut 1 example_cut_hash)
      (map row_as_stored (match fst (records (clean s')) with Ok rows => rows | Err _ => [] end)) = Ok v'.
Proof.
  destruct (audit_cut_keeps_history (H := toy_sha256) (J := toy_json) 1 example_cut_hash 5 None example_log
    (match fst (audit_cut 1 example_cut_hash 5 None example_log) with Ok c => c | Err _ => mkAuditCut 0 0 [] 0 None end)
    (snd (audit_cut 1 example_cut_hash 5 None example_log)) Genesis
    (match fst (records (clean example_log)) with Ok rows => rows | Err _ => [] end)
    (match verify_from (H := toy_sha256) (J := toy_json) Genesis (map row_as_stored
       (match fst (records (clean example_log)) with Ok rows => rows | Err _ => [] end))
     with Ok v => v | Err _ => mkVerified 0 0 [] end)) as (_ & Hr & _ & v' & Hv & _).
  - unfold log_wf. repeat constructor.
  - lia.
  - vm_compute. reflexivity.
  - vm_compute. reflexivity.
  - vm_compute. reflexivity.
  - vm_compute. congruence.
  - vm_compute. reflexivity.
  - eexists _, _, v'. split; [vm_compute; reflexivity|]. vm_compute. vm_compute in Hv. exact Hv.
Defined.

Lemma continue_resumes_verified_head_witness :
  fst (chain_to_continue (clean example_log)) = Ok (chain_resume 2 (prev_hash (snd example_run))).
Proof.
  apply (continue_resumes_verified_head (H := toy_sha256) (J := toy_json) example_log Genesis
    (map (fun r => mkAuditRow (er_seq r) (er_hash r) (er_payload r)) (fst example_run))
    (mkVerified 2 2 (prev_hash (snd example_run)))).
  - unfold log_wf. repeat constructor.
  - vm_compute. congruence.
  - vm_compute. reflexivity.
  - vm_compute. reflexivity.
  - vm_compute. reflexivity.
  - vm_compute. congruence.
Defined.
