(* ===== verification/Surface.v ===== *)
(** * The surface entries ([ciphr-server/src/surface.rs], the errors of [error.rs])

    The parts of the API a deployment switches on: the fixed list of entries, the
    stanzas that record since when and why, and the agreement between the build
    and the configuration.  The cargo feature is the class [Features]. *)

From Stdlib Require Import ZArith NArith Lia Ascii String.
From stdpp Require Import base tactics list strings.
From S2P Require Import Prelude Text.

(** [cfg!(feature = "honeypot_alert")] *)
Class Features : Type := honeypot_alert : bool.

(** ** Errors ([ConfigError]) *)

Inductive ConfigError : Type :=
| Read_ (path source : string)
| Syntax (path source : string)
| Size (found : string)
| NoAuditDevice
| NoStoreAuditDevice
| SurfaceUnknown (name known : string)
| SurfaceDuplicate (name : string)
| SurfaceDate (name found : string)
| SurfaceReason (name : string)
| SurfaceNotBuilt (name : string)
| SurfaceUndeclared (name : string)
| OidcName
| OidcIssuer (name : string)
| OidcAudience (name : string)
| OidcDuplicateProvider (issuer audience : string)
| OidcTtl (name found : string)
| OidcNoKeys (name : string)
| OidcKeyEncoding (name kid field : string)
| OidcKeySize (name kid : string) (bits : Z)
| OidcDuplicateKey (name kid : string)
| OidcNoBindings (name : string)
| OidcBindingIdentity (name : string)
| OidcBindingNoClaims (name identity : string)
| OidcBindingVerifiedClaim (name claim : string)
| OidcDuplicateBinding (name : string)
| OidcUnknownIdentity (identity : string)
| OidcEntryWithoutProvider
| OidcProviderWithoutEntry.

Definition config_error_display (e : ConfigError) : string :=
  (match e with
| Read_ path source =>
      "cannot read "
        ++ path
        ++ ": "
        ++ source
  | Syntax path source =>
      "invalid configuration in "
        ++ path
        ++ ": "
        ++ source
  | Size found =>
      "'"
        ++ found
        ++ "' is not a size; use a byte count or a value such as 64MB"
  | NoAuditDevice =>
      "no audit device is configured; a secret store without an audit trail is a configuration error, so the server will not start"
  | NoStoreAuditDevice =>
      "the `sqlite` audit device is required and is not configured. The chain head a restart resumes from is read from the store, so a configuration without it starts a second chain in whatever devices it does have — a file would grow a new run beside the old one, which is indistinguishable from a rewritten trail. Add an `[[audit]]` stanza of type `sqlite`; a file device beside it is a second copy, not a replacement"
  | SurfaceUnknown name known =>
      "[[surface]] names `"
        ++ name
        ++ "`, which is not a surface entry in this version; the entries are: "
        ++ known
  | SurfaceDuplicate name =>
      "[[surface]] has two stanzas for `"
        ++ name
        ++ "`; one entry has one record, or which date and reason apply is whichever line came last"
  | SurfaceDate name found =>
      "[[surface]] entry `"
        ++ name
        ++ "` has accepted = '"
        ++ found
        ++ "', which is not a YYYY-MM-DD date; an entry that is on has to say since when"
  | SurfaceReason name =>
      "[[surface]] entry `"
        ++ name
        ++ "` has no reason; an entry that is on has to say why, because a flag with no reason beside it reads as an accident six months later, and the safest-looking fix for an accident is the default"
  | SurfaceNotBuilt name =>
      "[[surface]] enables `"
        ++ name
        ++ "` and this binary was not built with it; the deployment has recorded a decision about surface it is not running, and nothing else would ever say so -- build with --features "
        ++ name
        ++ ", or remove the stanza"
  | SurfaceUndeclared name =>
      "this binary was built with `"
        ++ name
        ++ "` and the configuration does not say since when or why; add a [[surface]] stanza with entry, accepted and reason, or use a build without the feature"
  | OidcName =>
      "an [[auth.oidc]] stanza has no name; the name is what the audit trail says vouched for a federated token, so it cannot be blank"
  | OidcIssuer name =>
      "[[auth.oidc]] provider `"
        ++ name
        ++ "` has no issuer; it is compared byte for byte against the token's `iss` and there is nothing to compare against"
  | OidcAudience name =>
      "[[auth.oidc]] provider `"
        ++ name
        ++ "` has no audience. It is the one field with no defensible default: without it, a token the provider issued for somebody else's service would be valid here, which is the confused-deputy case this check exists for"
  | OidcDuplicateProvider issuer audience =>
      "two [[auth.oidc]] providers name issuer `"
        ++ issuer
        ++ "` with audience `"
        ++ audience
        ++ "`; which one's keys, TTL and bindings apply would be whichever stanza came first, which is not a property a deployment should have to know"
  | OidcTtl name found =>
      "[[auth.oidc]] provider `"
        ++ name
        ++ "` has ttl = '"
        ++ found
        ++ "', which is not a duration; write it as 15m, 900s or 1h -- a bare number is refused rather than assumed to be seconds"
  | OidcNoKeys name =>
      "[[auth.oidc]] provider `"
        ++ name
        ++ "` has no [[auth.oidc.key]]. The keys are configuration here on purpose: fetching a JWKS would be the first outbound call from the process that holds plaintext secrets (ADR-17), and this build links no public root certificates, so it could not make one. Copy the provider's JWKS entries in"
  | OidcKeyEncoding name kid field =>
      "[[auth.oidc]] provider `"
        ++ name
        ++ "` key `"
        ++ kid
        ++ "` has a `"
        ++ field
        ++ "` that is not unpadded base64url; a JWKS value is copied verbatim, and standard base64 `+` and `/` are not the same alphabet"
  | OidcKeySize name kid bits =>
      "[[auth.oidc]] provider `"
        ++ name
        ++ "` key `"
        ++ kid
        ++ "` is "
        ++ dec bits
        ++ " bits, which is not a size its algorithm accepts; RSA is 2048 bits at the least and a P-256 coordinate is exactly 256, so a shorter one is usually a value that lost its leading zero"
  | OidcDuplicateKey name kid =>
      "[[auth.oidc]] provider `"
        ++ name
        ++ "` has two keys with kid `"
        ++ kid
        ++ "`; a token naming it would be verified against whichever came first"
  | OidcNoBindings name =>
      "[[auth.oidc]] provider `"
        ++ name
        ++ "` has no [[auth.oidc.binding]], so nothing it signs could name an identity; a provider that can verify and never resolve is a route that refuses everything"
  | OidcBindingIdentity name =>
      "[[auth.oidc]] provider `"
        ++ name
        ++ "` has a binding with no identity; the identity comes from the policy file (ADR-3) and the binding is what names it"
  | OidcBindingNoClaims name identity =>
      "[[auth.oidc]] provider `"
        ++ name
        ++ "` binds `"
        ++ identity
        ++ "` on no claim at all, which would match every token that provider ever issues"
  | OidcBindingVerifiedClaim name claim =>
      "[[auth.oidc]] provider `"
        ++ name
        ++ "` binds on `"
        ++ claim
        ++ "`, which is verified rather than matched: `iss` selects the provider, `aud` is compared against the configured audience, and the times decide validity. A binding on one would state the same rule twice, in two places that can disagree"
  | OidcDuplicateBinding name =>
      "[[auth.oidc]] provider `"
        ++ name
        ++ "` has two bindings with the same claims; which identity a job gets would be whichever line came first"
  | OidcUnknownIdentity identity =>
      "an [[auth.oidc.binding]] names identity `"
        ++ identity
        ++ "`, which the policy file does not have. An exchange mints a credential, and `ciphr token issue` refuses an unknown identity for the same reason: a token with no rules behind it is a credential that reads as working and authorizes nothing"
  | OidcEntryWithoutProvider =>
      "[[surface]] enables `oidc_login` and no [[auth.oidc]] provider is configured; the route would exist and refuse every exchange, which is a worse answer than not offering it"
  | OidcProviderWithoutEntry =>
      "[[auth.oidc]] providers are configured and the `oidc_login` surface entry is not named, so nothing can reach them. Federation is a second authentication path and it is off until a deployment records the date and the reason (ADR-20); add the [[surface]] stanza, or remove the providers"
  end)%string.

(** ** The list *)

Inductive Kind : Type := Build | Runtime.
#[global] Instance Kind_eq_dec : EqDecision Kind.
Proof. solve_decision. Defined.

Definition kind_str (k : Kind) : string := match k with Build => "build" | Runtime => "runtime" end.

Record Surface : Type := mkSurface {
  e_name : string;
  e_kind : Kind;
  e_cost : string;
  e_compiled_in : bool;
}.

Section surface.
Context {F : Features}.

Definition ENTRIES : list Surface :=
  [mkSurface "viewer_api" Runtime
     "The viewer stops working. The CLI does not: it reads the audit trail, the identities and the policies straight from the store with no network hop. A deployment without the viewer has been serving these three routes to nobody -- and serving the policy structure and the identity inventory to anyone holding any token."
     true;
   mkSurface "bulk_export" Runtime
     "One request per path instead of one for all of them, at container start, and since ADR-25 that is the whole cost. `ciphr-sdk`'s `read_all` reads through this route where it exists and falls back to `GET /v1/secrets/{path}` per path where it does not, so route B and `ciphr-ci` both work on a deployment that named no entry at all. This sentence used to say `ciphr-run` could not fetch and refused with exit code 125; that stopped being true on 2026-08-24. The trail does not notice either way: this route writes one entry per secret served, never one per call. It does not decide whether this deployment has fetched prefixes for bait to stay out of (ADR-15): covering a prefix is a property of the code that fetches, and `GET /v1/list/{prefix}` is not an entry."
     true;
   mkSurface "token_status" Runtime
     "The token inventory is answerable only on the host. `ciphr token list` reads it read-only while the service runs (ADR-22), so nothing is unanswerable -- what is missing is the *authenticated* answer, where the caller is a token identity and the read is in the trail rather than `cli:$USER` on somebody's shell history. On, `GET /v1/tokens` serves `inspect` on `sys/tokens`: identifiers, identities, expiry, last use and state. Never a verifier and never a token. Its own entry rather than part of `viewer_api` because the cost is its own -- which credentials exist, and which have never been used, is a good list of the ones nobody would notice being used."
     true;
   mkSurface "token_revoke" Runtime
     "Revoking a leaked credential means stopping the service: `ciphr token revoke` takes the store lock the running server holds, so the only route to it is stop, revoke, start -- taking down every consumer in order to invalidate one token, at the one moment that cannot be scheduled. `docs/operations/honeypots.md` fires exactly then. On, this is the single write the API may do (ADR-24): one token per request, authorized as `revoke` on `sys/tokens`, no master key involved. Issuing a token an operator asked for stays on the host either way; the one exception is a federated exchange, which mints one without being asked (`oidc_login`, ADR-26)."
     true;
   mkSurface "oidc_login" Runtime
     "Every consuming host keeps a long-lived bearer token in a file. Where one collection point fetches for everything that is one credential in one place; where a CI runner runs on each host, the credential count grows with the host count -- each one long-lived, each one on the machine that also runs the workload, and rotating them is one operation per host. On, a workload presents an ID token its forge issued and receives a ciphr token that lives minutes: `POST /v1/auth/oidc/login`, unauthenticated because the caller holds no ciphr credential yet, and the second write this API may do (ADR-26). It cannot widen an authority -- the identity, its policies and the lifetime ceiling all come from configuration -- and the provider's signing keys are configuration too, so a key rotation on their side is an edit here rather than a fetch from the process that holds plaintext secrets."
     true;
   mkSurface "honeypot_alert" Build
     "No detection of bait. A deployment that plants none pays nothing for the absence, and gets the strongest form of ADR-15's indistinguishability claim: code that is not compiled in has no timing to get wrong."
     honeypot_alert].

Definition entry (name : string) : option Surface :=
  List.find (fun e => String.eqb (e_name e) name) ENTRIES.

Definition known_names : string := join ", " (map e_name ENTRIES).

Record SurfaceConfig : Type := mkSurfaceConfig { sc_entry : string; sc_accepted : string; sc_reason : string }.

Record ActiveEntry : Type := mkActiveEntry {
  a_name : string;
  a_kind : Kind;
  a_accepted : string;
  a_reason : string;
  a_cost : string;
}.

(** [Active] *)
Definition Active : Type := list ActiveEntry.
Definition surface_names (a : Active) : list string := map a_name a.
Definition surface_has (a : Active) (name : string) : bool :=
  existsb (fun active => String.eqb (a_name active) name) a.
Definition surface_summary (a : Active) : string :=
  match a with [] => "none" | _ => join "," (map a_name a) end.

Definition activate (known : Surface) (accepted reason : string) : ActiveEntry :=
  mkActiveEntry (e_name known) (e_kind known) accepted reason (e_cost known).

Fixpoint surface_only (entries : list string) : result ConfigError Active :=
  match entries with
  | [] => Ok []
  | name :: entries =>
      match entry name with
      | None => Err (SurfaceUnknown name known_names)
      | Some known =>
          let? rest := surface_only entries in
          Ok (activate known "0000-00-00" "composed in-process; no operator recorded this" :: rest)
      end
  end.

(** ** Dates *)

(** [text[5..7].parse().unwrap_or(0)], on a text of ten ASCII characters. *)
Definition date_part (text : string) (from : nat) : Z :=
  default 0%Z (parse_u32 (String.substring from 2 text)).

Definition date_char_ok (index : nat) (c : ascii) : bool :=
  match index with
  | 4%nat | 7%nat => Ascii.eqb c "-"
  | _ => is_ascii_digit (N_of_ascii c)
  end.

Fixpoint date_chars_ok (index : nat) (b : bytes) : bool :=
  match b with
  | [] => true
  | c :: b => date_char_ok index c && date_chars_ok (S index) b
  end.

Definition is_iso_date (text : string) : bool :=
  if negb (String.length text =? 10)%nat then false
  else if negb (date_chars_ok 0 (as_bytes text)) then false
  else
    let month := date_part text 5 in
    let day := date_part text 8 in
    ((1 <=? month) && (month <=? 12))%Z && ((1 <=? day) && (day <=? 31))%Z.

(** ** Resolving *)

(** One stanza, against those before it. *)
Definition resolve_stanza (entries : Active) (stanza : SurfaceConfig) : result ConfigError ActiveEntry :=
  match entry (sc_entry stanza) with
  | None => Err (SurfaceUnknown (sc_entry stanza) known_names)
  | Some known =>
      if surface_has entries (e_name known) then Err (SurfaceDuplicate (e_name known))
      else if negb (is_iso_date (sc_accepted stanza)) then
        Err (SurfaceDate (e_name known) (sc_accepted stanza))
      else if is_empty (trim (sc_reason stanza)) then Err (SurfaceReason (e_name known))
      else Ok (activate known (sc_accepted stanza) (sc_reason stanza))
  end.

Fixpoint resolve_stanzas (entries : Active) (configured : list SurfaceConfig) : result ConfigError Active :=
  match configured with
  | [] => Ok entries
  | stanza :: configured =>
      let? active := resolve_stanza entries stanza in
      resolve_stanzas (entries ++ [active]) configured
  end.

(** The second pass: what the build has and what the file says. *)
Fixpoint check_built (entries : Active) (l : list Surface) : result ConfigError unit :=
  match l with
  | [] => Ok tt
  | known :: l =>
      if negb (bool_decide (e_kind known = Build)) then check_built entries l
      else
        let declared := surface_has entries (e_name known) in
        if declared && negb (e_compiled_in known) then Err (SurfaceNotBuilt (e_name known))
        else if e_compiled_in known && negb declared then Err (SurfaceUndeclared (e_name known))
        else check_built entries l
  end.

Definition surface_resolve (configured : list SurfaceConfig) : result ConfigError Active :=
  let? entries := resolve_stanzas [] configured in
  let? _ := check_built entries ENTRIES in
  Ok entries.

(** ** Lemmas *)

Lemma surface_has_spec a name : surface_has a name = true <-> name ∈ surface_names a.
Proof.
  unfold surface_has, surface_names. rewrite List.existsb_exists, elem_of_map.
  split.
  - intros (x & Hx & E%String.eqb_eq). exists x. by rewrite list_elem_of_In.
  - intros (x & -> & Hx). exists x. rewrite <- list_elem_of_In. split; [done|apply String.eqb_refl].
Qed.

Lemma surface_has_false a name : surface_has a name = false <-> name ∉ surface_names a.
Proof. rewrite <- surface_has_spec. by destruct (surface_has a name). Qed.

(** What one stanza has to be, and what it becomes. *)
Definition activates (stanza : SurfaceConfig) (active : ActiveEntry) : Prop :=
  exists known, known ∈ ENTRIES /\ e_name known = sc_entry stanza /\
    is_iso_date (sc_accepted stanza) = true /\ trim (sc_reason stanza) <> EmptyString /\
    active = activate known (sc_accepted stanza) (sc_reason stanza).

Lemma ENTRIES_distinct : NoDup (map e_name ENTRIES).
Proof. vm_compute. apply (bool_decide_unpack _). vm_compute. exact I. Qed.

Lemma entry_Some name known : entry name = Some known <-> known ∈ ENTRIES /\ e_name known = name.
Proof.
  unfold entry. split.
  - intros H%List.find_some. rewrite list_elem_of_In. destruct H as [? H%String.eqb_eq]. done.
  - intros [Hin <-]. destruct (List.find _ ENTRIES) as [k|] eqn:Hf.
    + apply List.find_some in Hf as [Hk E%String.eqb_eq]. f_equal.
      eapply (NoDup_map_inj e_name); [apply ENTRIES_distinct| |done|done]. by apply list_elem_of_In.
    + apply list_elem_of_In in Hin. apply (List.find_none _ _ Hf) in Hin.
      by rewrite String.eqb_refl in Hin.
Qed.

Lemma resolve_stanza_Ok entries stanza active :
  resolve_stanza entries stanza = Ok active <->
  activates stanza active /\ a_name active ∉ surface_names entries.
Proof.
  unfold resolve_stanza, activates. split.
  - destruct (entry _) as [known|] eqn:He; [|done]. apply entry_Some in He as [Hin He].
    destruct (surface_has entries _) eqn:Hd; [done|]. apply surface_has_false in Hd.
    destruct (is_iso_date _) eqn:Hi; [|done]. simpl. destruct (is_empty _) eqn:Hr; [done|].
    intros [= <-]. split; [|done]. exists known. split_and!; try done.
    intros E%is_empty_spec. congruence.
  - intros [(known & Hin & He & Hi & Hr & ->) Hd]. rewrite (proj2 (entry_Some _ known)) by done.
    simpl in Hd. apply surface_has_false in Hd. rewrite Hd, Hi. simpl.
    destruct (is_empty _) eqn:E; [by apply is_empty_spec in E|done].
Qed.

Lemma resolve_stanzas_Ok configured : forall entries out,
  NoDup (surface_names entries) ->
  resolve_stanzas entries configured = Ok out <->
  exists added, out = entries ++ added /\ Forall2 activates configured added /\ NoDup (surface_names out).
Proof.
  induction configured as [|stanza configured IH]; intros entries out Hnd; simpl.
  - split.
    + intros [= <-]. exists []. by rewrite app_nil_r.
    + intros (added & -> & H%Forall2_nil_inv_l & _). by rewrite H, app_nil_r.
  - rewrite res_bind_Ok. setoid_rewrite resolve_stanza_Ok. split.
    + intros (active & [Ha Hn] & Hr). apply IH in Hr as (added & -> & Hf & Hnd').
      * exists (active :: added). rewrite <- app_assoc in *. split_and!; [done|by constructor|done].
      * unfold surface_names. rewrite map_app. by apply NoDup_app_one.
    + intros (added & -> & Hf & Hnd'). destruct added as [|active added]; [by inversion Hf|].
      apply Forall2_cons in Hf as [Ha Hf]. exists active.
      assert (NoDup (surface_names (entries ++ [active]))) as H1.
      { unfold surface_names in *. rewrite cons_middle, app_assoc, map_app in Hnd'.
        apply NoDup_app in Hnd' as [? _]. done. }
      split; [split; [done|]|].
      * unfold surface_names in H1. rewrite map_app in H1. apply NoDup_app in H1 as (_ & Hd & _).
        intros Hin. apply (Hd _ Hin). simpl. by left.
      * apply IH; [done|]. exists added. rewrite <- app_assoc. done.
Qed.

Lemma check_built_Ok entries l :
  check_built entries l = Ok tt <->
  forall known, known ∈ l -> e_kind known = Build ->
    (e_name known ∈ surface_names entries <-> e_compiled_in known = true).
Proof.
  induction l as [|known l IH]; simpl.
  - split; [|done]. intros _ k Hk. by apply elem_of_nil in Hk.
  - setoid_rewrite elem_of_cons. case_bool_decide as Hk; simpl.
    + destruct (surface_has entries (e_name known)) eqn:Hd, (e_compiled_in known) eqn:Hc; simpl.
      * apply surface_has_spec in Hd. rewrite IH. split; [|by auto].
        intros H k [->|Hin] Hb; [by rewrite Hc|by apply H].
      * apply surface_has_spec in Hd. split; [done|]. intros H. specialize (H known (or_introl eq_refl) Hk).
        apply H in Hd. congruence.
      * apply surface_has_false in Hd. split; [done|]. intros H. specialize (H known (or_introl eq_refl) Hk).
        by apply H in Hc.
      * apply surface_has_false in Hd. rewrite IH. split; [|by auto].
        intros H k [->|Hin] Hb; [by rewrite Hc|by apply H].
    + rewrite IH. split; [|by auto]. intros H k [->|Hin] Hb; [done|by apply H].
Qed.

(** ** Properties *)

(** A configuration is accepted exactly when every stanza names an entry of this
    version once, with a date and a reason, and the build features are named
    exactly when they are compiled in; what is active is then the stanzas, in
    their order. *)
Theorem surface_resolve_correct configured active :
  surface_resolve configured = Ok active <->
  Forall2 activates configured active /\ NoDup (surface_names active) /\
  (forall known, known ∈ ENTRIES -> e_kind known = Build ->
    (e_name known ∈ surface_names active <-> e_compiled_in known = true)).
Proof.
  unfold surface_resolve. rewrite res_bind_Ok. setoid_rewrite res_bind_Ok.
  setoid_rewrite (resolve_stanzas_Ok configured [] _ ltac:(constructor)). split.
  - intros (entries & (added & -> & Hf & Hnd) & [] & Hc & [= <-]).
    by rewrite check_built_Ok in Hc.
  - intros (Hf & Hnd & Hc). exists active. split; [by exists active|]. exists tt.
    by rewrite check_built_Ok.
Qed.
End surface.

(** A date that exists in the calendar's shape only: month 13 is refused. *)
Example month_13_refused : is_iso_date "2026-13-01" = false /\ is_iso_date "2026-02-31" = true.
Proof. vm_compute. done. Qed.
