(* ===== verification/Oidc.v ===== *)
(** * Federation ([ciphr-server/src/oidc.rs])

    Providers and their keys as configuration, and the exchange of an identity
    token for an identity.  The signatures ([ring]) and the JSON reader
    ([serde_json]) are classes. *)

From Stdlib Require Import ZArith NArith Lia Ascii String.
From stdpp Require Import base tactics list strings gmap.
From S2P Require Import Prelude Text Base64Url Surface.

(** ** The environment *)

(** [serde_json::Value], by what the code asks of it: a text, an array, a number
    that [as_i64] accepts, and the rest. *)
Inductive Value : Type :=
| VString (s : string)
| VArray (l : list Value)
| VInteger (z : Z)
| VOther.

Definition as_str (v : Value) : option string := match v with VString s => Some s | _ => None end.
Definition as_i64 (v : Value) : option Z := match v with VInteger z => i64_try_from z | _ => None end.

Definition Claims : Type := gmap string Value.

(** [serde_json::from_slice] at the type of claims. *)
Class ClaimsReader : Type := read_claims : bytes -> option Claims.

(** [ring]: RSA with PKCS#1 and SHA-256, and ECDSA on P-256. *)
Class Signatures : Type := {
  rsa_verifies : bytes -> bytes -> bytes -> bytes -> bool;
  ecdsa_verifies : bytes -> bytes -> bytes -> bool;
}.

(** ** Configuration *)

Definition SURFACE_ENTRY : string := "oidc_login".
Definition MAX_ID_TOKEN_LEN : nat := 8 * 1024.
Definition MIN_RSA_MODULUS_LEN : nat := 256.
Definition VERIFIED_CLAIMS : list string := ["iss"; "aud"; "exp"; "nbf"; "iat"].

Inductive KeyConfig : Type :=
| ConfigRs256 (kid n e : string)
| ConfigEs256 (kid x y : string).

Record BindingConfig : Type := mkBindingConfig { bc_identity : string; bc_claims : gmap string string }.

Record ProviderConfig : Type := mkProviderConfig {
  pc_name : string;
  pc_issuer : string;
  pc_audience : string;
  pc_skew_seconds : Z;
  pc_ttl : string;
  pc_keys : list KeyConfig;
  pc_bindings : list BindingConfig;
}.
Definition default_skew_seconds : Z := 60.
Definition default_ttl : string := "15m".

Inductive Key : Type :=
| Rs256 (kid : string) (modulus exponent : bytes)
| Es256 (kid : string) (point : bytes).

Definition key_kid (k : Key) : string := match k with Rs256 kid _ _ | Es256 kid _ => kid end.
Definition key_algorithm (k : Key) : string := match k with Rs256 _ _ _ => "RS256" | Es256 _ _ => "ES256" end.

Definition key_verifies {S : Signatures} (k : Key) (message signature : bytes) : bool :=
  match k with
  | Rs256 _ modulus exponent => rsa_verifies modulus exponent message signature
  | Es256 _ point => ecdsa_verifies point message signature
  end.

Record Binding : Type := mkBinding { b_identity : string; b_claims : gmap string string }.

Record Provider : Type := mkProvider {
  p_name : string;
  p_issuer : string;
  p_audience : string;
  p_skew_ms : Z;
  p_ttl_ms : Z;
  p_keys : list Key;
  p_bindings : list Binding;
}.

Definition Federation : Type := list Provider.

Definition provider_names (f : Federation) : list string := map p_name f.
Definition bound_identities (f : Federation) : list string :=
  mjoin (map (fun p => map b_identity (p_bindings p)) f).

(** ** Durations *)

(** [text.chars().last()] and the text before it. *)
Definition split_last (s : string) : option (string * N) :=
  match rev (chars s) with
  | [] => None
  | c :: l => Some (of_chars (rev l), c)
  end.

Definition unit_millis (c : N) : option Z :=
  match c with
  | 100%N => Some (24 * 60 * 60 * 1000)%Z
  | 104%N => Some (60 * 60 * 1000)%Z
  | 109%N => Some (60 * 1000)%Z
  | 115%N => Some 1000%Z
  | _ => None
  end.

Definition parse_duration_millis (input : string) : option Z :=
  let text := trim input in
  '(digits, last) ← split_last text;
  millis ← unit_millis last;
  value ← parse_i64 digits;
  if (0 <? value)%Z then i64_checked (value * millis) else None.

(** ** Resolving the configuration *)

Definition decode_key_field (name kid field value : string) : result ConfigError bytes :=
  map_err (fun _ => OidcKeyEncoding name kid field) (b64_decode value).

Definition resolve_key (name : string) (c : KeyConfig) : result ConfigError Key :=
  match c with
  | ConfigRs256 kid n e =>
      let? modulus := decode_key_field name kid "n" n in
      let? exponent := decode_key_field name kid "e" e in
      if (length modulus <? MIN_RSA_MODULUS_LEN)%nat
      then Err (OidcKeySize name kid (Z.of_nat (length modulus) * 8))
      else Ok (Rs256 kid modulus exponent)
  | ConfigEs256 kid x y =>
      let? x := decode_key_field name kid "x" x in
      let? y := decode_key_field name kid "y" y in
      if negb (length x =? 32)%nat || negb (length y =? 32)%nat
      then Err (OidcKeySize name kid (Z.of_nat (Nat.max (length x) (length y)) * 8))
      else Ok (Es256 kid (byte_of 4 :: x ++ y))
  end.

Fixpoint resolve_keys_from (name : string) (keys : list Key) (configs : list KeyConfig)
    : result ConfigError (list Key) :=
  match configs with
  | [] => Ok keys
  | c :: configs =>
      let? key := resolve_key name c in
      if existsb (fun other => String.eqb (key_kid other) (key_kid key)) keys
      then Err (OidcDuplicateKey name (key_kid key))
      else resolve_keys_from name (keys ++ [key]) configs
  end.

Definition resolve_keys (name : string) (configs : list KeyConfig) : result ConfigError (list Key) :=
  match configs with
  | [] => Err (OidcNoKeys name)
  | _ => resolve_keys_from name [] configs
  end.

(** The claims of a binding in the order of a [BTreeMap]. *)
Definition claim_names (m : gmap string string) : list string :=
  sort_by (fun a b => match String.compare a b with Gt => false | _ => true end) (map fst (map_to_list m)).

Definition verified_claim (m : gmap string string) : option string :=
  List.find (fun claim => existsb (String.eqb claim) VERIFIED_CLAIMS) (claim_names m).

Definition resolve_binding (name : string) (bindings : list Binding) (c : BindingConfig)
    : result ConfigError Binding :=
  if is_empty (trim (bc_identity c)) then Err (OidcBindingIdentity name)
  else if bool_decide (bc_claims c = ∅) then Err (OidcBindingNoClaims name (bc_identity c))
  else match verified_claim (bc_claims c) with
       | Some claim => Err (OidcBindingVerifiedClaim name claim)
       | None =>
           if existsb (fun other => bool_decide (b_claims other = bc_claims c)) bindings
           then Err (OidcDuplicateBinding name)
           else Ok (mkBinding (bc_identity c) (bc_claims c))
       end.

Fixpoint resolve_bindings_from (name : string) (bindings : list Binding) (configs : list BindingConfig)
    : result ConfigError (list Binding) :=
  match configs with
  | [] => Ok bindings
  | c :: configs =>
      let? b := resolve_binding name bindings c in
      resolve_bindings_from name (bindings ++ [b]) configs
  end.

Definition resolve_bindings (name : string) (configs : list BindingConfig) : result ConfigError (list Binding) :=
  match configs with
  | [] => Err (OidcNoBindings name)
  | _ => resolve_bindings_from name [] configs
  end.

Definition same_provider (a b : ProviderConfig) : bool :=
  String.eqb (pc_issuer a) (pc_issuer b) && String.eqb (pc_audience a) (pc_audience b).

Definition resolve_provider (configs : list ProviderConfig) (c : ProviderConfig) : result ConfigError Provider :=
  let name := trim (pc_name c) in
  if is_empty name then Err OidcName
  else if is_empty (trim (pc_issuer c)) then Err (OidcIssuer name)
  else if is_empty (trim (pc_audience c)) then Err (OidcAudience name)
  else if (1 <? length (List.filter (fun other => same_provider other c) configs))%nat
  then Err (OidcDuplicateProvider (pc_issuer c) (pc_audience c))
  else
    let? ttl_ms := ok_or (OidcTtl name (pc_ttl c)) (parse_duration_millis (pc_ttl c)) in
    let? keys := resolve_keys name (pc_keys c) in
    let? bindings := resolve_bindings name (pc_bindings c) in
    Ok (mkProvider name (pc_issuer c) (pc_audience c) (pc_skew_seconds c * 1000) ttl_ms keys bindings).

Definition Federation_resolve (configs : list ProviderConfig) : result ConfigError Federation :=
  res_mapM (resolve_provider configs) configs.

(** ** Reading a token *)

Lemma find_app_none {A} (p : A -> bool) l k :
  Forall (fun x => p x = false) l -> List.find p (l ++ k) = List.find p k.
Proof. induction 1 as [|x l Hx Hl IH]; simpl; [done|]. by rewrite Hx. Qed.

Section exchange.
Context {R : ClaimsReader} {S : Signatures}.

Definition json_object (part : string) : option Claims :=
  match b64_decode part with Ok b => read_claims b | Err _ => None end.

(** [presented.get(..signed_len)]: the index is just before a period or at the
    end, so it is a character boundary. *)
Definition split (presented : string) : option (Claims * Claims * string * bytes) :=
  match split_on "." presented with
  | [header; payload; signature] =>
      let signed_len := (String.length header + 1 + String.length payload)%nat in
      let signed := String.substring 0 signed_len presented in
      header ← json_object header;
      payload ← json_object payload;
      match b64_decode signature with
      | Ok signature => Some (header, payload, signed, signature)
      | Err _ => None
      end
  | _ => None
  end.

Definition string_claim (claims : Claims) (name : string) : option string := claims !! name ≫= as_str.

Definition seconds_claim (claims : Claims) (name : string) : option Z :=
  value ← claims !! name; seconds ← as_i64 value; i64_checked (seconds * 1000).

Definition audience_matches (claims : Claims) (expected : string) : bool :=
  match claims !! "aud" with
  | Some (VString one) => String.eqb one expected
  | Some (VArray many) => existsb (fun one => String.eqb one expected) (omap as_str many)
  | _ => false
  end.

Definition binding_matches (payload : Claims) (b : Binding) : bool :=
  forallb (fun '(name, expected) => bool_decide (payload !! name ≫= as_str = Some expected))
    (map_to_list (b_claims b)).

(** ** The exchange *)

Inductive Unverifiable : Type := Malformed | UnknownIssuer | UnknownKey | BadSignature.
Definition unverifiable_str (u : Unverifiable) : string :=
  match u with
  | Malformed => "malformed" | UnknownIssuer => "unknown-issuer"
  | UnknownKey => "unknown-key" | BadSignature => "signature"
  end.

Inductive Refusal : Type :=
| MissingSubject | MissingExpiry | Expired | NotYetValid | Audience | NoBinding | AmbiguousBinding.
Definition refusal_str (r : Refusal) : string :=
  match r with
  | MissingSubject => "missing-subject" | MissingExpiry => "missing-expiry" | Expired => "expired"
  | NotYetValid => "not-yet-valid" | Audience => "audience-mismatch" | NoBinding => "no-binding"
  | AmbiguousBinding => "ambiguous-binding"
  end.

Record Accepted : Type := mkAccepted {
  acc_provider : string;
  acc_subject : string;
  acc_identity : string;
  acc_ttl_ms : Z;
}.

Inductive Exchange : Type :=
| Unverifiable_ (u : Unverifiable)
| Refused (provider : string) (subject : option string) (reason : Refusal)
| Accepted_ (a : Accepted).

Definition provider_refuse (p : Provider) (subject : option string) (reason : Refusal) : Exchange :=
  Refused (p_name p) subject reason.

(** The two filters on the keys of a provider. *)
Definition candidate (kid : option string) (algorithm : string) (k : Key) : bool :=
  match kid with None => true | Some kid => String.eqb (key_kid k) kid end &&
  String.eqb (key_algorithm k) algorithm.

(** The inner loop: was there a candidate, and did one verify. *)
Fixpoint key_loop (kid : option string) (algorithm signed : string) (signature : bytes) (keys : list Key)
    : bool * bool :=
  match keys with
  | [] => (false, false)
  | key :: keys =>
      if negb (candidate kid algorithm key) then key_loop kid algorithm signed signature keys
      else if key_verifies key (as_bytes signed) signature then (true, true)
      else (true, snd (key_loop kid algorithm signed signature keys))
  end.

(** The outer loop: was there an issuer, was there a candidate, which provider. *)
Fixpoint provider_loop (issuer : string) (kid : option string) (algorithm signed : string)
    (signature : bytes) (providers : list Provider) : bool * bool * option Provider :=
  match providers with
  | [] => (false, false, None)
  | p :: providers =>
      if negb (String.eqb (p_issuer p) issuer) then
        provider_loop issuer kid algorithm signed signature providers
      else
        let '(saw, verified) := key_loop kid algorithm signed signature (p_keys p) in
        if verified then (true, saw, Some p)
        else
          let '(_, saw', found) := provider_loop issuer kid algorithm signed signature providers in
          (true, saw || saw', found)
  end.

(** After the signature: the times, the audience, the subject, the binding. *)
Definition examine (p : Provider) (payload : Claims) (now_ms : Z) : Exchange :=
  let subject := string_claim payload "sub" in
  match seconds_claim payload "exp" with
  | None => provider_refuse p subject MissingExpiry
  | Some expiry =>
      if (i64_sat (expiry + p_skew_ms p) <? now_ms)%Z then provider_refuse p subject Expired
      else if match seconds_claim payload "nbf" with
              | Some not_before => (now_ms <? i64_sat (not_before - p_skew_ms p))%Z
              | None => false
              end then provider_refuse p subject NotYetValid
      else if negb (audience_matches payload (p_audience p)) then provider_refuse p subject Audience
      else match subject with
           | None => provider_refuse p None MissingSubject
           | Some subject =>
               match List.filter (binding_matches payload) (p_bindings p) with
               | [] => provider_refuse p (Some subject) NoBinding
               | [b] => Accepted_ (mkAccepted (p_name p) subject (b_identity b) (p_ttl_ms p))
               | _ => provider_refuse p (Some subject) AmbiguousBinding
               end
           end
  end.

Definition exchange (f : Federation) (presented : string) (now_ms : Z) : Exchange :=
  if is_empty presented || (MAX_ID_TOKEN_LEN <? String.length presented)%nat
  then Unverifiable_ Malformed
  else match split presented with
       | None => Unverifiable_ Malformed
       | Some (header, payload, signed, signature) =>
           match string_claim header "alg" with
           | None => Unverifiable_ Malformed
           | Some algorithm =>
               let kid := string_claim header "kid" in
               match string_claim payload "iss" with
               | None => Unverifiable_ Malformed
               | Some issuer =>
                   let '(saw_issuer, saw_candidate_key, verified) :=
                     provider_loop issuer kid algorithm signed signature f in
                   match verified with
                   | None => Unverifiable_ (if (saw_candidate_key : bool) then BadSignature
                                            else if (saw_issuer : bool) then UnknownKey else UnknownIssuer)
                   | Some p => examine p payload now_ms
                   end
               end
           end
       end.

(** ** The specification *)

(** A key of the provider that the token names, if it names one, of the
    algorithm it names, whose signature over header and payload verifies. *)
Definition signed_by (kid : option string) (algorithm signed : string) (signature : bytes) (p : Provider) : Prop :=
  exists key, key ∈ p_keys p /\ (forall k, kid = Some k -> key_kid key = k) /\
    key_algorithm key = algorithm /\ key_verifies key (as_bytes signed) signature = true.

(** What a provider has to find in the claims. *)
Record vouches (p : Provider) (payload : Claims) (now_ms : Z) (a : Accepted) : Prop := {
  vouch_expiry : exists expiry, seconds_claim payload "exp" = Some expiry /\
    (now_ms <= i64_sat (expiry + p_skew_ms p))%Z;
  vouch_not_before : forall t, seconds_claim payload "nbf" = Some t -> (i64_sat (t - p_skew_ms p) <= now_ms)%Z;
  vouch_audience : payload !! "aud" = Some (VString (p_audience p)) \/
    exists many, payload !! "aud" = Some (VArray many) /\ VString (p_audience p) ∈ many;
  vouch_subject : string_claim payload "sub" = Some (acc_subject a);
  vouch_binding : exists b, List.filter (binding_matches payload) (p_bindings p) = [b] /\
    acc_identity a = b_identity b;
  vouch_provider : acc_provider a = p_name p /\ acc_ttl_ms a = p_ttl_ms p;
}.

(** ** Lemmas *)

Lemma candidate_spec kid algorithm k : candidate kid algorithm k = true <->
  (forall x, kid = Some x -> key_kid k = x) /\ key_algorithm k = algorithm.
Proof.
  unfold candidate. rewrite andb_true_iff, String.eqb_eq. destruct kid as [x|].
  - rewrite String.eqb_eq. split; intros [H ?]; (split; [|done]); [by intros ? [= <-]|by apply H].
  - split; intros [? ?]; by split.
Qed.

Lemma key_loop_verified kid algorithm signed signature keys :
  snd (key_loop kid algorithm signed signature keys) = true <->
  exists key, key ∈ keys /\ (forall k, kid = Some k -> key_kid key = k) /\
    key_algorithm key = algorithm /\ key_verifies key (as_bytes signed) signature = true.
Proof.
  induction keys as [|key keys IH]; simpl.
  - split; [done|]. intros (k & Hk & _). by apply elem_of_nil in Hk.
  - setoid_rewrite elem_of_cons. destruct (candidate kid algorithm key) eqn:Hc; simpl.
    + apply candidate_spec in Hc as [Hk Ha]. destruct (key_verifies key _ _) eqn:Hv; simpl.
      * split; [|done]. intros _. exists key. auto.
      * rewrite IH. split; [intros (k & ? & ?); eauto|]. intros (k & [->|Hin] & H1 & H2 & H3); [congruence|].
        eauto 10.
    + rewrite IH. split; [intros (k & ? & ?); eauto|]. intros (k & [->|Hin] & H1 & H2 & H3); [|eauto 10].
      assert (candidate kid algorithm key = true) by by apply candidate_spec. congruence.
Qed.

(** The first provider of the issuer one of whose keys verifies. *)
Definition verifying (issuer : string) (kid : option string) (algorithm signed : string)
    (signature : bytes) (p : Provider) : bool :=
  String.eqb (p_issuer p) issuer && snd (key_loop kid algorithm signed signature (p_keys p)).

Lemma provider_loop_found issuer kid algorithm signed signature providers :
  snd (provider_loop issuer kid algorithm signed signature providers) =
  List.find (verifying issuer kid algorithm signed signature) providers.
Proof.
  unfold verifying. induction providers as [|p providers IH]; simpl; [done|].
  destruct (String.eqb (p_issuer p) issuer); simpl; [|done].
  destruct (key_loop _ _ _ _ (p_keys p)) as [saw []]; simpl; [done|]. rewrite <- IH.
  by destruct (provider_loop _ _ _ _ _ providers) as [[? ?] ?].
Qed.

Lemma verifying_spec issuer kid algorithm signed signature p :
  verifying issuer kid algorithm signed signature p = true <->
  p_issuer p = issuer /\ signed_by kid algorithm signed signature p.
Proof. unfold verifying. by rewrite andb_true_iff, String.eqb_eq, key_loop_verified. Qed.

Lemma audience_matches_spec payload expected : audience_matches payload expected = true <->
  payload !! "aud" = Some (VString expected) \/
  exists many, payload !! "aud" = Some (VArray many) /\ VString expected ∈ many.
Proof.
  unfold audience_matches. destruct (payload !! "aud") as [[one|many|z|]|].
  - rewrite String.eqb_eq. naive_solver.
  - rewrite List.existsb_exists. setoid_rewrite String.eqb_eq. split.
    + intros (x & Hx & ->). right. exists many. split; [done|]. apply list_elem_of_In in Hx.
      apply list_elem_of_omap in Hx as (v & Hv & Hs). by destruct v; simplify_eq/=.
    + intros [|(l & [= <-] & Hin)]; [done|]. exists expected. split; [|done].
      apply list_elem_of_In, list_elem_of_omap. by exists (VString expected).
  - naive_solver.
  - naive_solver.
  - naive_solver.
Qed.

Lemma examine_accepted p payload now_ms a :
  examine p payload now_ms = Accepted_ a <-> vouches p payload now_ms a.
Proof.
  unfold examine, provider_refuse. split.
  - destruct (seconds_claim payload "exp") as [expiry|] eqn:He; [|done].
    destruct (Z.ltb_spec (i64_sat (expiry + p_skew_ms p)) now_ms); [done|].
    destruct (match seconds_claim payload "nbf" with Some _ => _ | None => _ end) eqn:Hn; [done|].
    destruct (audience_matches _ _) eqn:Ha; simpl; [|done]. apply audience_matches_spec in Ha.
    destruct (string_claim payload "sub") as [subject|] eqn:Hs; [|done].
    destruct (List.filter _ _) as [|b [|b' l]] eqn:Hb; [done| |done]. intros [= <-].
    split; simpl; try done; [by exists expiry| |by exists b]. intros t Ht. rewrite Ht in Hn. lia.
  - intros [(expiry & -> & He) Hn Ha Hs (b & Hb & Hi) [Hp Ht]].
    rewrite (proj2 (Z.ltb_ge _ _)) by done.
    destruct (match seconds_claim payload "nbf" with Some _ => _ | None => _ end) eqn:E.
    { destruct (seconds_claim payload "nbf") as [t|]; [|done]. specialize (Hn t eq_refl). lia. }
    apply audience_matches_spec in Ha. rewrite Ha. simpl. rewrite Hs, Hb. destruct a; simpl in *. congruence.
Qed.

(** ** Properties *)

(** C25: A presented token is accepted exactly when it splits into claims and a
    signature, the first provider of its issuer with a key that verifies it
    vouches for the claims (it is in time, for the audience, names a subject and
    exactly one binding), and what comes back is that binding's identity and that
    provider's lifetime. *)
Theorem exchange_accepted_iff f presented now_ms a :
  exchange f presented now_ms = Accepted_ a <->
  presented <> EmptyString /\ (String.length presented <= MAX_ID_TOKEN_LEN)%nat /\
  exists header payload signed signature algorithm issuer p,
    split presented = Some (header, payload, signed, signature) /\
    string_claim header "alg" = Some algorithm /\ string_claim payload "iss" = Some issuer /\
    List.find (verifying issuer (string_claim header "kid") algorithm signed signature) f = Some p /\
    vouches p payload now_ms a.
Proof.
  unfold exchange. setoid_rewrite <- provider_loop_found. setoid_rewrite <- examine_accepted. split.
  - destruct (is_empty presented) eqn:Hn; [done|]. simpl.
    destruct (Nat.ltb_spec MAX_ID_TOKEN_LEN (String.length presented)); [done|].
    destruct (split presented) as [[[[h pl] signed] sig]|] eqn:Hs; [|done].
    destruct (string_claim h "alg") as [alg|] eqn:Ha; [|done].
    destruct (string_claim pl "iss") as [iss|] eqn:Hi; [|done].
    destruct (provider_loop _ _ _ _ _ f) as [[si sk] [p|]] eqn:Hp; [|done]. intros He.
    split_and!; [by intros ->|done|]. exists h, pl, signed, sig, alg, iss, p. by rewrite Hp.
  - intros (Hn & Hl & h & pl & signed & sig & alg & iss & p & Hs & Ha & Hi & Hp & He).
    destruct (is_empty presented) eqn:E; [by apply is_empty_spec in E|]. simpl.
    rewrite (proj2 (Nat.ltb_ge _ _)) by done. rewrite Hs, Ha, Hi.
    destruct (provider_loop _ _ _ _ _ f) as [[? ?] o]. simpl in Hp. by rewrite Hp.
Qed.

(** A second provider of an issuer is unreachable when an earlier one of the same
    issuer has its keys: a token that only the second one's audience fits is never
    accepted, although one of the second provider's keys signed it. *)
Theorem second_provider_shadowed first second before rest presented now_ms header payload signed signature algorithm :
  p_issuer first = p_issuer second -> (forall k, k ∈ p_keys second -> k ∈ p_keys first) ->
  p_audience first <> p_audience second ->
  Forall (fun p => p_issuer p <> p_issuer second) before ->
  split presented = Some (header, payload, signed, signature) ->
  string_claim header "alg" = Some algorithm -> string_claim payload "iss" = Some (p_issuer second) ->
  signed_by (string_claim header "kid") algorithm signed signature second ->
  payload !! "aud" = Some (VString (p_audience second)) ->
  forall a, exchange (before ++ first :: second :: rest) presented now_ms <> Accepted_ a.
Proof.
  intros Hiss Hkeys Haud Hbefore Hs Ha Hi (k & Hk & Hkid & Halg & Hv) Hp a Hacc.
  unfold exchange in Hacc. destruct (_ || _); [done|]. rewrite Hs, Ha, Hi in Hacc.
  pose proof (provider_loop_found (p_issuer second) (string_claim header "kid") algorithm signed signature
    (before ++ first :: second :: rest)) as Hf.
  destruct (provider_loop _ _ _ _ _ _) as [[? ?] o]. simpl in Hf.
  rewrite find_app_none in Hf.
  - simpl in Hf. rewrite (proj2 (verifying_spec _ _ _ _ _ first)) in Hf by (split; [done|]; exists k; auto).
    subst o. apply examine_accepted in Hacc as [_ _ [Hau|(m & Hau & _)] _ _ _]; congruence.
  - eapply Forall_impl; [exact Hbefore|]. intros p Hne. unfold verifying.
    by rewrite (proj2 (String.eqb_neq _ _)).
Qed.
End exchange.

(** ** What a resolved federation is *)

Definition key_wf (k : Key) : Prop :=
  match k with
  | Rs256 _ modulus _ => (MIN_RSA_MODULUS_LEN <= length modulus)%nat
  | Es256 _ point => length point = 65%nat /\ head point = Some (byte_of 4)
  end.

Definition binding_wf (b : Binding) : Prop :=
  trim (b_identity b) <> EmptyString /\ b_claims b <> ∅ /\
  forall name, name ∈ VERIFIED_CLAIMS -> b_claims b !! name = None.

Record provider_wf (p : Provider) : Prop := {
  pw_name : p_name p <> EmptyString;
  pw_issuer : trim (p_issuer p) <> EmptyString;
  pw_audience : trim (p_audience p) <> EmptyString;
  pw_ttl : (0 < p_ttl_ms p <= i64_max)%Z;
  pw_keys : p_keys p <> [] /\ Forall key_wf (p_keys p) /\ NoDup (map key_kid (p_keys p));
  pw_bindings : p_bindings p <> [] /\ Forall binding_wf (p_bindings p) /\ NoDup (map b_claims (p_bindings p));
}.

Lemma parse_duration_pos s t : parse_duration_millis s = Some t -> (0 < t <= i64_max)%Z.
Proof.
  unfold parse_duration_millis. intros H. apply bind_Some in H as ([digits last] & _ & H).
  apply bind_Some in H as (m & Hm & H). apply bind_Some in H as (v & _ & H).
  destruct (Z.ltb_spec 0 v); [|done]. unfold i64_checked, i64_try_from in H.
  destruct ((i64_min <=? v * m) && (v * m <=? i64_max))%Z eqn:E; [|done]. injection H as <-.
  assert (0 < m)%Z by (unfold unit_millis in Hm; repeat case_match; simplify_eq; lia). nia.
Qed.

Lemma resolve_key_wf name c k : resolve_key name c = Ok k -> key_wf k.
Proof.
  destruct c as [kid n e|kid x y]; simpl; intros H; run_ok.
  - destruct (Nat.ltb_spec (length v) MIN_RSA_MODULUS_LEN); [done|]. by injection H as <-.
  - destruct (Nat.eqb_spec (length v) 32), (Nat.eqb_spec (length v0) 32); simpl in H; try done.
    injection H as <-. split; [|done]. simpl. rewrite length_app. lia.
Qed.

Lemma existsb_map_false {A B} `{EqDecision B} (f : A -> B) (eqb : A -> A -> bool) x l :
  (forall y, eqb y x = true <-> f y = f x) -> existsb (fun y => eqb y x) l = false -> f x ∉ map f l.
Proof.
  intros Heq H (y & E & Hy)%elem_of_map.
  assert (existsb (fun y => eqb y x) l = true) as Ht; [|congruence].
  apply List.existsb_exists. exists y. split; [by apply list_elem_of_In|]. by apply Heq.
Qed.

Lemma resolve_keys_from_wf name configs : forall keys out,
  Forall key_wf keys -> NoDup (map key_kid keys) -> resolve_keys_from name keys configs = Ok out ->
  Forall key_wf out /\ NoDup (map key_kid out) /\ length out = (length keys + length configs)%nat.
Proof.
  induction configs as [|c configs IH]; intros keys out Hk Hn; simpl.
  - intros [= <-]. by rewrite Nat.add_0_r.
  - intros H. run_ok. destruct (existsb _ keys) eqn:E; [done|].
    apply IH in H as (? & ? & ->); [rewrite length_app; simpl; split_and!; [done|done|lia]| |].
    + apply Forall_app. split; [done|]. constructor; [by eapply resolve_key_wf|done].
    + rewrite map_app. apply NoDup_app_one; [done|].
      by eapply (existsb_map_false key_kid (fun a b => String.eqb (key_kid a) (key_kid b)));
        [intros y; apply String.eqb_eq|].
Qed.

Lemma verified_claim_None m name : verified_claim m = None -> name ∈ VERIFIED_CLAIMS -> m !! name = None.
Proof.
  intros H Hn. destruct (m !! name) as [x|] eqn:Hm; [|done]. exfalso.
  assert (name ∈ claim_names m) as Hin.
  { unfold claim_names. rewrite sort_by_perm. apply elem_of_map. exists (name, x).
    split; [done|]. by apply elem_of_map_to_list. }
  apply list_elem_of_In in Hin. apply (List.find_none _ _ H) in Hin.
  assert (existsb (String.eqb name) VERIFIED_CLAIMS = true) as Ht; [|congruence].
  apply List.existsb_exists. exists name. by rewrite <- list_elem_of_In, String.eqb_refl.
Qed.

Lemma resolve_bindings_from_wf name configs : forall bs out,
  Forall binding_wf bs -> NoDup (map b_claims bs) -> resolve_bindings_from name bs configs = Ok out ->
  Forall binding_wf out /\ NoDup (map b_claims out) /\ length out = (length bs + length configs)%nat.
Proof.
  induction configs as [|c configs IH]; intros bs out Hb Hn; simpl.
  - intros [= <-]. by rewrite Nat.add_0_r.
  - intros H. run_ok. unfold resolve_binding in Hres. destruct (is_empty _) eqn:He; [done|].
    case_bool_decide as Hc; [done|]. destruct (verified_claim _) eqn:Hv; [done|].
    destruct (existsb _ bs) eqn:E; [done|]. injection Hres as <-.
    apply IH in H as (? & ? & ->); [rewrite length_app; simpl; split_and!; [done|done|lia]| |].
    + apply Forall_app. split; [done|]. constructor; [|done]. split_and!; simpl.
      * intros Ht%is_empty_spec. congruence.
      * done.
      * intros n. by apply verified_claim_None.
    + rewrite map_app. apply NoDup_app_one; [done|].
      by eapply (existsb_map_false b_claims (fun a b => bool_decide (b_claims a = b_claims b))
        (mkBinding (bc_identity c) (bc_claims c))); [intros y; apply bool_decide_eq_true|].
Qed.

Lemma count_NoDup {A B} (f : A -> B) (eqb : A -> A -> bool) l :
  (forall a b, eqb a b = true <-> f a = f b) ->
  (forall x, x ∈ l -> (length (List.filter (fun y => eqb y x) l) <= 1)%nat) -> NoDup (map f l).
Proof.
  intros Heq. induction l as [|x l IH]; intros Hl; simpl; [constructor|]. constructor.
  - intros (y & E & Hy)%elem_of_map. specialize (Hl x (list_elem_of_here _ _)). revert Hl.
    simpl. rewrite (proj2 (Heq x x)) by done. simpl.
    destruct (List.filter (fun y => eqb y x) l) as [|z k] eqn:Hf; simpl; [|lia]. intros _.
    assert (y ∈ List.filter (fun y => eqb y x) l) as Hin.
    { apply list_elem_of_In, List.filter_In. split; [by apply list_elem_of_In|]. by apply Heq. }
    rewrite Hf in Hin. by apply elem_of_nil in Hin.
  - apply IH. intros z Hz. etrans; [|apply (Hl z); by right]. simpl. destruct (eqb x z); simpl; lia.
Qed.

Lemma Forall2_elem_l {A B} (P : A -> B -> Prop) l k x : Forall2 P l k -> x ∈ l -> exists y, P x y.
Proof. induction 1 as [|a b l k Hab Hl IH]; intros Hx; [by apply elem_of_nil in Hx|]. apply elem_of_cons in Hx as [->|Hx]; eauto. Qed.

Lemma resolved_names configs cs ps :
  Forall2 (fun c p => resolve_provider configs c = Ok p) cs ps ->
  map (fun c => (pc_issuer c, pc_audience c)) cs = map (fun p => (p_issuer p, p_audience p)) ps.
Proof.
  induction 1 as [|c p cs ps Hp _ IH]; simpl; [done|]. f_equal; [|done]. unfold resolve_provider in Hp.
  destruct (is_empty _) in Hp; [done|]. destruct (is_empty _) in Hp; [done|].
  destruct (is_empty _) in Hp; [done|]. destruct (_ <? _)%nat in Hp; [done|]. run_ok. by injection Hp as <-.
Qed.

(** Every provider that is resolved is usable: named, with an issuer, an audience,
    a positive lifetime in range, keys of a size their algorithm accepts under
    distinct names, and distinct bindings that each match on some claim and never
    on one the exchange verifies itself; no two have one issuer and audience. *)
Theorem Federation_resolve_wf configs f :
  Federation_resolve configs = Ok f ->
  length f = length configs /\ Forall provider_wf f /\
  NoDup (map (fun p => (p_issuer p, p_audience p)) f).
Proof.
  unfold Federation_resolve. intros H%res_mapM_Ok. split_and!; [by apply Forall2_length in H| |].
  - eapply Forall2_Forall_r; [exact H|]. apply Forall_true. intros c p Hp. unfold resolve_provider in Hp.
    destruct (is_empty _) eqn:Hn in Hp; [done|]. destruct (is_empty _) eqn:Hi in Hp; [done|].
    destruct (is_empty _) eqn:Ha in Hp; [done|]. destruct (_ <? _)%nat in Hp; [done|]. run_ok.
    injection Hp as <-. assert (forall s, is_empty s = false -> s <> EmptyString) as Hne
      by (intros s Hs Hs'%is_empty_spec; congruence).
    split; simpl; [by apply Hne..|by eapply parse_duration_pos| |].
    + unfold resolve_keys in Hres0. destruct (pc_keys c); [done|].
      apply resolve_keys_from_wf in Hres0 as (? & ? & Hl); [|constructor..].
      split_and!; [by intros ->|done|done].
    + unfold resolve_bindings in Hres1. destruct (pc_bindings c); [done|].
      apply resolve_bindings_from_wf in Hres1 as (? & ? & Hl); [|constructor..].
      split_and!; [by intros ->|done|done].
  - erewrite <- (resolved_names configs configs f H). apply count_NoDup with (eqb := same_provider).
    + intros a b. unfold same_provider. rewrite andb_true_iff, !String.eqb_eq. by rewrite pair_equal_spec.
    + intros c Hc. apply (Forall2_elem_l _ _ _ _ H) in Hc as (p & Hp). unfold resolve_provider in Hp.
      destruct (is_empty _) in Hp; [done|]. destruct (is_empty _) in Hp; [done|].
      destruct (is_empty _) in Hp; [done|].
      destruct (Nat.ltb_spec 1 (length (List.filter (fun other => same_provider other c) configs))); [done|lia].
Qed.

(** ** Examples *)

(** One issuer, one key, two audiences. *)
Definition example_coordinate : string := b64_encode (repeat "k"%char 32).
Definition example_provider (name audience identity : string) : ProviderConfig :=
  mkProviderConfig name "https://forge.example" audience default_skew_seconds default_ttl
    [ConfigEs256 "1" example_coordinate example_coordinate]
    [mkBindingConfig identity {["sub" := "repo:acme"]}].
Definition example_configs : list ProviderConfig :=
  [example_provider "ci" "ciphr" "deploy-runner"; example_provider "viewer" "ciphr-viewer" "operator"].
Definition example_federation : Federation :=
  match Federation_resolve example_configs with Ok f => f | Err _ => [] end.

Definition toy_claims : ClaimsReader := fun b =>
  let s := str_of_bytes b in
  if String.eqb s "header" then Some {["alg" := VString "ES256"]}
  else Some (<["aud" := VString s]> (<["iss" := VString "https://forge.example"]>
               (<["sub" := VString "repo:acme"]> (<["exp" := VInteger 100]> ∅)))).
Definition toy_signatures : Signatures :=
  {| rsa_verifies _ _ _ _ := false; ecdsa_verifies _ _ s := bool_decide (s = as_bytes "signed") |}.
Definition example_id_token (audience : string) : string :=
  b64_encode (as_bytes "header") ++ "." ++ b64_encode (as_bytes audience) ++ "." ++ b64_encode (as_bytes "signed").

Lemma Federation_resolve_wf_witness :
  Federation_resolve example_configs = Ok example_federation /\ Forall provider_wf example_federation.
Proof.
  assert (Federation_resolve example_configs = Ok example_federation) as E by (vm_compute; reflexivity).
  split; [exact E|]. by apply (Federation_resolve_wf example_configs example_federation).
Defined.

Example first_provider_accepts :
  exchange (R := toy_claims) (S := toy_signatures) example_federation (example_id_token "ciphr") 5000 =
    Accepted_ (mkAccepted "ci" "repo:acme" "deploy-runner" 900000).
Proof. vm_compute. reflexivity. Qed.

Lemma second_provider_shadowed_witness :
  exists second, p_audience second = "ciphr-viewer" /\ second ∈ example_federation /\
    forall a, exchange (R := toy_claims) (S := toy_signatures) example_federation
                (example_id_token "ciphr-viewer") 5000 <> Accepted_ a.
Proof.
  pose (dummy := mkProvider EmptyString EmptyString EmptyString 0 0 [] []).
  exists (nth 1 example_federation dummy). split; [vm_compute; reflexivity|]. split; [vm_compute; right; left|].
  apply (second_provider_shadowed (R := toy_claims) (S := toy_signatures)
    (nth 0 example_federation dummy) (nth 1 example_federation dummy) [] []
    (example_id_token "ciphr-viewer") 5000 {["alg" := VString "ES256"]}
    (<["aud" := VString "ciphr-viewer"]> (<["iss" := VString "https://forge.example"]>
       (<["sub" := VString "repo:acme"]> (<["exp" := VInteger 100]> ∅))))
    (b64_encode (as_bytes "header") ++ "." ++ b64_encode (as_bytes "ciphr-viewer")) (as_bytes "signed") "ES256").
  - vm_compute. reflexivity.
  - intros k Hk. exact Hk.
  - vm_compute. congruence.
  - constructor.
  - vm_compute. reflexivity.
  - vm_compute. reflexivity.
  - vm_compute. reflexivity.
  - eexists. split_and!; [vm_compute; left|by intros ?|vm_compute; reflexivity|vm_compute; reflexivity].
  - vm_compute. reflexivity.
Defined.
