(* ===== verification/Config.v ===== *)
(** * Configuration and startup checks ([ciphr-server/src/config.rs], [server.rs])

    What the configuration file says, what is refused before the listener binds,
    how the audit devices are opened, and which surface entries no identity can
    reach.  The TOML reader is a parameter. *)

From Stdlib Require Import ZArith NArith Lia Ascii String.
From stdpp Require Import base tactics list strings gmap.
From S2P Require Import Prelude Text Path Vocabulary PolicyModel Evaluate Crypto Sink FileDevice Db Store StoreAudit Surface Oidc.

Inductive SealConfig : Type :=
| StaticEnv (env : string)
| StaticFile (path : string).

Inductive AuditConfig : Type :=
| AuditSqlite
| AuditFile (path : string) (rotate_size : option string).

Record ServerConfig : Type := mkServerConfig { listen : string; tls_cert : string; tls_key : string }.

Record Config : Type := mkConfig {
  cfg_server : ServerConfig;
  cfg_storage_path : string;
  cfg_seal : SealConfig;
  cfg_policies : string;
  cfg_audit : list AuditConfig;
  cfg_surface : list SurfaceConfig;
  cfg_oidc : list ProviderConfig;
}.

(** ** Sizes *)

Definition size_units : list (string * Z) :=
  [("GB", 1024 * 1024 * 1024)%Z; ("MB", 1024 * 1024)%Z; ("KB", 1024%Z)].

(** The first suffix that is there, and what it multiplies by. *)
Fixpoint strip_unit (units : list (string * Z)) (text : string) : string * Z :=
  match units with
  | [] => (text, 1%Z)
  | (u, multiplier) :: units =>
      match strip_suffix u text with
      | Some rest => (rest, multiplier)
      | None => strip_unit units text
      end
  end.

Definition parse_size (input : string) : result ConfigError Z :=
  let text := trim input in
  let '(digits, multiplier) := strip_unit size_units text in
  ok_or (Size input)
    (value ← parse_u64 (trim digits);
     bytes ← u64_try_from (value * multiplier);
     if (0 <? bytes)%Z then Some bytes else None).

(** ** Validation *)

Definition is_sqlite (device : AuditConfig) : bool :=
  match device with AuditSqlite => true | AuditFile _ _ => false end.

Fixpoint check_sizes (l : list AuditConfig) : result ConfigError unit :=
  match l with
  | [] => Ok tt
  | AuditFile _ (Some size) :: l => let? _ := parse_size size in check_sizes l
  | _ :: l => check_sizes l
  end.

Definition validate (c : Config) : result ConfigError unit :=
  match cfg_audit c with
  | [] => Err NoAuditDevice
  | _ =>
      if negb (existsb is_sqlite (cfg_audit c)) then Err NoStoreAuditDevice
      else
        let? _ := check_sizes (cfg_audit c) in
        let entry_named := existsb (fun stanza => String.eqb (sc_entry stanza) SURFACE_ENTRY) (cfg_surface c) in
        let no_provider := match cfg_oidc c with [] => true | _ => false end in
        if entry_named && no_provider then Err OidcEntryWithoutProvider
        else if negb entry_named && negb no_provider then Err OidcProviderWithoutEntry
        else Ok tt
  end.

Definition Config_parse (toml : string -> result string Config) (text : string) : result ConfigError Config :=
  let? config := map_err (Syntax "<inline>") (toml text) in
  let? _ := validate config in
  Ok config.

(** [read] is [std::fs::read_to_string]. *)
Definition Config_load (read : string -> result string string) (toml : string -> result string Config)
    (path : string) : result ConfigError Config :=
  let? text := map_err (Read_ path) (read path) in
  let? config := map_err (Syntax path) (toml text) in
  let? _ := validate config in
  Ok config.

Fixpoint rotate_bytes_of (l : list AuditConfig) : result ConfigError (option Z) :=
  match l with
  | [] => Ok None
  | AuditFile _ rotate_size :: _ =>
      match rotate_size with
      | None => Ok None
      | Some size => res_map Some (parse_size size)
      end
  | _ :: l => rotate_bytes_of l
  end.

Definition file_rotate_bytes (c : Config) : result ConfigError (option Z) := rotate_bytes_of (cfg_audit c).

(** ** Startup (server.rs) *)

Inductive StartupError : Type :=
| StartConfig (e : ConfigError)
| StartPolicy (e : PolicyError)
| StartStore (e : StoreError)
| StartSeal (e : CryptoError)
| StartAudit (detail : string)
| StartTls (detail : string)
| StartIo (e : string).

(** [Box<dyn AuditDevice>]: one of the two. *)
Inductive Device : Type := DevSqlite (d : SqliteAuditDevice) | DevFile (d : FileDevice).

Section startup.
(** [SqliteAuditDevice::open]: a connection to a file of the host. *)
Context (open_sqlite : string -> result StoreError SqliteAuditDevice).

Fixpoint open_each (storage : string) (rotate_at : option Z) (l : list AuditConfig)
    : stm os StartupError (list Device) :=
  match l with
  | [] => mret []
  | AuditSqlite :: l =>
      let! device := mlift (map_err StartStore (open_sqlite storage)) in
      let! devices := open_each storage rotate_at l in
      mret (DevSqlite device :: devices)
  | AuditFile path _ :: l =>
      let! device := mmap_err (fun error => StartAudit
        ("cannot open " ++ path ++ " for append: " ++ error ++ str1 newline
         ++ "  the file device appends every entry, so its directory has to be writable by the service user"))
        (FileDevice_open path rotate_at) in
      let! devices := open_each storage rotate_at l in
      mret (DevFile device :: devices)
  end.

Definition open_devices (c : Config) : stm os StartupError (list Device) :=
  let! rotate_at := mlift (map_err StartConfig (file_rotate_bytes c)) in
  let! devices := open_each (cfg_storage_path c) rotate_at (cfg_audit c) in
  match devices with
  | [] => mfail (StartAudit "no audit device is configured")
  | _ => mret devices
  end.
End startup.

Section reach.
Context `{U : Unicode} {F : Features}.

(** [SecretPath::parse(path).expect(...)] on the reserved paths, which parse. *)
Definition anyone_may (policies : PolicySet) (path : SecretPath) (capability : Capability) : bool :=
  existsb (fun '(_, i) => Evaluate.is_allowed (evaluate policies (identity_name i) path capability))
    (map_to_list (ps_identities policies)).

Definition REACHABILITY : list (string * string * Capability) :=
  [("token_status", "sys/tokens", CapInspect); ("token_revoke", "sys/tokens", CapRevoke)].

Record Unreachable : Type := mkUnreachable { u_entry : string; u_path : string; u_capability : Capability }.

Definition unreachable_entries (policies : PolicySet) (surface : Active) : list Unreachable :=
  map (fun '(name, path, capability) => mkUnreachable name path capability)
    (List.filter (fun '(name, path, capability) =>
       surface_has surface name && negb (anyone_may policies (mkSecretPath path) capability)) REACHABILITY).

Record Composition : Type := mkComposition { comp_surface : Active; comp_federation : Federation }.

(** The identities the bindings name, against those the policies have. *)
Definition unknown_identity (policies : PolicySet) (identities : list string) : option string :=
  List.find (fun i => match ps_identity policies i with Some _ => false | None => true end) identities.

Definition from_files (read : string -> result string string) (toml : string -> result string RawConfig)
    (c : Config) : result StartupError (PolicySet * Composition) :=
  let? policy_text := map_err (fun e => StartConfig (Read_ (cfg_policies c) e)) (read (cfg_policies c)) in
  let? policies := map_err StartPolicy (PolicySet_from_toml toml policy_text) in
  let? surface := map_err StartConfig (surface_resolve (cfg_surface c)) in
  let? federation := map_err StartConfig (Federation_resolve (cfg_oidc c)) in
  match unknown_identity policies (bound_identities federation) with
  | Some identity => Err (StartConfig (OidcUnknownIdentity identity))
  | None => Ok (policies, mkComposition surface federation)
  end.
End reach.

(** ** Lemmas *)

Lemma check_sizes_Ok l : check_sizes l = Ok tt <->
  forall path size, AuditFile path (Some size) ∈ l -> exists n, parse_size size = Ok n.
Proof.
  induction l as [|d l IH]; simpl; [split; [by intros _ ? ? ?%elem_of_nil|done]|].
  setoid_rewrite elem_of_cons. destruct d as [|path [size|]].
  - rewrite IH. split; [intros H p s [|]; [done|eauto]|eauto].
  - rewrite res_bind_Ok. setoid_rewrite IH. split.
    + intros (n & Hn & H) p s [[= -> ->]|]; eauto.
    + intros H. destruct (H path size) as [n Hn]; [by left|]. exists n. eauto.
  - rewrite IH. split; [intros H p s [|]; [done|eauto]|eauto].
Qed.

Lemma existsb_false_iff {A} (p : A -> bool) l : existsb p l = false <-> forall x, x ∈ l -> p x = false.
Proof.
  induction l as [|x l IH]; simpl; [split; [by intros _ ? ?%elem_of_nil|done]|].
  rewrite orb_false_iff, IH. setoid_rewrite elem_of_cons. naive_solver.
Qed.

Lemma open_each_spec open_sqlite storage rotate_at l : forall s devices s',
  open_each open_sqlite storage rotate_at l s = (Ok devices, s') ->
  length devices = length l /\ forall d, DevFile d ∈ devices -> fd_rotate_at d = rotate_at.
Proof.
  induction l as [|[|path size] l IH]; intros s devices s' Ho; simpl in Ho.
  - apply mret_Ok in Ho as [-> _]. split; [done|]. by intros d ?%elem_of_nil.
  - run_ok. apply IH in Hrun0 as [Hl Hd]. simpl. split; [by rewrite Hl|].
    intros d [|]%elem_of_cons; [done|auto].
  - run_ok. apply IH in Hrun0 as [Hl Hd]. simpl. split; [by rewrite Hl|].
    intros d [[= ->]|]%elem_of_cons; [|auto]. unfold mmap_err in Hrun.
    destruct (FileDevice_open _ _ _) as [[x|] s3] eqn:Hopen; [|done]. simpl in Hrun. injection Hrun as -> ->.
    unfold FileDevice_open in Hopen. run_ok. done.
Qed.

(** ** Properties *)

(** A size is accepted when it is positive and fits, with the powers of 1024 its
    unit says: what is written as a number and a unit is read as their product,
    or refused. *)
Theorem parse_size_units k suffix multiplier :
  (0 <= k <= u64_max)%Z -> (suffix, multiplier) ∈ (EmptyString, 1%Z) :: size_units ->
  parse_size (dec k ++ suffix) =
    if (0 <? k * multiplier)%Z && (k * multiplier <=? u64_max)%Z then Ok (k * multiplier)%Z
    else Err (Size (dec k ++ suffix)).
Proof.
  intros Hk Hin. pose proof (dec_digit_chars k ltac:(lia)) as [Hd _].
  assert (Forall (fun c => plain c = true) (as_bytes (dec k))) as Hp
    by (eapply Forall_impl; [exact Hd|exact digit_plain]).
  assert (forall u c q, u = String c q -> is_digit_char c = false -> String.length suffix <= String.length u ->
    suffix <> u -> strip_suffix u (dec k ++ suffix) = None) as Hnone
    by (intros u c q Eu Ec El En; exact (strip_suffix_digits u suffix k c q (proj1 Hk) Eu Ec El En)).
  assert (Forall (fun c => plain c = true) (as_bytes suffix) /\
    strip_unit size_units (dec k ++ suffix) = (dec k, multiplier)) as [Hs Hu].
  { unfold size_units in *. cbn [strip_unit].
    repeat (apply elem_of_cons in Hin as [[= -> ->]|Hin]; [split; [repeat constructor|]|]);
      [| | | |by apply elem_of_nil in Hin];
      repeat (erewrite Hnone; [|reflexivity|reflexivity|simpl; lia|done]);
      rewrite ?strip_suffix_app; [|done..]. by rewrite str_app_nil_r. }
  unfold parse_size. rewrite trim_plain by (rewrite as_bytes_app; by apply Forall_app).
  rewrite Hu, trim_plain, parse_u64_dec by done. cbn [option_bind mbind ok_or]. simpl. unfold u64_try_from.
  assert (0 < multiplier)%Z as Hm by (clear -Hin; unfold size_units in Hin; set_solver by lia).
  destruct (Z.leb_spec 0 (k * multiplier)), (Z.leb_spec (k * multiplier) u64_max); simpl; [| |nia|nia];
    destruct (Z.ltb_spec 0 (k * multiplier)); simpl; done || lia.
Qed.

(** A configuration is accepted exactly when the store is one of its audit
    devices, every rotation size can be read, and federation is named as a
    surface entry if and only if a provider is configured. *)
Theorem validate_correct c :
  validate c = Ok tt <->
  AuditSqlite ∈ cfg_audit c /\
  (forall path size, AuditFile path (Some size) ∈ cfg_audit c -> exists n, parse_size size = Ok n) /\
  ((exists s, s ∈ cfg_surface c /\ sc_entry s = SURFACE_ENTRY) <-> cfg_oidc c <> []).
Proof.
  rewrite <- check_sizes_Ok. unfold validate. set (named := existsb _ (cfg_surface c)).
  assert (named = true <-> exists s, s ∈ cfg_surface c /\ sc_entry s = SURFACE_ENTRY) as <-.
  { subst named. rewrite List.existsb_exists. setoid_rewrite String.eqb_eq.
    by setoid_rewrite list_elem_of_In. }
  assert (existsb is_sqlite (cfg_audit c) = true <-> AuditSqlite ∈ cfg_audit c) as Hs.
  { rewrite List.existsb_exists, list_elem_of_In. split; [by intros ([|] & ? & ?)|by exists AuditSqlite]. }
  destruct (existsb is_sqlite (cfg_audit c)) eqn:E; simpl.
  - destruct (cfg_audit c) as [|d l] eqn:Ea; [done|]. rewrite <- Ea in *. clear Ea.
    destruct (check_sizes (cfg_audit c)) as [[]|] eqn:Hc; simpl; [|naive_solver].
    destruct named, (cfg_oidc c); simpl; naive_solver.
  - assert (AuditSqlite ∉ cfg_audit c) by (intros Hin%Hs; done). destruct (cfg_audit c); naive_solver.
Qed.

(** Every file device is opened with the rotation size of the first one that is
    configured: a size set on a later one has no effect. *)
Theorem rotation_is_the_first_files open_sqlite c s devices s' :
  open_devices open_sqlite c s = (Ok devices, s') ->
  exists rotate_at, file_rotate_bytes c = Ok rotate_at /\ length devices = length (cfg_audit c) /\
    forall d, DevFile d ∈ devices -> fd_rotate_at d = rotate_at.
Proof.
  unfold open_devices. intros H. run_ok. apply mlift_Ok in Hrun as [Hr ->]. apply map_err_Ok in Hr.
  exists v. split; [done|].
  apply open_each_spec in Hrun0. destruct v0; [done|]. by apply mret_Ok in H as [-> _].
Qed.

(** A surface entry is reported as unreachable exactly when it is on, has a
    capability behind it, and no identity of the policies has that capability. *)
Theorem unreachable_entries_spec policies surface name path capability :
  mkUnreachable name path capability ∈ unreachable_entries policies surface <->
  (name, path, capability) ∈ REACHABILITY /\ name ∈ surface_names surface /\
  forall i identity, ps_identities policies !! i = Some identity ->
    ~ permitted policies (identity_name identity) (mkSecretPath path) capability.
Proof.
  unfold unreachable_entries. rewrite elem_of_map.
  assert (forall cap, anyone_may policies (mkSecretPath path) cap = false <->
    forall i identity, ps_identities policies !! i = Some identity ->
      ~ permitted policies (identity_name identity) (mkSecretPath path) cap) as Hmay.
  { intros cap. unfold anyone_may. rewrite existsb_false_iff. setoid_rewrite <- evaluate_permitted. split.
    - intros H i identity Hi. rewrite (H (i, identity)); [done|]. by apply elem_of_map_to_list.
    - intros H [i identity] Hi%elem_of_map_to_list. apply not_true_iff_false, (H _ _ Hi). }
  split.
  - intros ([[n p] cap] & [= <- <- <-] & Hin). apply list_elem_of_In, List.filter_In in Hin as [Hin Hb].
    apply andb_true_iff in Hb as [Hh Hn%negb_true_iff]. pose proof (proj1 (Hmay capability) Hn) as Hn'.
    rewrite <- list_elem_of_In in Hin. apply surface_has_spec in Hh. done.
  - intros (Hin & Hh & Hn). exists (name, path, capability). split; [done|].
    apply list_elem_of_In, List.filter_In. split; [by apply list_elem_of_In|].
    apply andb_true_iff. split; [by apply surface_has_spec|]. apply negb_true_iff. by apply Hmay.
Qed.

(** What the files resolve to: the surface and the federation are the ones of
    their stanzas, and every identity an exchange can name is in the policies. *)
Theorem from_files_identities_known `{U : Unicode} `{F : Features} read toml c policies comp :
  from_files read toml c = Ok (policies, comp) ->
  surface_resolve (cfg_surface c) = Ok (comp_surface comp) /\
  Federation_resolve (cfg_oidc c) = Ok (comp_federation comp) /\
  forall p b, p ∈ comp_federation comp -> b ∈ p_bindings p -> is_Some (ps_identity policies (b_identity b)).
Proof.
  unfold from_files. intros H. run_ok. destruct (unknown_identity _ _) eqn:Hu; [done|]. injection H as -> <-.
  simpl. split_and!; [done|done|]. intros p b Hp Hb.
  assert (b_identity b ∈ bound_identities v2) as Hin.
  { unfold bound_identities. apply list_elem_of_join. exists (map b_identity (p_bindings p)).
    split; apply elem_of_map; eauto. }
  apply list_elem_of_In in Hin. apply (List.find_none _ _ Hu) in Hin. by destruct (ps_identity _ _).
Qed.

(** ** Examples *)

Lemma parse_size_units_witness : parse_size "64MB" = Ok 67108864%Z.
Proof.
  change "64MB" with (dec 64 ++ "MB")%string.
  rewrite (parse_size_units 64 "MB" (1024 * 1024)); [reflexivity|unfold u64_max; lia|].
  right. right. left.
Defined.

(** Two files, each with a rotation size of its own. *)
Definition example_config : Config :=
  mkConfig (mkServerConfig "[::]:8200" "cert.pem" "key.pem") "ciphr.db" (StaticFile "key") "policies.toml"
    [AuditSqlite; AuditFile "a.jsonl" (Some "64MB"); AuditFile "b.jsonl" (Some "1MB")] []  [].
Definition example_os : os := mkOs ∅ ∅ [] [].
Definition example_open_sqlite : string -> result StoreError SqliteAuditDevice :=
  fun path => Ok (mkSqliteAuditDevice ("sqlite:" ++ path) (mkStore db_empty [])).

Lemma rotation_is_the_first_files_witness :
  validate example_config = Ok tt /\
  exists devices s', open_devices example_open_sqlite example_config example_os = (Ok devices, s') /\
    exists b, DevFile b ∈ devices /\ fd_path b = "b.jsonl" /\ fd_rotate_at b = Some 67108864%Z.
Proof.
  split; [vm_compute; reflexivity|].
  destruct (open_devices example_open_sqlite example_config example_os) as [[devices|e] s'] eqn:Ho; [|vm_compute in Ho; discriminate].
  exists devices, s'. split; [reflexivity|].
  destruct (rotation_is_the_first_files example_open_sqlite example_config example_os devices s' Ho)
    as (rotate_at & Hr & _ & Hall). vm_compute in Hr. injection Hr as <-.
  exists (mkFileDevice "file:b.jsonl" "b.jsonl" 2 0 (Some 67108864%Z)).
  assert (DevFile (mkFileDevice "file:b.jsonl" "b.jsonl" 2 0 (Some 67108864%Z)) ∈ devices) as Hin.
  { vm_compute in Ho. injection Ho as <- _. right. right. left. }
  split; [exact Hin|]. split; [reflexivity|]. exact (Hall _ Hin).
Defined.

Definition example_files : Config :=
  mkConfig (mkServerConfig "[::]:8200" "cert.pem" "key.pem") "ciphr.db" (StaticFile "key") "policies.toml"
    [AuditSqlite] [mkSurfaceConfig SURFACE_ENTRY "2026-08-26" "ci"]
    [example_provider "ci" "ciphr" "deploy-runner"].

Lemma from_files_identities_known_witness :
  exists policies comp,
    from_files (U := ascii_unicode) (F := false) (fun _ => Ok "policies") (fun _ => Ok example_raw) example_files
      = Ok (policies, comp) /\
    forall p b, p ∈ comp_federation comp -> b ∈ p_bindings p -> is_Some (ps_identity policies (b_identity b)).
Proof.
  destruct (from_files (U := ascii_unicode) (F := false) (fun _ => Ok "policies") (fun _ => Ok example_raw) example_files)
    as [[policies comp]|e] eqn:E; [|vm_compute in E; discriminate].
  exists policies, comp. split; [reflexivity|].
  exact (proj2 (proj2 (from_files_identities_known (U := ascii_unicode) (F := false) _ _ _ _ _ E))).
Defined.
