(* ===== verification/Prog.v ===== *)
(** * Programs with interference

    A request handler is a sequence of atomic steps on a shared state: one per
    lock that is taken.  Between two of them other requests run.  [prog] is such a
    program, [run] runs one alone, and [wp] is its weakest precondition under
    interference: [rely] bounds what others may do between two steps, [guar] is
    what each step promises them.  [pool_sound] is the theorem that ties the two
    together for any number of programs interleaved in any order. *)

From Stdlib Require Import ZArith NArith Lia Ascii String.
From stdpp Require Import base tactics list strings relations.
From S2P Require Import Prelude.

Inductive prog (St Er A : Type) : Type :=
| Done (r : result Er A)
| Panicked
| Step (B : Type) (f : St -> B * St) (k : B -> prog St Er A).
Arguments Done {St Er A}.
Arguments Panicked {St Er A}.
Arguments Step {St Er A B}.

Section prog.
Context {St Er : Type}.

Definition pret {A} (a : A) : prog St Er A := Done (Ok a).
Definition pfail {A} (e : Er) : prog St Er A := Done (Err e).
Definition plift {A} (r : result Er A) : prog St Er A := Done r.
(** One atomic step that cannot fail, and one that can. *)
Definition pstep {A} (f : St -> A * St) : prog St Er A := Step f pret.
Definition patomic {A} (f : stm St Er A) : prog St Er A := Step f plift.

Fixpoint pbind {A B} (m : prog St Er A) (k : A -> prog St Er B) : prog St Er B :=
  match m with
  | Done (Ok a) => k a
  | Done (Err e) => Done (Err e)
  | Panicked => Panicked
  | Step f c => Step f (fun b => pbind (c b) k)
  end.

(** The outcome as a value. *)
Fixpoint ptry {A} (m : prog St Er A) : prog St Er (result Er A) :=
  match m with
  | Done r => Done (Ok r)
  | Panicked => Panicked
  | Step f c => Step f (fun b => ptry (c b))
  end.

Fixpoint pfor {A} (l : list A) (body : A -> prog St Er unit) : prog St Er unit :=
  match l with
  | [] => pret tt
  | x :: l => pbind (body x) (fun _ => pfor l body)
  end.

(** Alone, to the end: [None] is a panic. *)
Fixpoint run {A} (m : prog St Er A) (s : St) : option (result Er A) * St :=
  match m with
  | Done r => (Some r, s)
  | Panicked => (None, s)
  | Step f k => let '(b, s') := f s in run (k b) s'
  end.
End prog.

Declare Scope prog_scope.
Delimit Scope prog_scope with prog.
Notation "'let*' x ':=' m 'in' k" := (pbind m (fun x => k))
  (at level 200, x name, m at level 100, k at level 200, right associativity) : prog_scope.
Notation "'let*' ' p ':=' m 'in' k" := (pbind m (fun x => match x with p => k end))
  (at level 200, p strict pattern, m at level 100, k at level 200, right associativity) : prog_scope.
Open Scope prog_scope.

(** ** Rely and guarantee

    What the others may do between two steps: it composes, and where it may lead
    it may stay. *)

Class Rely {St} (rely : St -> St -> Prop) : Prop := {
  rely_trans :: Transitive rely;
  rely_stay : forall s s', rely s s' -> rely s' s';
}.

#[export] Instance preorder_rely {St} (rely : St -> St -> Prop) `{!PreOrder rely} : Rely rely.
Proof. split; [apply _|done]. Qed.

(** A preorder that leads only to what a run visits. *)
Definition within {St} (visits : St -> Prop) (rely : St -> St -> Prop) (s s' : St) : Prop :=
  rely s s' /\ visits s'.

#[export] Instance within_rely {St} visits (rely : St -> St -> Prop) `{!PreOrder rely} : Rely (within visits rely).
Proof.
  split; [|by intros s s' [_ Hv]]. intros a b c [H1 _] [H2 Hv]. split; [by etrans|done].
Qed.

Section wp.
Context {St Er : Type} (rely guar : St -> St -> Prop) `{!Rely rely}.

Fixpoint wp {A} (m : prog St Er A) (Q : result Er A -> St -> Prop) (s : St) : Prop :=
  match m with
  | Done r => forall s', rely s s' -> Q r s'
  | Panicked => forall s', rely s s' -> False
  | Step f k => forall s1, rely s s1 -> guar s1 (snd (f s1)) /\ wp (k (fst (f s1))) Q (snd (f s1))
  end.

Lemma wp_mono {A} (m : prog St Er A) (Q Q' : result Er A -> St -> Prop) s :
  (forall r s', Q r s' -> Q' r s') -> wp m Q s -> wp m Q' s.
Proof.
  intros HQ. revert s. induction m as [r| |B f k IH]; intros s; simpl; [by auto|done|].
  intros Hw s1 Hs. destruct (Hw s1 Hs). split; [done|]. by apply IH.
Qed.

Lemma wp_rely {A} (m : prog St Er A) (Q : result Er A -> St -> Prop) s s' :
  rely s s' -> wp m Q s -> wp m Q s'.
Proof.
  intros Hs. destruct m as [r| |B f k]; simpl; intros Hw s1 H1; eapply Hw; by etrans.
Qed.

(** What holds wherever the others lead holds now. *)
Lemma wp_later {A} (m : prog St Er A) (Q : result Er A -> St -> Prop) s :
  (forall s', rely s s' -> wp m Q s') -> wp m Q s.
Proof.
  intros Hw. destruct m as [r| |B f k]; simpl; intros s' Hs.
  - apply (Hw s' Hs). by eapply rely_stay.
  - apply (Hw s' Hs s'). by eapply rely_stay.
  - apply (Hw s' Hs). by eapply rely_stay.
Qed.

Lemma wp_bind {A B} (m : prog St Er A) (k : A -> prog St Er B) (Q : result Er B -> St -> Prop) s :
  wp m (fun r s' => match r with Ok a => wp (k a) Q s' | Err e => Q (Err e) s' end) s ->
  wp (pbind m k) Q s.
Proof.
  revert s. induction m as [[a|e]| |C f c IH]; intros s; simpl; [by apply wp_later|done|done|].
  intros Hw s1 Hs. destruct (Hw s1 Hs). split; [done|]. by apply IH.
Qed.

Lemma wp_try {A} (m : prog St Er A) (Q : result Er (result Er A) -> St -> Prop) s :
  wp m (fun r s' => Q (Ok r) s') s -> wp (ptry m) Q s.
Proof.
  revert s. induction m as [r| |C f c IH]; intros s; simpl; [done|done|].
  intros Hw s1 Hs. destruct (Hw s1 Hs). split; [done|]. by apply IH.
Qed.

Lemma wp_ret {A} (a : A) (Q : result Er A -> St -> Prop) s :
  (forall s', rely s s' -> Q (Ok a) s') -> wp (pret a) Q s.
Proof. done. Qed.
Lemma wp_lift {A} (r : result Er A) (Q : result Er A -> St -> Prop) s :
  (forall s', rely s s' -> Q r s') -> wp (plift r) Q s.
Proof. done. Qed.

Lemma wp_atomic {A} (f : stm St Er A) (Q : result Er A -> St -> Prop) s :
  (forall s1, rely s s1 -> guar s1 (snd (f s1)) /\
    forall s2, rely (snd (f s1)) s2 -> Q (fst (f s1)) s2) ->
  wp (patomic f) Q s.
Proof. done. Qed.

Lemma wp_step {A} (f : St -> A * St) (Q : result Er A -> St -> Prop) s :
  (forall s1, rely s s1 -> guar s1 (snd (f s1)) /\
    forall s2, rely (snd (f s1)) s2 -> Q (Ok (fst (f s1))) s2) ->
  wp (pstep f) Q s.
Proof. done. Qed.

(** A loop keeps an assertion that each round keeps. *)
Lemma wp_for {A} (l : list A) (body : A -> prog St Er unit) (P : St -> Prop) (F : Er -> St -> Prop) s :
  (forall s s', rely s s' -> P s -> P s') ->
  (forall x s, P s -> wp (body x) (fun r s' => match r with Ok _ => P s' | Err e => F e s' end) s) ->
  P s -> wp (pfor l body) (fun r s' => match r with Ok _ => P s' | Err e => F e s' end) s.
Proof.
  intros Hst Hb. revert s. induction l as [|x l IH]; intros s HP; simpl.
  - intros s' Hs. by eapply Hst.
  - apply wp_bind. eapply wp_mono; [|by apply Hb]. intros [[]|e] s'; [apply IH|done].
Qed.
End wp.

Lemma wp_guar {St Er} (rely guar guar' : St -> St -> Prop) {A} (m : prog St Er A) Q s :
  (forall s s', guar s s' -> guar' s s') -> wp rely guar m Q s -> wp rely guar' m Q s.
Proof.
  intros HG. revert s. induction m as [r| |B f k IH]; intros s; simpl; [done|done|].
  intros Hw s1 Hs. destruct (Hw s1 Hs). split; [by apply HG|]. by apply IH.
Qed.

(** One program meets all the specifications it meets each of. *)
Lemma wp_all {St Er X} (rely guar : St -> St -> Prop) {A} (C : X -> Prop) (m : prog St Er A)
    (P : X -> result Er A -> St -> Prop) s :
  wp rely guar m (fun _ _ => True) s -> (forall x, C x -> wp rely guar m (P x) s) ->
  wp rely guar m (fun r s' => forall x, C x -> P x r s') s.
Proof.
  revert s. induction m as [r| |B f k IH]; intros s H0 Hw; simpl.
  - intros s' Hs x Hx. by apply (Hw x Hx).
  - exact H0.
  - intros s1 Hs. split; [by apply (H0 s1 Hs)|]. apply IH; [by apply (H0 s1 Hs)|]. intros x Hx. by apply (Hw x Hx s1 Hs).
Qed.

(** Alone is a special case. *)
Lemma wp_run {St Er} (rely guar : St -> St -> Prop) `{!PreOrder rely} {A} (m : prog St Er A) Q s :
  wp rely guar m Q s -> exists r, fst (run m s) = Some r /\ Q r (snd (run m s)).
Proof.
  revert s. induction m as [r| |B f k IH]; intros s; simpl.
  - intros Hw. exists r. split; [done|]. by apply Hw.
  - intros Hw. by destruct (Hw s).
  - intros Hw. destruct (Hw s) as [_ Hk]; [done|]. destruct (f s) as [b s']. by apply IH.
Qed.

(** ** Many programs *)

Section pool.
Context {St Er A : Type} (arrives : prog St Er A -> Prop).

(** One step of one program, or a new program. *)
Inductive pool_step : list (prog St Er A) * St -> list (prog St Er A) * St -> Prop :=
| pool_step_one i B (f : St -> B * St) k ts s :
    ts !! i = Some (Step f k) ->
    pool_step (ts, s) (<[i := k (fst (f s))]> ts, snd (f s))
| pool_step_new m ts s : arrives m -> pool_step (ts, s) (ts ++ [m], s).

Context (rely guar : St -> St -> Prop) `{!PreOrder rely} (inv : St -> Prop).
Context (inv_rely : forall s s', rely s s' -> inv s -> inv s').
Context (guar_rely : forall s s', guar s s' -> rely s s').
Context (spec : (St -> Prop) -> prog St Er A -> result Er A -> St -> Prop).
Context (arrives_wp : forall visits m s,
  arrives m -> inv s -> visits s -> wp (within visits rely) guar m (spec visits m) s).

(** The states of a run from the one configuration to the other. *)
Definition visited (c0 c : list (prog St Er A) * St) (s : St) : Prop :=
  exists ts, rtc pool_step c0 (ts, s) /\ rtc pool_step (ts, s) c.

Section run.
Context (visits : St -> Prop).

(** A pool in which the i-th program came from a program that arrived. *)
Definition pool_ok (origins : list (prog St Er A)) (c : list (prog St Er A) * St) : Prop :=
  inv (snd c) /\ visits (snd c) /\
  Forall2 (fun m0 m => arrives m0 /\ wp (within visits rely) guar m (spec visits m0) (snd c)) origins (fst c).

Lemma within_here s : visits s -> within visits rely s s.
Proof. by split. Qed.

Lemma pool_step_guar origins c c' : pool_ok origins c -> pool_step c c' -> snd c' = snd c \/ guar (snd c) (snd c').
Proof.
  intros (Hi & Hv & HF) Hs. destruct Hs as [i B f k ts s Hi1|m ts s Hm]; simpl in *; [right|by left].
  destruct (Forall2_lookup_r _ _ _ _ _ HF Hi1) as (m0 & Hm0 & Ha & Hw). simpl in Hw.
  destruct (Hw s); [by apply within_here|done].
Qed.

Lemma pool_step_ok origins c c' :
  pool_ok origins c -> pool_step c c' -> visits (snd c') ->
  exists more, pool_ok (origins ++ more) c' /\ rely (snd c) (snd c').
Proof.
  intros (Hi & Hv & HF) Hs Hv'. destruct Hs as [i B f k ts s Hi1|m ts s Hm]; simpl in *.
  - destruct (Forall2_lookup_r _ _ _ _ _ HF Hi1) as (m0 & Hm0 & Ha & Hw). simpl in Hw.
    destruct (Hw s) as [Hg%guar_rely Hk]; [by apply within_here|]. exists []. rewrite app_nil_r. split; [|done].
    split; [by eapply inv_rely|]. split; [done|]. simpl. apply Forall2_same_length_lookup. split.
    { rewrite length_insert. by apply Forall2_length in HF. }
    intros j x y Hx Hy. destruct (decide (j = i)) as [->|Hne].
    + rewrite list_lookup_insert_eq in Hy by by eapply lookup_lt_Some.
      injection Hy as <-. rewrite Hm0 in Hx. injection Hx as <-. by split.
    + rewrite list_lookup_insert_ne in Hy by done.
      destruct (Forall2_lookup_lr _ _ _ _ _ _ HF Hx Hy) as [? ?]. split; [done|]. eapply wp_rely; [apply _| |done]. by split.
  - exists [m]. split; [|done]. split_and!; [done|done|]. apply Forall2_app; [done|]. constructor; [|done].
    split; [done|]. by apply arrives_wp.
Qed.
End run.

(** In any interleaving of programs that arrived, one that has finished has met
    its specification, none has panicked, and every step keeps the guarantee. *)
Lemma pool_sound ms s c :
  Forall arrives ms -> inv s -> rtc pool_step (ms, s) c ->
  rely s (snd c) /\
  (forall c', pool_step c c' -> snd c' = snd c \/ guar (snd c) (snd c')) /\
  exists more, Forall arrives more /\ length (ms ++ more) = length (fst c) /\
    forall i m, fst c !! i = Some m -> exists m0, (ms ++ more) !! i = Some m0 /\
      m <> Panicked /\ forall r, m = Done r -> spec (visited (ms, s) c) m0 r (snd c).
Proof.
  intros Hms Hi Hr. set (visits := visited (ms, s) c).
  assert (forall c1, rtc pool_step (ms, s) c1 -> rtc pool_step c1 c -> exists more, pool_ok visits (ms ++ more) c1 /\
    rely s (snd c1)) as Hall.
  { intros c1 H1. pattern c1. eapply (rtc_ind_r _ (ms, s)); [| |exact H1]; cbv beta; clear c1 H1;
      [intros H2|intros c1 c2 H1 Hst IH H2].
    - exists []. rewrite app_nil_r. split; [|done].
      assert (visits s) as Hv by (exists ms; by split). split_and!; [done|done|]. simpl.
      apply Forall_Forall2_diag. eapply Forall_impl; [exact Hms|]. intros m Hm. split; [done|]. by apply arrives_wp.
    - destruct IH as (more & Hok & Hrel); [by eapply rtc_l|].
      destruct (pool_step_ok visits _ _ _ Hok Hst) as (os & Hok2 & Hrel2).
      { destruct c2 as [ts s2]. exists ts. split; [by eapply rtc_r|done]. }
      exists (more ++ os). rewrite app_assoc. split; [done|by etrans]. }
  destruct (Hall c Hr) as (more & Hok & Hrel); [apply rtc_refl|]. pose proof Hok as (Hi' & Hv & HF).
  split_and!; [done|by intros c'; apply (pool_step_guar visits (ms ++ more))|].
  exists more. split_and!; [|by apply Forall2_length in HF|].
  - apply Forall_lookup. intros i m Hm.
    assert ((ms ++ more) !! (length ms + i) = Some m) as Hm'.
    { rewrite lookup_app_r by lia. by replace (length ms + i - length ms) with i by lia. }
    destruct (Forall2_lookup_l _ _ _ _ _ HF Hm') as (? & _ & ? & _). done.
  - intros i m Hm. destruct (Forall2_lookup_r _ _ _ _ _ HF Hm) as (m0 & Hm0 & _ & Hw).
    exists m0. split_and!; [done| |].
    + intros ->. eapply (Hw (snd c)). by apply within_here.
    + intros r ->. apply Hw. by apply within_here.
Qed.
End pool.

(** One program of a pool runs to its end while the others wait. *)
Lemma run_pool_at {St Er A} (arrives : prog St Er A -> Prop) (m : prog St Er A) r ts i s :
  ts !! i = Some m -> fst (run m s) = Some r -> rtc (pool_step arrives) (ts, s) (<[i := Done r]> ts, snd (run m s)).
Proof.
  revert ts s. induction m as [r0| |B f k IH]; intros ts s Hi Hr; simpl in *; [|done|].
  - injection Hr as ->. by rewrite list_insert_id.
  - pose proof (pool_step_one arrives i B f k ts s Hi) as Hp. destruct (f s) as [b s1]. eapply rtc_l; [exact Hp|].
    rewrite <- (list_insert_insert_eq ts i (Done r) (k b)). apply IH; [|done].
    rewrite list_lookup_insert_eq; [done|by eapply lookup_lt_Some].
Qed.

(** A run alone is one interleaving. *)
Lemma run_pool {St Er A} (arrives : prog St Er A -> Prop) (m : prog St Er A) r s :
  fst (run m s) = Some r -> rtc (pool_step arrives) ([m], s) ([Done r], snd (run m s)).
Proof. by apply (run_pool_at arrives m r [m] 0). Qed.

(** The first steps of a run alone. *)
Fixpoint advance {St Er A} (n : nat) (m : prog St Er A) (s : St) : prog St Er A * St :=
  match n, m with
  | S n, Step f k => let '(b, s') := f s in advance n (k b) s'
  | _, _ => (m, s)
  end.

Lemma advance_pool {St Er A} (arrives : prog St Er A -> Prop) n m s :
  rtc (pool_step arrives) ([m], s) ([fst (advance n m s)], snd (advance n m s)).
Proof.
  revert m s. induction n as [|n IH]; intros m s; [apply rtc_refl|].
  destruct m as [r| |B f k]; simpl; [apply rtc_refl|apply rtc_refl|].
  destruct (f s) as [b s1] eqn:Hf. eapply rtc_l; [|apply IH].
  pose proof (pool_step_one arrives 0 B f k [Step f k] s eq_refl) as Hp. by rewrite Hf in Hp.
Qed.

Lemma advance_step {St Er A} (arrives : prog St Er A -> Prop) n m s :
  pool_step arrives ([fst (advance n m s)], snd (advance n m s))
    ([fst (advance (S n) m s)], snd (advance (S n) m s)) \/
  advance (S n) m s = advance n m s.
Proof.
  revert m s. induction n as [|n IH]; intros m s.
  - destruct m as [r| |B f k]; [by right|by right|left]. simpl.
    pose proof (pool_step_one arrives 0 B f k [Step f k] s eq_refl) as Hp. by destruct (f s).
  - destruct m as [r| |B f k]; [by right|by right|]. simpl. destruct (f s) as [b s1]. apply IH.
Qed.

(** ** What a run alone came from *)

Lemma run_bind {St Er A B} (m : prog St Er A) (k : A -> prog St Er B) s :
  run (pbind m k) s =
  match run m s with
  | (Some (Ok a), s') => run (k a) s'
  | (Some (Err e), s') => (Some (Err e), s')
  | (None, s') => (None, s')
  end.
Proof.
  revert s. induction m as [[a|e]| |C f c IH]; intros s; simpl; try done. destruct (f s) as [b s1]. apply IH.
Qed.

Lemma run_pstep {St Er A} (f : St -> A * St) s : run (pstep (Er := Er) f) s = (Some (Ok (fst (f s))), snd (f s)).
Proof. simpl. by destruct (f s). Qed.

Lemma run_bind_Ok {St Er A B} (m : prog St Er A) (k : A -> prog St Er B) s b s' :
  run (pbind m k) s = (Some (Ok b), s') ->
  exists a s1, run m s = (Some (Ok a), s1) /\ run (k a) s1 = (Some (Ok b), s').
Proof.
  revert s. induction m as [[a|e]| |C f c IH]; intros s; simpl; [intros Hr; by exists a, s|done|done|].
  destruct (f s) as [x s1]. apply IH.
Qed.

Lemma run_try_Ok {St Er A} (m : prog St Er A) s r s' :
  run (ptry m) s = (Some (Ok r), s') -> run m s = (Some r, s').
Proof.
  revert s. induction m as [r0| |C f c IH]; intros s; simpl; [by intros [= -> ->]|done|].
  destruct (f s) as [x s1]. apply IH.
Qed.

Lemma run_lift_Ok {St Er A} (r : result Er A) (s : St) a s' : run (plift r) s = (Some (Ok a), s') -> r = Ok a /\ s' = s.
Proof. by intros [= -> ->]. Qed.

Lemma run_atomic_Ok {St Er A} (f : stm St Er A) (s : St) r s' : run (patomic f) s = (Some r, s') -> f s = (r, s').
Proof. unfold patomic. simpl. destruct (f s) as [x s1]. simpl. by intros [= -> ->]. Qed.

Lemma run_step_Ok {St Er A} (f : St -> A * St) (s : St) a s' :
  run (pstep (Er := Er) f) s = (Some (Ok a), s') -> f s = (a, s').
Proof. unfold pstep. simpl. destruct (f s) as [x s1]. simpl. by intros [= -> ->]. Qed.

Lemma run_outcome {St Er A} (m : prog St Er A) (s : St) r : fst (run m s) = Some r -> run m s = (Some r, snd (run m s)).
Proof. destruct (run m s) as [o s']. simpl. by intros ->. Qed.

(** Every step of a program keeps the guarantee its precondition speaks of. *)
Lemma wp_advance {St Er A} (guar : St -> St -> Prop) (m : prog St Er A) Q s n :
  wp eq guar m Q s ->
  advance (S n) m s = advance n m s \/ guar (snd (advance n m s)) (snd (advance (S n) m s)).
Proof.
  revert m s. induction n as [|n IH]; intros m s Hw.
  - destruct m as [r| |B f k]; [by left|by left|]. right. simpl. destruct (Hw s eq_refl) as [Hg _].
    by destruct (f s) as [b s1].
  - destruct m as [r| |B f k]; [by left|by left|]. simpl. destruct (Hw s eq_refl) as [_ Hk].
    destruct (f s) as [b s1]. by apply IH.
Qed.

Lemma wp_assoc {St Er A B C} (rely guar : St -> St -> Prop) (m : prog St Er A) (f : A -> prog St Er B)
    (k : B -> prog St Er C) Q s :
  wp rely guar (pbind m (fun x => pbind (f x) k)) Q s -> wp rely guar (pbind (pbind m f) k) Q s.
Proof.
  revert s. induction m as [[a|e]| |X g c IH]; intros s; simpl; [done|done|done|].
  intros Hw s1 Hs. destruct (Hw s1 Hs). split; [done|]. by apply IH.
Qed.

(** ** A program among others that are not programs

    Steps of the program and of its surroundings, in any order and number. *)

Inductive exec_step {St Er A} (rely : St -> St -> Prop) : prog St Er A * St -> prog St Er A * St -> Prop :=
| exec_around m s s' : rely s s' -> exec_step rely (m, s) (m, s')
| exec_own B (f : St -> B * St) k s : exec_step rely (Step f k, s) (k (fst (f s)), snd (f s)).

Lemma exec_sound {St Er A} (rely guar : St -> St -> Prop) `{!PreOrder rely} (m : prog St Er A) Q s c :
  wp rely guar m Q s -> rtc (exec_step rely) (m, s) c ->
  wp rely guar (fst c) Q (snd c) /\
  fst c <> Panicked /\ (forall r, fst c = Done r -> Q r (snd c)) /\
  forall m' s', exec_step rely c (m', s') -> rely (snd c) s' \/ guar (snd c) s'.
Proof.
  intros Hw Hr. enough (wp rely guar (fst c) Q (snd c)) as Hc.
  { split; [exact Hc|]. destruct c as [m' s']. cbn [fst snd] in *. split_and!.
    - intros ->. by apply (Hc s').
    - intros r ->. by apply Hc.
    - intros m2 s2 Hs. inversion Hs as [? ? ? Hrel|B f k ? Em Es]; subst; [by left|]. right. by apply (Hc s'). }
  revert Hw. remember (m, s) as c0 eqn:E. revert m s E.
  induction Hr as [c0|c0 c1 c2 Hs _ IH]; intros m s -> Hw; [done|].
  inversion Hs as [? ? s1 Hrel|B f k ? Em Es]; subst; [apply (IH _ _ eq_refl)|apply (IH _ _ eq_refl)].
  - by eapply wp_rely; [apply _| |].
  - by apply (Hw s).
Qed.

Lemma advance_exec {St Er A} (rely : St -> St -> Prop) n (m : prog St Er A) s :
  rtc (exec_step rely) (m, s) (advance n m s).
Proof.
  revert m s. induction n as [|n IH]; intros m s; [apply rtc_refl|].
  destruct m as [r| |B f k]; simpl; [apply rtc_refl|apply rtc_refl|]. eapply rtc_l; [apply exec_own|].
  destruct (f s) as [b s1]. apply IH.
Qed.

(** What holds of the step a run is at holds of its next step, if it has one. *)
Lemma advance_next {St Er A} (R : St -> St -> Prop) n (m : prog St Er A) s :
  (forall B (f : St -> B * St) k, fst (advance n m s) = Step f k -> R (snd (advance n m s)) (snd (f (snd (advance n m s))))) ->
  advance (S n) m s = advance n m s \/ R (snd (advance n m s)) (snd (advance (S n) m s)).
Proof.
  revert m s. induction n as [|n IH]; intros m s HR.
  - destruct m as [r| |B f k]; [by left|by left|]. right. specialize (HR B f k eq_refl). simpl in *. by destruct (f s).
  - destruct m as [r| |B f k]; [by left|by left|]. simpl in HR |- *. destruct (f s) as [b s1]. by apply IH.
Qed.

(** What every step of a run alone leads to, and what the end of it is. *)
Lemma wp_always {St Er A} (I : St -> Prop) (m : prog St Er A) Q s n :
  I s -> wp eq (fun _ s' => I s') m Q s ->
  I (snd (advance n m s)) /\ fst (advance n m s) <> Panicked /\
  (forall r, fst (advance n m s) = Done r -> Q r (snd (advance n m s))).
Proof.
  revert m s. induction n as [|n IH]; intros m s HI Hw.
  - destruct m as [r| |B f k]; [|by destruct (Hw s eq_refl)|by split_and!].
    split_and!; [done|done|]. intros r' [= <-]. by apply Hw.
  - destruct m as [r| |B f k]; [|by destruct (Hw s eq_refl)|].
    + split_and!; [done|done|]. intros r' [= <-]. by apply Hw.
    + destruct (Hw s eq_refl) as [Hg Hk]. simpl. destruct (f s) as [b s1]. by apply IH.
Qed.

(** ** What a program may answer

    Among any others, as long as its steps and theirs keep [inv]. *)

Section answers.
Context {St Er : Type} (inv : St -> Prop).

Fixpoint answers {A} (m : prog St Er A) (P : result Er A -> Prop) : Prop :=
  match m with
  | Done r => P r
  | Panicked => True
  | Step f k => forall s, inv s -> inv (snd (f s)) /\ answers (k (fst (f s))) P
  end.

Lemma answers_mono {A} (m : prog St Er A) (P Q : result Er A -> Prop) :
  (forall r, P r -> Q r) -> answers m P -> answers m Q.
Proof.
  intros HPQ. induction m as [r| |B f k IH]; simpl; [by auto|done|].
  intros Hm s Hs. destruct (Hm s Hs). split; [done|]. by apply IH.
Qed.

Lemma answers_bind {A B} (m : prog St Er A) (k : A -> prog St Er B) P :
  answers m (fun r => match r with Ok a => answers (k a) P | Err e => P (Err e) end) -> answers (pbind m k) P.
Proof.
  induction m as [[a|e]| |C f c IH]; simpl; [done..|].
  intros Hm s Hs. destruct (Hm s Hs). split; [done|]. by apply IH.
Qed.

Lemma answers_try {A} (m : prog St Er A) (P : result Er (result Er A) -> Prop) :
  answers m (fun r => P (Ok r)) -> answers (ptry m) P.
Proof.
  induction m as [r| |C f c IH]; simpl; [done..|].
  intros Hm s Hs. destruct (Hm s Hs). split; [done|]. by apply IH.
Qed.

Lemma answers_ret {A} (a : A) (P : result Er A -> Prop) : P (Ok a) -> answers (pret a) P.
Proof. done. Qed.
Lemma answers_fail {A} e (P : result Er A -> Prop) : P (Err e) -> answers (pfail e) P.
Proof. done. Qed.
Lemma answers_lift {A} (r : result Er A) P : P r -> answers (plift r) P.
Proof. done. Qed.
Lemma answers_step {A} (f : St -> A * St) (P : result Er A -> Prop) :
  (forall s, inv s -> inv (snd (f s)) /\ P (Ok (fst (f s)))) -> answers (pstep f) P.
Proof. done. Qed.
Lemma answers_atomic {A} (f : stm St Er A) (P : result Er A -> Prop) :
  (forall s r s', inv s -> f s = (r, s') -> inv s' /\ P r) -> answers (patomic f) P.
Proof. intros Hf s Hs. eapply (Hf s); [done|]. by destruct (f s). Qed.

Lemma answers_for {A} (l : list A) (body : A -> prog St Er unit) (E : Er -> Prop) :
  (forall x, answers (body x) (fun r => match r with Ok _ => True | Err e => E e end)) ->
  answers (pfor l body) (fun r => match r with Ok _ => True | Err e => E e end).
Proof.
  intros Hb. induction l as [|x l IH]; simpl; [done|]. apply answers_bind.
  eapply answers_mono; [|apply Hb]. by intros [[]|e].
Qed.

Lemma answers_run {A} (m : prog St Er A) P s : inv s -> answers m P ->
  inv (snd (run m s)) /\ forall r, fst (run m s) = Some r -> P r.
Proof.
  revert s. induction m as [r| |B f k IH]; intros s Hs; simpl; [by intros Hr; split; [|intros ? [= <-]]|by split|].
  intros Hm. destruct (Hm s Hs) as [Hs' Hk]. destruct (f s) as [b s']. by apply IH.
Qed.

(** In a pool of programs that keep [inv], all the time. *)
Lemma answers_pool {A} (arrives : prog St Er A -> Prop) ms s c i m (P : result Er A -> Prop) :
  (forall m, arrives m -> answers m (fun _ => True)) -> Forall (fun m => answers m (fun _ => True)) ms -> inv s ->
  rtc (pool_step arrives) (ms, s) c -> ms !! i = Some m -> answers m P ->
  inv (snd c) /\ exists m', fst c !! i = Some m' /\ answers m' P.
Proof.
  intros Hnew Hms Hs Hr. remember (ms, s) as c0 eqn:E. revert ms s m E Hms Hs.
  induction Hr as [c0|c0 c1 c2 Hstep _ IH]; intros ms s m -> Hms Hs Hi Hm; [split; [done|]; by exists m|].
  inversion Hstep as [j B f k ts s0 Hj|m0 ts s0 Hm0]; subst.
  - pose proof (Forall_lookup_1 _ _ _ _ Hms Hj) as Ha. destruct (Ha s Hs) as [Hs' Hk].
    assert (Forall (fun m => answers m (fun _ => True)) (<[j:=k (fst (f s))]> ms)) as Hms' by by apply Forall_insert.
    destruct (decide (i = j)) as [->|Hne].
    + rewrite Hj in Hi. injection Hi as <-. eapply IH; [done|done|done| |exact (proj2 (Hm s Hs))].
      by rewrite list_lookup_insert_eq by by eapply lookup_lt_Some.
    + eapply IH; [done|done|done| |exact Hm]. by rewrite list_lookup_insert_ne.
  - eapply IH; [done| |done| |exact Hm]; [|by apply lookup_app_l_Some]. apply Forall_app. auto.
Qed.
End answers.

(** Where nothing of the state is assumed, and only success says something. *)
Definition yields {St Er A} (m : prog St Er A) (P : A -> Prop) : Prop :=
  answers (fun _ => True) m (fun r => match r with Ok a => P a | Err _ => True end).

Section yields.
Context {St Er : Type}.

Lemma yields_mono {A} (m : prog St Er A) (P Q : A -> Prop) :
  (forall a, P a -> Q a) -> yields m P -> yields m Q.
Proof. intros HPQ. apply answers_mono. intros [a|e]; auto. Qed.

Lemma answers_any {A} (m : prog St Er A) : answers (fun _ => True) m (fun _ => True).
Proof. induction m as [r| |B f k IH]; simpl; auto. Qed.

Lemma yields_any {A} (m : prog St Er A) : yields m (fun _ => True).
Proof. eapply answers_mono; [|apply answers_any]. by intros [a|e]. Qed.

Lemma yields_bind {A B} (m : prog St Er A) (k : A -> prog St Er B) P :
  yields m (fun a => yields (k a) P) -> yields (pbind m k) P.
Proof. intros Hm. by apply answers_bind. Qed.

Lemma yields_ret {A} (a : A) (P : A -> Prop) : P a -> yields (pret (St := St) (Er := Er) a) P.
Proof. done. Qed.

(** A call whose answer does not matter. *)
Lemma yields_then {A B} (m : prog St Er A) (k : A -> prog St Er B) P :
  (forall a, yields (k a) P) -> yields (pbind m k) P.
Proof. intros Hk. apply yields_bind. eapply yields_mono; [|apply yields_any]. auto. Qed.

Lemma yields_try {A} (m : prog St Er A) (P : result Er A -> Prop) :
  (forall e, P (Err e)) -> yields m (fun a => P (Ok a)) -> yields (ptry m) P.
Proof. intros He Hm. apply answers_try. eapply answers_mono; [|exact Hm]. by intros [a|e]. Qed.

Lemma yields_lift {A} (r : result Er A) (P : A -> Prop) :
  (forall a, r = Ok a -> P a) -> yields (St := St) (plift r) P.
Proof. intros HP. apply answers_lift. destruct r; auto. Qed.

Lemma yields_atomic {A} (f : stm St Er A) (P : A -> Prop) :
  (forall s a s', f s = (Ok a, s') -> P a) -> yields (patomic f) P.
Proof. intros Hf. apply answers_atomic. intros s [a|e] s' _ E; [|done]. split; [done|]. by eapply Hf. Qed.
End yields.

(** ** That it answers

    A schedule is an endless run.  A program it does not neglect gets its turn
    again and again until it has finished. *)

Section schedule.
Context {St Er A : Type} (arrives : prog St Er A -> Prop) (at_ : nat -> list (prog St Er A) * St).

Definition schedule : Prop := forall n, pool_step arrives (at_ n) (at_ (S n)).

(** The [i]-th program takes a step. *)
Definition next_of (m : prog St Er A) (s : St) : option (prog St Er A) :=
  match m with Step f k => Some (k (fst (f s))) | _ => None end.
Definition takes_turn (i : nat) (c c' : list (prog St Er A) * St) : Prop :=
  exists m m', fst c !! i = Some m /\ next_of m (snd c) = Some m' /\ fst c' !! i = Some m'.
Definition finished (m : prog St Er A) : Prop := m = Panicked \/ exists r, m = Done r.
Definition not_neglected (i : nat) : Prop :=
  forall n, (exists m, fst (at_ n) !! i = Some m /\ finished m) \/
    exists n', n <= n' /\ takes_turn i (at_ n') (at_ (S n')).

Lemma schedule_later n n' : schedule -> n <= n' -> rtc (pool_step arrives) (at_ n) (at_ n').
Proof. intros Hs. induction 1 as [|n' _ IH]; [apply rtc_refl|]. eapply rtc_r; [exact IH|apply Hs]. Qed.

Lemma finished_stays m c c' i :
  finished m -> rtc (pool_step arrives) c c' -> fst c !! i = Some m -> fst c' !! i = Some m.
Proof.
  intros Hm. induction 1 as [c|c c1 c2 Hs _ IH]; intros Hi; [done|]. apply IH.
  destruct Hs as [j B f k ts s Hj|m' ts s Hm']; simpl in *.
  - destruct (decide (i = j)) as [->|Hne]; [|by rewrite list_lookup_insert_ne].
    rewrite Hj in Hi. injection Hi as <-. destruct Hm as [?|[r ?]]; done.
  - by apply lookup_app_l_Some.
Qed.

(** What a step does to the [i]-th program: nothing, or its next step. *)
Lemma pool_step_at i m c c' : pool_step arrives c c' -> fst c !! i = Some m ->
  fst c' !! i = Some m \/ exists m', next_of m (snd c) = Some m' /\ fst c' !! i = Some m'.
Proof.
  intros Hs Hi. destruct Hs as [j B f k ts s Hj|m' ts s Hm']; simpl in *.
  - destruct (decide (i = j)) as [->|Hne]; [right|left; by rewrite list_lookup_insert_ne].
    assert (m = Step f k) as -> by congruence. exists (k (fst (f s))). split; [done|].
    by rewrite list_lookup_insert_eq by by eapply lookup_lt_Some.
  - left. by apply lookup_app_l_Some.
Qed.

(** A program that is not neglected finishes, however many others run and arrive. *)
Lemma schedule_finishes n i m : schedule -> not_neglected i -> fst (at_ n) !! i = Some m ->
  exists n' m', n <= n' /\ fst (at_ n') !! i = Some m' /\ finished m'.
Proof.
  intros Hs Hf. revert n. induction m as [r| |B f k IH]; intros n Hi.
  { exists n, (Done r). split_and!; [done|done|]. right. by exists r. }
  { exists n, Panicked. split_and!; [done|done|]. by left. }
  destruct (Hf n) as [(m & Hm & Hfin)|(n' & Hn & m1 & m2 & Ht1 & Ht2 & Ht3)]; [by exists n, m|].
  assert (exists d, n' = d + n) as [d ->] by (exists (n' - n); lia).
  clear Hn. revert n Hi Ht1 Ht2 Ht3. induction d as [|d IHd]; intros n Hi Ht1 Ht2 Ht3; simpl in *.
  - rewrite Hi in Ht1. injection Ht1 as <-. injection Ht2 as <-.
    destruct (IH _ _ Ht3) as (n2 & m' & Hn2 & ? & ?). exists n2, m'. split_and!; [lia|done|done].
  - destruct (pool_step_at i _ _ _ (Hs n) Hi) as [Hsame|(m' & [= <-] & Hm')].
    + destruct (IHd (S n)) as (n2 & m' & Hn2 & ? & ?); [done|by rewrite Nat.add_succ_r..|].
      exists n2, m'. split_and!; [lia|done|done].
    + destruct (IH _ _ Hm') as (n2 & m2' & Hn2 & ? & ?). exists n2, m2'. split_and!; [lia|done|done].
Qed.
End schedule.

(** One program alone, and then others that arrive and wait: a schedule. *)
Section alone.
Context {St Er A : Type} (arrives : prog St Er A -> Prop) (later : prog St Er A) (Hlater : arrives later).

Fixpoint steps (m : prog St Er A) (s : St) : nat :=
  match m with Step f k => S (steps (k (fst (f s))) (snd (f s))) | _ => 0 end.

Definition alone_first (m : prog St Er A) (s : St) (n : nat) : list (prog St Er A) * St :=
  let c := advance (n `min` steps m s) m s in (fst c :: replicate (n - steps m s) later, snd c).

Lemma advance_turn m s n : n < steps m s -> exists B (f : St -> B * St) k,
  fst (advance n m s) = Step f k /\
  advance (S n) m s = (k (fst (f (snd (advance n m s)))), snd (f (snd (advance n m s)))).
Proof.
  revert s n. induction m as [r| |B f k IH]; intros s n Hn; simpl in Hn; [lia..|].
  destruct n as [|n]; simpl.
  - exists B, f, k. split; [done|]. by destruct (f s).
  - specialize (IH (fst (f s)) (snd (f s)) n). destruct (f s) as [b s']. apply IH. simpl in *. lia.
Qed.

Lemma advance_end m s : finished (fst (advance (steps m s) m s)).
Proof.
  revert s. induction m as [r| |B f k IH]; intros s; simpl; [right; by exists r|by left|].
  specialize (IH (fst (f s)) (snd (f s))). by destruct (f s).
Qed.

Lemma alone_schedule m s : schedule arrives (alone_first m s).
Proof.
  intros n. unfold alone_first. destruct (decide (n < steps m s)) as [Hn|Hn].
  - rewrite !Nat.min_l by lia. replace (S n - steps m s) with 0 by lia. replace (n - steps m s) with 0 by lia.
    destruct (advance_turn m s n Hn) as (B & f & k & E1 & E2). rewrite E1, E2. cbn [fst snd].
    exact (pool_step_one arrives 0 B f k [Step f k] (snd (advance n m s)) eq_refl).
  - rewrite !Nat.min_r by lia. replace (S n - steps m s) with (n - steps m s + 1) by lia.
    rewrite replicate_add. simpl. rewrite app_comm_cons. by apply pool_step_new.
Qed.

Lemma alone_not_neglected m s : not_neglected (alone_first m s) 0.
Proof.
  intros n. unfold alone_first. destruct (decide (n < steps m s)) as [Hn|Hn]; [right|left].
  - exists n. split; [done|]. destruct (advance_turn m s n Hn) as (B & f & k & E1 & E2).
    exists (Step f k), (k (fst (f (snd (advance n m s))))). rewrite !Nat.min_l by lia.
    rewrite E2. cbn [fst snd]. by rewrite E1.
  - rewrite Nat.min_r by lia. eexists. split; [done|apply advance_end].
Qed.
End alone.
