(* ===== verification/Effects.v ===== *)
(** * What a computation may do to the tables

    A preorder on databases, and that every call of a store computation and every step
    of a program stays within it: the facts that hold because no call does otherwise. *)

From Stdlib Require Import ZArith NArith Lia Ascii String.
From stdpp Require Import base tactics list strings gmap relations.
From S2P Require Import Prelude Db Prog.

(** ** Calls of the store *)

Section changes.
Context (R : Db -> Db -> Prop) `{!PreOrder R}.

Definition changes {B} (work : store_m B) : Prop := respects (fun st st' => R (st_db st) (st_db st')) work.

#[local] Instance stored_preorder : PreOrder (fun st st' : Store => R (st_db st) (st_db st')).
Proof. split; [by intros st|]. intros a b c H1 H2. by etrans. Qed.

Lemma changes_reads {B} (work : store_m B) : reads_only work -> changes work.
Proof. intros Hr st r st' Hw. by rewrite (Hr _ _ _ Hw). Qed.

Lemma changes_sql {B} (f : Db -> result SqlError (B * Db)) :
  (forall d b d', f d = Ok (b, d') -> R d d') -> changes (sql f).
Proof.
  intros Hf st [b|e] st' Hs; [apply sql_Ok in Hs; by apply (Hf _ _ _ Hs)|]. by rewrite (sql_Err _ _ _ _ Hs).
Qed.

Lemma changes_change (f : Db -> Z * Db) : (forall d, R d (snd (f d))) -> changes (sql_change f).
Proof. intros Hf. apply changes_sql. intros d b d' [= Hb]. specialize (Hf d). by rewrite Hb in Hf. Qed.

Lemma changes_transaction {B} (work : store_m B) : changes work -> changes (transaction work).
Proof.
  intros Hw st [b|e] st' Ht.
  - apply transaction_Ok in Ht as (s1 & s2 & H1 & H2 & ->). rewrite <- H1. by apply (Hw _ _ _ H2).
  - by rewrite (transaction_Err _ _ _ _ Ht).
Qed.

Lemma changes_bind {B C} (work : store_m B) (k : B -> store_m C) :
  changes work -> (forall b, changes (k b)) -> changes (mbind work k).
Proof. apply respects_bind, _. Qed.
Lemma changes_lift {B} (r : result StoreError B) : changes (mlift r).
Proof. apply respects_lift, _. Qed.
Lemma changes_fail {B} e : changes (B := B) (mfail e).
Proof. apply respects_fail, _. Qed.
Lemma changes_ret {B} (b : B) : changes (mret b).
Proof. apply respects_ret, _. Qed.
Lemma changes_read {B} (f : Db -> B) : changes (sql_read f).
Proof. apply changes_reads, reads_only_sql. Qed.
Lemma changes_for {B} (l : list B) (body : B -> store_m unit) : (forall x, changes (body x)) -> changes (mfor l body).
Proof. apply respects_for, _. Qed.

Lemma changes_run {B} (work : store_m B) st : changes work -> R (st_db st) (st_db (snd (work st))).
Proof. intros Hw. destruct (work st) as [r st'] eqn:Hs. by apply (Hw _ _ _ Hs). Qed.
End changes.

(** ** Steps of a program *)

Section stays.
Context {St Er : Type} (db : St -> Db) (R : Db -> Db -> Prop) `{!PreOrder R}.

(** Whatever others do between two steps. *)
Definition anything (_ _ : St) : Prop := True.
#[export] Instance anything_preorder : PreOrder anything.
Proof. by split. Qed.

Definition stays {B} (m : prog St Er B) : Prop :=
  forall s, wp anything (fun s s' => R (db s) (db s')) m (fun _ _ => True) s.

Lemma stays_under {B} (rely : St -> St -> Prop) (m : prog St Er B) s :
  stays m -> wp rely (fun s s' => R (db s) (db s')) m (fun _ _ => True) s.
Proof.
  intros Hm. specialize (Hm s). revert s Hm. induction m as [r| |C f k IH]; intros s; simpl; [done| |].
  - intros Hm s' _. by apply (Hm s').
  - intros Hm s1 _. destruct (Hm s1 I) as [Hg Hk]. split; [exact Hg|]. by apply IH.
Qed.

Lemma stays_done {B} (r : result Er B) : stays (Done r).
Proof. by intros s s' _. Qed.
Lemma stays_ret {B} (b : B) : stays (pret b).
Proof. apply stays_done. Qed.
Lemma stays_fail {B} e : stays (B := B) (pfail e).
Proof. apply stays_done. Qed.
Lemma stays_lift {B} (r : result Er B) : stays (plift r).
Proof. apply stays_done. Qed.
Lemma stays_bind {B C} (m : prog St Er B) (k : B -> prog St Er C) :
  stays m -> (forall b, stays (k b)) -> stays (pbind m k).
Proof.
  intros Hm Hk s. apply wp_bind; [typeclasses eauto|]. eapply wp_mono; [|apply Hm]. intros [b|e] s' _; [apply Hk|done].
Qed.
Lemma stays_step {B} (f : St -> B * St) : (forall s, R (db s) (db (snd (f s)))) -> stays (pstep f).
Proof. intros Hf s s1 _. split; [apply Hf|]. by intros s2 _. Qed.
Lemma stays_atomic {B} (f : stm St Er B) : (forall s, R (db s) (db (snd (f s)))) -> stays (patomic f).
Proof. intros Hf s s1 _. split; [apply Hf|]. by intros s2 _. Qed.
Lemma stays_for {B} (l : list B) (body : B -> prog St Er unit) : (forall x, stays (body x)) -> stays (pfor l body).
Proof. intros Hb. induction l as [|x l IH]; [apply stays_done|]. cbn [pfor]. apply stays_bind; [apply Hb|]. by intros _. Qed.
Lemma stays_try {B} (m : prog St Er B) : stays m -> stays (ptry m).
Proof. intros Hm s. apply wp_try. eapply wp_mono; [|apply Hm]. done. Qed.
End stays.

Create HintDb changes.
Create HintDb stays.
#[export] Hint Resolve changes_lift changes_fail changes_ret changes_read : changes.
#[export] Hint Resolve stays_ret stays_fail stays_lift stays_done : stays.
#[export] Hint Extern 0 (PreOrder _) => typeclasses eauto : changes stays.

(** Call by call, and step by step. *)
Ltac changes_all :=
  repeat first
    [ solve [auto 2 with changes]
    | apply changes_transaction; [typeclasses eauto|]
    | apply changes_bind; [typeclasses eauto| |intros ?]
    | match goal with |- changes _ (match ?x with _ => _ end) => destruct x end ].
Ltac stays_all :=
  repeat first
    [ solve [auto 2 with stays]
    | apply stays_bind; [|intros ?]
    | apply stays_try
    | apply stays_for; intros ?
    | match goal with |- stays _ _ (match ?x with _ => _ end) => destruct x end ].
