(* ===== verification/Lock.v ===== *)
(** * The store lock ([ciphr-store/src/lock.rs])

    One writer per store: a file created exclusively, holding the process that
    created it and when that process started.  Every call to the system is one
    atomic step, and other processes run between any two of them.  A write goes to
    the file that was opened, which need not be the file that has the name any
    more.

    What is proved: a process that acquires alone is answered by what the file
    says; among live processes that start with no stale lock at most one acquires;
    and the two ways in which the takeover of a stale lock goes wrong. *)

From Stdlib Require Import ZArith NArith Lia Ascii String.
From stdpp Require Import base tactics list strings gmap relations.
From S2P Require Import Prelude Text Path Vocabulary Crypto Db Prog.

(** ** Text *)

(** [text.rsplit_once(c)] *)
Definition rsplit_once (c : ascii) (s : string) : option (string * string) :=
  match split_once c (str_rev s) with
  | Some (after, before) => Some (str_rev before, str_rev after)
  | None => None
  end.

(** ** The system

    The lock file's directory and the process table: for each running process its
    [/proc/<pid>/stat], if it can be read.  The next calls on files meet the faults
    of a list; a directory that cannot be written refuses creations and removals. *)

Record Sys : Type := mkSys {
  sys_files : gmap nat string;
  sys_name : option nat;
  sys_writable : bool;
  sys_procs : gmap Z (option string);
  sys_faults : list (option string);
}.

Definition set_file (i : nat) (text : string) (s : Sys) : Sys :=
  mkSys (<[i := text]> (sys_files s)) (sys_name s) (sys_writable s) (sys_procs s) (sys_faults s).
Definition set_name (n : option nat) (s : Sys) : Sys :=
  mkSys (sys_files s) n (sys_writable s) (sys_procs s) (sys_faults s).

Inductive IoError : Type := AlreadyExists | OtherIo (text : string).

Definition sys_call {A} (m : Sys -> result IoError A * Sys) (s : Sys) : result IoError A * Sys :=
  match sys_faults s with
  | Some e :: fs => (Err (OtherIo e), mkSys (sys_files s) (sys_name s) (sys_writable s) (sys_procs s) fs)
  | fs => m (mkSys (sys_files s) (sys_name s) (sys_writable s) (sys_procs s) (tail fs))
  end.

Definition fresh_file (s : Sys) : nat := fresh (dom (sys_files s)).

(** [OpenOptions::new().create_new(true).write(true).open(path)] *)
Definition create_new : Sys -> result IoError nat * Sys :=
  sys_call (fun s =>
    match sys_name s with
    | Some _ => (Err AlreadyExists, s)
    | None =>
        if sys_writable s
        then (Ok (fresh_file s), set_name (Some (fresh_file s)) (set_file (fresh_file s) EmptyString s))
        else (Err (OtherIo "Permission denied (os error 13)"), s)
    end).

Definition write_file (i : nat) (text : string) : Sys -> result IoError unit * Sys :=
  sys_call (fun s => (Ok tt, set_file i text s)).

Definition remove_file : Sys -> result IoError unit * Sys :=
  sys_call (fun s =>
    match sys_name s with
    | None => (Err (OtherIo "No such file or directory (os error 2)"), s)
    | Some _ => if sys_writable s then (Ok tt, set_name None s)
                else (Err (OtherIo "Permission denied (os error 13)"), s)
    end).

Definition read_file : Sys -> result IoError string * Sys :=
  sys_call (fun s =>
    match sys_name s with
    | None => (Err (OtherIo "No such file or directory (os error 2)"), s)
    | Some i => (Ok (default EmptyString (sys_files s !! i)), s)
    end).

(** ** The module *)

Definition read_raw (s : Sys) : option string * Sys :=
  match read_file s with
  | (Err _, s) => (None, s)
  | (Ok text, s) => (if is_empty (trim text) then None else Some text, s)
  end.

Definition parse_holder (text : string) : option (Z * option Z) :=
  match split_whitespace text with
  | [] => None
  | pid :: fields =>
      pid ← parse_u32 pid;
      Some (pid, match fields with [] => None | started :: _ => parse_u64 started end)
  end.

Definition start_time_of (stat : string) : option Z :=
  after_name ← rsplit_once ")"%char stat;
  field ← split_whitespace (snd after_name) !! 19%nat;
  parse_u64 field.

Definition start_time (pid : Z) (s : Sys) : option Z :=
  match sys_procs s !! pid with Some (Some stat) => start_time_of stat | _ => None end.

Record StoreLock : Type := mkStoreLock { lock_identity : string }.

Definition lock_m (A : Type) : Type := prog Sys StoreError A.

Definition is_alive (pid : Z) (started : option Z) : lock_m bool :=
  let* exists_ := pstep (fun s => (bool_decide (is_Some (sys_procs s !! pid)), s)) in
  if negb exists_ then pret false
  else
    let* current := pstep (fun s => (start_time pid s, s)) in
    pret (match started, current with
          | Some recorded, Some current => (recorded =? current)%Z
          | _, _ => true
          end).

Definition remove_if_unchanged (expected : string) : lock_m unit :=
  let* found := pstep read_raw in
  if bool_decide (found = Some expected)
  then let* _ := pstep remove_file in pret tt
  else pret tt.

Definition io_error_display (e : IoError) : string :=
  match e with AlreadyExists => "File exists (os error 17)" | OtherIo text => text end.

Definition identity_of (pid : Z) (started : option Z) : string :=
  match started with Some started => dec pid ++ " " ++ dec started | None => dec pid end.

(** A pass of the loop: [None] is [continue]. *)
Definition acquire_once (path : string) (pid : Z) : lock_m (option StoreLock) :=
  let* created := pstep create_new in
  match created with
  | Ok file =>
      let* started := pstep (fun s => (start_time pid s, s)) in
      let identity := identity_of pid started in
      let* written := pstep (write_file file identity) in
      match written with
      | Err error =>
          let* _ := pstep remove_file in
          pfail (StoreIo ("cannot write " ++ path ++ ": " ++ io_error_display error))
      | Ok _ =>
          let* found := pstep read_raw in
          if bool_decide (found = Some identity) then pret (Some (mkStoreLock identity)) else pret None
      end
  | Err AlreadyExists =>
      let* existing := pstep read_raw in
      match existing with
      | None => pfail (Locked None)
      | Some existing =>
          match parse_holder existing with
          | Some (pid, started) =>
              let* alive := is_alive pid started in
              if (alive : bool) then pfail (Locked (Some pid))
              else let* _ := remove_if_unchanged existing in pret None
          | None => pfail (Locked None)
          end
      end
  | Err error => pfail (StoreIo ("cannot create " ++ path ++ ": " ++ io_error_display error))
  end.

(** The loop, for so many passes: [None] when they did not suffice. *)
Fixpoint acquire (passes : nat) (path : string) (pid : Z) : lock_m (option StoreLock) :=
  match passes with
  | O => pret None
  | S passes =>
      let* lock := acquire_once path pid in
      match lock with
      | Some lock => pret (Some lock)
      | None => acquire passes path pid
      end
  end.

(** [Drop] *)
Definition release (lock : StoreLock) : lock_m unit := remove_if_unchanged (lock_identity lock).

Definition lock_path (store : string) : string := store ++ ".lock".

(** ** Lemmas: what is written is read back *)

Lemma words_plain_from w l : forallb (fun c => negb (is_whitespace c)) l = true -> w ++ l <> [] ->
  words_from w l = [rev w ++ l].
Proof.
  revert w. induction l as [|c l IH]; intros w Hl Hne; cbn [words_from].
  - rewrite app_nil_r in *. by destruct w.
  - simpl in Hl. apply andb_true_iff in Hl as [Hc%negb_true_iff Hl]. rewrite Hc, IH; [|done|by destruct w].
    cbn [rev]. by rewrite <- app_assoc.
Qed.

Lemma digits_not_white z : (0 <= z)%Z -> forallb (fun c => negb (is_whitespace c)) (chars (dec z)) = true /\ chars (dec z) <> [].
Proof.
  intros Hz. destruct (dec_digits z Hz) as (_ & Hf & Hne). split; [|done]. apply forallb_forall. intros c Hc.
  rewrite Forall_forall in Hf. specialize (Hf c ltac:(by apply list_elem_of_In)). apply negb_true_iff.
  unfold is_ascii_digit in Hf. apply andb_true_iff in Hf as [H1%N.leb_le H2%N.leb_le]. unfold is_whitespace.
  repeat (apply orb_false_iff; split); try (apply andb_false_iff; rewrite !N.leb_gt; lia); apply N.eqb_neq; lia.
Qed.

Lemma words_then w a b : forallb (fun c => negb (is_whitespace c)) a = true -> w ++ a <> [] ->
  words_from w (a ++ 32%N :: b) = (rev w ++ a) :: words_from [] b.
Proof.
  revert w. induction a as [|c a IH]; intros w Ha Hne; cbn [app words_from].
  - change (is_whitespace 32) with true. cbn iota. rewrite app_nil_r in *. by destruct w.
  - simpl in Ha. apply andb_true_iff in Ha as [Hc%negb_true_iff Ha]. rewrite Hc, IH; [|done|by destruct w].
    cbn [rev]. by rewrite <- app_assoc.
Qed.

Lemma dec_utf8 z : (0 <= z)%Z -> utf8 (dec z) /\ of_chars (chars (dec z)) = dec z.
Proof.
  intros Hz. destruct (dec_digit_chars z Hz) as [Hf _].
  assert (Forall (fun c => plain c = true) (as_bytes (dec z))) as Hp by (eapply Forall_impl; [exact Hf|]; exact digit_plain).
  split.
  - apply utf8_ascii. eapply Forall_impl; [exact Hp|]. intros c Hc. unfold plain in Hc.
    apply andb_true_iff in Hc as [_ Hc%N.leb_le]. lia.
  - rewrite chars_plain, of_chars_plain by done. apply str_of_as.
Qed.

Definition pid_ok (pid : Z) : Prop := (0 <= pid <= u32_max)%Z.
Definition started_ok (started : option Z) : Prop :=
  match started with Some t => (0 <= t <= u64_max)%Z | None => True end.

Lemma parse_u32_dec z : pid_ok z -> parse_u32 (dec z) = Some z.
Proof.
  intros Hz. unfold parse_u32. rewrite parse_digits_dec by (unfold pid_ok in *; lia). simpl. unfold u32_try_from.
  unfold pid_ok in Hz. by rewrite !(proj2 (Z.leb_le _ _)) by lia.
Qed.

(** The identity names its process, and it is not blank. *)
Lemma parse_identity pid started : pid_ok pid -> started_ok started ->
  parse_holder (identity_of pid started) = Some (pid, started) /\ is_empty (trim (identity_of pid started)) = false.
Proof.
  intros Hp Hs. assert (0 <= pid)%Z as Hp0 by (unfold pid_ok in Hp; lia).
  destruct (digits_not_white pid Hp0) as [Hw Hne]. destruct (dec_utf8 pid Hp0) as [Hu Eu].
  assert (forall c l, is_whitespace c = false -> trim_chars (c :: l) <> []) as Hkeep.
  { intros c l Hc H. unfold trim_chars in H. cbn [drop_while] in H. rewrite Hc in H.
    apply (f_equal (@rev N)) in H. rewrite rev_involutive in H. cbn [rev] in H.
    assert (forall k, drop_while is_whitespace (k ++ [c]) <> []) as Hd.
    { intros k. induction k as [|x k IH]; simpl; [by rewrite Hc|]. by destruct (is_whitespace x). }
    by apply Hd in H. }
  assert (exists c l, chars (dec pid) = c :: l /\ is_whitespace c = false) as (c0 & l0 & E0 & Hc0).
  { destruct (chars (dec pid)) as [|c l] eqn:E; [done|]. exists c, l. split; [done|].
    simpl in Hw. by apply andb_true_iff in Hw as [?%negb_true_iff _]. }
  assert (forall t, is_empty (trim (dec pid ++ t)) = false) as Hblank.
  { intros t. destruct (is_empty (trim (dec pid ++ t))) eqn:E; [|done]. exfalso.
    unfold trim in E. rewrite chars_app, E0 in E by done. cbn [app] in E.
    specialize (Hkeep c0 (l0 ++ chars t) Hc0). destruct (trim_chars (c0 :: l0 ++ chars t)) as [|x k]; [done|].
    simpl in E. unfold utf8_of_char in E. by repeat case_match. }
  unfold parse_holder, split_whitespace. destruct started as [t|]; cbn [identity_of].
  - assert (0 <= t)%Z as Ht by (simpl in Hs; lia). destruct (digits_not_white t Ht) as [Hwt Hnt].
    destruct (dec_utf8 t Ht) as [_ Et]. split; [|apply Hblank].
    rewrite chars_app by done. change (chars (" " ++ dec t)) with (32%N :: chars (dec t)).
    rewrite words_then by done. rewrite words_plain_from by done. cbn [rev app map]. rewrite Eu, Et.
    rewrite parse_u32_dec by done. cbn -[dec parse_u64]. by rewrite parse_u64_dec.
  - split; [|rewrite <- (str_app_nil_r (dec pid)); apply Hblank].
    rewrite words_plain_from by done. cbn [rev app map]. rewrite Eu, parse_u32_dec by done. done.
Qed.

Lemma start_time_ok pid s : started_ok (start_time pid s).
Proof.
  unfold start_time. destruct (sys_procs s !! pid) as [[stat|]|]; [|done|done]. unfold start_time_of.
  destruct (rsplit_once _ stat) as [[a b]|]; simpl; [|done]. destruct (split_whitespace b !! 19%nat) as [f|]; simpl; [|done].
  unfold parse_u64. destruct (parse_digits f) as [z|]; simpl; [|done]. unfold u64_try_from.
  destruct ((0 <=? z) && (z <=? u64_max))%Z eqn:E; simpl; [lia|done].
Qed.

(** ** Alone *)

(** What the file says of its holder, to who reads it now. *)
Definition stale (pid : Z) (started : option Z) (s : Sys) : bool :=
  match sys_procs s !! pid with
  | None => true
  | Some _ => match started, start_time pid s with
              | Some recorded, Some current => negb (recorded =? current)%Z
              | _, _ => false
              end
  end.

Lemma run_is_alive pid started s : run (is_alive pid started) s = (Some (Ok (negb (stale pid started s))), s).
Proof.
  unfold is_alive, stale. rewrite run_bind, run_pstep. cbn [fst snd].
  destruct (sys_procs s !! pid) as [stat|]; [|done]. rewrite bool_decide_eq_true_2 by by eexists. cbn [negb].
  rewrite run_bind, run_pstep. cbn [fst snd]. cbn [run].
  destruct started as [t|], (start_time pid s) as [c|]; try done. by rewrite negb_involutive.
Qed.

(** A directory without faults. *)
Definition calm (s : Sys) : Prop := sys_faults s = [].
Definition content (s : Sys) : option string :=
  i ← sys_name s; Some (default EmptyString (sys_files s !! i)).

Lemma calm_call {A} (m : Sys -> result IoError A * Sys) s : calm s -> sys_call m s = m s.
Proof. destruct s as [f n w p fs]. unfold calm. simpl. by intros ->. Qed.

Lemma read_raw_calm s : calm s ->
  read_raw s = (match content s with Some text => if is_empty (trim text) then None else Some text | None => None end, s).
Proof.
  intros Hc. unfold read_raw, read_file. rewrite calm_call by done. unfold content.
  destruct (sys_name s); [|done]. simpl. by case_match.
Qed.

Definition taken (pid : Z) (s : Sys) : Sys :=
  set_file (fresh_file s) (identity_of pid (start_time pid s))
    (set_name (Some (fresh_file s)) (set_file (fresh_file s) EmptyString s)).

Lemma acquire_once_free path pid s : calm s -> pid_ok pid -> sys_name s = None ->
  run (acquire_once path pid) s =
  if sys_writable s then (Some (Ok (Some (mkStoreLock (identity_of pid (start_time pid s))))), taken pid s)
  else (Some (Err (StoreIo ("cannot create " ++ path ++ ": Permission denied (os error 13)"))), s).
Proof.
  intros Hc Hp Hn. unfold acquire_once. rewrite run_bind, run_pstep. unfold create_new. rewrite calm_call by done.
  rewrite Hn. destruct (sys_writable s) eqn:Hw; [|done]. cbn [fst snd].
  rewrite run_bind, run_pstep. cbn [fst snd]. rewrite run_bind, run_pstep. unfold write_file.
  rewrite calm_call by done. cbn [fst snd].
  change (start_time pid (set_name (Some (fresh_file s)) (set_file (fresh_file s) EmptyString s))) with (start_time pid s).
  rewrite run_bind, run_pstep. fold (taken pid s). rewrite read_raw_calm by done. cbn [fst snd].
  destruct (parse_identity pid (start_time pid s) Hp (start_time_ok pid s)) as [_ Hb].
  assert (content (taken pid s) = Some (identity_of pid (start_time pid s))) as ->.
  { unfold content, taken. simpl. by rewrite lookup_insert_eq. }
  rewrite Hb. by rewrite bool_decide_eq_true_2.
Qed.

Lemma acquire_once_held path pid s text : calm s -> content s = Some text ->
  run (acquire_once path pid) s =
  match (if is_empty (trim text) then None else parse_holder text) with
  | None => (Some (Err (Locked None)), s)
  | Some (holder, started) =>
      if stale holder started s
      then (Some (Ok None), if sys_writable s then set_name None s else s)
      else (Some (Err (Locked (Some holder))), s)
  end.
Proof.
  intros Hc Ht. unfold acquire_once. rewrite run_bind, run_pstep. unfold create_new. rewrite calm_call by done.
  unfold content in Ht. destruct (sys_name s) as [i|] eqn:Hn; [|done]. cbn [fst snd].
  rewrite run_bind, run_pstep, read_raw_calm by done. cbn [fst snd].
  assert (content s = Some text) as Ht' by by unfold content; rewrite Hn. rewrite Ht'. 
  destruct (is_empty (trim text)) eqn:Hb; [done|]. destruct (parse_holder text) as [[h st]|]; [|done].
  rewrite run_bind, run_is_alive. destruct (stale h st s); cbn [negb]; [|done].
  unfold remove_if_unchanged. rewrite !run_bind, run_pstep, read_raw_calm by done. cbn [fst snd].
  rewrite Ht'.  rewrite Hb, bool_decide_eq_true_2 by done.
  rewrite run_bind, run_pstep. unfold remove_file. rewrite calm_call, Hn by done. by destruct (sys_writable s).
Qed.

Lemma acquire_step path pid n s : run (acquire (S n) path pid) s =
  match run (acquire_once path pid) s with
  | (Some (Ok (Some lock)), s') => (Some (Ok (Some lock)), s')
  | (Some (Ok None), s') => run (acquire n path pid) s'
  | (Some (Err e), s') => (Some (Err e), s')
  | (None, s') => (None, s')
  end.
Proof. cbn [acquire]. rewrite run_bind. by destruct (run (acquire_once path pid) s) as [[[[l|]|e]|] s']. Qed.

(** C40: What a process that runs alone is answered, in every case and after any number
    of passes of the loop from the second: the lock when there is no file or its
    holder is gone, the holder when it is alive, and no verdict when the file
    cannot be verified.  When the holder is gone and its file cannot be removed,
    the loop never ends. *)
Theorem acquire_alone path pid n s : calm s -> pid_ok pid ->
  let out := run (acquire (S (S n)) path pid) s in
  match content s with
  | None =>
      if sys_writable s
      then fst out = Some (Ok (Some (mkStoreLock (identity_of pid (start_time pid s))))) /\
           content (snd out) = Some (identity_of pid (start_time pid s))
      else exists reason, fst out = Some (Err (StoreIo reason)) /\ snd out = s
  | Some text =>
      match (if is_empty (trim text) then None else parse_holder text) with
      | None => out = (Some (Err (Locked None)), s)
      | Some (holder, started) =>
          if stale holder started s then
            if sys_writable s
            then fst out = Some (Ok (Some (mkStoreLock (identity_of pid (start_time pid s))))) /\
                 content (snd out) = Some (identity_of pid (start_time pid s))
            else out = (Some (Ok None), s)
          else out = (Some (Err (Locked (Some holder))), s)
      end
  end.
Proof.
  intros Hc Hp. cbv zeta. destruct (content s) as [text|] eqn:Ht.
  - rewrite acquire_step, (acquire_once_held _ _ _ text) by done.
    destruct (if is_empty (trim text) then None else parse_holder text) as [[h st]|] eqn:Hh; [|done].
    destruct (stale h st s) eqn:Hs; [|done]. destruct (sys_writable s) eqn:Hw.
    + rewrite acquire_step, acquire_once_free by done. cbn [sys_writable set_name]. rewrite Hw. cbn [fst snd].
      split; [done|]. unfold content, taken. simpl. by rewrite lookup_insert_eq.
    + generalize (S n). intros k. induction k as [|k IH]; [done|].
      by rewrite acquire_step, (acquire_once_held _ _ _ text), Hh, Hs, Hw by done.
  - assert (sys_name s = None) as Hn by (unfold content in Ht; by destruct (sys_name s)).
    rewrite acquire_step, acquire_once_free by done. destruct (sys_writable s); [|by eexists].
    cbn [fst snd]. split; [done|]. unfold content, taken. simpl. by rewrite lookup_insert_eq.
Qed.

(** A process that left its lock behind, and two that run. *)
Definition stat_line (pid : Z) (started : string) : string :=
  dec pid ++ " (ciphr server) S 1 1 1 0 -1 4194560 1 0 0 0 1 1 0 0 20 0 1 0 " ++ started ++ " 0".
Definition abandoned (writable : bool) : Sys :=
  mkSys {[0%nat := "7 100"]} (Some 0%nat) writable
    {[1%Z := Some (stat_line 1 "200"); 2%Z := Some (stat_line 2 "300")]} [].

Lemma acquire_alone_witness :
  fst (run (acquire 5 "store.db.lock" 1) (abandoned true)) = Some (Ok (Some (mkStoreLock "1 200"))) /\
  run (acquire 20 "store.db.lock" 1) (abandoned false) = (Some (Ok None), abandoned false).
Proof.
  split.
  - apply (acquire_alone "store.db.lock" 1 3 (abandoned true)); [reflexivity|vm_compute; split; congruence].
  - apply (acquire_alone "store.db.lock" 1 18 (abandoned false)); [reflexivity|vm_compute; split; congruence].
Defined.

(** ** Two at once *)

(** A schedule: whose step is next. *)
Fixpoint run_schedule {St Er A} (schedule : list nat) (c : list (prog St Er A) * St) : list (prog St Er A) * St :=
  match schedule with
  | [] => c
  | i :: schedule =>
      run_schedule schedule
        match fst c !! i with
        | Some (Step f k) => (<[i := k (fst (f (snd c)))]> (fst c), snd (f (snd c)))
        | _ => c
        end
  end.

Lemma run_schedule_pool {St Er A} (arrives : prog St Er A -> Prop) schedule c :
  rtc (pool_step arrives) c (run_schedule schedule c).
Proof.
  revert c. induction schedule as [|i schedule IH]; intros [ts s]; [apply rtc_refl|]. cbn [run_schedule fst snd].
  destruct (ts !! i) as [[r| |B f k]|] eqn:Hi; try apply IH. eapply rtc_l; [by eapply pool_step_one|apply IH].
Qed.

(** The takeover of a stale lock is a race: both processes find the same dead
    holder and both check that the file is unchanged; the one removes it, takes the
    lock and reads its own identity back; then the other removes what now has the
    name, and takes the lock as well. *)
Theorem stale_takeover_is_not_exclusive : exists c,
  rtc (pool_step (fun _ => False))
    ([acquire 3 "store.db.lock" 1; acquire 3 "store.db.lock" 2], abandoned true) c /\
  fst c = [Done (Ok (Some (mkStoreLock "1 200"))); Done (Ok (Some (mkStoreLock "2 300")))].
Proof.
  exists (run_schedule (repeat 0%nat 4 ++ repeat 1%nat 4 ++ repeat 0%nat 6 ++ repeat 1%nat 6)
    ([acquire 3 "store.db.lock" 1; acquire 3 "store.db.lock" 2], abandoned true)).
  split; [apply run_schedule_pool|]. vm_compute. reflexivity.
Qed.

(** ** Any number at once, and nothing stale

    A process that acquires the lock, works while it holds it, and drops it. *)

Definition critical (lock : StoreLock) : lock_m unit :=
  let* _ := pstep (fun s => (tt, s)) in release lock.

Definition after_acquire (lock : option StoreLock) : lock_m unit :=
  match lock with Some lock => critical lock | None => pret tt end.

Definition session (passes : nat) (path : string) (pid : Z) : lock_m unit :=
  let* lock := acquire passes path pid in after_acquire lock.

Section exclusion.
Context (path : string) (procs : gmap Z (option string)).

Definition started_of (pid : Z) : option Z :=
  match procs !! pid with Some (Some stat) => start_time_of stat | _ => None end.

(** The holder a text names runs, and is the process it was. *)
Definition live (text : string) : Prop :=
  forall pid started, parse_holder text = Some (pid, started) ->
    is_Some (procs !! pid) /\ forall t c, started = Some t -> started_of pid = Some c -> t = c.

Definition running (pid : Z) : Prop := pid_ok pid /\ is_Some (procs !! pid).

Lemma identity_live pid : running pid -> live (identity_of pid (started_of pid)).
Proof.
  intros [Hp Hr] h st. assert (started_ok (started_of pid)) as Hs by exact (start_time_ok pid (mkSys ∅ None true procs [])).
  destruct (parse_identity pid _ Hp Hs) as [-> _]. intros [= <- <-]. split; [done|]. congruence.
Qed.

Definition good (s : Sys) : Prop :=
  sys_procs s = procs /\ forall i, sys_name s = Some i -> live (default EmptyString (sys_files s !! i)).

(** The rest of the loop and of the session. *)
Definition wrap (n : nat) (pid : Z) (m : lock_m (option StoreLock)) : lock_m unit :=
  let* lock := (let* lock := m in
                match lock with Some lock => pret (Some lock) | None => acquire n path pid end) in
  after_acquire lock.

(** The points of a session, by the step that comes next. *)
Definition at_read_back (identity : string) : lock_m (option StoreLock) :=
  let* found := pstep read_raw in
  if bool_decide (found = Some identity) then pret (Some (mkStoreLock identity)) else pret None.
Definition at_failed (error : IoError) : lock_m (option StoreLock) :=
  let* _ := pstep remove_file in
  pfail (StoreIo ("cannot write " ++ path ++ ": " ++ io_error_display error)).
Definition at_write (i : nat) (identity : string) : lock_m (option StoreLock) :=
  let* written := pstep (write_file i identity) in
  match written with Err error => at_failed error | Ok _ => at_read_back identity end.
Definition at_start_time (pid : Z) (i : nat) : lock_m (option StoreLock) :=
  let* started := pstep (fun s => (start_time pid s, s)) in at_write i (identity_of pid started).
Definition at_verdict (pid : Z) (existing : string) (alive : bool) : lock_m (option StoreLock) :=
  if alive then pfail (Locked (Some pid)) else let* _ := remove_if_unchanged existing in pret None.
Definition at_compare (pid : Z) (started : option Z) (existing : string) : lock_m (option StoreLock) :=
  let* alive := (let* current := pstep (fun s => (start_time pid s, s)) in
    pret (match started, current with
          | Some recorded, Some current => (recorded =? current)%Z
          | _, _ => true
          end)) in
  at_verdict pid existing alive.
Definition at_alive (pid : Z) (started : option Z) (existing : string) : lock_m (option StoreLock) :=
  let* alive := is_alive pid started in at_verdict pid existing alive.
Definition at_existing : lock_m (option StoreLock) :=
  let* existing := pstep read_raw in
  match existing with
  | None => pfail (Locked None)
  | Some existing =>
      match parse_holder existing with
      | Some (pid, started) => at_alive pid started existing
      | None => pfail (Locked None)
      end
  end.

(** Who holds the name of the lock file, and who does not. *)
Inductive owns (s : Sys) : lock_m unit -> Prop :=
| owns_start_time n pid i : running pid -> sys_name s = Some i -> sys_files s !! i = Some EmptyString ->
    owns s (wrap n pid (at_start_time pid i))
| owns_write n pid i : running pid -> sys_name s = Some i -> sys_files s !! i = Some EmptyString ->
    owns s (wrap n pid (at_write i (identity_of pid (started_of pid))))
| owns_failed n pid i error : running pid -> sys_name s = Some i -> owns s (wrap n pid (at_failed error))
| owns_read_back n pid i identity : running pid -> sys_name s = Some i -> sys_files s !! i = Some identity ->
    owns s (wrap n pid (at_read_back identity))
| owns_critical i identity : sys_name s = Some i -> sys_files s !! i = Some identity ->
    owns s (critical (mkStoreLock identity))
| owns_release i identity : sys_name s = Some i -> sys_files s !! i = Some identity ->
    owns s (release (mkStoreLock identity))
| owns_remove i : sys_name s = Some i -> owns s (let* _ := pstep remove_file in pret tt).

Inductive idle : lock_m unit -> Prop :=
| idle_session n pid : running pid -> idle (session n path pid)
| idle_existing n pid : running pid -> idle (wrap n pid at_existing)
| idle_alive n pid h started existing : running pid -> live existing ->
    parse_holder existing = Some (h, started) -> idle (wrap n pid (at_alive h started existing))
| idle_compare n pid h started existing : running pid -> live existing ->
    parse_holder existing = Some (h, started) -> idle (wrap n pid (at_compare h started existing))
| idle_done r : idle (Done r).

Lemma session_succ n pid : session (S n) path pid = wrap n pid (acquire_once path pid).
Proof. reflexivity. Qed.

Lemma call_inv {A} (m : Sys -> result IoError A * Sys) s r s' : sys_call m s = (r, s') ->
  (exists e fs, r = Err (OtherIo e) /\ s' = mkSys (sys_files s) (sys_name s) (sys_writable s) (sys_procs s) fs) \/
  (exists fs, m (mkSys (sys_files s) (sys_name s) (sys_writable s) (sys_procs s) fs) = (r, s')).
Proof.
  unfold sys_call. destruct (sys_faults s) as [|[e|] fs]; intros H; [right; by exists []| |right; by exists fs].
  left. exists e, fs. by apply pair_equal_spec in H as [<- <-].
Qed.

Lemma read_raw_inv s r s' : read_raw s = (r, s') ->
  sys_name s' = sys_name s /\ sys_files s' = sys_files s /\ sys_procs s' = sys_procs s /\
  forall text, r = Some text -> exists i, sys_name s = Some i /\ text = default EmptyString (sys_files s !! i) /\ is_empty (trim text) = false.
Proof.
  unfold read_raw, read_file. destruct (sys_call _ s) as [r0 s0] eqn:E. apply call_inv in E as [(e & fs & -> & ->)|(fs & E)].
  - intros [= <- <-]. done.
  - simpl in E. destruct (sys_name s) as [i|] eqn:Hn; apply pair_equal_spec in E as [<- <-]; intros [= <- <-]; simpl; [|done].
    split_and!; [done|done|done|]. intros text. destruct (is_empty (trim _)) eqn:Hb; [done|]. intros [= <-]. by exists i.
Qed.

(** What the owner needs of the system is kept. *)
Definition name_kept (s s' : Sys) : Prop :=
  sys_name s' = sys_name s /\ forall i, sys_name s = Some i -> sys_files s' !! i = sys_files s !! i.

Lemma owns_kept s s' m : name_kept s s' -> owns s m -> owns s' m.
Proof. intros [Hn Hf] Ho. destruct Ho; econstructor; rewrite ?Hn, ?Hf; eauto. Qed.

Lemma good_kept s s' : name_kept s s' -> sys_procs s' = sys_procs s -> good s -> good s'.
Proof. intros [Hn Hf] Hp [Hg1 Hg2]. split; [congruence|]. intros i Hi. rewrite Hn in Hi. rewrite Hf by done. by apply Hg2. Qed.

Lemma kept_same s s' : sys_name s' = sys_name s -> sys_files s' = sys_files s -> name_kept s s'.
Proof. intros Hn Hf. split; [done|]. intros. by rewrite Hf. Qed.

Lemma blank_live : live EmptyString.
Proof. intros h st H. vm_compute in H. done. Qed.

(** A step of a process that does not hold the name: it gets it only when nobody
    has it, and keeps what is behind it otherwise. *)
Lemma idle_step s m : good s -> idle m ->
  match m with
  | Done _ => True
  | Panicked => False
  | Step f k =>
      good (snd (f s)) /\
      ((name_kept s (snd (f s)) /\ idle (k (fst (f s)))) \/
       (sys_name s = None /\ owns (snd (f s)) (k (fst (f s)))))
  end.
Proof.
  intros Hg [n pid Hr|n pid Hr|n pid h st text Hr Hl Hh|n pid h st text Hr Hl Hh|r]; [| | | |done].
  - destruct n as [|n]; [done|]. cbn -[create_new]. destruct (create_new s) as [r s'] eqn:E. cbn [fst snd].
    apply call_inv in E as [(e & fs & -> & ->)|(fs & E)].
    { split; [by apply (good_kept s); [apply kept_same| |]|]. left. split; [by apply kept_same|]. apply idle_done. }
    simpl in E. destruct (sys_name s) as [i|] eqn:Hn.
    { apply pair_equal_spec in E as [<- <-].
      assert (name_kept s (mkSys (sys_files s) (Some i) (sys_writable s) (sys_procs s) fs)) as Hk by by apply kept_same.
      split; [by apply (good_kept s)|]. left. split; [done|]. by apply (idle_existing n pid). }
    destruct (sys_writable s); apply pair_equal_spec in E as [<- <-].
    + split.
      * destruct Hg as [Hp _]. split; [done|]. intros i [= <-]. simpl. rewrite lookup_insert_eq. apply blank_live.
      * right. split; [done|]. apply (owns_start_time _ n pid (fresh_file _)); [done|done|]. simpl. by rewrite lookup_insert_eq.
    + assert (name_kept s (mkSys (sys_files s) None false (sys_procs s) fs)) as Hk by by apply kept_same.
      split; [by apply (good_kept s)|]. left. split; [done|]. apply idle_done.
  - cbn -[read_raw]. destruct (read_raw s) as [r s'] eqn:E. cbn [fst snd].
    apply read_raw_inv in E as (Hn & Hf & Hp & Ht). assert (name_kept s s') as Hk by by apply kept_same.
    split; [by apply (good_kept s)|]. left. split; [done|]. destruct r as [text|]; [|apply idle_done].
    destruct (Ht text eq_refl) as (i & Hi & -> & _). destruct (parse_holder _) as [[h st]|] eqn:Hh; [|apply idle_done].
    apply (idle_alive n pid h st); [done| |done]. by apply Hg.
  - cbn -[start_time]. assert (name_kept s s) as Hk by by apply kept_same. split; [done|]. left. split; [done|].
    destruct (Hl _ _ Hh) as [Hrun _]. destruct Hg as [-> _]. rewrite bool_decide_eq_true_2 by done. cbn [negb].
    by apply (idle_compare n pid h st text).
  - cbn -[start_time]. assert (name_kept s s) as Hk by by apply kept_same. split; [done|]. left. split; [done|].
    destruct (Hl _ _ Hh) as [_ Heq]. assert (start_time h s = started_of h) as -> by (unfold start_time, started_of; by destruct Hg as [-> _]).
    assert (match st, started_of h with Some recorded, Some current => (recorded =? current)%Z | _, _ => true end = true) as ->.
    { destruct st as [t|]; [|done]. destruct (started_of h) as [c|] eqn:Hc; [|done]. apply Z.eqb_eq. by apply (Heq t c). }
    apply idle_done.
Qed.

(** A step of the process that holds the name: it keeps it, or is done with it. *)
Lemma owns_step s m : good s -> owns s m ->
  match m with
  | Done _ => True
  | Panicked => False
  | Step f k =>
      good (snd (f s)) /\ (owns (snd (f s)) (k (fst (f s))) \/ idle (k (fst (f s))))
  end.
Proof.
  intros Hg [n pid i Hr Hn Hf|n pid i Hr Hn Hf|n pid i e Hr Hn|n pid i id Hr Hn Hf|i id Hn Hf|i id Hn Hf|i Hn].
  - cbn -[start_time at_write]. split; [done|]. left.
    assert (start_time pid s = started_of pid) as -> by (unfold start_time, started_of; by destruct Hg as [-> _]).
    by apply (owns_write _ n pid i).
  - cbn -[write_file]. destruct (write_file i _ s) as [r s'] eqn:E. cbn [fst snd].
    apply call_inv in E as [(e & fs & -> & ->)|(fs & E)].
    { split; [by apply (good_kept s); [apply kept_same| |]|]. left. by apply (owns_failed _ n pid i). }
    apply pair_equal_spec in E as [<- <-]. split.
    + destruct Hg as [Hp Hl]. split; [done|]. simpl. intros j Hj. rewrite Hn in Hj. injection Hj as <-.
      rewrite lookup_insert_eq. by apply identity_live.
    + left. apply (owns_read_back _ n pid i); [done|done|]. simpl. by rewrite lookup_insert_eq.
  - cbn -[remove_file]. destruct (remove_file s) as [r s'] eqn:E. cbn [fst snd]. split; [|right; apply idle_done].
    apply call_inv in E as [(e' & fs & -> & ->)|(fs & E)]; [by apply (good_kept s); [apply kept_same| |]|].
    simpl in E. rewrite Hn in E. destruct (sys_writable s); apply pair_equal_spec in E as [<- <-].
    + destruct Hg as [Hp _]. by split.
    + apply (good_kept s); [by apply kept_same|done|done].
  - cbn -[read_raw]. destruct (read_raw s) as [r s'] eqn:E. cbn [fst snd].
    apply read_raw_inv in E as (Hn' & Hf' & Hp & _). split; [by apply (good_kept s); [apply kept_same| |]|].
    case_bool_decide; [left|right].
    + apply (owns_critical _ i id); congruence.
    + by apply idle_session.
  - cbn -[release]. split; [done|]. left. by apply (owns_release _ i id).
  - cbn -[read_raw]. destruct (read_raw s) as [r s'] eqn:E. cbn [fst snd].
    apply read_raw_inv in E as (Hn' & Hf' & Hp & _). split; [by apply (good_kept s); [apply kept_same| |]|].
    case_bool_decide; [left|right; apply idle_done]. apply (owns_remove _ i). congruence.
  - cbn -[remove_file]. destruct (remove_file s) as [r s'] eqn:E. cbn [fst snd]. split; [|right; apply idle_done].
    apply call_inv in E as [(e' & fs & -> & ->)|(fs & E)]; [by apply (good_kept s); [apply kept_same| |]|].
    simpl in E. rewrite Hn in E. destruct (sys_writable s); apply pair_equal_spec in E as [<- <-].
    + destruct Hg as [Hp _]. by split.
    + apply (good_kept s); [by apply kept_same|done|done].
Qed.

(** At most one owns the name, at any point of any interleaving. *)
Definition pool_inv (c : list (lock_m unit) * Sys) : Prop :=
  good (snd c) /\ exists owner : option nat, forall j m, fst c !! j = Some m ->
    if decide (Some j = owner) then owns (snd c) m else idle m.

Definition arriving (m : lock_m unit) : Prop := exists n pid, m = session n path pid /\ running pid.

Lemma pool_inv_step c c' : pool_step arriving c c' -> pool_inv c -> pool_inv c'.
Proof.
  intros Hst [Hg (owner & Ho)]. destruct Hst as [j B f k ts s Hj|m ts s (n & pid & -> & Hr)]; cbn [fst snd] in *.
  - pose proof (Ho j _ Hj) as Hm. destruct (decide (Some j = owner)) as [<-|Hne].
    + apply (owns_step s _ Hg) in Hm as [Hg' Hm]. split; [done|]. cbn [snd]. destruct Hm as [Hm|Hm].
      * exists (Some j). intros x y Hx. cbn [fst] in Hx. apply list_lookup_insert_Some in Hx as [(<- & <- & _)|[Hne Hx]].
        -- by rewrite decide_True.
        -- rewrite decide_False by congruence. pose proof (Ho _ _ Hx) as Hy. by rewrite decide_False in Hy by congruence.
      * exists None. intros x y Hx. cbn [fst] in Hx. rewrite decide_False by done.
        apply list_lookup_insert_Some in Hx as [(<- & <- & _)|[Hne Hx]]; [done|].
        pose proof (Ho _ _ Hx) as Hy. by rewrite decide_False in Hy by congruence.
    + apply (idle_step s _ Hg) in Hm as [Hg' [[Hk Hm]|[Hnone Hm]]]; (split; [done|]); cbn [snd fst].
      * exists owner. intros x y Hx. apply list_lookup_insert_Some in Hx as [(<- & <- & _)|[Hxj Hx]].
        -- by rewrite decide_False.
        -- pose proof (Ho _ _ Hx) as Hy. destruct (decide (Some x = owner)); [by eapply owns_kept|done].
      * assert (forall x y, ts !! x = Some y -> idle y) as Hidle.
        { intros x y Hx. pose proof (Ho _ _ Hx) as Hy. destruct (decide (Some x = owner)); [|done]. exfalso.
          destruct Hy; congruence. }
        exists (Some j). intros x y Hx. apply list_lookup_insert_Some in Hx as [(<- & <- & _)|[Hxj Hx]].
        -- by rewrite decide_True.
        -- rewrite decide_False by congruence. by eapply Hidle.
  - split; [done|]. exists (if decide (owner = Some (length ts)) then None else owner). intros x y Hx. cbn [fst snd] in *.
    apply lookup_app_Some in Hx as [Hx|[Hl Hx]].
    + pose proof (Ho _ _ Hx) as Hy. apply lookup_lt_Some in Hx.
      destruct (decide (owner = Some (length ts))) as [E|E]; [|done].
      rewrite decide_False by done. rewrite decide_False in Hy; [done|]. rewrite E. intros [= E']. rewrite E' in Hx. by apply Nat.lt_irrefl in Hx.
    + apply list_lookup_singleton_Some in Hx as [Hx <-]. assert (x = length ts) as -> by (apply Nat.le_antisymm; [by apply Nat.sub_0_le|done]).
      rewrite decide_False; [by apply idle_session|]. by case_decide.
Qed.
End exclusion.

(** The next step tells nothing. *)
Definition one_outcome (m : lock_m unit) : Prop :=
  match m with @Step _ _ _ B _ _ => forall a b : B, a = b | _ => False end.

(** C39: When the file is not there or names a process that runs, any number of running
    processes that acquire, work and release, in any interleaving and under any
    faults of the system's calls, are never two between acquiring and releasing. *)
Theorem lock_is_exclusive path procs s c i j l1 l2 :
  good procs s -> rtc (pool_step (arriving path procs)) ([], s) c ->
  fst c !! i = Some (critical l1) -> fst c !! j = Some (critical l2) -> i = j.
Proof.
  intros Hg Hr Hi Hj. assert (pool_inv path procs c) as [_ (owner & Ho)].
  { revert Hr. apply (rtc_ind_r (fun c => pool_inv path procs c)); [|intros; by eapply pool_inv_step].
    split; [done|]. by exists None. }
  assert (forall l, ~ idle path procs (critical l)) as Hno.
  { intros l H. enough (one_outcome (critical l) -> False) as Hone by (apply Hone; by intros [] []).
    destruct H as [[|n] pid| | | |]; cbn; intros Hq; try done.
    - by specialize (Hq (Ok 0%nat) (Ok 1%nat)).
    - by specialize (Hq None (Some EmptyString)).
    - by specialize (Hq true false).
    - by specialize (Hq None (Some 0%Z)). }
  pose proof (Ho _ _ Hi) as H1. pose proof (Ho _ _ Hj) as H2.
  destruct (decide (Some i = owner)) as [<-|]; [|by apply Hno in H1].
  destruct (decide (Some j = Some i)) as [E|]; [by injection E|by apply Hno in H2].
Qed.

(** Two processes, the first of them between acquiring and releasing. *)
Definition unheld : Sys := mkSys ∅ None true (sys_procs (abandoned true)) [].

Lemma lock_is_exclusive_witness : exists c,
  rtc (pool_step (arriving "store.db.lock" (sys_procs unheld))) ([], unheld) c /\
  content (snd c) = Some "1 200" /\
  (forall i j l1 l2, fst c !! i = Some (critical l1) -> fst c !! j = Some (critical l2) -> i = j).
Proof.
  assert (arriving "store.db.lock" (sys_procs unheld) (session 3 "store.db.lock" 1)) as Ha.
  { exists 3%nat, 1%Z. split; [done|]. split; [vm_compute; split; congruence|by eexists]. }
  assert (rtc (pool_step (arriving "store.db.lock" (sys_procs unheld))) ([], unheld)
    (run_schedule (repeat 0%nat 4) ([session 3 "store.db.lock" 1], unheld))) as Hr.
  { eapply rtc_l; [apply (pool_step_new _ _ [] unheld Ha)|]. apply run_schedule_pool. }
  eexists. split; [exact Hr|]. split; [vm_compute; reflexivity|].
  intros i j l1 l2. apply (lock_is_exclusive "store.db.lock" (sys_procs unheld) unheld _ i j l1 l2
    ltac:(split; [reflexivity|done]) Hr).
Defined.
