(* ===== verification/State.v ===== *)
(** * The server's shared state ([ciphr-server/src/state.rs], [error.rs])

    What every handler calls: authenticating, authorizing, recording.  The state
    behind the locks is [App]; what never changes after startup is [Inner].  Each
    lock that is taken is one atomic step of a [prog], so everything between two
    of them is open to other requests.  A poisoned lock is a panic elsewhere, which
    the model excludes by proving that no handler panics. *)

From Stdlib Require Import ZArith NArith Lia Ascii String.
From stdpp Require Import base tactics list strings gmap.
From S2P Require Import Prelude Text Path Vocabulary PolicyModel Evaluate Crypto Token Chain Sink Db Store.
From S2P Require Import Tokens Honeypots StoreAudit Surface Oidc Config Prog.

(** ** Errors *)

Inductive ApiError : Type :=
| Unauthenticated
| Forbidden
| ApiNotFound
| BadRequest (reason : string)
| AuditUnavailable
| Internal (detail : string).

Definition api_status (e : ApiError) : Z :=
  match e with
  | Unauthenticated => 401
  | Forbidden => 403
  | ApiNotFound => 404
  | BadRequest _ => 400
  | AuditUnavailable => 503
  | Internal _ => 500
  end.

Definition api_code (e : ApiError) : string :=
  match e with
  | Unauthenticated => "unauthenticated"
  | Forbidden => "forbidden"
  | ApiNotFound => "not_found"
  | BadRequest _ => "bad_request"
  | AuditUnavailable => "audit_unavailable"
  | Internal _ => "internal"
  end.

Definition api_message (e : ApiError) : string :=
  match e with
  | Unauthenticated => "a valid bearer token is required"
  | Forbidden => "this identity may not perform this action"
  | ApiNotFound => "no such secret or version"
  | BadRequest _ => "the request could not be understood"
  | AuditUnavailable => "the audit trail is unavailable, so the request was refused"
  | Internal _ => "the request could not be completed"
  end.

Definition log_detail (e : ApiError) : option string :=
  match e with Internal detail => Some detail | _ => None end.

(** The body and the header of the answer. *)
Record ErrorBody : Type := mkErrorBody { eb_error : string; eb_message : string; eb_detail : option string }.
Definition error_response (e : ApiError) : Z * ErrorBody * option string :=
  (api_status e,
   mkErrorBody (api_code e) (api_message e) (match e with BadRequest reason => Some reason | _ => None end),
   match e with Unauthenticated => Some "Bearer" | _ => None end).

Definition api_of_store (e : StoreError) : ApiError :=
  match e with
  | NotFound _ | VersionNotFound _ _ | VersionDeleted _ _ | VersionDestroyed _ _ => ApiNotFound
  | Reserved _ => BadRequest (store_error_display e)
  | other => Internal (store_error_display other)
  end.

Definition api_of_crypto (e : CryptoError) : ApiError := Internal (crypto_error_display e).

(** ** Data *)

Record DeviceHealth : Type := mkDeviceHealth {
  dh_name : string;
  dh_source : string;
  dh_accepting : option bool;
  dh_quarantined_from : option Z;
}.

(** How often each kind was seen so far, updated in place. *)
Fixpoint count_kind (kind : string) (seen : list (string * Z)) : Z * list (string * Z) :=
  match seen with
  | [] => (1%Z, [(kind, 1%Z)])
  | (known, count) :: seen =>
      if String.eqb known kind then ((count + 1)%Z, (known, (count + 1)%Z) :: seen)
      else let '(n, seen) := count_kind kind seen in (n, (known, count) :: seen)
  end.

Definition device_kind (name : string) : string :=
  match split_once ":" name with
  | Some (kind, _) => if negb (is_empty kind) then kind else "device"
  | None => "device"
  end.

Fixpoint device_labels_from (seen : list (string * Z)) (names : list string) : list string :=
  match names with
  | [] => []
  | name :: names =>
      let kind := device_kind name in
      let '(count, seen) := count_kind kind seen in
      (kind ++ "-" ++ dec count)%string :: device_labels_from seen names
  end.
Definition device_labels (names : list string) : list string := device_labels_from [] names.

Record BaitFound : Type := mkBait { bait_token_id : string; bait_identity : string }.
Record Rejection : Type := mkRejection { rej_error : ApiError; rej_bait : option BaitFound }.
Definition rejection_plain (e : ApiError) : Rejection := mkRejection e None.

Record Caller : Type := mkCaller {
  caller_identity : string;
  caller_token_id : string;
  caller_kind : option string;
}.
Definition as_principal (c : Caller) : Principal :=
  mkPrincipal (caller_identity c) (caller_kind c) (Some (caller_token_id c)).

Inductive Federated : Type :=
| Minted (identity token_id : string)
| FederationRefused (reason : string).

Definition reserved_tokens_path : SecretPath := mkSecretPath "sys/tokens".

(** A latch that was claimed and waits for a thread. *)
Record LatchJob : Type := mkLatchJob {
  lj_kind : BaitKind;
  lj_reference : string;
  lj_identity : option string;
  lj_tier : HoneypotTier;
}.

(** What is behind locks, and the world the server reads: the clock's readings to
    come and the randomness left. *)
Record App {D : Type} {En : Entropy} : Type := mkApp {
  app_store : Store;
  app_audit : AuditSink D;
  app_devices : list DeviceHealth;
  app_claims : gset (string * string);
  app_jobs : list LatchJob;
  app_clock : list Z;
  app_rng : rng;
}.
Arguments App D {En}.

Record Inner : Type := mkInner {
  in_policies : PolicySet;
  in_root : RootKey;
  in_pepper : TokenPepper;
  in_seal_id : string;
  in_key_source : string;
  in_surface : Active;
  in_federation : Federation;
}.

Section state.
Context {H : Sha256} {J : Json} {M : Mac} {En : Entropy} {F : Features}.
Context {D : Type} `{!AuditDevice D}.

Definition app_m (A : Type) : Type := prog (App D) ApiError A.

Definition set_store (st : Store) (a : App D) : App D :=
  mkApp _ _ st (app_audit a) (app_devices a) (app_claims a) (app_jobs a) (app_clock a) (app_rng a).
Definition set_audit (sk : AuditSink D) (a : App D) : App D :=
  mkApp _ _ (app_store a) sk (app_devices a) (app_claims a) (app_jobs a) (app_clock a) (app_rng a).
Definition set_devices (l : list DeviceHealth) (a : App D) : App D :=
  mkApp _ _ (app_store a) (app_audit a) l (app_claims a) (app_jobs a) (app_clock a) (app_rng a).
Definition set_claims (c : gset (string * string)) (a : App D) : App D :=
  mkApp _ _ (app_store a) (app_audit a) (app_devices a) c (app_jobs a) (app_clock a) (app_rng a).
Definition set_jobs (l : list LatchJob) (a : App D) : App D :=
  mkApp _ _ (app_store a) (app_audit a) (app_devices a) (app_claims a) l (app_clock a) (app_rng a).
Definition set_clock (l : list Z) (a : App D) : App D :=
  mkApp _ _ (app_store a) (app_audit a) (app_devices a) (app_claims a) (app_jobs a) l (app_rng a).
Definition set_rng (r : rng) (a : App D) : App D :=
  mkApp _ _ (app_store a) (app_audit a) (app_devices a) (app_claims a) (app_jobs a) (app_clock a) r.

(** [now_millis()]: the next reading, 0 past the last. *)
Definition read_clock (a : App D) : Z * App D :=
  (default 0%Z (head (app_clock a)), set_clock (tail (app_clock a)) a).
Definition now_millis : app_m Z := pstep read_clock.

(** The store under its lock; the second form reads the clock while it holds it. *)
Definition with_store {A} (work : stm Store ApiError A) : app_m A :=
  patomic (fun a => let '(r, st) := work (app_store a) in (r, set_store st a)).
Definition with_store_now {A} (work : Z -> stm Store ApiError A) : app_m A :=
  patomic (fun a =>
    let '(now, a) := read_clock a in
    let '(r, st) := work now (app_store a) in (r, set_store st a)).

(** ** Startup *)

Definition initial_devices (sk : AuditSink D) : list DeviceHealth :=
  let sources := device_names sk in
  let stopped := sink_quarantined sk in
  map (fun '(name, source) =>
    mkDeviceHealth name source None
      (q_missed_from <$> List.find (fun one => String.eqb (q_device one) source) stopped))
    (combine (device_labels sources) sources).

Definition AppState_new (store : Store) (audit : AuditSink D) (policies : PolicySet) (root : RootKey)
    (seal_id key_source : string) (composition : Composition) (clock : list Z) (r : rng) : Inner * App D :=
  (mkInner policies root (TokenPepper_derive root) seal_id key_source
     (comp_surface composition) (comp_federation composition),
   mkApp _ _ store audit (initial_devices audit) ∅ [] clock r).

Context (state : Inner).

(** ** Recording *)

Definition note_one (failures : list DeviceFailure) (quarantined : list Quarantined) (d : DeviceHealth)
    : DeviceHealth :=
  let from := match List.find (fun stopped => String.eqb (q_device stopped) (dh_source d)) quarantined with
              | Some stopped => Some (q_missed_from stopped)
              | None => dh_quarantined_from d
              end in
  let accepting := match from with
                   | Some _ => false
                   | None => negb (existsb (fun f => String.eqb (df_device f) (dh_source d)) failures)
                   end in
  mkDeviceHealth (dh_name d) (dh_source d) (Some accepting) from.

Definition note_device_outcome (failures : list DeviceFailure) (quarantined : list Quarantined) : app_m unit :=
  pstep (fun a => (tt, set_devices (map (note_one failures quarantined) (app_devices a)) a)).

(** [sink.record(entry, now_millis())] *)
Definition sink_call (e : Entry) (a : App D) : result AuditError Written * App D :=
  let '(now, a) := read_clock a in
  let '(r, sk) := sink_record e now (app_audit a) in
  (r, set_audit sk a).

Definition gap_entry (quarantined : list Quarantined) (failure : DeviceFailure) : Entry :=
  let stopped := existsb (fun one => String.eqb (q_device one) (df_device failure)) quarantined in
  entry_denied ActAuditDeviceFailed
    ((if stopped then "device-quarantined: " else "device-refused: ") ++ df_device failure).

Fixpoint record_gaps (quarantined : list Quarantined) (failures : list DeviceFailure) (a : App D) : App D :=
  match failures with
  | [] => a
  | failure :: failures =>
      record_gaps quarantined failures (snd (sink_call (gap_entry quarantined failure) a))
  end.

(** The sink's lock is held for all of them. *)
Definition explain_the_gap (failures : list DeviceFailure) (quarantined : list Quarantined) : app_m unit :=
  match failures with
  | [] => pret tt
  | _ => pstep (fun a => (tt, record_gaps quarantined failures a))
  end.

Definition record (e : Entry) : app_m unit :=
  let* outcome := pstep (sink_call e) in
  match outcome with
  | Ok written =>
      let* _ := note_device_outcome (w_failures written) (w_quarantined written) in
      explain_the_gap (w_failures written) (w_quarantined written)
  | Err (AllDevicesFailed failures) =>
      let* _ := note_device_outcome failures [] in
      pfail AuditUnavailable
  | Err _ => pfail AuditUnavailable
  end.

(** [RequestContext { http_status: Some(status), ..request.clone() }] *)
Definition with_status (status : Z) (r : RequestContext) : RequestContext :=
  mkRequestContext (rc_request_id r) (rc_client_ip r) (rc_user_agent r) (Some status) (rc_channel r).

Definition identity_kind_of (identity : string) : option string :=
  (fun i => identity_kind_str (identity_kind i)) <$> ps_identity (in_policies state) identity.

(** ** Latching *)

Definition claim (kind : BaitKind) (reference : string) : app_m bool :=
  pstep (fun a =>
    let key := (bait_kind_str kind, reference) in
    (negb (bool_decide (key ∈ app_claims a)), set_claims ({[key]} ∪ app_claims a) a)).

Definition release (kind : BaitKind) (reference : string) : app_m unit :=
  pstep (fun a => (tt, set_claims (app_claims a ∖ {[(bait_kind_str kind, reference)]}) a)).

(** [handle.spawn_blocking(work)]: the work waits for a thread. *)
Definition spawn_blocking (job : LatchJob) : app_m unit :=
  pstep (fun a => (tt, set_jobs (app_jobs a ++ [job]) a)).

Definition latch_off_the_request_path (kind : BaitKind) (reference : string) (identity : option string)
    (tier : HoneypotTier) : app_m unit :=
  let* claimed := claim kind reference in
  if (claimed : bool) then spawn_blocking (mkLatchJob kind reference identity tier) else pret tt.

(** The closure [work]. *)
Definition latch_work (job : LatchJob) : app_m unit :=
  let* latched := ptry (with_store_now (fun now =>
    mmap_err api_of_store (latch_trip (lj_kind job) (lj_reference job) (lj_identity job) (lj_tier job) now))) in
  match latched with
  | Ok _ => pret tt
  | Err _ =>
      let* _ := release (lj_kind job) (lj_reference job) in
      let* _ := ptry (record (with_detail "the trip was recorded and the latch was not"
                                (entry_denied ActHoneypotTriggered "latch-failed"))) in
      pret tt
  end.

(** ** Authenticating *)

(** [Err] is a rejection; a panic of the token's parser is [Panicked]. *)
Definition state_authenticate (bearer : option string) : app_m (result Rejection Caller) :=
  match bearer with
  | None => pret (Err (rejection_plain Unauthenticated))
  | Some presented =>
      match Token_parse presented with
      | None => Panicked
      | Some _ =>
          let* outcome := ptry (with_store_now (fun now =>
            mmap_err api_of_store
              (match authenticate presented (in_pepper state) now with
               | Some work => work
               | None => mret Invalid
               end))) in
          match outcome with
          | Err e => pret (Err (rejection_plain e))
          | Ok (Valid a) =>
              pret (Ok (mkCaller (auth_identity a) (auth_token_id a) (identity_kind_of (auth_identity a))))
          | Ok Invalid => pret (Err (rejection_plain Unauthenticated))
          | Ok (Bait token_id identity) =>
              pret (Err (mkRejection Unauthenticated (Some (mkBait token_id identity))))
          end
      end
  end.

(** ** Authorizing *)

Definition authorize (c : Caller) (capability : Capability) (path : SecretPath) : Decision :=
  evaluate (in_policies state) (caller_identity c) path capability.

(** The entry of a decision. *)
Definition decision_entry (c : Caller) (action : Action) (path : SecretPath) (subject : option Principal)
    (request : RequestContext) (decision : Decision) (bait : option HoneypotTier) : Entry :=
  let allowed := Evaluate.is_allowed decision in
  let entry :=
    if allowed then
      match bait with
      | Some _ => with_detail ("attempted: " ++ action_str action) (entry_allowed ActHoneypotTriggered)
      | None => entry_allowed action
      end
    else entry_denied action
           (match reason decision with Some r => deny_reason_str r | None => "denied" end) in
  let entry := with_path path (with_principal (as_principal c) entry) in
  let entry := match subject with Some s => with_subject s entry | None => entry end in
  let entry := match decided_by decision with
               | Some r => with_rule (mr_policy r) (mr_pattern r) entry
               | None => entry
               end in
  with_request (with_status (if allowed then 200 else 403) request) entry.

Definition authorize_and_record_subject (c : Caller) (action : Action) (capability : Capability)
    (path : SecretPath) (subject : option Principal) (request : RequestContext) : app_m unit :=
  let decision := authorize c capability path in
  let allowed := Evaluate.is_allowed decision in
  let* bait :=
    if honeypot_alert && allowed && bool_decide (capability = CapRead)
    then with_store (mmap_err api_of_store (honeypot_tier path))
    else pret None in
  let* _ := record (decision_entry c action path subject request decision bait) in
  let* _ := match bait with
            | Some tier =>
                latch_off_the_request_path BaitSecret (path_str path) (Some (caller_identity c)) tier
            | None => pret tt
            end in
  if allowed then pret tt else pfail Forbidden.

Definition authorize_and_record (c : Caller) (action : Action) (capability : Capability)
    (path : SecretPath) (request : RequestContext) : app_m unit :=
  authorize_and_record_subject c action capability path None request.

(** ** Outcomes *)

Definition outcome_entry (c : Caller) (action : Action) (path : option SecretPath)
    (request : RequestContext) (status : Z) (reason : option string) : Entry :=
  let entry := match reason with None => entry_allowed action | Some reason => entry_denied action reason end in
  let entry := with_principal (as_principal c) entry in
  let entry := match path with Some path => with_path path entry | None => entry end in
  with_request (with_status status request) entry.

Definition record_outcome (c : Caller) (action : Action) (path : option SecretPath)
    (request : RequestContext) (status : Z) (reason : option string) : app_m unit :=
  record (outcome_entry c action path request status reason).

Definition record_refusal (c : Caller) (attempted : Action) (request : RequestContext) (status : Z)
    (reason : string) : app_m unit :=
  record (with_request (with_status status request)
    (with_detail ("attempted: " ++ action_str attempted)
      (with_principal (as_principal c) (entry_denied ActRequestRefused reason)))).

Definition complete_or_record {A} (c : Caller) (action : Action) (path : SecretPath)
    (request : RequestContext) (reason : string) (work : app_m A) : app_m A :=
  let* outcome := ptry work in
  match outcome with
  | Ok value => pret value
  | Err error =>
      let* _ := record_outcome c action (Some path) request (api_status error) (Some reason) in
      pfail error
  end.

Definition listing_entry (c : Caller) (prefix : SecretPath) (request : RequestContext) (returned : Z) : Entry :=
  with_request (with_status 200 request)
    (with_results returned (with_path prefix (with_principal (as_principal c) (entry_allowed ActList)))).

Definition record_listing (c : Caller) (prefix : SecretPath) (request : RequestContext) (returned : Z)
    : app_m unit := record (listing_entry c prefix request returned).

Definition quarantined : app_m (list Quarantined) := pstep (fun a => (sink_quarantined (app_audit a), a)).

Definition record_quarantined : app_m unit :=
  let* stopped := quarantined in
  pfor stopped (fun one => record
    (with_detail ("missed from seq " ++ dec (q_missed_from one))
      (entry_denied ActAuditDeviceFailed ("device-behind-at-start: " ++ q_device one)))).

Definition record_surface : app_m unit :=
  record (with_detail (surface_summary (in_surface state)) (entry_allowed ActSurfaceActive)).

Definition federation_entry (provider : string) (subject : option string) (outcome : Federated)
    (status : Z) (request : RequestContext) : Entry :=
  let entry :=
    match outcome with
    | Minted identity token_id =>
        with_subject (mkPrincipal identity (identity_kind_of identity) (Some token_id))
          (entry_allowed ActFederateToken)
    | FederationRefused reason => entry_denied ActFederateToken reason
    end in
  let entry := with_path reserved_tokens_path
                 (with_principal (mkPrincipal ("oidc:" ++ provider) (Some "oidc") None) entry) in
  let entry := match subject with Some s => with_detail ("sub: " ++ s) entry | None => entry end in
  with_request (with_status status request) entry.

Definition record_federation (provider : string) (subject : option string) (outcome : Federated)
    (status : Z) (request : RequestContext) : app_m unit :=
  record (federation_entry provider subject outcome status request).

Definition record_unauthenticated (action : Action) (request : RequestContext) : app_m unit :=
  record (with_request (with_status 401 request) (entry_denied action "unauthenticated")).

Definition record_rejection (action : Action) (request : RequestContext) (bait : option BaitFound) : app_m unit :=
  match (if (honeypot_alert : bool) then bait else None) with
  | Some bait =>
      let* _ := record
        (with_request (with_status 401 request)
          (with_detail ("attempted: " ++ action_str action)
            (with_subject (mkPrincipal (bait_identity bait) None (Some (bait_token_id bait)))
              (entry_denied ActHoneypotTriggered "unauthenticated")))) in
      latch_off_the_request_path BaitToken (bait_token_id bait) None TierAlert
  | None => record_unauthenticated action request
  end.

(** ** What the other routes ask *)

(** [open_trip_count().ok()?] *)
Definition tripwire_state : app_m (option (bool * Z)) :=
  let* open := ptry (with_store (mmap_err api_of_store open_trip_count)) in
  match open with
  | Ok open => pret (Some ((0 <? open)%Z, open))
  | Err _ => pret None
  end.

Definition audit_devices : app_m (list DeviceHealth) := pstep (fun a => (app_devices a, a)).

Definition label_for (source : string) : app_m (option string) :=
  pstep (fun a => (option_map dh_name (List.find (fun d => String.eqb (dh_source d) source) (app_devices a)), a)).

Definition store_federated_token (identity : string) (t : Token) (provider : string) (expires_at : Z)
    : app_m unit :=
  with_store_now (fun now => mmap_err api_of_store
    (issue_token identity t (in_pepper state) ("oidc:" ++ provider) (Some expires_at) Credential_ now)).
End state.
