(* ===== verification/Trail.v ===== *)
(** * What requests do to the trail

    The relation [trail_grows] is both what a handler relies on and what it
    guarantees: the devices stay, and what each one holds is only added to.  The
    lemmas give the weakest preconditions of the calls of [State] under it. *)

From Stdlib Require Import ZArith NArith Lia Ascii String.
From stdpp Require Import base tactics list strings gmap.
From S2P Require Import Prelude Text Path Vocabulary PolicyModel Evaluate Crypto Token Chain Sink Db Store.
From S2P Require Import Tokens Honeypots StoreAudit Surface Oidc Config Prog State.

Section trail.
Context {H : Sha256} {J : Json} {M : Mac} {En : Entropy} {F : Features}.
Context {D : Type} `{!AuditDevice D} {L : AuditDeviceLaws D}.

Definition log_grows (s s' : Slot D) : Prop :=
  slot_name s' = slot_name s /\ dev_log (slot_device s) `prefix_of` dev_log (slot_device s').

Definition sink_grows (sk sk' : AuditSink D) : Prop := Forall2 log_grows (slots sk) (slots sk').

Definition trail_grows (a a' : App D) : Prop := sink_grows (app_audit a) (app_audit a').

(** Two devices never share a name. *)
Definition app_wf (a : App D) : Prop := NoDup (device_names (app_audit a)).

(** Some device holds the record of this entry. *)
Definition trail_holds (e : Entry) (a : App D) : Prop :=
  exists s r c now, s ∈ slots (app_audit a) /\ chain_encode c e now = Ok r /\ r ∈ dev_log (slot_device s).

#[export] Instance log_grows_preorder : PreOrder log_grows.
Proof.
  split; [by intros s|]. intros a b c [N1 P1] [N2 P2]. split; [by rewrite N2|by etrans].
Qed.

#[export] Instance trail_grows_preorder : PreOrder trail_grows.
Proof.
  split; unfold trail_grows, sink_grows.
  - intros a. apply Forall2_same_length_lookup. split; [done|]. intros i x y Hx Hy.
    rewrite Hx in Hy. injection Hy as ->. reflexivity.
  - intros a b c H1. generalize (slots (app_audit c)). induction H1 as [|x y l k Hxy _ IH]; intros m H2;
      inversion H2; subst; constructor; [by etrans|by apply IH].
Qed.

Lemma grows_names a a' : trail_grows a a' -> device_names (app_audit a') = device_names (app_audit a).
Proof.
  unfold trail_grows, sink_grows, device_names. intros HF.
  induction HF as [|s s' l l' [Hn _] _ IH]; simpl; [done|]. f_equal; [exact Hn|done].
Qed.

Lemma grows_wf a a' : trail_grows a a' -> app_wf a -> app_wf a'.
Proof. intros Hg. unfold app_wf. by rewrite (grows_names _ _ Hg). Qed.

Lemma grows_holds e a a' : trail_grows a a' -> trail_holds e a -> trail_holds e a'.
Proof.
  intros Hg (s & r & c & now & Hs & He & Hr). apply list_elem_of_lookup in Hs as [i Hi].
  destruct (Forall2_lookup_l _ _ _ _ _ Hg Hi) as (s' & Hi' & [_ [more Hp]]).
  exists s', r, c, now. split_and!; [by eapply list_elem_of_lookup_2|done|].
  rewrite Hp. apply elem_of_app. by left.
Qed.

(** What does not touch the sink. *)
Lemma grows_same a a' : app_audit a' = app_audit a -> trail_grows a a'.
Proof. intros E. unfold trail_grows. rewrite E. apply (reflexivity (R := trail_grows) a). Qed.

Lemma same_grows a a' b : app_audit a' = app_audit a -> trail_grows a' b -> trail_grows a b.
Proof. intros E. unfold trail_grows. by rewrite E. Qed.

Lemma follows_grows c s s' : slot_follows c s s' -> log_grows s s'.
Proof.
  intros [Hn Hm]. split; [exact Hn|]. destruct (slot_quarantined s) as [q|].
  - destruct Hm as [_ ->]. reflexivity.
  - destruct (slot_quarantined s') as [q'|]; [destruct Hm as (b & r & x & _ & _ & _ & ->)|rewrite Hm];
      by eexists.
Qed.

Lemma sink_record_grows e now sk res sk' :
  NoDup (device_names sk) -> sink_record e now sk = (res, sk') -> sink_grows sk sk'.
Proof.
  intros Hnd Hr. pose proof (sink_record_step _ _ _ _ _ Hnd Hr) as Hs. destruct res as [w|err].
  - destruct Hs as (r & _ & _ & _ & _ & HF). eapply Forall2_impl; [exact HF|]. apply follows_grows.
  - destruct Hs as [_ HF]. eapply Forall2_impl; [exact HF|]. apply follows_grows.
Qed.

Lemma sink_call_spec e (a : App D) : app_wf a ->
  trail_grows a (snd (sink_call e a)) /\
  forall w, fst (sink_call e a) = Ok w -> trail_holds e (snd (sink_call e a)).
Proof.
  intros Hwf. unfold sink_call. destruct (read_clock a) as [now a1] eqn:Hc.
  assert (app_audit a1 = app_audit a) as Ea by (unfold read_clock in Hc; by injection Hc as _ <-).
  destruct (sink_record e now (app_audit a1)) as [res sk] eqn:Hr. simpl.
  assert (NoDup (device_names (app_audit a1))) as Hnd by by rewrite Ea.
  split.
  - unfold trail_grows. simpl. rewrite <- Ea. by eapply sink_record_grows.
  - intros w ->. destruct (sink_record_durable _ _ _ _ _ Hnd Hr) as (r & s & s' & He & _ & _ & _ & Hin & _ & _ & Hl).
    exists s', r, (sink_chain (app_audit a1)), now. simpl. split_and!; [done|done|].
    rewrite Hl. apply elem_of_app. right. left.
Qed.

Lemma record_gaps_grows quarantined failures (a : App D) : app_wf a ->
  trail_grows a (record_gaps quarantined failures a).
Proof.
  revert a. induction failures as [|f failures IH]; intros a Hwf; simpl; [reflexivity|].
  destruct (sink_call_spec (gap_entry quarantined f) a Hwf) as [Hg _].
  etrans; [exact Hg|]. apply IH. by eapply grows_wf.
Qed.

(** ** What a request may change without a decision

    Secrets, their versions and tokens, but for the time a token was last used. *)

Definition protected_rows (d : Db) : list SecretRow * list VersionRow * list TokenRow :=
  (db_secrets d, db_versions d, map (set_last_used 0) (db_tokens d)).
Definition protected (a : App D) := protected_rows (st_db (app_store a)).

(** A store computation that leaves them as they are. *)
Definition keeps_protected {E A} (work : stm Store E A) : Prop :=
  respects (fun s s' : Store => protected_rows (st_db s') = protected_rows (st_db s)) work.

#[export] Instance protected_preorder :
  PreOrder (fun s s' : Store => protected_rows (st_db s') = protected_rows (st_db s)).
Proof. split; [by intros s|]. intros a b c E1 E2. by rewrite E2. Qed.

Lemma keeps_reads {A} (m : store_m A) : reads_only m -> keeps_protected (mmap_err api_of_store m).
Proof.
  intros Hm. apply respects_map_err. intros s r s' Hr. apply Hm in Hr. simpl in Hr. by rewrite Hr.
Qed.

(** ** Preconditions of the calls

    The guarantee is any relation that allows the steps that add to the trail and
    change nothing protected. *)

Section awp.
Context (guar : App D -> App D -> Prop).
Context (quiet : forall a a', trail_grows a a' -> protected a' = protected a -> guar a a').
Context (visits : App D -> Prop).

Abbreviation awp m Q s := (wp (within visits trail_grows) guar m Q s).

(** What holds after a call, for a later assertion: well-formed and grown. *)
Lemma awp_step {A} (f : App D -> A * App D) (Q : result ApiError A -> App D -> Prop) s :
  app_wf s -> (forall a, app_audit (snd (f a)) = app_audit a) ->
  (forall a, app_wf a -> trail_grows s a -> guar a (snd (f a))) ->
  (forall s1 s', app_wf s' -> visits s1 -> trail_grows s s1 -> trail_grows s1 s' -> Q (Ok (fst (f s1))) s') ->
  awp (pstep f) Q s.
Proof.
  intros Hwf Hf Hg HQ s1 [Hs Hv]. assert (app_wf s1) by by eapply grows_wf. split; [by apply Hg|].
  intros s2 [H2 _]. assert (trail_grows s1 s2) as Hgr by by (eapply same_grows; [apply Hf|]).
  apply HQ; [by eapply grows_wf|done|done|done].
Qed.

Lemma awp_read {A} (f : App D -> A * App D) (Q : result ApiError A -> App D -> Prop) s :
  app_wf s -> (forall a, app_audit (snd (f a)) = app_audit a /\ app_store (snd (f a)) = app_store a) ->
  (forall a s', app_wf s' -> trail_grows s s' -> Q (Ok a) s') ->
  awp (pstep f) Q s.
Proof.
  intros Hwf Hf HQ. apply awp_step; [done|by intros a; apply Hf| |].
  - intros a _ _. destruct (Hf a) as [Ha Hst]. apply quiet; [by apply grows_same|].
    unfold protected. by rewrite Hst.
  - intros s1 s' Hw _ H1 H2. apply HQ; [done|by etrans].
Qed.

(** A store call that may change anything protected, under a licence. *)
Lemma awp_atomic {A} (f : App D -> result ApiError A * App D) (Q : result ApiError A -> App D -> Prop) s :
  app_wf s -> (forall a, app_audit (snd (f a)) = app_audit a) ->
  (forall a, app_wf a -> trail_grows s a -> guar a (snd (f a))) ->
  (forall s1 s', app_wf s' -> visits s1 -> trail_grows s s1 -> trail_grows s1 s' -> Q (fst (f s1)) s') ->
  awp (patomic f) Q s.
Proof.
  intros Hwf Hf Hg HQ s1 [Hs Hv]. assert (app_wf s1) by by eapply grows_wf. split; [by apply Hg|].
  intros s2 [H2 _]. assert (trail_grows s1 s2) as Hgr by by (eapply same_grows; [apply Hf|]).
  apply HQ; [by eapply grows_wf|done|done|done].
Qed.

Lemma with_store_guar {A} (work : stm Store ApiError A) (a : App D) :
  keeps_protected work ->
  guar a (snd (let '(r, st) := work (app_store a) in (r, set_store st a))).
Proof.
  intros Hk. destruct (work (app_store a)) as [r st] eqn:Hw. simpl. apply quiet; [by apply grows_same|].
  unfold protected. simpl. by eapply Hk.
Qed.

Lemma awp_with_store {A} (work : stm Store ApiError A) (Q : result ApiError A -> App D -> Prop) s :
  app_wf s -> keeps_protected work ->
  (forall s1 s', app_wf s' -> visits s1 -> trail_grows s s1 -> trail_grows s1 s' -> Q (fst (work (app_store s1))) s') ->
  awp (with_store work) Q s.
Proof.
  intros Hwf Hk HQ. apply awp_atomic; [done| | |].
  - intros a. by destruct (work (app_store a)).
  - intros a _ _. by apply with_store_guar.
  - intros s1 s' Hw Hv H1 H2. specialize (HQ s1 s' Hw Hv H1 H2). by destruct (work (app_store s1)).
Qed.

Lemma awp_with_store_now {A} (work : Z -> stm Store ApiError A) (Q : result ApiError A -> App D -> Prop) s :
  app_wf s ->
  (forall a, app_wf a -> trail_grows s a -> (forall now, keeps_protected (work now)) \/
    forall st, guar a (set_store st (set_clock (tail (app_clock a)) a))) ->
  (forall now s1 s', app_wf s' -> visits s1 -> trail_grows s s1 -> trail_grows s1 s' -> Q (fst (work now (app_store s1))) s') ->
  awp (with_store_now work) Q s.
Proof.
  intros Hwf Hk HQ. apply awp_atomic; [done| | |].
  - intros a. simpl. by destruct (work _ (app_store a)).
  - intros a Ha Hg. simpl. destruct (work _ (app_store a)) as [r st] eqn:Hw. simpl.
    destruct (Hk a Ha Hg) as [Hkeep|Hl]; [|apply Hl]. apply quiet; [by apply grows_same|].
    unfold protected. simpl. by eapply Hkeep.
  - intros s1 s' Hw Hv H1 H2. specialize (HQ (default 0%Z (head (app_clock s1))) s1 s' Hw Hv H1 H2).
    simpl. by destruct (work _ (app_store s1)).
Qed.

Lemma sink_call_protected e (a : App D) : protected (snd (sink_call e a)) = protected a.
Proof. unfold sink_call. simpl. by destruct (sink_record _ _ _). Qed.

Lemma record_gaps_protected quarantined failures (a : App D) :
  protected (record_gaps quarantined failures a) = protected a.
Proof.
  revert a. induction failures as [|f failures IH]; intros a; simpl; [done|].
  rewrite IH. apply sink_call_protected.
Qed.

(** [record]: when it succeeds, the trail holds the entry. *)
Lemma awp_record e (Q : result ApiError unit -> App D -> Prop) s :
  app_wf s ->
  (forall s', app_wf s' -> trail_grows s s' -> trail_holds e s' -> Q (Ok tt) s') ->
  (forall s', app_wf s' -> trail_grows s s' -> Q (Err AuditUnavailable) s') ->
  awp (record e) Q s.
Proof.
  intros Hwf HOk HErr s1 [Hs _]. assert (app_wf s1) as Hwf1 by by eapply grows_wf.
  destruct (sink_call_spec e s1 Hwf1) as [Hg Hh]. pose proof (sink_call_protected e s1) as Hp.
  split; [by apply quiet|].
  destruct (sink_call e s1) as [res s2] eqn:Hcall. cbn [fst snd] in *.
  assert (trail_grows s s2) as Hs2 by by etrans. assert (app_wf s2) as Hwf2 by by eapply grows_wf.
  assert (forall failures stopped (k : unit -> prog (App D) ApiError unit),
    (forall s', app_wf s' -> trail_grows s2 s' -> awp (k tt) Q s') ->
    awp (pbind (note_device_outcome failures stopped) k) Q s2) as Hnote.
  { intros failures stopped k Hk. apply wp_bind; [typeclasses eauto|]. apply awp_read; [done|done|].
    intros [] s' Hw Hg'. by apply Hk. }
  assert (forall s', app_wf s' -> trail_grows s2 s' -> awp (pfail AuditUnavailable) Q s') as Hfail.
  { intros s3 _ Hs3 s4 [Hs4 _]. apply HErr; [by eapply grows_wf; [|eapply grows_wf]|].
    etrans; [exact Hs2|]. by etrans. }
  destruct res as [w|[|failures|]]; cbv beta iota.
  - apply (Hnote _ _ (fun _ => explain_the_gap (w_failures w) (w_quarantined w))). intros s3 Hwf3 Hs3.
    assert (trail_holds e s3) as He by (eapply grows_holds; eauto).
    assert (trail_grows s s3) as Hs3' by by etrans.
    unfold explain_the_gap. destruct (w_failures w) as [|f fs] eqn:Hf; simpl.
    + intros s4 [Hs4 _]. apply HOk; [by eapply grows_wf|by etrans|by eapply grows_holds].
    + intros s4 [Hs4 _]. assert (app_wf s4) as Hwf4 by by eapply grows_wf.
      pose proof (record_gaps_grows (w_quarantined w) (f :: fs) s4 Hwf4) as Hgap.
      split; [apply quiet; [exact Hgap|exact (record_gaps_protected (w_quarantined w) (f :: fs) s4)]|].
      intros s5 [Hs5 _]. assert (trail_grows s3 s5) as H35 by (etrans; [exact Hs4|]; etrans; [exact Hgap|exact Hs5]).
      apply HOk; [by eapply grows_wf|by etrans|by eapply grows_holds].
  - by apply Hfail.
  - by apply (Hnote _ _ (fun _ => pfail AuditUnavailable)).
  - by apply Hfail.
Qed.
End awp.
End trail.
