(* ===== verification/Startup.v ===== *)
(** * Starting the service ([ciphr-server]: server.rs, tls.rs, main.rs)

    From the command line to the moment the listener binds: the files, the lock, the
    database, the seal, the devices, the chain they continue, and the records that
    are written before anything is served.  What the process asks of its host is a
    [Boot]; what it changes there is a [Machine]. *)

From Stdlib Require Import ZArith NArith Lia Ascii String.
From stdpp Require Import base tactics list strings gmap.
From S2P Require Import Prelude Text Hex Path Pattern Vocabulary PolicyModel Evaluate Crypto Token Time Chain Sink.
From S2P Require Import FileDevice Archive Db Store Migrations Tokens Honeypots StoreAudit Surface Oidc Config Prog State Trail.

Definition nl : string := str1 newline.

Section startup.
Context {H : Sha256} {J : Json} {M : Mac} {En : Entropy} {F : Features}.
Context {A : Aead} {U : Unicode} {R : ClaimsReader} {Sg : Signatures}.
Context {D : Type} `{!AuditDevice D} {L : AuditDeviceLaws D}.

(** The host: what reading, locking and connecting answer, the deserialized texts,
    and [Box::new] of an opened device, with the files it works on. *)
Record Boot : Type := mkBoot {
  bt_read : string -> result string string;
  bt_config : string -> result string Config;
  bt_policies : string -> result string RawConfig;
  bt_exists : string -> bool;
  bt_lock : string -> result StoreError unit;
  bt_connect : string -> result StoreError unit;
  bt_connect_read_only : string -> result StoreError unit;
  bt_env : string -> env_var;
  bt_fs : filesystem;
  bt_sqlite_device : string -> result StoreError SqliteAuditDevice;
  bt_boxed : Device -> os -> D;
  bt_clock : list Z;
  bt_rng : rng;
}.

(** The database of the configured path, the files of the devices, the lock, and
    the state the process has built. *)
Record Machine : Type := mkMachine {
  mc_store : Store;
  mc_os : os;
  mc_locked : bool;
  mc_app : option (App D);
}.

Definition set_mc_store (st : Store) (m : Machine) : Machine := mkMachine st (mc_os m) (mc_locked m) (mc_app m).
Definition set_mc_os (s : os) (m : Machine) : Machine := mkMachine (mc_store m) s (mc_locked m) (mc_app m).
Definition set_mc_locked (b : bool) (m : Machine) : Machine := mkMachine (mc_store m) (mc_os m) b (mc_app m).
Definition set_mc_app (a : option (App D)) (m : Machine) : Machine := mkMachine (mc_store m) (mc_os m) (mc_locked m) a.

Definition boot_m (B : Type) : Type := stm Machine StartupError B.

Context (bt : Boot).

Definition on_store {B} (work : store_m B) : boot_m B := mmap_err StartStore (mzoom mc_store set_mc_store work).

Definition boot_seal (c : Config) : result StartupError StaticSeal :=
  map_err StartSeal
    match cfg_seal c with
    | StaticEnv env => StaticSeal_from_env (bt_env bt) env
    | StaticFile path => StaticSeal_from_file (bt_fs bt) path
    end.

(** [Box<dyn AuditDevice>] for each, on the files as they are once all are open. *)
Definition open_boxed (c : Config) : boot_m (list D) :=
  mzoom mc_os set_mc_os (
    let! devices := open_devices (bt_sqlite_device bt) c in
    fun s => (Ok (map (fun d => bt_boxed bt d s) devices), s)).

(** What runs before any request does: alone. *)
Definition alone {B} (m : Inner -> app_m (D := D) B) (why : string) (inner : Inner) : boot_m unit :=
  fun mc =>
    match mc_app mc with
    | None => (Ok tt, mc)
    | Some app =>
        let '(r, app) := run (m inner) app in
        (match r with Some (Ok _) => Ok tt | _ => Err (StartAudit why) end, set_mc_app (Some app) mc)
    end.

(** The lock is dropped when preparing fails. *)
Definition holding_lock {B} (path : string) (work : boot_m B) : boot_m B :=
  fun mc =>
    match bt_lock bt path with
    | Err e => (Err (StartStore e), mc)
    | Ok _ =>
        match work (set_mc_locked true mc) with
        | (Ok b, mc) => (Ok b, mc)
        | (Err e, mc) => (Err e, set_mc_locked false mc)
        end
    end.

Definition build_state (c : Config) (policies : PolicySet) (composition : Composition) : boot_m Inner :=
  let! _ := mlift (map_err StartStore (bt_connect bt (cfg_storage_path c))) in
  let! _ := on_store prepare_connection in
  let! found := on_store seal_state in
  let! state := mlift (ok_or (StartStore NotInitialized) found) in
  let! seal := mlift (boot_seal c) in
  let! root := mlift (map_err StartSeal (unseal seal (seal_wrapped state))) in
  let! devices := open_boxed c in
  let! chain := on_store chain_to_continue in
  let! sink := mlift (map_err (fun e => StartAudit (audit_error_display e)) (AuditSink_new devices chain)) in
  let! store := mgets mc_store in
  let '(inner, app) := AppState_new store sink policies root (seal_state_id state)
                         (key_source_kind (seal_source seal)) composition (bt_clock bt) (bt_rng bt) in
  let! _ := mmodify (set_mc_app (Some app)) in
  let! _ := alone (fun inner => record_surface inner)
              "no audit device accepted the startup record naming the active surface" inner in
  let! _ := alone (fun _ => record_quarantined)
              "no audit device accepted the startup record naming a quarantined device" inner in
  mret inner.

(** [Server::prepare] *)
Definition prepare (c : Config) : boot_m Inner :=
  let! files := mlift (from_files (bt_read bt) (bt_policies bt) c) in
  holding_lock (cfg_storage_path c) (build_state c (fst files) (snd files)).

(** ** The check *)

Record StoreReady : Type := mkStoreReady {
  rd_schema_version : Z;
  rd_seal_id : string;
  rd_key_source : string;
  rd_devices : list string;
}.

Record Check : Type := mkCheck {
  ck_identities : nat;
  ck_rules : nat;
  ck_unreachable : list Unreachable;
  ck_surface : Active;
  ck_providers : list string;
  ck_store : result StartupError StoreReady;
}.

(** Nothing is locked, upgraded or recorded; the devices are opened as they will be. *)
Definition store_state (c : Config) : boot_m StoreReady :=
  if negb (bt_exists bt (cfg_storage_path c)) then mfail (StartStore NotInitialized)
  else
    let! _ := mlift (map_err StartStore (bt_connect_read_only bt (cfg_storage_path c))) in
    let! _ := on_store prepare_read_only in
    let! schema := on_store schema_version in
    let! found := on_store seal_state in
    let! state := mlift (ok_or (StartStore NotInitialized) found) in
    let! seal := mlift (boot_seal c) in
    let! _ := mlift (map_err StartSeal (unseal seal (seal_wrapped state))) in
    let! devices := open_boxed c in
    mret (mkStoreReady schema (seal_state_id state) (key_source_kind (seal_source seal)) (map dev_name devices)).

Definition check (c : Config) : boot_m Check :=
  let! files := mlift (from_files (bt_read bt) (bt_policies bt) c) in
  let '(policies, composition) := files in
  let! store := mtry (store_state c) in
  mret (mkCheck (length (map_to_list (ps_identities policies)))
    (list_sum (map (fun p => length (policy_rules (snd p))) (map_to_list (ps_policies policies))))
    (unreachable_entries policies (comp_surface composition)) (comp_surface composition)
    (provider_names (comp_federation composition)) store).

(** ** TLS material (tls.rs) *)

(** On the bytes as text; a byte that is no text is replaced, which changes no line
    that begins as a block does. *)
Definition looks_like_pem (text label : string) : bool :=
  existsb (fun line => starts_with line "-----BEGIN" && contains_str label line) (lines text).

(** [from_pem]: what rustls makes of the two. *)
Definition tls_load {T} (from_pem : string -> string -> result string T) (cert key : string) : result StartupError T :=
  let? certificates := map_err (fun e => StartTls ("cannot read certificate " ++ cert ++ ": " ++ e)) (bt_read bt cert) in
  let? private_key := map_err (fun e => StartTls ("cannot read key " ++ key ++ ": " ++ e)) (bt_read bt key) in
  if negb (looks_like_pem certificates "CERTIFICATE")
  then Err (StartTls (cert ++ " does not contain a PEM certificate"))
  else if negb (looks_like_pem private_key "PRIVATE KEY")
  then Err (StartTls (key ++ " does not contain a PEM private key"))
  else map_err (fun e => StartTls ("the TLS material is unusable: " ++ e)) (from_pem certificates private_key).

(** ** The report (main.rs) *)

Definition startup_error_display (e : StartupError) : string :=
  match e with
  | StartConfig error => config_error_display error
  | StartPolicy error => "policy file: " ++ policy_error_display error
  | StartStore error => "store: " ++ store_error_display error
  | StartSeal error => "seal: " ++ crypto_error_display error
  | StartAudit detail => "audit device: " ++ detail
  | StartTls detail => "tls: " ++ detail
  | StartIo error => error
  end.

Definition quarantine_warning (label device : string) (missed_from : Z) : string :=
  "ciphr-server: audit device " ++ label ++ " (" ++ device ++ ") is quarantined from seq " ++ dec missed_from
    ++ ": it is missing records the chain has and will not be written to again while this process runs. See docs/operations/audit-trail.md.".

Definition counted (count : nat) (one many : string) : string :=
  dec (Z.of_nat count) ++ " " ++ (if (count =? 1)%nat then one else many).

(** The finished lines, and the one in hand. *)
Fixpoint wrap_words (width : nat) (line : string) (words : list string) : list string :=
  match words with
  | [] => if is_empty line then [] else [line]
  | word :: words =>
      if is_empty line then wrap_words width word words
      else if (width <? length (chars line) + 1 + length (chars word))%nat
           then line :: wrap_words width word words
           else wrap_words width (line ++ " " ++ word) words
  end.
Definition wrap (text : string) (width : nat) : list string := wrap_words width EmptyString (split_whitespace text).

Definition unreachable_lines (u : Unreachable) : list string :=
  map (fun line => "       " ++ line)%string (wrap
    ("note: on, and no identity in this policy file is authorized for '" ++ capability_str (u_capability u)
     ++ "' on '" ++ u_path u ++ "' -- nobody can call it. Issuing a token for one needs the master key and the store lock, so what is left is a planned stop rather than an edit.")
    68).

Definition active_line (e : ActiveEntry) : string :=
  "  on   " ++ pad_right 15 (a_name e) ++ " " ++ pad_right 8 (kind_str (a_kind e)) ++ " accepted " ++ a_accepted e.

Definition inactive_lines (known : Surface) : list string :=
  ("  off  " ++ pad_right 15 (e_name known) ++ " " ++ pad_right 8 (kind_str (e_kind known)) ++ " "
    ++ (if e_compiled_in known then "not named by this configuration"
        else "not named by this configuration, and not in this binary"))%string
  :: map (fun line => "       " ++ line)%string (wrap (e_cost known) 68).

Definition surface_report (active : Active) (unreachable : list Unreachable) : list string :=
  let absent := length (List.filter (fun e => negb (e_compiled_in e)) ENTRIES) in
  let headline := ("surface: " ++ dec (Z.of_nat (length active)) ++ " of " ++ dec (Z.of_nat (length ENTRIES)) ++ " entries on"
    ++ (if (absent =? 0)%nat then EmptyString else ", " ++ dec (Z.of_nat absent) ++ " not in this binary") ++ " (ADR-20)")%string in
  [EmptyString; headline]
  ++ flat_map (fun e => active_line e ::
       match List.find (fun note => String.eqb (u_entry note) (a_name e)) unreachable with
       | Some note => unreachable_lines note
       | None => []
       end) active
  ++ flat_map (fun known => if surface_has active (e_name known) then [] else inactive_lines known) ENTRIES.

Definition check_report (config_path : string) (ck : Check) : list string :=
  ["configuration and policies are usable"; "  file      " ++ config_path;
   "  policies  " ++ counted (ck_identities ck) "identity" "identities" ++ ", " ++ counted (ck_rules ck) "rule" "rules"]%string
  ++ surface_report (ck_surface ck) (ck_unreachable ck)
  ++ match ck_providers ck with
     | [] => []
     | providers =>
         [EmptyString; "federation: " ++ counted (length providers) "provider" "providers"]%string
         ++ map (fun provider => "  " ++ provider)%string providers
         ++ map (fun line => "  " ++ line)%string (wrap
              "a signature from one of these is accepted in place of a credential, so the keys above are trusted exactly as far as the configuration says. There is no fetch: a rotation on their side is an edit here."
              68)
     end
  ++ [EmptyString]
  ++ match ck_store ck with
     | Ok store =>
         ["store: ready (schema " ++ dec (rd_schema_version store) ++ ", seal " ++ rd_seal_id store ++ ", key from "
            ++ rd_key_source store ++ ")"; "  audit  " ++ join ", " (rd_devices store)]%string
     | Err error => [startup_error_display error; "  the sections above are about the file and hold without this host"%string]
     end.

(** ** The process (main.rs) *)

Inductive Outcome : Type := Fine | HostNotReady.
Definition HOST_NOT_READY : Z := 3.

(** What a process leaves: its status, and the lines it wrote. *)
Record Exit : Type := mkExit { ex_status : Z; ex_stdout : list string; ex_stderr : list string }.

(** Serving, until it is told to stop. *)
Context (serve : Inner -> Machine -> result string unit).

Definition quarantine_warnings (mc : Machine) : list string :=
  match mc_app mc with
  | None => []
  | Some app =>
      map (fun stopped =>
        quarantine_warning
          (default (q_device stopped)
             (option_map dh_name (List.find (fun d => String.eqb (dh_source d) (q_device stopped)) (app_devices app))))
          (q_device stopped) (q_missed_from stopped)) (sink_quarantined (app_audit app))
  end.

Definition run_server (config_path : string) (check_only : bool) (mc : Machine)
    : result string Outcome * (list string * list string) * Machine :=
  match Config_load (bt_read bt) (bt_config bt) config_path with
  | Err e => (Err (config_error_display e), ([], []), mc)
  | Ok config =>
      if check_only then
        match check config mc with
        | (Err e, mc) => (Err (startup_error_display e), ([], []), mc)
        | (Ok ck, mc) => (Ok (if is_ok (ck_store ck) then Fine else HostNotReady), (check_report config_path ck, []), mc)
        end
      else
        match prepare config mc with
        | (Err e, mc) => (Err (startup_error_display e), ([], []), mc)
        | (Ok inner, mc) => (res_map (fun _ => Fine) (serve inner mc), ([], quarantine_warnings mc), mc)
        end
  end.

Definition usage : list string :=
  ["usage: ciphr-server <config.toml>"; "       ciphr-server --check-config <config.toml>"]%string.

Definition server_main (arguments : list string) (mc : Machine) : Exit * Machine :=
  let '(config_path, check_only) :=
    match arguments with
    | [] => (None, false)
    | first :: rest =>
        if String.eqb first "--check-config" then (head rest, true)
        else if String.eqb first "--help" || String.eqb first "-h" then (None, false)
        else (Some first, false)
    end in
  match config_path with
  | None => (mkExit 2 usage [], mc)
  | Some config_path =>
      let '(r, (out, err), mc) := run_server config_path check_only mc in
      (match r with
       | Ok Fine => mkExit 0 out err
       | Ok HostNotReady => mkExit HOST_NOT_READY out err
       | Err e => mkExit 1 out (err ++ ["ciphr-server: " ++ e]%string)
       end, mc)
  end.

(** ** Recording before anything else runs *)

#[local] Instance within_anything : PreOrder (within (fun _ : App D => True) trail_grows).
Proof. split; [by intros a|]. intros a b c [H1 _] [H2 _]. split; [by etrans|done]. Qed.

Abbreviation calls m Q s := (wp (within (fun _ => True) trail_grows) (fun _ _ => True) m Q s).

Lemma run_record_keeps_trail e s r s' : app_wf s -> run (record (D := D) e) s = (r, s') ->
  trail_grows s s' /\ (r = Some (Ok tt) -> trail_holds e s').
Proof.
  intros Hwf Hr.
  assert (calls (record (D := D) e) (fun r s' => trail_grows s s' /\ (r = Ok tt -> trail_holds e s')) s) as Hw
    by (apply awp_record; [done|done| |]; intros s2 _ Hg; by split).
  apply (wp_run _ _) in Hw as (r0 & E & Hg & Hh). rewrite Hr in E, Hg, Hh. simpl in *. subst r. split; [exact Hg|].
  intros [= ->]. by apply Hh.
Qed.

(** A device that is stopped stays stopped. *)
Definition still_stopped (q : Quarantined) (a : App D) : Prop := app_wf a /\ q ∈ sink_quarantined (app_audit a).

Lemma sink_call_stopped q e a : still_stopped q a -> still_stopped q (snd (sink_call e a)).
Proof.
  intros [Hwf Hq]. destruct (sink_call_spec e a Hwf) as [Hg _]. split; [by eapply grows_wf|].
  unfold sink_call, read_clock in *. simpl in *.
  destruct (sink_record e (default 0%Z (head (app_clock a))) (app_audit a)) as [res sk] eqn:Hr. simpl in *.
  unfold sink_quarantined in *. apply list_elem_of_omap in Hq as (s & Hs & Hsq).
  apply list_elem_of_lookup in Hs as [i Hi]. apply list_elem_of_omap.
  assert (exists c, Forall2 (slot_follows c) (slots (app_audit a)) (slots sk)) as [c HF].
  { pose proof (sink_record_step _ _ _ _ _ Hwf Hr) as Hstep. destruct res as [w|err].
    - destruct Hstep as (r & _ & _ & _ & _ & HF). by eexists.
    - destruct Hstep as [_ HF]. by eexists. }
  destruct (Forall2_lookup_l _ _ _ _ _ HF Hi) as (s' & Hi' & [_ Hm]). exists s'.
  split; [by eapply list_elem_of_lookup_2|]. rewrite Hsq in Hm. by destruct Hm as [-> _].
Qed.

(** What every record of the sink keeps, recording keeps. *)
Lemma record_keeps (inv : App D -> Prop) e :
  (forall e a, inv a -> inv (snd (sink_call e a))) -> (forall l a, inv a -> inv (set_devices l a)) ->
  answers inv (record (D := D) e) (fun _ => True).
Proof.
  intros Hcall Hset. apply answers_bind, answers_step. intros a Ha. split; [by apply Hcall|].
  assert (forall f s (k : unit -> prog (App D) ApiError unit), answers inv (k tt) (fun _ => True) ->
    answers inv (pbind (note_device_outcome f s) k) (fun _ => True)) as Hnote.
  { intros f s k Hk. apply answers_bind, answers_step. intros a' Ha'. split; [by apply Hset|done]. }
  destruct (fst (sink_call e a)) as [w|[|fs|]]; [|done|by apply (Hnote _ _ (fun _ => pfail AuditUnavailable))|done].
  apply (Hnote _ _ (fun _ => explain_the_gap (w_failures w) (w_quarantined w))).
  unfold explain_the_gap. destruct (w_failures w) as [|f fs]; [done|]. apply answers_step. intros a' Ha'. split; [|done].
  cbn [snd]. generalize (f :: fs). intros l. revert a' Ha'. induction l as [|x l IH]; intros a' Ha'; [done|].
  simpl. by apply IH, Hcall.
Qed.

Lemma run_record_keeps (inv : App D -> Prop) e s :
  (forall e a, inv a -> inv (snd (sink_call e a))) -> (forall l a, inv a -> inv (set_devices l a)) ->
  inv s -> inv (snd (run (record (D := D) e) s)).
Proof. intros Hcall Hset Hs. exact (proj1 (answers_run inv _ _ s Hs (record_keeps inv e Hcall Hset))). Qed.

Definition stored_in (st : Store) (a : App D) : Prop := app_store a = st.

Lemma sink_call_stored st e a : stored_in st a -> stored_in st (snd (sink_call e a)).
Proof. unfold stored_in, sink_call, read_clock. simpl. by destruct (sink_record _ _ _). Qed.

Lemma record_quarantined_stored st s : stored_in st s -> stored_in st (snd (run (record_quarantined (D := D)) s)).
Proof.
  intros Hs. refine (proj1 (answers_run (stored_in st) _ (fun _ => True) s Hs _)). apply answers_bind, answers_step. intros a Ha. split; [done|].
  apply (answers_mono _ _ (fun r => match r with Ok _ => True | Err e => True end)); [done|].
  apply answers_for. intros one. eapply answers_mono; [|apply record_keeps; [apply sink_call_stored|done]]. by intros [].
Qed.

Definition behind_entry (one : Quarantined) : Entry :=
  with_detail ("missed from seq " ++ dec (q_missed_from one))
    (entry_denied ActAuditDeviceFailed ("device-behind-at-start: " ++ q_device one)).

Lemma run_quarantined s s' : app_wf s -> run (record_quarantined (D := D)) s = (Some (Ok tt), s') ->
  trail_grows s s' /\ forall one, one ∈ sink_quarantined (app_audit s) -> trail_holds (behind_entry one) s'.
Proof.
  intros Hwf Hr. unfold record_quarantined in Hr. apply run_bind_Ok in Hr as (stopped & s1 & Hq & Hr).
  apply run_step_Ok in Hq. injection Hq as <- E2. rewrite <- E2 in Hr. clear s1 E2. revert Hr. generalize (sink_quarantined (app_audit s)). intros l Hr. revert s Hwf Hr.
  induction l as [|one l IH]; intros s Hwf Hr.
  - simpl in Hr. injection Hr as <-. split; [reflexivity|]. by intros one ?%elem_of_nil.
  - cbn [pfor] in Hr. apply run_bind_Ok in Hr as ([] & s1 & H1 & Hr).
    destruct (run_record_keeps_trail _ _ _ _ Hwf H1) as [Hg Hh]. destruct (IH s1) as [Hg2 Hh2]; [by eapply grows_wf|done|].
    split; [by etrans|]. intros x [->|Hx]%elem_of_cons; [|by apply Hh2]. eapply grows_holds; [exact Hg2|by apply Hh].
Qed.

(** ** What a prepared service has *)

Definition surface_entry (inner : Inner) : Entry :=
  with_detail (surface_summary (in_surface inner)) (entry_allowed ActSurfaceActive).

(** No two configured devices have one name. *)
Definition distinct_devices (c : Config) : Prop :=
  forall mc devices mc', open_boxed c mc = (Ok devices, mc') -> NoDup (map dev_name devices).

Record ready (c : Config) (policies : PolicySet) (composition : Composition) (inner : Inner)
    (mc' : Machine) : Prop := {
  ready_files : in_policies inner = policies /\ in_surface inner = comp_surface composition /\
    in_federation inner = comp_federation composition;
  ready_lock : mc_locked mc' = true;
  ready_seal : exists seal state s, boot_seal c = Ok seal /\ st_db s = st_db (mc_store mc') /\
    fst (seal_state s) = Ok (Some state) /\ unseal seal (seal_wrapped state) = Ok (in_root inner);
  ready_trail : exists devices chain sk app s,
    st_db s = st_db (mc_store mc') /\ fst (chain_to_continue s) = Ok chain /\
    AuditSink_new devices chain = Ok sk /\ mc_app mc' = Some app /\ app_wf app /\
    sink_grows sk (app_audit app) /\ app_store app = mc_store mc' /\
    trail_holds (surface_entry inner) app /\
    forall one, one ∈ sink_quarantined sk -> trail_holds (behind_entry one) app;
}.

Lemma on_store_Ok {B} (work : store_m B) mc b mc' : on_store work mc = (Ok b, mc') ->
  work (mc_store mc) = (Ok b, mc_store mc') /\ mc_locked mc' = mc_locked mc.
Proof. intros [Hw ->]%mmap_err_Ok%mzoom_Ok. rewrite Hw. by split. Qed.

Lemma on_store_read {B} (work : store_m B) mc b mc' : reads_only work -> on_store work mc = (Ok b, mc') ->
  fst (work (mc_store mc)) = Ok b /\ st_db (mc_store mc') = st_db (mc_store mc) /\ mc_locked mc' = mc_locked mc.
Proof. intros Hro [Hw Hl]%on_store_Ok. rewrite Hw. split_and!; [done| |done]. by apply (Hro _ _ _ Hw). Qed.

Lemma alone_Ok {B} (m : Inner -> app_m (D := D) B) why inner app mc mc' :
  mc_app mc = Some app -> alone m why inner mc = (Ok tt, mc') ->
  exists b app', run (m inner) app = (Some (Ok b), app') /\ mc' = set_mc_app (Some app') mc.
Proof.
  intros Ha. unfold alone. rewrite Ha. destruct (run (m inner) app) as [[[b|e]|] app']; intros [= <-]. by exists b, app'.
Qed.

Lemma names_of_new devices chain sk : AuditSink_new devices chain = Ok sk -> device_names sk = map dev_name devices.
Proof.
  unfold AuditSink_new. destruct devices as [|d devices]; [done|]. intros [= <-]. unfold device_names. simpl.
  f_equal. rewrite map_map. done.
Qed.

Lemma build_state_Ok c policies composition mc inner mc' : distinct_devices c -> mc_locked mc = true ->
  build_state c policies composition mc = (Ok inner, mc') -> ready c policies composition inner mc'.
Proof.
  intros Hdist Hlocked Hb. unfold build_state in Hb.
  apply mbind_Ok in Hb as ([] & m1 & Hx & Hb). apply mlift_Ok in Hx as [_ ->].
  apply mbind_Ok in Hb as ([] & m2 & Hx & Hb). apply on_store_Ok in Hx as [_ L2].
  apply mbind_Ok in Hb as (found & m3 & Hx & Hb). apply on_store_read in Hx as (Hfound & D3 & L3); [|apply seal_state_reads].
  apply mbind_Ok in Hb as (st & m4 & Hx & Hb). apply mlift_Ok in Hx as [->%ok_or_Ok ->].
  apply mbind_Ok in Hb as (seal & m5 & Hx & Hb). apply mlift_Ok in Hx as [Hseal ->].
  apply mbind_Ok in Hb as (root & m6 & Hx & Hb). apply mlift_Ok in Hx as [Hroot%map_err_Ok ->].
  apply mbind_Ok in Hb as (devices & m7 & Hdev & Hb). pose proof (Hdist _ _ _ Hdev) as Hnames.
  assert (mc_store m7 = mc_store m3 /\ mc_locked m7 = mc_locked m3) as [S7 L7] by by apply mzoom_Ok in Hdev as [_ ->].
  apply mbind_Ok in Hb as (chain & m8 & Hx & Hb). apply on_store_read in Hx as (Hchain & D8 & L8); [|apply reads_chain].
  apply mbind_Ok in Hb as (sk & m9 & Hx & Hb). apply mlift_Ok in Hx as [Hsk%map_err_Ok ->].
  apply mbind_Ok in Hb as (store & m10 & Hx & Hb). injection Hx as <- <-.
  cbn [AppState_new] in Hb. set (app := mkApp _ _ _ _ _ _ _ _ _) in Hb. set (inner0 := mkInner _ _ _ _ _ _ _) in Hb.
  apply mbind_Ok in Hb as ([] & m11 & Hx & Hb). injection Hx as <-.
  apply mbind_Ok in Hb as ([] & m12 & Hx & Hb).
  apply (alone_Ok _ _ _ app) in Hx as ([] & app1 & Hrun1 & ->); [|done].
  apply mbind_Ok in Hb as ([] & m13 & Hx & Hb).
  apply (alone_Ok _ _ _ app1) in Hx as ([] & app2 & Hrun2 & ->); [|done]. injection Hb as <- <-.
  assert (app_wf app) as Hwf by (unfold app_wf; simpl; by rewrite (names_of_new _ _ _ Hsk)).
  destruct (run_record_keeps_trail _ _ _ _ Hwf Hrun1) as [Hg1 Hh1].
  assert (app_wf app1) as Hwf1 by by eapply grows_wf.
  destruct (run_quarantined _ _ Hwf1 Hrun2) as [Hg2 Hh2].
  split; simpl.
  - done.
  - congruence.
  - exists seal, st, (mc_store m2). split_and!; [done| |done|done]. by rewrite D8, S7, D3.
  - exists devices, chain, sk, app2, (mc_store m7). split_and!; [by rewrite D8|done|done|done|by eapply grows_wf| | | |].
    + exact (transitivity (R := trail_grows) Hg1 Hg2).
    + pose proof (record_quarantined_stored (mc_store m8) app1) as Hst. rewrite Hrun2 in Hst. apply Hst.
      pose proof (run_record_keeps (stored_in (mc_store m8)) (surface_entry inner0) app (sink_call_stored _)) as Hst1.
      unfold record_surface in Hrun1. fold (surface_entry inner0) in Hrun1. rewrite Hrun1 in Hst1. by apply Hst1.
    + eapply grows_holds; [exact Hg2|by apply Hh1].
    + intros one Hone. apply Hh2.
      pose proof (run_record_keeps (still_stopped one) (surface_entry inner0) app (sink_call_stopped one)) as Hst.
      unfold record_surface in Hrun1. fold (surface_entry inner0) in Hrun1. rewrite Hrun1 in Hst. by apply Hst.
Qed.

(** C12: a service that is prepared decides under exactly the policy file that was read
    and serves exactly the surface and providers of the configuration; it holds the
    lock; its root key is what the configured seal opens of the stored one; its
    chain continues the stored head; and before it serves anything a device holds
    the record of its surface and one for each device that came back behind.  When
    preparing fails, the lock is not left held. *)
Theorem prepared_service_is_ready c mc r mc' : distinct_devices c -> prepare c mc = (r, mc') ->
  match r with
  | Ok inner => exists policies composition,
      from_files (bt_read bt) (bt_policies bt) c = Ok (policies, composition) /\
      bt_lock bt (cfg_storage_path c) = Ok tt /\ ready c policies composition inner mc'
  | Err _ => mc_locked mc = false -> mc_locked mc' = false
  end.
Proof.
  intros Hdist Hp. unfold prepare in Hp. unfold mbind, mlift in Hp.
  destruct (from_files _ _ c) as [[policies composition]|e] eqn:Hf; [|by injection Hp as <- <-].
  unfold holding_lock in Hp. simpl in Hp. destruct (bt_lock bt (cfg_storage_path c)) as [[]|e] eqn:Hl; [|by injection Hp as <- <-].
  destruct (build_state c policies composition (set_mc_locked true mc)) as [[inner|e] m1] eqn:Hb; injection Hp as <- <-; [|done].
  exists policies, composition. split_and!; [done|done|]. by apply build_state_Ok in Hb; [|done|done].
Qed.
End startup.
