(* ===== verification/Api.v ===== *)
(** * The HTTP interface ([ciphr-server/src/api.rs])

    Every handler as a [prog]: what it authenticates, records, reads and changes,
    in the order of the code.  Routing by path, extraction of the parts of a
    request and serialization are axum's and serde's; a handler takes the parts it
    was given. *)

From Stdlib Require Import ZArith NArith Lia Ascii String.
From stdpp Require Import base tactics list strings gmap.
From S2P Require Import Prelude Text Hex Path Pattern Vocabulary PolicyModel Evaluate Crypto Token Chain Sink Db Store.
From S2P Require Import Tokens Honeypots StoreAudit Surface Oidc Config Prog State.

Definition EXPORT_PATHS_MAX : nat := 256.
Definition EXPORT_BYTES_MAX : Z := 1024 * 1024.
Definition AUDIT_LIMIT_MAX : Z := 1000.
Definition AUDIT_LIMIT_DEFAULT : Z := 100.
Definition DRAIN_MAX : Z := 64 * 1024.

(** ** Requests *)

(** The three headers the code reads, as bytes. *)
Record Headers : Type := mkHeaders {
  hd_authorization : option string;
  hd_request_id : option string;
  hd_user_agent : option string;
}.

(** [HeaderValue::to_str]: visible ASCII and tabs. *)
Definition visible (c : ascii) : bool :=
  ((32 <=? byte_val c) && (byte_val c <? 127) || (byte_val c =? 9))%Z.
Definition to_str (value : string) : option string :=
  if forallb visible (as_bytes value) then Some value else None.

Definition bearer_token (h : Headers) : option string :=
  value ← hd_authorization h; text ← to_str value; trim <$> strip_prefix "Bearer " text.

(** [IpAddr]: four bytes, or eight groups of 16 bits. *)
Inductive IpAddr : Type := V4 (octets : list Z) | V6 (segments : list Z).

(** [to_ipv4_mapped]: [::ffff:a.b.c.d]. *)
Definition to_ipv4_mapped (segments : list Z) : option (list Z) :=
  match segments with
  | [0%Z; 0%Z; 0%Z; 0%Z; 0%Z; 65535%Z; ab; cd] =>
      Some [(ab / 256)%Z; (ab mod 256)%Z; (cd / 256)%Z; (cd mod 256)%Z]
  | _ => None
  end.

Definition canonical_ip (address : IpAddr) : IpAddr :=
  match address with
  | V6 segments => match to_ipv4_mapped segments with Some octets => V4 octets | None => address end
  | V4 _ => address
  end.

(** [chars().take(n).collect()] *)
Definition take_chars (n : nat) (s : string) : string := of_chars (take n (chars s)).

(** [{:x}] of a group. *)
Fixpoint hex_digits (fuel : nat) (n : Z) (acc : string) : string :=
  match fuel with
  | O => acc
  | S fuel =>
      let acc := String (nth (Z.to_nat (n mod 16)) (as_bytes "0123456789abcdef") zero) acc in
      if (n / 16 =? 0)%Z then acc else hex_digits fuel (n / 16) acc
  end.
Definition hex16 (n : Z) : string := hex_digits 4 n EmptyString.

(** The longest run of zero groups, the first one if there are several: where it
    starts and how long it is. *)
Fixpoint longest_zeros (l : list Z) (index : nat) (current longest : nat * nat) : nat * nat :=
  match l with
  | [] => longest
  | segment :: l =>
      if (segment =? 0)%Z then
        let current := if (snd current =? 0)%nat then (index, 1%nat) else (fst current, S (snd current)) in
        longest_zeros l (S index) current (if (snd longest <? snd current)%nat then current else longest)
      else longest_zeros l (S index) (0%nat, 0%nat) longest
  end.

Definition fmt_subslice (l : list Z) : string := join ":" (map hex16 l).

(** [Display] of an address. *)
Definition ip_text (address : IpAddr) : string :=
  match address with
  | V4 octets => join "." (map dec octets)
  | V6 segments =>
      match to_ipv4_mapped segments with
      | Some octets => "::ffff:" ++ join "." (map dec octets)
      | None =>
          let '(start, n) := longest_zeros segments 0 (0%nat, 0%nat) (0%nat, 0%nat) in
          if (1 <? n)%nat
          then fmt_subslice (take start segments) ++ "::" ++ fmt_subslice (drop (start + n) segments)
          else fmt_subslice segments
      end
  end.

Example ip_texts :
  map ip_text [V4 [127; 0; 0; 1]%Z; V6 [0; 0; 0; 0; 0; 0; 0; 1]%Z; V6 [8193; 3512; 0; 0; 1; 0; 0; 0]%Z;
               V6 [0; 0; 0; 0; 0; 65535; 49320; 257]%Z; V6 [1; 0; 3; 4; 5; 6; 7; 8]%Z] =
  ["127.0.0.1"; "::1"; "2001:db8:0:0:1::"; "::ffff:192.168.1.1"; "1:0:3:4:5:6:7:8"].
Proof. vm_compute. reflexivity. Qed.

Definition request_context (h : Headers) (origin : option IpAddr) : RequestContext :=
  mkRequestContext
    (value ← hd_request_id h; take_chars 128 <$> to_str value)
    ((fun address => ip_text (canonical_ip address)) <$> origin)
    (value ← hd_user_agent h; take_chars 256 <$> to_str value)
    None None.

(** [VersionQuery::version] *)
Definition query_version (version : option Z) : result ApiError (option SecretVersion) :=
  match version with
  | None => Ok None
  | Some number =>
      match version_new number with
      | Some v => Ok (Some v)
      | None => Err (BadRequest "version must be greater than zero")
      end
  end.

Definition parse_rotation (raw : option string) : result ApiError (option Rotation) :=
  match raw with
  | None => Ok None
  | Some class => map_err (fun e => BadRequest (rotation_error_display e)) (res_map Some (Rotation_parse class))
  end.

Definition api_reject_reserved (path : SecretPath) : result ApiError unit :=
  map_err (fun _ => BadRequest ("'" ++ RESERVED_PREFIX ++ "/' is reserved and cannot hold secrets"))
    (reject_reserved path).

(** [SecretPath::parse(...).expect(...)] on literals that parse. *)
Definition reserved_path (name : string) : SecretPath := mkSecretPath (RESERVED_PREFIX ++ "/" ++ name).

Record AuditQuery : Type := mkAuditQuery {
  aq_limit : option Z;
  aq_end : option string;
  aq_after_seq : option Z;
  aq_before_seq : option Z;
  aq_since : option Z;
  aq_identity : option string;
  aq_path : option string;
  aq_decision : option string;
}.

Definition audit_window (q : AuditQuery) : result ApiError AuditWindow :=
  let? newest :=
    match aq_end q with
    | None => Ok false
    | Some e =>
        if String.eqb e "newest" then Ok true
        else if String.eqb e "oldest" then Ok false
        else Err (BadRequest "end must be 'oldest' or 'newest'")
    end in
  match aq_after_seq q, aq_before_seq q with
  | Some _, Some _ => Err (BadRequest "after_seq and before_seq page in opposite directions; pass one")
  | Some after, None =>
      if (newest : bool) then
        Err (BadRequest "after_seq pages forward from the oldest end; use before_seq with end=newest")
      else Ok (Oldest (Some after))
  | None, Some before => Ok (Newest (Some before))
  | None, None => if (newest : bool) then Ok (Newest None) else Ok (Oldest None)
  end.

Definition audit_decision (q : AuditQuery) : result ApiError (option bool) :=
  match aq_decision q with
  | None => Ok None
  | Some d =>
      if String.eqb d "allow" then Ok (Some true)
      else if String.eqb d "deny" then Ok (Some false)
      else Err (BadRequest "decision must be 'allow' or 'deny'")
  end.

(** [clamp(1, AUDIT_LIMIT_MAX)] *)
Definition clamp_limit (limit : option Z) : Z :=
  Z.max 1 (Z.min AUDIT_LIMIT_MAX (default AUDIT_LIMIT_DEFAULT limit)).

(** ** Answers *)

Record SecretResponse : Type := mkSecretResponse {
  sr_path : string;
  sr_version : Z;
  sr_value : string;
  sr_created_at : Z;
  sr_created_by : string;
}.
Record WriteResponse : Type := mkWriteResponse { wr_path : string; wr_version : Z }.
Record RotationResponse : Type := mkRotationResponse {
  rr_class : string; rr_needs_care : bool; rr_advice : string }.
Record VersionResponse : Type := mkVersionResponse {
  vr_version : Z; vr_created_at : Z; vr_created_by : string; vr_deleted : bool; vr_destroyed : bool }.
Record VersionsResponse : Type := mkVersionsResponse {
  vsr_path : string; vsr_rotation : RotationResponse; vsr_versions : list VersionResponse }.
Record ListEntry : Type := mkListEntry { le_path : string; le_rotation : string }.
Record ListResponse : Type := mkListResponse {
  lr_prefix : string; lr_paths : list string; lr_entries : list ListEntry }.
Record ExportedSecret : Type := mkExportedSecret { ex_path : string; ex_version : Z; ex_value : string }.
Record AuditEntryResponse : Type := mkAuditEntryResponse { aer_seq : Z; aer_hash : string; aer_record : string }.
Record IdentityResponse : Type := mkIdentityResponse { ir_name : string; ir_kind : string; ir_policies : list string }.
Record RuleResponse : Type := mkRuleResponse { ru_path : string; ru_capabilities : list string; ru_specificity : nat }.
Record PolicyResponse : Type := mkPolicyResponse { po_name : string; po_rules : list RuleResponse }.
Record TokenResponse : Type := mkTokenResponse {
  tk_token_id : string; tk_identity : string; tk_state : string; tk_created_at : Z; tk_created_by : string;
  tk_expires_at : option Z; tk_last_used_at : option Z; tk_revoked_at : option Z; tk_honeypot : bool }.
Record RevokeResponse : Type := mkRevokeResponse {
  re_token_id : string; re_identity : string; re_revoked_now : bool }.
Record OidcLoginResponse : Type := mkOidcLoginResponse {
  ol_token : string; ol_token_id : string; ol_identity : string; ol_expires_at : Z }.
Record Health : Type := mkHealth {
  he_status : string; he_sealed : bool; he_seal : string; he_key_source : string;
  he_audit_devices : list DeviceHealth; he_surface : list string; he_tripped : option bool;
  he_open_tripwires : option Z; he_degraded : list string; he_api_version : string }.
Record SurfaceEntryResponse : Type := mkSurfaceEntryResponse {
  se_entry : string; se_kind : string; se_accepted : string; se_reason : string; se_cost : string }.
Record HoneypotResponse : Type := mkHoneypotResponse {
  hr_kind : string; hr_path : option string; hr_token_id : option string; hr_identity : option string;
  hr_tier : string; hr_tripped : bool }.
Record TripResponse : Type := mkTripResponse {
  tp_tripped_at : Z; tp_kind : string; tp_path : option string; tp_token_id : option string;
  tp_identity : option string; tp_tier : string }.

Record SecretBody : Type := mkSecretBody { sb_value : string; sb_rotation : option string }.
Record OidcLoginRequest : Type := mkOidcLoginRequest { or_id_token : string; or_ttl_seconds : option Z }.

(** [RawValue::from_string]: is the text JSON. *)
Class RawJson : Type := raw_value : string -> result string string.

Section handlers.
Context {H : Sha256} {J : Json} {M : Mac} {En : Entropy} {F : Features}.
Context {D : Type} `{!AuditDevice D}.
Context {A : Aead} {U : Unicode} {LJ : LogJson} {RJ : RawJson} {R : ClaimsReader} {Sg : Signatures}.
Context (state : Inner).

(** ** What the handlers share *)

Definition api_authenticate (h : Headers) (action : Action) (request : RequestContext) : app_m (D := D) Caller :=
  let* outcome := state_authenticate state (bearer_token h) in
  match outcome with
  | Ok caller => pret caller
  | Err rejection =>
      let* _ := record_rejection action request (rej_bait rejection) in
      pfail (rej_error rejection)
  end.

Definition api_parse_path (raw : string) : result ApiError SecretPath :=
  map_err (fun e => BadRequest (path_error_display e)) (SecretPath_parse raw).

Definition parse_path_recorded (c : Caller) (attempted : Action) (request : RequestContext) (raw : string)
    : app_m (D := D) SecretPath :=
  match api_parse_path raw with
  | Ok path => pret path
  | Err refused =>
      let* _ := record_refusal c attempted request (api_status refused) "malformed-path" in
      pfail refused
  end.

Definition decrypt_to_text (stored : StoredVersion) : result ApiError string :=
  let? plaintext := map_err api_of_crypto
    (decrypt (in_root state) (sv_path stored) (sv_version stored) (sv_value stored)) in
  ok_or (Internal "a stored value is not valid UTF-8; read it with the CLI") (from_utf8 plaintext).

(** The fallbacks of the router, after the body is drained. *)
Definition refused_request (h : Headers) (origin : option IpAddr) (reason : string) : app_m (D := D) ApiError :=
  let request := request_context h origin in
  let* outcome := state_authenticate state (bearer_token h) in
  match outcome with
  | Err _ => pret ApiNotFound
  | Ok caller =>
      let* recorded := ptry (record_refusal caller ActRead request (api_status ApiNotFound) reason) in
      match recorded with
      | Err error => pret error
      | Ok _ => pret ApiNotFound
      end
  end.

(** [AuditedJson]: a body that did not parse is an attempt that is recorded. *)
Definition audited_json {T} (attempted : Action) (h : Headers) (origin : option IpAddr)
    (body : result string T) : app_m (D := D) T :=
  match body with
  | Ok value => pret value
  | Err rejection =>
      let refused := BadRequest rejection in
      let context := request_context h origin in
      let* outcome := state_authenticate state (bearer_token h) in
      match outcome with
      | Err _ => pfail refused
      | Ok caller =>
          let* _ := record_refusal caller attempted context (api_status refused) "malformed-body" in
          pfail refused
      end
  end.

(** ** Secrets *)

Definition read_secret (h : Headers) (origin : option IpAddr) (raw : string) (version : option Z)
    : app_m (D := D) SecretResponse :=
  let request := request_context h origin in
  let* caller := api_authenticate h ActRead request in
  let* path := parse_path_recorded caller ActRead request raw in
  let* _ := authorize_and_record state caller ActRead CapRead path request in
  let* version := plift (query_version version) in
  let* found := ptry (with_store (mmap_err api_of_store (Store.get path version))) in
  match found with
  | Err error =>
      let reason := if (api_status error =? 404)%Z then "not-found" else "not-served" in
      let* _ := record_outcome caller ActRead (Some path) request (api_status error) (Some reason) in
      pfail error
  | Ok stored =>
      match decrypt_to_text stored with
      | Err error =>
          let* _ := record_outcome caller ActRead (Some path) request (api_status error) (Some "not-served") in
          pfail error
      | Ok value =>
          pret (mkSecretResponse (path_str (sv_path stored)) (version_get (sv_version stored)) value
                  (sv_created_at stored) (sv_created_by stored))
      end
  end.

(** The store's lock is held while the version is encrypted; encryption draws the
    same bytes whatever the version, so what it leaves of the randomness is told by
    any of them. *)
Definition put_encrypted (path : SecretPath) (by_ : string) (rotation : option Rotation) (plaintext : Plaintext)
    : app_m (D := D) SecretVersion :=
  patomic (fun a =>
    let '(now, a) := read_clock a in
    let g := app_rng a in
    let '(r, st) := put_with_rotation path by_ rotation
      (fun version => fst (encrypt (in_root state) path version plaintext g)) now (app_store a) in
    (map_err api_of_store r,
     set_rng (snd (encrypt (in_root state) path version_FIRST plaintext g)) (set_store st a))).

Definition write_secret (h : Headers) (origin : option IpAddr) (raw : string) (body : SecretBody)
    : app_m (D := D) WriteResponse :=
  let request := request_context h origin in
  let* caller := api_authenticate h ActWrite request in
  let* path := parse_path_recorded caller ActWrite request raw in
  let* _ := plift (api_reject_reserved path) in
  let* rotation := plift (parse_rotation (sb_rotation body)) in
  let* _ := authorize_and_record state caller ActWrite CapWrite path request in
  let* _ := match rotation with
            | Some _ => authorize_and_record state caller ActClassify CapWrite path request
            | None => pret tt
            end in
  let plaintext := as_bytes (sb_value body) in
  let* outcome := ptry (put_encrypted path (caller_identity caller) rotation plaintext) in
  match outcome with
  | Ok version => pret (mkWriteResponse (path_str path) (version_get version))
  | Err error =>
      let* _ := record_outcome caller ActWrite (Some path) request (api_status error) (Some "write-failed") in
      let* _ := match rotation with
                | Some _ => record_outcome caller ActClassify (Some path) request (api_status error)
                              (Some "classify-failed")
                | None => pret tt
                end in
      pfail error
  end.

Definition delete_secret (h : Headers) (origin : option IpAddr) (raw : string) (version : option Z)
    : app_m (D := D) unit :=
  let request := request_context h origin in
  let* caller := api_authenticate h ActDelete request in
  let* path := parse_path_recorded caller ActDelete request raw in
  let* _ := plift (api_reject_reserved path) in
  let* _ := authorize_and_record state caller ActDelete CapDelete path request in
  complete_or_record caller ActDelete path request "delete-failed" (
    let* wanted := plift (query_version version) in
    let* version := match wanted with
                    | Some version => pret version
                    | None =>
                        let* found := with_store (mmap_err api_of_store (metadata path)) in
                        plift (ok_or ApiNotFound (sm_current_version found))
                    end in
    with_store_now (fun now => mmap_err api_of_store (Store.delete path version now))).

Definition version_response (v : VersionSummary) : VersionResponse :=
  mkVersionResponse (version_get (vs_version v)) (vs_created_at v) (vs_created_by v)
    (negb (is_none (vs_deleted_at v))) (negb (is_none (vs_destroyed_at v))).

Definition list_versions (h : Headers) (origin : option IpAddr) (raw : string) : app_m (D := D) VersionsResponse :=
  let request := request_context h origin in
  let* caller := api_authenticate h ActList request in
  let* path := parse_path_recorded caller ActList request raw in
  let* _ := authorize_and_record state caller ActList CapList path request in
  let* found := complete_or_record caller ActList path request "not-listed"
    (with_store (mmap_err api_of_store
      (let! md := metadata path in let! vs := versions path in mret (md, vs)))) in
  let '(md, vs) := found in
  pret (mkVersionsResponse (path_str path)
          (mkRotationResponse (rotation_str (sm_rotation md)) (needs_care (sm_rotation md))
             (rotation_advice (sm_rotation md)))
          (map version_response vs)).

(** The names a caller may see of what is listed. *)
Definition visible_entries (c : Caller) (wanted : option Rotation) (listed : list ListedSecret) : list ListEntry :=
  map (fun s => mkListEntry (path_str (ls_path s)) (rotation_str (ls_rotation s)))
    (List.filter (fun s => match wanted with None => true | Some class => bool_decide (ls_rotation s = class) end)
      (List.filter (fun s => Evaluate.is_allowed (authorize state c CapList (ls_path s))) listed)).

Definition api_list_paths (h : Headers) (origin : option IpAddr) (raw : string) (rotation : option string)
    : app_m (D := D) ListResponse :=
  let request := request_context h origin in
  let* caller := api_authenticate h ActList request in
  let* prefix := parse_path_recorded caller ActList request raw in
  let* wanted := plift (parse_rotation rotation) in
  let* listed := with_store (mmap_err api_of_store (list_with_rotation (Some prefix))) in
  let visible := visible_entries caller wanted listed in
  let* _ := record_listing caller prefix request (Z.of_nat (length visible)) in
  pret (mkListResponse (path_str prefix) (map le_path visible) visible).

(** ** Export *)

Fixpoint validate_paths (seen : list SecretPath) (raw : list string) : result ApiError (list SecretPath) :=
  match raw with
  | [] => Ok seen
  | one :: raw =>
      let? path := api_parse_path one in
      if existsb (fun s => String.eqb (path_str s) (path_str path)) seen
      then Err (BadRequest (path_str path ++ " is requested more than once"))
      else validate_paths (seen ++ [path]) raw
  end.

Definition validate_export_paths (raw : list string) : result ApiError (list SecretPath) :=
  match raw with
  | [] => Err (BadRequest "no paths requested")
  | _ =>
      if (EXPORT_PATHS_MAX <? length raw)%nat
      then Err (BadRequest (dec (Z.of_nat (length raw)) ++ " paths requested; at most "
                            ++ dec (Z.of_nat EXPORT_PATHS_MAX) ++ " in one export"))
      else validate_paths [] raw
  end.

(** One value, after its decision was recorded. *)
Definition export_value (path : SecretPath) : app_m (D := D) (StoredVersion * string) :=
  let* stored := with_store (mmap_err api_of_store (Store.get path None)) in
  let* value := plift (decrypt_to_text stored) in
  pret (stored, value).

(** The outcome, and the paths that were recorded as served by then. *)
Fixpoint export_secrets (c : Caller) (request : RequestContext) (paths : list SecretPath)
    (recorded : list SecretPath) (bytes : Z) (secrets : list ExportedSecret)
    : app_m (D := D) (result ApiError (list ExportedSecret) * list SecretPath) :=
  match paths with
  | [] => pret (Ok secrets, recorded)
  | path :: paths =>
      let* decided := ptry (authorize_and_record state c ActRead CapRead path request) in
      match decided with
      | Err e => pret (Err e, recorded)
      | Ok _ =>
          let recorded := recorded ++ [path] in
          let* served := ptry (export_value path) in
          match served with
          | Err e => pret (Err e, recorded)
          | Ok (stored, value) =>
              let bytes := u64_sat_add bytes (len value) in
              if (EXPORT_BYTES_MAX <? bytes)%Z then
                pret (Err (BadRequest ("this export exceeds " ++ dec EXPORT_BYTES_MAX
                                       ++ " bytes of values; request fewer paths")), recorded)
              else
                export_secrets c request paths recorded bytes
                  (secrets ++ [mkExportedSecret (path_str (sv_path stored)) (version_get (sv_version stored)) value])
          end
      end
  end.

Definition export (h : Headers) (origin : option IpAddr) (body : list string) : app_m (D := D) (list ExportedSecret) :=
  let request := request_context h origin in
  let* caller := api_authenticate h ActRead request in
  let* paths :=
    match validate_export_paths body with
    | Ok paths => pret paths
    | Err refused =>
        let* _ := record_refusal caller ActRead request (api_status refused) "malformed-export" in
        pfail refused
    end in
  let* ' (outcome, recorded) := export_secrets caller request paths [] 0 [] in
  match outcome with
  | Ok secrets => pret secrets
  | Err error =>
      let* _ := pfor recorded (fun path =>
        record_outcome caller ActRead (Some path) request (api_status error) (Some "not-served")) in
      pfail error
  end.

(** ** The administrative reads *)

(** Authenticate and authorize [inspect] on a reserved path. *)
Definition inspect (h : Headers) (origin : option IpAddr) (name : string) : app_m (D := D) Caller :=
  let request := request_context h origin in
  let* caller := api_authenticate h ActRead request in
  let* _ := authorize_and_record state caller ActRead CapInspect (reserved_path name) request in
  pret caller.

Definition surface_entry_response (active : ActiveEntry) : SurfaceEntryResponse :=
  mkSurfaceEntryResponse (a_name active) (kind_str (a_kind active)) (a_accepted active) (a_reason active)
    (a_cost active).

Definition read_surface (h : Headers) (origin : option IpAddr) : app_m (D := D) (list SurfaceEntryResponse) :=
  let* _ := inspect h origin "surface" in
  pret (map surface_entry_response (in_surface state)).

Definition honeypot_response (e : Honeypot) : HoneypotResponse :=
  mkHoneypotResponse (bait_kind_str (h_kind e)) (h_path e) (h_token_id e) (h_identity e) (tier_str (h_tier e))
    (h_tripped e).
Definition trip_response (t : Trip) : TripResponse :=
  mkTripResponse (trip_at t) (bait_kind_str (trip_kind t)) (trip_path t) (trip_token_id t) (trip_identity t)
    (tier_str (trip_tier t)).

Definition read_honeypots (h : Headers) (origin : option IpAddr)
    : app_m (D := D) (list HoneypotResponse * list TripResponse) :=
  let request := request_context h origin in
  let* caller := inspect h origin "honeypots" in
  let* found := complete_or_record caller ActRead (reserved_path "honeypots") request "not-served"
    (with_store (mmap_err api_of_store
      (let! bait := honeypots in let! trips := open_trips in mret (bait, trips)))) in
  let '(bait, trips) := found in
  pret (map honeypot_response bait, map trip_response trips).

Definition audit_entry (row : AuditRow) : result ApiError AuditEntryResponse :=
  let? record := map_err (fun e => Internal ("a stored audit record is not readable: " ++ e))
                   (raw_value (ar_payload row)) in
  Ok (mkAuditEntryResponse (ar_seq row) (hex_encode (ar_hash row)) record).

Definition read_audit (h : Headers) (origin : option IpAddr) (q : AuditQuery)
    : app_m (D := D) (list AuditEntryResponse) :=
  let request := request_context h origin in
  let* caller := inspect h origin "audit" in
  let* allowed := plift (audit_decision q) in
  let* window := plift (audit_window q) in
  let filter := mkAuditFilter (clamp_limit (aq_limit q)) window (aq_since q) (aq_identity q) (aq_path q) allowed in
  complete_or_record caller ActRead (reserved_path "audit") request "not-served" (
    let* rows := with_store (mmap_err api_of_store (audit_query filter)) in
    plift (res_mapM audit_entry rows)).

Definition identity_response (i : Identity) : IdentityResponse :=
  mkIdentityResponse (identity_name i)
    (match identity_kind i with Machine => "machine" | Human => "human" end) (identity_policies i).

Definition read_identities (h : Headers) (origin : option IpAddr) : app_m (D := D) (list IdentityResponse) :=
  let* _ := inspect h origin "identities" in
  pret (map identity_response (ps_all_identities (in_policies state))).

Definition rule_response (r : Rule) : RuleResponse :=
  mkRuleResponse (pat_text (rule_pattern r))
    (map capability_str (List.filter (fun c => bool_decide (c ∈ rule_capabilities r)) Capability_ALL))
    (specificity (rule_pattern r)).

Definition read_policies (h : Headers) (origin : option IpAddr) : app_m (D := D) (list PolicyResponse) :=
  let* _ := inspect h origin "policies" in
  pret (map (fun p => mkPolicyResponse (policy_name p) (map rule_response (policy_rules p)))
          (ps_all_policies (in_policies state))).

Definition token_response (now : Z) (r : TokenRecord) : TokenResponse :=
  mkTokenResponse (tr_token_id r) (tr_identity r) (token_state_str (state_at r now)) (tr_created_at r)
    (tr_created_by r) (tr_expires_at r) (tr_last_used_at r) (tr_revoked_at r) (tr_honeypot r).

Definition read_tokens (h : Headers) (origin : option IpAddr) (identity : option string)
    : app_m (D := D) (list TokenResponse) :=
  let* _ := inspect h origin "tokens" in
  let* now := now_millis in
  let* found := with_store (mmap_err api_of_store (tokens identity)) in
  pret (map (token_response now) found).

(** ** Revoking and federating *)

Definition revoke_subject (r : TokenRecord) : Principal :=
  mkPrincipal (tr_identity r) None (Some (tr_token_id r)).

Definition api_revoke_token (h : Headers) (origin : option IpAddr) (token_id : string)
    : app_m (D := D) RevokeResponse :=
  let request := request_context h origin in
  let* caller := api_authenticate h ActRevokeToken request in
  let path := reserved_path "tokens" in
  let* found := with_store (mmap_err api_of_store (Tokens.token token_id)) in
  let* _ := authorize_and_record_subject state caller ActRevokeToken CapRevoke path
              (option_map revoke_subject found) request in
  match found with
  | None => pfail ApiNotFound
  | Some found =>
      let* revoked_now := complete_or_record caller ActRevokeToken path request "revoke-failed"
        (with_store_now (fun now => mmap_err api_of_store (revoke_token token_id now))) in
      pret (mkRevokeResponse token_id (tr_identity found) revoked_now)
  end.

(** What the caller asked for, in milliseconds. *)
Definition asked_ttl (ttl_seconds : option Z) : result ApiError (option Z) :=
  match ttl_seconds with
  | None => Ok None
  | Some seconds =>
      let asked := i64_sat (seconds * 1000) in
      if (asked <? 1000)%Z
      then Err (BadRequest "ttl_seconds must be at least 1; omit it for the configured lifetime")
      else Ok (Some asked)
  end.

Definition generate_token : app_m (D := D) Token :=
  patomic (fun a =>
    let '(r, g) := Token_generate (app_rng a) in
    (map_err (fun _ => Internal "the operating system provided no randomness for a federated token") r,
     set_rng g a)).

Definition oidc_login (h : Headers) (origin : option IpAddr) (body : OidcLoginRequest)
    : app_m (D := D) OidcLoginResponse :=
  let request := request_context h origin in
  let* now := now_millis in
  let* asked_ms := plift (asked_ttl (or_ttl_seconds body)) in
  match exchange (in_federation state) (or_id_token body) now with
  | Unverifiable_ _ => pfail Unauthenticated
  | Refused provider subject reason =>
      let* _ := record_federation state provider subject (FederationRefused (refusal_str reason)) 401 request in
      pfail Unauthenticated
  | Accepted_ accepted =>
      let ttl_ms := match asked_ms with
                    | None => acc_ttl_ms accepted
                    | Some asked => Z.min asked (acc_ttl_ms accepted)
                    end in
      let expires_at := i64_sat (now + ttl_ms) in
      let* token := generate_token in
      let token_id := TokenId_as_text (Token.token_id token) in
      let* _ := record_federation state (acc_provider accepted) (Some (acc_subject accepted))
                  (Minted (acc_identity accepted) token_id) 200 request in
      let* stored := ptry (store_federated_token state (acc_identity accepted) token (acc_provider accepted)
                             expires_at) in
      match stored with
      | Err error =>
          let* _ := record_federation state (acc_provider accepted) (Some (acc_subject accepted))
                      (FederationRefused "mint-failed") (api_status error) request in
          pfail error
      | Ok _ =>
          pret (mkOidcLoginResponse (expose_text token) token_id (acc_identity accepted) expires_at)
      end
  end.

(** ** Health *)

Definition health : app_m (D := D) Health :=
  let* tripwire := if (honeypot_alert : bool) then tripwire_state else pret None in
  let watching : bool := honeypot_alert in
  let degraded := if watching && is_none tripwire then ["tripwires"] else [] in
  let* devices := audit_devices in
  pret (mkHealth (match degraded with [] => "ok" | _ => "degraded" end) false (in_seal_id state)
          (in_key_source state) devices (surface_names (in_surface state)) (fst <$> tripwire) (snd <$> tripwire)
          degraded "v1").

(** ** The router *)

Inductive Route : Type :=
| GetHealth | GetSecret | PutSecret | DeleteSecret | GetVersions | GetList | GetSurface
| GetAudit | GetIdentities | GetPolicies | PostExport | GetTokens | PostRevoke | PostOidcLogin | GetHoneypots.

(** Which routes this composition has. *)
Definition has_route (r : Route) : bool :=
  match r with
  | GetHealth | GetSecret | PutSecret | DeleteSecret | GetVersions | GetList | GetSurface => true
  | GetAudit | GetIdentities | GetPolicies => surface_has (in_surface state) "viewer_api"
  | PostExport => surface_has (in_surface state) "bulk_export"
  | GetTokens => surface_has (in_surface state) "token_status"
  | PostRevoke => surface_has (in_surface state) "token_revoke"
  | PostOidcLogin => surface_has (in_surface state) SURFACE_ENTRY
  | GetHoneypots => honeypot_alert
  end.

(** The method and the path of each, as the router is given them. *)
Definition route_pattern (r : Route) : string * string :=
  match r with
  | GetHealth => ("GET", "/v1/health")
  | GetSecret => ("GET", "/v1/secrets/{*path}")
  | PutSecret => ("PUT", "/v1/secrets/{*path}")
  | DeleteSecret => ("DELETE", "/v1/secrets/{*path}")
  | GetVersions => ("GET", "/v1/versions/{*path}")
  | GetList => ("GET", "/v1/list/{*prefix}")
  | GetSurface => ("GET", "/v1/surface")
  | GetAudit => ("GET", "/v1/audit")
  | GetIdentities => ("GET", "/v1/identities")
  | GetPolicies => ("GET", "/v1/policies")
  | PostExport => ("POST", "/v1/export")
  | GetTokens => ("GET", "/v1/tokens")
  | PostRevoke => ("POST", "/v1/tokens/{token_id}/revoke")
  | PostOidcLogin => ("POST", "/v1/auth/oidc/login")
  | GetHoneypots => ("GET", "/v1/honeypots")
  end.

(** A request the extractors have taken apart. *)
Inductive Request : Type :=
| ReqHealth
| ReqRead (path : string) (version : option Z)
| ReqWrite (path : string) (body : result string SecretBody)
| ReqDelete (path : string) (version : option Z)
| ReqVersions (path : string)
| ReqList (prefix : string) (rotation : option string)
| ReqSurface
| ReqAudit (q : AuditQuery)
| ReqIdentities
| ReqPolicies
| ReqExport (body : result string (list string))
| ReqTokens (identity : option string)
| ReqRevoke (token_id : string)
| ReqOidcLogin (body : result string OidcLoginRequest)
| ReqHoneypots
| ReqUnmatchedRoute
| ReqUnmatchedMethod.

Inductive Reply : Type :=
| RepHealth (r : Health)
| RepSecret (r : SecretResponse)
| RepWrite (r : WriteResponse)
| RepNoContent
| RepVersions (r : VersionsResponse)
| RepList (r : ListResponse)
| RepSurface (r : list SurfaceEntryResponse)
| RepAudit (r : list AuditEntryResponse)
| RepIdentities (r : list IdentityResponse)
| RepPolicies (r : list PolicyResponse)
| RepExport (r : list ExportedSecret)
| RepTokens (r : list TokenResponse)
| RepRevoke (r : RevokeResponse)
| RepOidcLogin (r : OidcLoginResponse)
| RepHoneypots (r : list HoneypotResponse) (trips : list TripResponse).

Definition request_route (q : Request) : option Route :=
  match q with
  | ReqHealth => Some GetHealth
  | ReqRead _ _ => Some GetSecret
  | ReqWrite _ _ => Some PutSecret
  | ReqDelete _ _ => Some DeleteSecret
  | ReqVersions _ => Some GetVersions
  | ReqList _ _ => Some GetList
  | ReqSurface => Some GetSurface
  | ReqAudit _ => Some GetAudit
  | ReqIdentities => Some GetIdentities
  | ReqPolicies => Some GetPolicies
  | ReqExport _ => Some PostExport
  | ReqTokens _ => Some GetTokens
  | ReqRevoke _ => Some PostRevoke
  | ReqOidcLogin _ => Some PostOidcLogin
  | ReqHoneypots => Some GetHoneypots
  | ReqUnmatchedRoute | ReqUnmatchedMethod => None
  end.

Definition fallback (h : Headers) (origin : option IpAddr) (reason : string) : app_m (D := D) Reply :=
  let* error := refused_request h origin reason in pfail error.

Definition reply_of {A B} (f : A -> B) (m : app_m (D := D) A) : app_m (D := D) B :=
  let* a := m in pret (f a).

Definition serve_route (h : Headers) (origin : option IpAddr) (q : Request) : app_m (D := D) Reply :=
  match q with
  | ReqHealth => reply_of RepHealth health
  | ReqRead path version => reply_of RepSecret (read_secret h origin path version)
  | ReqWrite path body =>
      let* body := audited_json ActWrite h origin body in
      reply_of RepWrite (write_secret h origin path body)
  | ReqDelete path version => reply_of (fun _ => RepNoContent) (delete_secret h origin path version)
  | ReqVersions path => reply_of RepVersions (list_versions h origin path)
  | ReqList prefix rotation => reply_of RepList (api_list_paths h origin prefix rotation)
  | ReqSurface => reply_of RepSurface (read_surface h origin)
  | ReqAudit q => reply_of RepAudit (read_audit h origin q)
  | ReqIdentities => reply_of RepIdentities (read_identities h origin)
  | ReqPolicies => reply_of RepPolicies (read_policies h origin)
  | ReqExport body =>
      let* body := audited_json ActRead h origin body in
      reply_of RepExport (export h origin body)
  | ReqTokens identity => reply_of RepTokens (read_tokens h origin identity)
  | ReqRevoke token_id => reply_of RepRevoke (api_revoke_token h origin token_id)
  | ReqOidcLogin body =>
      let* body := audited_json ActFederateToken h origin body in
      reply_of RepOidcLogin (oidc_login h origin body)
  | ReqHoneypots => reply_of (fun '(b, t) => RepHoneypots b t) (read_honeypots h origin)
  | ReqUnmatchedRoute => fallback h origin "unmatched-route"
  | ReqUnmatchedMethod => fallback h origin "unmatched-method"
  end.

(** A path whose route this composition does not have matches nothing. *)
Definition serve (h : Headers) (origin : option IpAddr) (q : Request) : app_m (D := D) Reply :=
  match request_route q with
  | Some r => if has_route r then serve_route h origin q else fallback h origin "unmatched-route"
  | None => serve_route h origin q
  end.
End handlers.

(** ** The response on the wire *)

Record HttpResponse : Type := mkHttpResponse {
  http_status : Z;
  http_headers : list (string * string);
  http_body : option (Reply + ErrorBody);
}.

(** [map_response(no_store)]: the header replaces one of the same name. *)
Definition no_store (r : HttpResponse) : HttpResponse :=
  mkHttpResponse (http_status r)
    (List.filter (fun kv => negb (String.eqb (fst kv) "cache-control")) (http_headers r)
      ++ [("cache-control", "no-store")]) (http_body r).

Definition into_response (outcome : result ApiError Reply) : HttpResponse :=
  match outcome with
  | Ok RepNoContent => mkHttpResponse 204 [] None
  | Ok reply => mkHttpResponse 200 [("content-type", "application/json")] (Some (inl reply))
  | Err e =>
      let '(status, body, challenge) := error_response e in
      mkHttpResponse status
        (("content-type", "application/json") ::
         match challenge with Some c => [("www-authenticate", c)] | None => [] end)
        (Some (inr body))
  end.

Definition respond (outcome : result ApiError Reply) : HttpResponse := no_store (into_response outcome).
