(* ===== verification/Service.v ===== *)
(** * What the service promises (the handlers of [api.rs], together)

    Every handler under interference from every other: what an answer implies
    about the trail and the policies, and that nothing protected changes without a
    recorded decision. *)

From Stdlib Require Import ZArith NArith Lia Ascii String.
From stdpp Require Import base tactics list strings gmap relations.
From S2P Require Import Prelude Text Hex Path Pattern Vocabulary PolicyModel Evaluate Crypto Token Chain Sink Db Store.
From S2P Require Import Tokens Honeypots StoreAudit Surface Oidc Config Prog State Trail Api.

(** ** A header never reaches the parser's panic *)

Definition ascii_text (s : string) : Prop := Forall (fun c => (N_of_ascii c < 128)%N) (as_bytes s).

Lemma chars_ascii_text s : ascii_text s -> chars s = map N_of_ascii (as_bytes s).
Proof.
  unfold ascii_text. induction s as [|c s IH]; intros Hs; [done|]. apply Forall_cons in Hs as [Hc Hs].
  rewrite chars_ascii by done. simpl. by rewrite IH.
Qed.

Lemma of_chars_ascii l : Forall (fun c => (N_of_ascii c < 128)%N) l -> of_chars (map N_of_ascii l) = str_of_bytes l.
Proof.
  induction 1 as [|c l Hc Hl IH]; [done|]. simpl. unfold of_chars in IH |- *. simpl. rewrite IH.
  unfold utf8_of_char. rewrite (proj2 (N.ltb_lt _ _)) by lia. by rewrite ascii_N_embedding.
Qed.

Lemma drop_while_map p (l : list ascii) :
  exists k, drop_while p (map N_of_ascii l) = map N_of_ascii k /\ forall c, c ∈ k -> c ∈ l.
Proof.
  induction l as [|c l (k & E & Hk)]; simpl; [by exists []|]. destruct (p (N_of_ascii c)).
  - exists k. split; [done|]. intros x Hx. right. auto.
  - by exists (c :: l).
Qed.

Lemma trim_ascii s : ascii_text s -> ascii_text (trim s).
Proof.
  intros Hs. unfold trim, trim_chars. rewrite chars_ascii_text by done.
  destruct (drop_while_map is_whitespace (as_bytes s)) as (k & -> & Hk). rewrite <- map_rev.
  destruct (drop_while_map is_whitespace (rev k)) as (k2 & -> & Hk2). rewrite <- map_rev.
  assert (Forall (fun c => (N_of_ascii c < 128)%N) (rev k2)) as Hf.
  { apply Forall_forall. intros c Hc. unfold ascii_text in Hs. rewrite Forall_forall in Hs. apply Hs, Hk.
    assert (forall (l : list ascii) x, x ∈ rev l -> x ∈ l) as Hrev
      by (intros l x; rewrite !list_elem_of_In; apply in_rev).
    by apply Hrev, Hk2, Hrev. }
  rewrite of_chars_ascii by done. unfold ascii_text. by rewrite as_bytes_of.
Qed.

Lemma ascii_text_app a b : ascii_text (a ++ b) -> ascii_text b.
Proof. unfold ascii_text. rewrite as_bytes_app. by intros [_ ?]%Forall_app. Qed.

Lemma Token_parse_ascii s : ascii_text s -> Token_parse s <> None.
Proof.
  intros Hs. unfold Token_parse. destruct (negb _); [done|].
  destruct (strip_prefix TOKEN_PREFIX s) as [body|] eqn:Hp; [|done]. apply strip_prefix_Some in Hp as ->.
  apply ascii_text_app in Hs. unfold split_at. pose proof (split_at_bytes_join 8 body) as E.
  destruct (split_at_bytes 8 body) as [a b]. rewrite <- E in Hs. apply ascii_text_app in Hs.
  destruct b as [|c b]; [done|]. apply Forall_inv in Hs. unfold is_continuation, byte_val.
  rewrite (proj2 (Z.leb_gt _ _)) by lia. done.
Qed.

Lemma bearer_token_ascii h t : bearer_token h = Some t -> ascii_text t.
Proof.
  unfold bearer_token, to_str. intros Ht. apply bind_Some in Ht as (v & _ & Ht).
  apply bind_Some in Ht as (w & Hw & Ht). destruct (forallb visible (as_bytes v)) eqn:Hv; [|done].
  injection Hw as <-. apply fmap_Some in Ht as (r & Hr & ->). apply strip_prefix_Some in Hr as ->.
  apply trim_ascii. eapply ascii_text_app. apply Forall_forall. intros c Hc.
  rewrite List.forallb_forall in Hv. apply list_elem_of_In, Hv in Hc. unfold visible, byte_val in Hc. lia.
Qed.

Lemma bearer_token_parses h t : bearer_token h = Some t -> Token_parse t <> None.
Proof. intros Ht. by eapply Token_parse_ascii, bearer_token_ascii. Qed.

Section service.
Context {H : Sha256} {J : Json} {M : Mac} {En : Entropy} {F : Features}.
Context {D : Type} `{!AuditDevice D} {L : AuditDeviceLaws D}.
Context {A : Aead} {U : Unicode} {LJ : LogJson} {RJ : RawJson} {R : ClaimsReader} {Sg : Signatures}.
Context (state : Inner).
(** The states of the run the request is part of. *)
Context (visits : App D -> Prop).

(** ** Store calls that change nothing protected *)

Lemma keeps_update_last_used p now :
  respects (fun s s' : Store => protected_rows (st_db s') = protected_rows (st_db s))
    (update_tokens p (set_last_used now)).
Proof.
  intros s r s' Hr. destruct r as [n|e].
  - apply sql_change_Ok in Hr. simpl in Hr. injection Hr as _ ->. unfold protected_rows. simpl. f_equal.
    rewrite map_map. apply map_ext. intros x. by destruct (p x).
  - by rewrite (sql_Err _ _ _ _ Hr).
Qed.

Lemma keeps_of_reads {B} (m : store_m B) : reads_only m ->
  respects (fun s s' : Store => protected_rows (st_db s') = protected_rows (st_db s)) m.
Proof. intros Hm s r s' Hr. apply Hm in Hr. simpl in Hr. by rewrite Hr. Qed.

Lemma keeps_authenticate presented pepper now work :
  authenticate presented pepper now = Some work -> keeps_protected (mmap_err api_of_store work).
Proof.
  intros Ha. apply respects_map_err. unfold authenticate in Ha.
  destruct (Token_parse presented) as [[t|e]|]; [| |done]; injection Ha as <-.
  - unfold authenticate_token. apply respects_bind; [typeclasses eauto|apply keeps_of_reads, token_reads|].
    intros record. apply respects_bind; [typeclasses eauto| |].
    { apply keeps_of_reads. destruct record; [|reads]. unfold verifier_for. reads. }
    intros stored. destruct record as [record|]; [|apply respects_ret; typeclasses eauto].
    destruct (negb _); [apply respects_ret; typeclasses eauto|].
    destruct (tr_honeypot record); [apply respects_ret; typeclasses eauto|].
    destruct (negb _); [apply respects_ret; typeclasses eauto|].
    apply respects_bind; [typeclasses eauto| |intros _; apply respects_ret; typeclasses eauto].
    apply respects_try, keeps_update_last_used.
  - apply respects_ret. typeclasses eauto.
Qed.

Lemma reads_honeypot_tier path : reads_only (honeypot_tier path).
Proof. unfold honeypot_tier. reads. Qed.

Lemma keeps_latch_trip kind reference identity tier now :
  keeps_protected (mmap_err api_of_store (latch_trip kind reference identity tier now)).
Proof.
  apply respects_map_err. unfold latch_trip. apply respects_bind; [typeclasses eauto| |].
  - apply respects_try. intros s r s' Hr. unfold insert_trip in Hr. destruct r as [u|e].
    + apply sql_Ok in Hr. destruct (has_open_trip _ _ _); [done|].
      destruct kind; injection Hr as _ <-; done.
    + by rewrite (sql_Err _ _ _ _ Hr).
  - intros [u|e]; [apply respects_ret; typeclasses eauto|].
    assert (keeps_protected (mfail (A := bool) e : store_m bool)) as Hf by (apply respects_fail; typeclasses eauto).
    destruct e as [| | | | | | | | | | | | | | |[m|m]| | |]; try exact Hf.
    apply keeps_of_reads. unfold trip_is_open. reads.
Qed.

(** ** Preconditions of what the handlers share *)

(** The token of this request was valid at some moment before. *)
Definition authenticated (h : Headers) (c : Caller) (s : App D) : Prop :=
  exists presented now work before, visits before /\ bearer_token h = Some presented /\
    authenticate presented (in_pepper state) now = Some work /\
    fst (work (app_store before)) = Ok (Valid (mkAuthenticated (caller_identity c) (caller_token_id c))) /\
    caller_kind c = identity_kind_of state (caller_identity c) /\ trail_grows before s.

(** Some device holds an entry that says no. *)
Definition denial_recorded (s : App D) : Prop := exists e, e_allowed e = false /\ trail_holds e s.

Lemma grows_denial s s' : trail_grows s s' -> denial_recorded s -> denial_recorded s'.
Proof. intros Hg (e & He & Hh). exists e. split; [done|]. by eapply grows_holds. Qed.

Lemma grows_authenticated h c s s' : trail_grows s s' -> authenticated h c s -> authenticated h c s'.
Proof. intros Hg (p & n & w & b & ? & ? & ? & ? & ? & ?). exists p, n, w, b. split_and!; try done. by etrans. Qed.

Section calls.
Context (guar : App D -> App D -> Prop).
Context (quiet : forall a a', trail_grows a a' -> protected a' = protected a -> guar a a').

Abbreviation awp m Q s := (wp (within visits trail_grows) guar m Q s).
Abbreviation awp_record := (awp_record guar quiet visits).
Abbreviation awp_read := (awp_read guar quiet visits).
Abbreviation awp_with_store := (awp_with_store guar quiet visits).
Abbreviation awp_with_store_now := (awp_with_store_now guar quiet visits).

Lemma awp_ret {B} (b : B) (Q : result ApiError B -> App D -> Prop) s :
  app_wf s -> (forall s', app_wf s' -> trail_grows s s' -> Q (Ok b) s') -> awp (pret b) Q s.
Proof. intros Hwf HQ s' [Hs _]. apply HQ; [by eapply grows_wf|done]. Qed.

Lemma awp_lift {B} (r : result ApiError B) (Q : result ApiError B -> App D -> Prop) s :
  app_wf s -> (forall s', app_wf s' -> trail_grows s s' -> Q r s') -> awp (plift r) Q s.
Proof. intros Hwf HQ s' [Hs _]. apply HQ; [by eapply grows_wf|done]. Qed.

Lemma awp_fail {B} e (Q : result ApiError B -> App D -> Prop) s :
  app_wf s -> (forall s', app_wf s' -> trail_grows s s' -> Q (Err e) s') -> awp (pfail e) Q s.
Proof. intros Hwf HQ s' [Hs _]. apply HQ; [by eapply grows_wf|done]. Qed.

Lemma awp_latch kind reference identity tier (Q : result ApiError unit -> App D -> Prop) s :
  app_wf s -> (forall s', app_wf s' -> trail_grows s s' -> Q (Ok tt) s') ->
  awp (latch_off_the_request_path kind reference identity tier) Q s.
Proof.
  intros Hwf HQ. apply wp_bind; [typeclasses eauto|]. apply awp_read; [done|done|].
  intros claimed s1 Hwf1 Hs1. destruct claimed.
  - apply awp_read; [done|done|]. intros [] s2 Hwf2 Hs2. apply HQ; [done|by etrans].
  - apply awp_ret; [done|]. intros s2 Hwf2 Hs2. apply HQ; [done|by etrans].
Qed.

Lemma awp_record_rejection action request bait (Q : result ApiError unit -> App D -> Prop) s :
  app_wf s ->
  (forall s', app_wf s' -> trail_grows s s' -> denial_recorded s' -> Q (Ok tt) s') ->
  (forall s', app_wf s' -> trail_grows s s' -> Q (Err AuditUnavailable) s') ->
  awp (record_rejection action request bait) Q s.
Proof.
  intros Hwf HOk HErr. unfold record_rejection. destruct (if honeypot_alert then bait else None) as [b|].
  - apply wp_bind; [typeclasses eauto|]. apply awp_record; [done| |by auto].
    intros s1 Hwf1 Hs1 Hh. apply awp_latch; [done|]. intros s2 Hwf2 Hs2.
    apply HOk; [done|by etrans|]. eapply grows_denial; [exact Hs2|]. eexists. split; [|exact Hh]. done.
  - apply awp_record; [done| |by auto]. intros s1 Hwf1 Hs1 Hh. apply HOk; [done|done|].
    eexists. split; [|exact Hh]. done.
Qed.

Lemma awp_state_authenticate h (Q : result ApiError (result Rejection Caller) -> App D -> Prop) s :
  app_wf s ->
  (forall c s', app_wf s' -> trail_grows s s' -> authenticated h c s' -> Q (Ok (Ok c)) s') ->
  (forall e s', app_wf s' -> trail_grows s s' -> Q (Ok (Err e)) s') ->
  awp (state_authenticate state (bearer_token h)) Q s.
Proof.
  intros Hwf HOk HErr. unfold state_authenticate. destruct (bearer_token h) as [presented|] eqn:Hb.
  2: { apply awp_ret; [done|]. auto. }
  pose proof (bearer_token_parses _ _ Hb) as Hp. destruct (Token_parse presented) as [parsed|] eqn:Ht; [|done].
  apply wp_bind; [typeclasses eauto|]. apply wp_try, awp_with_store_now; [done| |].
  - intros a _ _. left. intros now. destruct (authenticate presented (in_pepper state) now) eqn:Ha.
    + by eapply keeps_authenticate.
    + apply respects_map_err, respects_ret. typeclasses eauto.
  - intros now s1 s2 Hwf2 Hv1 Hs1 Hs2.
    assert (exists work, authenticate presented (in_pepper state) now = Some work) as [work Ha].
    { unfold authenticate. rewrite Ht. destruct parsed; eauto. }
    rewrite Ha. unfold mmap_err. destruct (work (app_store s1)) as [r st] eqn:Hw. simpl.
    assert (trail_grows s s2) as Hs02 by by etrans.
    destruct r as [[a| |token_id identity]|e]; simpl; apply awp_ret; try done;
      intros s3 Hwf3 Hs3; try (apply HErr; [done|by etrans]).
    apply HOk; [done|by etrans|]. exists presented, now, work, s1. split_and!; [done|done|done| |done|by etrans].
    rewrite Hw. by destruct a.
Qed.

Lemma awp_authenticate h action request (Q : result ApiError Caller -> App D -> Prop) s :
  app_wf s ->
  (forall c s', app_wf s' -> trail_grows s s' -> authenticated h c s' -> Q (Ok c) s') ->
  (forall e s', app_wf s' -> trail_grows s s' -> e = AuditUnavailable \/ denial_recorded s' -> Q (Err e) s') ->
  awp (api_authenticate state h action request) Q s.
Proof.
  intros Hwf HOk HErr. apply wp_bind; [typeclasses eauto|]. apply awp_state_authenticate; [done| |].
  - intros c s1 Hwf1 Hs1 Ha. apply awp_ret; [done|]. intros s2 Hwf2 Hs2.
    apply HOk; [done|by etrans|by eapply grows_authenticated].
  - intros e s1 Hwf1 Hs1. apply wp_bind; [typeclasses eauto|]. apply awp_record_rejection; [done| |].
    + intros s2 Hwf2 Hs2 Hd. apply awp_fail; [done|]. intros s3 Hwf3 Hs3.
      apply HErr; [done|by do 2 (etrans; [eassumption|])|]. right. by eapply grows_denial.
    + intros s2 Hwf2 Hs2. apply HErr; [done|by etrans|by left].
Qed.

Lemma awp_record_refusal c attempted request status reason (Q : result ApiError unit -> App D -> Prop) s :
  app_wf s ->
  (forall s', app_wf s' -> trail_grows s s' -> denial_recorded s' -> Q (Ok tt) s') ->
  (forall s', app_wf s' -> trail_grows s s' -> Q (Err AuditUnavailable) s') ->
  awp (record_refusal c attempted request status reason) Q s.
Proof.
  intros Hwf HOk HErr. apply awp_record; [done| |by auto]. intros s1 Hwf1 Hs1 Hh. apply HOk; [done|done|].
  eexists. split; [|exact Hh]. done.
Qed.

Lemma awp_parse_path c attempted request raw (Q : result ApiError SecretPath -> App D -> Prop) s :
  app_wf s ->
  (forall path s', app_wf s' -> trail_grows s s' -> api_parse_path raw = Ok path -> Q (Ok path) s') ->
  (forall e s', app_wf s' -> trail_grows s s' -> e = AuditUnavailable \/ denial_recorded s' -> Q (Err e) s') ->
  awp (parse_path_recorded c attempted request raw) Q s.
Proof.
  intros Hwf HOk HErr. unfold parse_path_recorded. destruct (api_parse_path raw) as [path|refused] eqn:Hp.
  - apply awp_ret; [done|]. auto.
  - apply wp_bind; [typeclasses eauto|]. apply awp_record_refusal; [done| |].
    + intros s1 Hwf1 Hs1 Hd. apply awp_fail; [done|]. intros s2 Hwf2 Hs2.
      apply HErr; [done|by etrans|]. right. by eapply grows_denial.
    + intros s1 Hwf1 Hs1. apply HErr; [done|done|by left].
Qed.

(** The entry of an allowed decision, and the licence it is. *)
Definition decided (c : Caller) (action : Action) (capability : Capability) (path : SecretPath)
    (subject : option Principal) (request : RequestContext) (s : App D) : Prop :=
  Evaluate.is_allowed (authorize state c capability path) = true /\
  exists bait, trail_holds
    (decision_entry c action path subject request (authorize state c capability path) bait) s.

Lemma grows_decided c action capability path subject request s s' :
  trail_grows s s' -> decided c action capability path subject request s ->
  decided c action capability path subject request s'.
Proof. intros Hg [Ha [b Hb]]. split; [done|]. exists b. by eapply grows_holds. Qed.

Lemma decision_entry_denied c action path subject request d bait :
  Evaluate.is_allowed d = false -> e_allowed (decision_entry c action path subject request d bait) = false.
Proof. intros Hd. unfold decision_entry. rewrite Hd. by destruct subject, (decided_by d). Qed.

Lemma decision_entry_allowed c action path subject request d bait :
  Evaluate.is_allowed d = true -> e_allowed (decision_entry c action path subject request d bait) = true.
Proof. intros Hd. unfold decision_entry. rewrite Hd. by destruct bait, subject, (decided_by d). Qed.

(** How a decision fails: refused and recorded, the trail unavailable, or the look
    for bait failed. *)
Definition decision_failed (s : App D) (e : ApiError) : Prop :=
  e = AuditUnavailable \/ denial_recorded s \/ honeypot_alert = true.

Lemma awp_decide c action capability path subject request (Q : result ApiError unit -> App D -> Prop) s :
  app_wf s ->
  (forall s', app_wf s' -> trail_grows s s' -> decided c action capability path subject request s' -> Q (Ok tt) s') ->
  (forall e s', app_wf s' -> trail_grows s s' -> decision_failed s' e -> Q (Err e) s') ->
  awp (authorize_and_record_subject state c action capability path subject request) Q s.
Proof.
  intros Hwf HOk HErr. unfold authorize_and_record_subject. apply wp_bind; [typeclasses eauto|].
  set (d := authorize state c capability path).
  assert (forall bait s1, app_wf s1 -> trail_grows s s1 ->
    awp (pbind (record (decision_entry c action path subject request d bait)) (fun _ =>
      pbind (match bait with
             | Some tier => latch_off_the_request_path BaitSecret (path_str path) (Some (caller_identity c)) tier
             | None => pret tt end) (fun _ => if Evaluate.is_allowed d then pret tt else pfail Forbidden))) Q s1)
    as Hrest.
  { intros bait s1 Hwf1 Hs1. apply wp_bind; [typeclasses eauto|]. apply awp_record; [done| |].
    - intros s2 Hwf2 Hs2 Hh. apply wp_bind; [typeclasses eauto|].
      assert (forall s3, app_wf s3 -> trail_grows s2 s3 ->
        awp (if Evaluate.is_allowed d then pret tt else pfail Forbidden) Q s3) as Hend.
      { intros s3 Hwf3 Hs3. assert (trail_grows s s3) as Hg by (etrans; [exact Hs1|]; by etrans).
        destruct (Evaluate.is_allowed d) eqn:Hd.
        - apply awp_ret; [done|]. intros s4 Hwf4 Hs4. apply HOk; [done|by etrans|]. split; [done|].
          exists bait. eapply grows_holds; [|exact Hh]. by etrans.
        - apply awp_fail; [done|]. intros s4 Hwf4 Hs4. apply HErr; [done|by etrans|]. right. left.
          eapply grows_denial; [etrans; [exact Hs3|exact Hs4]|].
          eexists. split; [|exact Hh]. by apply decision_entry_denied. }
      destruct bait as [tier|]; [|by apply awp_ret].
      by apply awp_latch.
    - intros s2 Hwf2 Hs2. apply HErr; [done|by etrans|by left]. }
  destruct (honeypot_alert && _ && _) eqn:Hb.
  - apply awp_with_store; [done|apply keeps_reads, reads_honeypot_tier|]. intros s1 s2 Hwf2 _ Hs1 Hs2.
    assert (trail_grows s s2) by by etrans. unfold mmap_err. destruct (honeypot_tier path _) as [[bait|e] st]; simpl.
    + by apply Hrest.
    + apply HErr; [done|done|]. right. right. by apply andb_true_iff in Hb as [[-> _]%andb_true_iff _].
  - apply awp_ret; [done|]. intros s1 Hwf1 Hs1. by apply Hrest.
Qed.
End calls.

(** ** Licences *)

Definition mutating (c : Capability) : bool :=
  match c with CapWrite | CapDelete | CapRevoke => true | _ => false end.

(** The entries after which something protected may change: an allowed decision
    of a capability that changes something, or the mint of an accepted exchange. *)
Inductive licence : Entry -> Prop :=
| licence_decision c action capability path subject request bait :
    mutating capability = true -> permitted (in_policies state) (caller_identity c) path capability ->
    licence (decision_entry c action path subject request (authorize state c capability path) bait)
| licence_mint presented now a token_id request :
    exchange (in_federation state) presented now = Accepted_ a ->
    licence (federation_entry state (acc_provider a) (Some (acc_subject a)) (Minted (acc_identity a) token_id)
               200 request).

Lemma licence_allowed e : licence e -> e_allowed e = true.
Proof.
  intros [c action capability path subject request bait _ Hp|presented now a token_id request Ha]; [|done].
  apply decision_entry_allowed. by apply evaluate_permitted.
Qed.

Definition licensed (a a' : App D) : Prop :=
  trail_grows a a' /\ (protected a' = protected a \/ exists e, licence e /\ trail_holds e a).

Lemma licensed_quiet a a' : trail_grows a a' -> protected a' = protected a -> licensed a a'.
Proof. intros Hg Hp. split; [done|by left]. Qed.

Lemma licensed_by e a a' : trail_grows a a' -> licence e -> trail_holds e a -> licensed a a'.
Proof. intros Hg Hl Hh. split; [done|]. right. by exists e. Qed.

Lemma decided_licensed c action capability path subject request a a' :
  mutating capability = true -> decided c action capability path subject request a ->
  trail_grows a a' -> licensed a a'.
Proof.
  intros Hm [Ha [b Hb]] Hg. eapply licensed_by; [done| |exact Hb]. apply licence_decision; [done|].
  by apply evaluate_permitted.
Qed.

Abbreviation awp m Q s := (wp (within visits trail_grows) licensed m Q s).

(** How an error answer is told by the trail. *)
Definition told (s : App D) (e : ApiError) : Prop := e = AuditUnavailable \/ denial_recorded s.

Lemma awp_outcome_then_fail {B} c action path request reason e (Q : result ApiError B -> App D -> Prop) s :
  app_wf s -> (forall e' s', app_wf s' -> trail_grows s s' -> told s' e' -> Q (Err e') s') ->
  awp (pbind (record_outcome c action path request (api_status e) (Some reason)) (fun _ => pfail e)) Q s.
Proof.
  intros Hwf HQ. apply wp_bind; [typeclasses eauto|]. apply awp_record; [exact licensed_quiet|done| |].
  - intros s1 Hwf1 Hs1 Hh. apply awp_fail; [done|]. intros s2 Hwf2 Hs2. apply HQ; [done|by etrans|].
    right. eapply grows_denial; [exact Hs2|]. eexists. split; [|exact Hh]. by destruct path.
  - intros s1 Hwf1 Hs1. apply HQ; [done|done|by left].
Qed.

Lemma awp_complete {B} c action path request reason (work : app_m B) (Q : result ApiError B -> App D -> Prop) s :
  wp (within visits trail_grows) licensed work (fun r s' => app_wf s' /\
    match r with
    | Ok v => forall s'', app_wf s'' -> trail_grows s' s'' -> Q (Ok v) s''
    | Err e => forall e' s'', app_wf s'' -> trail_grows s' s'' -> told s'' e' -> Q (Err e') s''
    end) s ->
  awp (complete_or_record c action path request reason work) Q s.
Proof.
  intros Hw. apply wp_bind; [typeclasses eauto|]. apply wp_try. eapply wp_mono; [|exact Hw].
  intros [v|e] s' [Hwf HQ].
  - by apply awp_ret.
  - by apply awp_outcome_then_fail.
Qed.

(** ** Reading a secret *)

(** A value that was decided, recorded, then read. *)
Definition served (h : Headers) (origin : option IpAddr) (path : SecretPath) (wanted : option SecretVersion)
    (stored : StoredVersion) (value : string) (s : App D) : Prop :=
  exists c before, visits before /\ authenticated h c before /\
    decided c ActRead CapRead path None (request_context h origin) before /\
    fst (Store.get path wanted (app_store before)) = Ok stored /\
    decrypt_to_text state stored = Ok value /\ trail_grows before s.

Definition read_post (h : Headers) (origin : option IpAddr) (raw : string) (version : option Z)
    (r : result ApiError SecretResponse) (s : App D) : Prop :=
  match r with
  | Ok resp => exists path wanted stored, api_parse_path raw = Ok path /\ query_version version = Ok wanted /\
      served h origin path wanted stored (sr_value resp) s /\
      resp = mkSecretResponse (path_str (sv_path stored)) (version_get (sv_version stored)) (sr_value resp)
               (sv_created_at stored) (sv_created_by stored)
  | Err e => told s e \/ honeypot_alert = true \/ query_version version = Err e
  end.

Lemma grows_told s s' e : trail_grows s s' -> told s e -> told s' e.
Proof. intros Hg [->|Hd]; [by left|]. right. by eapply grows_denial. Qed.

Lemma awp_read_secret h origin raw version s :
  app_wf s -> awp (read_secret state h origin raw version) (read_post h origin raw version) s.
Proof.
  intros Hwf. unfold read_secret. apply wp_bind; [typeclasses eauto|].
  apply awp_authenticate; [exact licensed_quiet|done| |by intros e s1 _ _ ?; left].
  intros c s1 Hwf1 _ Hc. apply wp_bind; [typeclasses eauto|].
  apply awp_parse_path; [exact licensed_quiet|done| |by intros e s2 _ _ ?; left].
  intros path s2 Hwf2 Hs2 Hpath. apply wp_bind; [typeclasses eauto|].
  apply awp_decide; [exact licensed_quiet|done| |].
  2: { intros e s3 _ _ [He|[He|He]]; [left; by left|left; by right|right; by left]. }
  intros s3 Hwf3 Hs3 Hd. apply wp_bind; [typeclasses eauto|]. apply awp_lift; [done|].
  intros s4 Hwf4 Hs4. destruct (query_version version) as [wanted|e] eqn:Hv; [|by right; right].
  apply wp_bind; [typeclasses eauto|].
  apply wp_try, awp_with_store; [exact licensed_quiet|done|apply keeps_reads, reads_get|].
  intros s5 s6 Hwf6 Hv5 Hs5 Hs6. unfold mmap_err.
  destruct (Store.get path wanted (app_store s5)) as [[stored|e] st] eqn:Hg; simpl.
  2: { apply awp_outcome_then_fail; [done|]. intros e' s7 _ _ He. by left. }
  destruct (decrypt_to_text state stored) as [value|e] eqn:Ht.
  2: { apply awp_outcome_then_fail; [done|]. intros e' s7 _ _ He. by left. }
  apply awp_ret; [done|]. intros s7 Hwf7 Hs7. exists path, wanted, stored. split_and!; [done|done| |done].
  exists c, s5. rewrite Hg. split_and!; [done| | |done|done|by etrans].
  - eapply grows_authenticated; [|exact Hc]. etrans; [exact Hs2|]. etrans; [exact Hs3|]. by etrans.
  - eapply grows_decided; [|exact Hd]. by etrans.
Qed.

(** ** Writing a secret *)

Definition put_at (path : SecretPath) (by_ : string) (rotation : option Rotation) (plaintext : Plaintext)
    (now : Z) (g : rng) (st : Store) : result StoreError SecretVersion :=
  fst (put_with_rotation path by_ rotation
         (fun version => fst (encrypt (in_root state) path version plaintext g)) now st).

Definition write_post (h : Headers) (origin : option IpAddr) (raw : string) (body : SecretBody)
    (r : result ApiError WriteResponse) (s : App D) : Prop :=
  match r with
  | Ok resp => exists c path rotation version before now g, visits before /\
      api_parse_path raw = Ok path /\ is_reserved path = false /\
      parse_rotation (sb_rotation body) = Ok rotation /\ authenticated h c before /\
      decided c ActWrite CapWrite path None (request_context h origin) before /\
      (is_Some rotation -> decided c ActClassify CapWrite path None (request_context h origin) before) /\
      put_at path (caller_identity c) rotation (as_bytes (sb_value body)) now g (app_store before) = Ok version /\
      resp = mkWriteResponse (path_str path) (version_get version) /\ trail_grows before s
  | Err e => told s e \/ honeypot_alert = true \/
      (exists path, api_parse_path raw = Ok path /\ is_reserved path = true) \/
      parse_rotation (sb_rotation body) = Err e
  end.

Lemma api_reject_reserved_spec path :
  match api_reject_reserved path with Ok _ => is_reserved path = false | Err _ => is_reserved path = true end.
Proof. unfold api_reject_reserved, reject_reserved. by destruct (is_reserved path). Qed.

Lemma awp_put path by_ rotation plaintext (Q : result ApiError SecretVersion -> App D -> Prop) s e :
  app_wf s -> licence e -> trail_holds e s ->
  (forall now s1 s', app_wf s' -> visits s1 -> trail_grows s s1 -> trail_grows s1 s' ->
    Q (map_err api_of_store (put_at path by_ rotation plaintext now (app_rng s1) (app_store s1))) s') ->
  awp (put_encrypted state path by_ rotation plaintext) Q s.
Proof.
  intros Hwf Hl Hh HQ. unfold put_encrypted. apply awp_atomic; [done| | |].
  - intros a. simpl. by destruct (put_with_rotation _ _ _ _ _ _).
  - intros a Ha Hg. eapply licensed_by; [|exact Hl|by eapply grows_holds]. apply grows_same. simpl.
    by destruct (put_with_rotation _ _ _ _ _ _).
  - intros s1 s' Hw Hv H1 H2. specialize (HQ (default 0%Z (head (app_clock s1))) s1 s' Hw Hv H1 H2).
    unfold put_at in HQ. simpl. by destruct (put_with_rotation _ _ _ _ _ _).
Qed.

(** From the decisions on: the write, and what a failure of it leaves on the trail. *)
Lemma awp_write_decided h origin raw body c path rotation s6 :
  app_wf s6 -> api_parse_path raw = Ok path -> is_reserved path = false -> parse_rotation (sb_rotation body) = Ok rotation ->
  authenticated h c s6 -> decided c ActWrite CapWrite path None (request_context h origin) s6 ->
  (is_Some rotation -> decided c ActClassify CapWrite path None (request_context h origin) s6) ->
  awp (pbind (ptry (put_encrypted state path (caller_identity c) rotation (as_bytes (sb_value body))))
      (fun outcome => match outcome with
       | Ok version => pret (mkWriteResponse (path_str path) (version_get version))
       | Err error =>
           pbind (record_outcome c ActWrite (Some path) (request_context h origin) (api_status error) (Some "write-failed"))
             (fun _ => pbind (match rotation with
                | Some _ => record_outcome c ActClassify (Some path) (request_context h origin) (api_status error)
                              (Some "classify-failed")
                | None => pret tt end) (fun _ => pfail error))
       end)) (write_post h origin raw body) s6.
Proof.
  intros Hwf6 Hpath Hres Hrot Hc6 Hd6 Hcl. apply wp_bind; [typeclasses eauto|]. apply wp_try.
  destruct (Hd6) as [Hal [b Hb]]. eapply awp_put; [done| |exact Hb|].
  { apply licence_decision; [done|]. by apply evaluate_permitted. }
  intros now s7 s8 Hwf8 Hv7 Hs7 Hs8. destruct (put_at _ _ _ _ _ _ _) as [version|error] eqn:Hv; cbn [map_err].
  - apply awp_ret; [done|]. intros s9 Hwf9 Hs9.
    exists c, path, rotation, version, s7, now, (app_rng s7). split_and!; try done.
    + by eapply grows_authenticated.
    + by eapply grows_decided.
    + intros Hr. eapply grows_decided; [exact Hs7|by apply Hcl].
    + by etrans.
  - apply wp_bind; [typeclasses eauto|]. apply awp_record; [exact licensed_quiet|done| |].
    + intros s9 Hwf9 Hs9 Hh. assert (denial_recorded s9) as Hden by (eexists; split; [|exact Hh]; done).
      destruct rotation as [class|].
      * apply awp_outcome_then_fail; [done|]. intros e' s10 _ _ He. by left.
      * apply wp_bind; [typeclasses eauto|]. apply awp_ret; [done|]. intros s10 Hwf10 Hs10.
        apply awp_fail; [done|]. intros s11 Hwf11 Hs11. left. right.
        eapply grows_denial; [|exact Hden]. by etrans.
    + intros s9 _ _. left. by left.
Qed.

Lemma awp_write_secret h origin raw body s :
  app_wf s -> awp (write_secret state h origin raw body) (write_post h origin raw body) s.
Proof.
  intros Hwf. unfold write_secret. apply wp_bind; [typeclasses eauto|].
  apply awp_authenticate; [exact licensed_quiet|done| |by intros e s1 _ _ ?; left].
  intros c s1 Hwf1 _ Hc. apply wp_bind; [typeclasses eauto|].
  apply awp_parse_path; [exact licensed_quiet|done| |by intros e s2 _ _ ?; left].
  intros path s2 Hwf2 Hs2 Hpath. apply wp_bind; [typeclasses eauto|]. apply awp_lift; [done|].
  intros s3 Hwf3 Hs3. pose proof (api_reject_reserved_spec path) as Hres.
  destruct (api_reject_reserved path) as [[]|e]; [|right; right; left; by exists path].
  apply wp_bind; [typeclasses eauto|]. apply awp_lift; [done|]. intros s4 Hwf4 Hs4.
  destruct (parse_rotation (sb_rotation body)) as [rotation|e] eqn:Hrot; [|by right; right; right].
  apply wp_bind; [typeclasses eauto|]. apply awp_decide; [exact licensed_quiet|done| |].
  2: { intros e s5 _ _ [He|[He|He]]; [left; by left|left; by right|right; by left]. }
  intros s5 Hwf5 Hs5 Hd. apply wp_bind; [typeclasses eauto|].
  assert (authenticated h c s5) as Hc5.
  { eapply grows_authenticated; [|exact Hc]. etrans; [exact Hs2|]. etrans; [exact Hs3|]. by etrans. }
  destruct rotation as [class|].
  - apply awp_decide; [exact licensed_quiet|done| |].
    + intros s6 Hwf6 Hs6 Hd6. apply (awp_write_decided _ _ _ _ _ _ (Some class)); try done;
        [by eapply grows_authenticated|by eapply grows_decided].
    + intros e s6 _ _ [He|[He|He]]; [left; by left|left; by right|right; by left].
  - apply awp_ret; [done|]. intros s6 Hwf6 Hs6. apply (awp_write_decided _ _ _ _ _ _ None); try done;
      [by eapply grows_authenticated|by eapply grows_decided].
Qed.

(** ** Deleting a version *)

(** The version asked for, or the current one at some moment of the request. *)
Definition delete_target (path : SecretPath) (wanted : option SecretVersion) (number : SecretVersion) : Prop :=
  match wanted with
  | Some w => number = w
  | None => exists (earlier : App D) md, visits earlier /\ fst (metadata path (app_store earlier)) = Ok md /\
      sm_current_version md = Some number
  end.

Definition delete_post (h : Headers) (origin : option IpAddr) (raw : string) (version : option Z)
    (r : result ApiError unit) (s : App D) : Prop :=
  match r with
  | Ok _ => exists c path wanted number before now, visits before /\ api_parse_path raw = Ok path /\ is_reserved path = false /\
      authenticated h c before /\ decided c ActDelete CapDelete path None (request_context h origin) before /\
      query_version version = Ok wanted /\ delete_target path wanted number /\
      fst (Store.delete path number now (app_store before)) = Ok tt /\ trail_grows before s
  | Err e => told s e \/ honeypot_alert = true \/
      (exists path, api_parse_path raw = Ok path /\ is_reserved path = true)
  end.

(** From the decision on: the deletion. *)
Lemma awp_delete_decided h origin raw version c path wanted number s7 :
  app_wf s7 -> api_parse_path raw = Ok path -> is_reserved path = false -> query_version version = Ok wanted ->
  authenticated h c s7 -> decided c ActDelete CapDelete path None (request_context h origin) s7 ->
  delete_target path wanted number ->
  awp (with_store_now (fun now => mmap_err api_of_store (Store.delete path number now)))
    (fun r s' => app_wf s' /\ match r with
      | Ok v => forall s'', app_wf s'' -> trail_grows s' s'' -> delete_post h origin raw version (Ok v) s''
      | Err e => forall e' s'', app_wf s'' -> trail_grows s' s'' -> told s'' e' ->
          delete_post h origin raw version (Err e') s'' end) s7.
Proof.
  intros Hwf7 Hpath Hres Hv Hc Hd Hn. apply awp_with_store_now; [exact licensed_quiet|done| |].
  - intros a Ha Hg. right. intros st.
    eapply (decided_licensed c ActDelete CapDelete path None (request_context h origin)); [done| |by apply grows_same].
    by eapply grows_decided.
  - intros now s8 s9 Hwf9 Hv8 Hs8 Hs9. unfold mmap_err.
    destruct (Store.delete path number now (app_store s8)) as [[[]|e] st] eqn:Hdl; simpl; [|split; [done|]; intros e' s10 _ _ He; by left].
    split; [done|]. intros s10 Hwf10 Hs10. exists c, path, wanted, number, s8, now. rewrite Hdl.
    split_and!; try done.
    + by eapply grows_authenticated.
    + by eapply grows_decided.
    + by etrans.
Qed.

Lemma awp_delete_secret h origin raw version s :
  app_wf s -> awp (delete_secret state h origin raw version) (delete_post h origin raw version) s.
Proof.
  intros Hwf. unfold delete_secret. apply wp_bind; [typeclasses eauto|].
  apply awp_authenticate; [exact licensed_quiet|done| |by intros e s1 _ _ ?; left].
  intros c s1 Hwf1 _ Hc. apply wp_bind; [typeclasses eauto|].
  apply awp_parse_path; [exact licensed_quiet|done| |by intros e s2 _ _ ?; left].
  intros path s2 Hwf2 Hs2 Hpath. apply wp_bind; [typeclasses eauto|]. apply awp_lift; [done|].
  intros s3 Hwf3 Hs3. pose proof (api_reject_reserved_spec path) as Hres.
  destruct (api_reject_reserved path) as [[]|e]; [|right; right; by exists path].
  apply wp_bind; [typeclasses eauto|]. apply awp_decide; [exact licensed_quiet|done| |].
  2: { intros e s5 _ _ [He|[He|He]]; [left; by left|left; by right|right; by left]. }
  intros s5 Hwf5 Hs5 Hd. apply awp_complete.
  assert (authenticated h c s5) as Hc5.
  { eapply grows_authenticated; [|exact Hc]. etrans; [exact Hs2|]. by etrans. }
  assert (forall s6, app_wf s6 -> app_wf s6 /\ (forall e' s'', app_wf s'' -> trail_grows s6 s'' ->
    told s'' e' -> delete_post h origin raw version (Err e') s'')) as Hfail.
  { intros s6 Hwf6. split; [done|]. intros e' s7 _ _ He. by left. }
  apply wp_bind; [typeclasses eauto|]. apply awp_lift; [done|]. intros s6 Hwf6 Hs6.
  destruct (query_version version) as [wanted|e] eqn:Hv; [|by apply Hfail].
  apply wp_bind; [typeclasses eauto|]. destruct wanted as [wanted|].
  - apply awp_ret; [done|]. intros s7 Hwf7 Hs7. assert (trail_grows s5 s7) as H57 by by etrans.
    eapply awp_delete_decided; try done; [by eapply grows_authenticated|by eapply grows_decided].
  - apply wp_bind; [typeclasses eauto|].
    apply awp_with_store; [exact licensed_quiet|done|apply keeps_reads, reads_metadata|].
    intros s7 s8 Hwf8 Hv7 Hs7 Hs8. unfold mmap_err. destruct (metadata path (app_store s7)) as [[md|e] st] eqn:Hmd; cbn [fst]; [|by apply Hfail].
    assert (forall n, sm_current_version md = Some n -> delete_target path None n) as Htarget.
    { intros n Hn. exists s7, md. by rewrite Hmd. }
    apply awp_lift; [done|]. intros s9 Hwf9 Hs9. destruct (sm_current_version md) as [current|]; cbn [ok_or]; [|by apply Hfail].
    assert (trail_grows s5 s9) as H59 by (etrans; [exact Hs6|]; etrans; [exact Hs7|]; by etrans).
    eapply awp_delete_decided; try done; [by eapply grows_authenticated|by eapply grows_decided|by apply Htarget].
Qed.
End service.
