(* ===== verification/Contract.v ===== *)
(** * The other handlers, and the whole service

    The listings, the export, the administrative reads, revoking, federating, and
    then every request at once: alone, and in any interleaving with others. *)

From Stdlib Require Import ZArith NArith Lia Ascii String.
From stdpp Require Import base tactics list strings gmap relations.
From S2P Require Import Prelude Text Hex Path Pattern Vocabulary PolicyModel Evaluate Crypto Token Chain Sink Db Store.
From S2P Require Import Tokens Honeypots StoreAudit Surface Oidc Config Prog State Trail Api Service.

Ltac awp_bind := apply wp_bind; [typeclasses eauto|].

Section contract.
Context {H : Sha256} {J : Json} {M : Mac} {En : Entropy} {F : Features}.
Context {D : Type} `{!AuditDevice D} {L : AuditDeviceLaws D}.
Context {A : Aead} {U : Unicode} {LJ : LogJson} {RJ : RawJson} {R : ClaimsReader} {Sg : Signatures}.
Context (state : Inner).
Context (visits : App D -> Prop).

Abbreviation awp m Q s := (wp (within visits trail_grows) (licensed state) m Q s).
Abbreviation calm := (licensed_quiet state).

(** ** The steps every handler begins with *)

(** How a request fails: unrecorded only if the trail took nothing or the look for
    bait failed. *)
Definition failed (s : App D) (e : ApiError) : Prop := told s e \/ honeypot_alert = true.

Lemma awp_enter {B} h action request (k : Caller -> app_m B) (Q : result ApiError B -> App D -> Prop) s :
  app_wf s -> (forall c s', app_wf s' -> authenticated state visits h c s' -> awp (k c) Q s') ->
  (forall e s', app_wf s' -> failed s' e -> Q (Err e) s') ->
  awp (pbind (api_authenticate state h action request) k) Q s.
Proof.
  intros Hwf HOk HErr. awp_bind. apply awp_authenticate; [exact calm|done|by auto|].
  intros e s' Hw _ He. apply HErr; [done|by left].
Qed.

Lemma awp_enter_path {B} c action request raw (k : SecretPath -> app_m B)
    (Q : result ApiError B -> App D -> Prop) s :
  app_wf s ->
  (forall path s', app_wf s' -> trail_grows s s' -> api_parse_path raw = Ok path -> awp (k path) Q s') ->
  (forall e s', app_wf s' -> failed s' e -> Q (Err e) s') ->
  awp (pbind (parse_path_recorded c action request raw) k) Q s.
Proof.
  intros Hwf HOk HErr. awp_bind. apply awp_parse_path; [exact calm|done|by auto|].
  intros e s' Hw _ He. apply HErr; [done|by left].
Qed.

Lemma awp_enter_decision {B} c action capability path subject request (k : unit -> app_m B)
    (Q : result ApiError B -> App D -> Prop) s :
  app_wf s ->
  (forall s', app_wf s' -> trail_grows s s' -> decided state c action capability path subject request s' ->
     awp (k tt) Q s') ->
  (forall e s', app_wf s' -> failed s' e -> Q (Err e) s') ->
  awp (pbind (authorize_and_record_subject state c action capability path subject request) k) Q s.
Proof.
  intros Hwf HOk HErr. awp_bind. apply awp_decide; [exact calm|done|by auto|].
  intros e s' Hw _ [He|[He|He]]; apply HErr; try done; [left; by left|left; by right|by right].
Qed.

Lemma awp_read_store {B} (m : store_m B) (Q : result ApiError B -> App D -> Prop) s :
  app_wf s -> reads_only m ->
  (forall s1 s', app_wf s' -> visits s1 -> trail_grows s s1 -> trail_grows s1 s' ->
     Q (map_err api_of_store (fst (m (app_store s1)))) s') ->
  awp (with_store (mmap_err api_of_store m)) Q s.
Proof.
  intros Hwf Hm HQ. apply awp_with_store; [exact calm|done|by apply keeps_reads|].
  intros s1 s' Hw Hv H1 H2. specialize (HQ s1 s' Hw Hv H1 H2). unfold mmap_err. by destruct (m (app_store s1)).
Qed.

(** ** The versions of a secret *)

Definition versions_post (h : Headers) (origin : option IpAddr) (raw : string)
    (r : result ApiError VersionsResponse) (s : App D) : Prop :=
  match r with
  | Ok resp => exists c path md vs before, visits before /\
      api_parse_path raw = Ok path /\ authenticated state visits h c before /\
      decided state c ActList CapList path None (request_context h origin) before /\
      fst ((let! md := metadata path in let! vs := versions path in mret (md, vs)) (app_store before)) = Ok (md, vs) /\
      vsr_path resp = path_str path /\ vsr_versions resp = map version_response vs /\ trail_grows before s
  | Err e => failed s e
  end.

Lemma awp_list_versions h origin raw s :
  app_wf s -> awp (list_versions state h origin raw) (versions_post h origin raw) s.
Proof.
  intros Hwf. unfold list_versions. apply awp_enter; [done| |done]. intros c s1 Hwf1 Hc.
  apply awp_enter_path; [done| |done]. intros path s2 Hwf2 Hs2 Hpath.
  apply awp_enter_decision; [done| |done]. intros s3 Hwf3 Hs3 Hd. awp_bind. apply awp_complete.
  apply awp_read_store; [done| |].
  { apply respects_bind; [typeclasses eauto|apply reads_metadata|]. intros md.
    apply respects_bind; [typeclasses eauto|apply reads_versions|]. intros vs. reads. }
  intros s4 s5 Hwf5 Hv4 Hs4 Hs5. split; [done|].
  destruct (map_err api_of_store _) as [[md vs]|e] eqn:Hm; [|by left].
  apply map_err_Ok in Hm. intros s6 Hwf6 Hs6. apply awp_ret; [done|]. intros s7 Hwf7 Hs7.
  exists c, path, md, vs, s4. split_and!; try done.
  - eapply grows_authenticated; [|exact Hc]. etrans; [exact Hs2|]. by etrans.
  - by eapply grows_decided.
  - etrans; [exact Hs5|]. by etrans.
Qed.

(** ** The names under a prefix *)

Definition list_post (h : Headers) (origin : option IpAddr) (raw : string) (rotation : option string)
    (r : result ApiError ListResponse) (s : App D) : Prop :=
  match r with
  | Ok resp => exists c prefix wanted listed before, visits before /\
      api_parse_path raw = Ok prefix /\ parse_rotation rotation = Ok wanted /\ authenticated state visits h c before /\
      fst (list_with_rotation (Some prefix) (app_store before)) = Ok listed /\
      lr_entries resp = visible_entries state c wanted listed /\ lr_paths resp = map le_path (lr_entries resp) /\
      trail_holds (listing_entry c prefix (request_context h origin) (Z.of_nat (length (lr_paths resp)))) s /\
      trail_grows before s
  | Err e => failed s e \/ parse_rotation rotation = Err e \/
      exists e', e = api_of_store e'
  end.

Lemma visible_permitted c wanted listed e :
  e ∈ visible_entries state c wanted listed -> exists l, l ∈ listed /\ le_path e = path_str (ls_path l) /\
    permitted (in_policies state) (caller_identity c) (ls_path l) CapList.
Proof.
  unfold visible_entries. intros (l & -> & Hl)%elem_of_map.
  apply list_elem_of_In, List.filter_In in Hl as [Hl _]. apply List.filter_In in Hl as [Hl Ha].
  exists l. split_and!; [by apply list_elem_of_In|done|]. by apply evaluate_permitted.
Qed.

Lemma awp_list_paths h origin raw rotation s :
  app_wf s -> awp (api_list_paths state h origin raw rotation) (list_post h origin raw rotation) s.
Proof.
  intros Hwf. unfold api_list_paths. apply awp_enter; [done| |by left]. intros c s1 Hwf1 Hc.
  apply awp_enter_path; [done| |by left]. intros prefix s2 Hwf2 Hs2 Hpath.
  awp_bind. apply awp_lift; [done|]. intros s3 Hwf3 Hs3.
  destruct (parse_rotation rotation) as [wanted|e] eqn:Hrot; [|by right; left].
  awp_bind. apply awp_read_store; [done|apply reads_list|]. intros s4 s5 Hwf5 Hv4 Hs4 Hs5.
  destruct (fst (list_with_rotation (Some prefix) (app_store s4))) as [listed|e] eqn:Hl; cbn [map_err];
    [|by right; right; exists e].
  awp_bind. apply awp_record; [exact calm|done| |].
  - intros s6 Hwf6 Hs6 Hh. apply awp_ret; [done|]. intros s7 Hwf7 Hs7.
    exists c, prefix, wanted, listed, s4. simpl. rewrite length_map. split_and!; try done.
    + eapply grows_authenticated; [|exact Hc]. etrans; [exact Hs2|]. by etrans.
    + by eapply grows_holds.
    + etrans; [exact Hs5|]. by etrans.
  - intros s6 _ _. left. left. by left.
Qed.

(** ** The export *)

Definition exported (h : Headers) (origin : option IpAddr) (s : App D) (path : SecretPath) (x : ExportedSecret)
    : Prop :=
  exists stored, served state visits h origin path None stored (ex_value x) s /\
    x = mkExportedSecret (path_str (sv_path stored)) (version_get (sv_version stored)) (ex_value x).

Definition export_post (h : Headers) (origin : option IpAddr) (body : list string)
    (r : result ApiError (list ExportedSecret)) (s : App D) : Prop :=
  match r with
  | Ok secrets => exists paths, validate_export_paths body = Ok paths /\ Forall2 (exported h origin s) paths secrets
  | Err e => failed s e
  end.

Lemma grows_exported h origin path x s s' : trail_grows s s' -> exported h origin s path x -> exported h origin s' path x.
Proof.
  intros Hg (stored & (c & before & Hv & Hc & Hd & Hget & Hdec & Hb) & Hx). exists stored. split; [|done].
  exists c, before. split_and!; try done. by etrans.
Qed.

Lemma grows_exported_all h origin paths l s s' :
  trail_grows s s' -> Forall2 (exported h origin s) paths l -> Forall2 (exported h origin s') paths l.
Proof. intros Hg Hl. eapply Forall2_impl; [exact Hl|]. intros p x. by apply grows_exported. Qed.

Lemma grows_failed s s' e : trail_grows s s' -> failed s e -> failed s' e.
Proof. intros Hg [Ht|Hh]; [left|by right]. by eapply grows_told. Qed.

(** What the loop leaves: every value served after its own decision, or an error
    that was recorded or that has a decision to correct. *)
Definition export_loop_post (h : Headers) (origin : option IpAddr) (c : Caller) (all : list SecretPath)
    (r : result ApiError (result ApiError (list ExportedSecret) * list SecretPath)) (s : App D) : Prop :=
  app_wf s /\
  match r with
  | Ok (Ok secrets, recorded) => recorded = all /\ Forall2 (exported h origin s) all secrets
  | Ok (Err e, recorded) => failed s e \/ recorded <> []
  | Err e => False
  end.

Lemma awp_export_secrets h origin c paths recorded bytes secrets s :
  app_wf s -> authenticated state visits h c s -> Forall2 (exported h origin s) recorded secrets ->
  awp (export_secrets state c (request_context h origin) paths recorded bytes secrets)
    (export_loop_post h origin c (recorded ++ paths)) s.
Proof.
  revert recorded bytes secrets s. induction paths as [|path paths IH]; intros recorded bytes secrets s Hwf Hc Hf.
  { apply awp_ret; [done|]. intros s1 Hwf1 Hs1. split; [done|]. rewrite app_nil_r. split; [done|].
    by eapply grows_exported_all. }
  cbn [export_secrets]. awp_bind. apply wp_try.
  apply awp_decide; [exact calm|done| |].
  2: { intros e s1 Hwf1 Hs1 He. apply awp_ret; [done|]. intros s2 Hwf2 Hs2. split; [done|]. left.
       destruct He as [He|[He|He]]; [left; by left|left; right; by eapply grows_denial|by right]. }
  intros s1 Hwf1 Hs1 Hd. awp_bind. apply wp_try.
  assert (forall e s', app_wf s' -> awp (pret (Err e, recorded ++ [path]))
    (export_loop_post h origin c (recorded ++ path :: paths)) s') as Hfail.
  { intros e s' Hw. apply awp_ret; [done|]. intros s2 Hwf2 _. split; [done|]. right. by destruct recorded. }
  awp_bind. apply awp_read_store; [done|apply reads_get|]. intros s2 s3 Hwf3 Hv2 Hs2 Hs3.
  destruct (fst (Store.get path None (app_store s2))) as [stored|e] eqn:Hg; cbn [map_err]; [|by apply Hfail].
  awp_bind. apply awp_lift; [done|]. intros s4 Hwf4 Hs4.
  destruct (decrypt_to_text state stored) as [value|e] eqn:Ht; [|by apply Hfail].
  apply awp_ret; [done|]. intros s5 Hwf5 Hs5.
  assert (trail_grows s2 s5) as H25 by (etrans; [exact Hs3|]; by etrans).
  assert (trail_grows s s5) as H05 by (etrans; [exact Hs1|]; by etrans).
  destruct (EXPORT_BYTES_MAX <? _)%Z; [by apply Hfail|].
  replace (recorded ++ path :: paths) with ((recorded ++ [path]) ++ paths) by by rewrite <- app_assoc.
  apply IH; [done|by eapply grows_authenticated|]. apply Forall2_app; [by eapply grows_exported_all|].
  constructor; [|done]. exists stored. split; [|done]. exists c, s2. split_and!; try done.
  - eapply grows_authenticated; [|exact Hc]. etrans; [exact Hs1|exact Hs2].
  - by eapply grows_decided.
Qed.

(** The corrections that follow a failed export. *)
Lemma awp_outcomes c request e reason recorded s :
  app_wf s ->
  awp (pfor recorded (fun path => record_outcome c ActRead (Some path) request (api_status e) (Some reason)))
    (fun r s' => app_wf s' /\ trail_grows s s' /\ match r with
      | Ok _ => forall path, path ∈ recorded ->
          trail_holds (outcome_entry c ActRead (Some path) request (api_status e) (Some reason)) s'
      | Err e => e = AuditUnavailable end) s.
Proof.
  revert s. induction recorded as [|path recorded IH]; intros s Hwf.
  - intros s1 [Hs1 _]. split_and!; [by eapply grows_wf|done|]. by intros p Hp%elem_of_nil.
  - cbn [pfor]. awp_bind. apply awp_record; [exact calm|done| |].
    + intros s1 Hwf1 Hs1 Hh. eapply wp_mono; [|by apply IH]. intros [[]|e'] s2 (Hwf2 & Hs2 & Hr);
        (split_and!; [done|by etrans|]); [|done].
      intros p [->|Hp]%elem_of_cons; [by eapply grows_holds|by apply Hr].
    + intros s1 Hwf1 Hs1. done.
Qed.

Lemma awp_export h origin body s :
  app_wf s -> awp (export state h origin body) (export_post h origin body) s.
Proof.
  intros Hwf. unfold export. apply awp_enter; [done| |done]. intros c s1 Hwf1 Hc. awp_bind.
  destruct (validate_export_paths body) as [paths|refused] eqn:Hv.
  - apply awp_ret; [done|]. intros s2 Hwf2 Hs2. awp_bind.
    eapply wp_mono; [|apply (awp_export_secrets h origin c paths [] 0 []); [done| |constructor]].
    2: by eapply grows_authenticated.
    intros [[[secrets|e] recorded]|e] s3 [Hwf3 Hr]; [| |done].
    + apply awp_ret; [done|]. intros s4 Hwf4 Hs4. exists paths. split; [done|].
      destruct Hr as [_ Hr]. by eapply grows_exported_all.
    + awp_bind. eapply wp_mono; [|by apply awp_outcomes]. intros [[]|e'] s4 (Hwf4 & Hs4 & Ho).
      2: { left. by left. }
      apply awp_fail; [done|]. intros s5 Hwf5 Hs5. destruct Hr as [Hr|Hne].
      * eapply grows_failed; [|exact Hr]. by etrans.
      * destruct recorded as [|p recorded]; [done|]. left. right. eapply grows_denial; [exact Hs5|].
        eexists. split; [|apply (Ho p); left]. done.
  - awp_bind. apply awp_record_refusal; [exact calm|done| |].
    + intros s2 Hwf2 Hs2 Hd. apply awp_fail; [done|]. intros s3 Hwf3 Hs3. left. right. by eapply grows_denial.
    + intros s2 Hwf2 Hs2. left. by left.
Qed.

(** ** The administrative reads *)

(** The caller may [inspect] this page, and was told so on the record. *)
Definition inspected (h : Headers) (origin : option IpAddr) (name : string) (s : App D) : Prop :=
  exists c, authenticated state visits h c s /\
    decided state c ActRead CapInspect (reserved_path name) None (request_context h origin) s.

Definition admin_post {B} (h : Headers) (origin : option IpAddr) (name : string) (good : B -> Prop)
    (r : result ApiError B) (s : App D) : Prop :=
  match r with
  | Ok resp => inspected h origin name s /\ good resp
  | Err e => failed s e \/ inspected h origin name s
  end.

Lemma grows_inspected h origin name s s' : trail_grows s s' -> inspected h origin name s -> inspected h origin name s'.
Proof.
  intros Hg (c & Hc & Hd). exists c. split; [by eapply grows_authenticated|by eapply grows_decided].
Qed.

Lemma awp_inspect {B} h origin name (k : Caller -> app_m B) (Q : result ApiError B -> App D -> Prop) s :
  app_wf s ->
  (forall c s', app_wf s' -> inspected h origin name s' -> awp (k c) Q s') ->
  (forall e s', app_wf s' -> failed s' e -> Q (Err e) s') ->
  awp (pbind (inspect state h origin name) k) Q s.
Proof.
  intros Hwf HOk HErr. awp_bind. unfold inspect. apply awp_enter; [done| |done].
  intros c s1 Hwf1 Hc. apply awp_enter_decision; [done| |done]. intros s2 Hwf2 Hs2 Hd.
  apply awp_ret; [done|]. intros s3 Hwf3 Hs3. apply HOk; [done|].
  exists c. split; [eapply grows_authenticated; [|exact Hc]; by etrans|by eapply grows_decided].
Qed.

(** A page that is a function of what the service was started with. *)
Lemma awp_inspect_pure {B} h origin name (v : B) s :
  app_wf s -> awp (let* _ := inspect state h origin name in pret v) (admin_post h origin name (fun r => r = v)) s.
Proof.
  intros Hwf. apply awp_inspect; [done| |by left]. intros c s1 Hwf1 Hi. apply awp_ret; [done|].
  intros s2 Hwf2 Hs2. split; [|done]. by eapply grows_inspected.
Qed.

Lemma reads_honeypots : reads_only (let! bait := honeypots in let! trips := open_trips in mret (bait, trips)).
Proof. unfold honeypots, open_trips. reads. Qed.

Definition honeypots_good (r : list HoneypotResponse * list TripResponse) : Prop :=
  exists (before : App D) bait trips, visits before /\
    fst ((let! bait := honeypots in let! trips := open_trips in mret (bait, trips)) (app_store before)) = Ok (bait, trips) /\
    r = (map honeypot_response bait, map trip_response trips).

Lemma awp_read_honeypots h origin s :
  app_wf s -> awp (read_honeypots state h origin) (admin_post h origin "honeypots" honeypots_good) s.
Proof.
  intros Hwf. unfold read_honeypots. apply awp_inspect; [done| |by left]. intros c s1 Hwf1 Hi. awp_bind.
  apply awp_complete, awp_read_store; [done|apply reads_honeypots|]. intros s2 s3 Hwf3 Hv2 Hs2 Hs3. split; [done|].
  destruct (map_err api_of_store _) as [[bait trips]|e] eqn:Hm; [|by left; left].
  apply map_err_Ok in Hm. intros s4 Hwf4 Hs4. apply awp_ret; [done|]. intros s5 Hwf5 Hs5. split.
  - eapply grows_inspected; [|exact Hi]. etrans; [exact Hs2|]. etrans; [exact Hs3|]. by etrans.
  - by exists s2, bait, trips.
Qed.

(** The rows of the filter the query asks for, at most the limit of them. *)
Definition audit_good (q : AuditQuery) (r : list AuditEntryResponse) : Prop :=
  exists (before : App D) allowed window rows, visits before /\ audit_decision q = Ok allowed /\ audit_window q = Ok window /\
    fst (audit_query (mkAuditFilter (clamp_limit (aq_limit q)) window (aq_since q) (aq_identity q) (aq_path q)
           allowed) (app_store before)) = Ok rows /\
    res_mapM audit_entry rows = Ok r.

Lemma reads_audit_query f : reads_only (audit_query f).
Proof. unfold audit_query. reads. Qed.

Lemma awp_read_audit h origin q s :
  app_wf s -> awp (read_audit state h origin q) (admin_post h origin "audit" (audit_good q)) s.
Proof.
  intros Hwf. unfold read_audit. apply awp_inspect; [done| |by left]. intros c s1 Hwf1 Hi.
  awp_bind. apply awp_lift; [done|]. intros s2 Hwf2 Hs2.
  destruct (audit_decision q) as [allowed|e] eqn:Hal; [|right; by eapply grows_inspected].
  awp_bind. apply awp_lift; [done|]. intros s3 Hwf3 Hs3. assert (trail_grows s1 s3) as H13 by by etrans.
  destruct (audit_window q) as [window|e] eqn:Hw; [|right; by eapply grows_inspected].
  apply awp_complete. awp_bind. apply awp_read_store; [done|apply reads_audit_query|].
  intros s4 s5 Hwf5 Hv4 Hs4 Hs5. destruct (fst (audit_query _ (app_store s4))) as [rows|e] eqn:Hr; cbn [map_err].
  2: { split; [done|]. intros e' s6 _ _ He. left. by left. }
  apply awp_lift; [done|]. intros s6 Hwf6 Hs6. split; [done|].
  destruct (res_mapM audit_entry rows) as [resp|e] eqn:Hm.
  2: { intros e' s7 _ _ He. left. by left. }
  intros s7 Hwf7 Hs7. split; [|by exists s4, allowed, window, rows].
  eapply grows_inspected; [|exact Hi]. etrans; [exact H13|]. etrans; [exact Hs4|]. etrans; [exact Hs5|]. by etrans.
Qed.

Definition tokens_good (identity : option string) (r : list TokenResponse) : Prop :=
  exists (before : App D) now found, visits before /\ fst (tokens identity (app_store before)) = Ok found /\
    r = map (token_response now) found.

Lemma awp_read_tokens h origin identity s :
  app_wf s -> awp (read_tokens state h origin identity) (admin_post h origin "tokens" (tokens_good identity)) s.
Proof.
  intros Hwf. unfold read_tokens. apply awp_inspect; [done| |by left]. intros c s1 Hwf1 Hi.
  awp_bind. apply awp_read; [exact calm|done|done|]. intros now s2 Hwf2 Hs2. awp_bind.
  apply awp_read_store; [done|apply reads_tokens|]. intros s3 s4 Hwf4 Hv3 Hs3 Hs4.
  assert (trail_grows s1 s4) as H14 by (etrans; [exact Hs2|]; by etrans).
  destruct (fst (tokens identity (app_store s3))) as [found|e] eqn:Hf; cbn [map_err].
  - apply awp_ret; [done|]. intros s5 Hwf5 Hs5. split; [|by exists s3, now, found].
    eapply grows_inspected; [|exact Hi]. by etrans.
  - right. by eapply grows_inspected.
Qed.

(** ** Revoking a token *)

Definition revoke_post (h : Headers) (origin : option IpAddr) (id : string)
    (r : result ApiError RevokeResponse) (s : App D) : Prop :=
  match r with
  | Ok resp => exists c (earlier : App D) found before now, visits earlier /\ visits before /\
      fst (Tokens.token id (app_store earlier)) = Ok (Some found) /\ authenticated state visits h c before /\
      decided state c ActRevokeToken CapRevoke (reserved_path "tokens") (Some (revoke_subject found))
        (request_context h origin) before /\
      fst (revoke_token id now (app_store before)) = Ok (re_revoked_now resp) /\
      resp = mkRevokeResponse id (tr_identity found) (re_revoked_now resp) /\ trail_grows before s
  | Err e => failed s e \/ e = ApiNotFound \/ exists e', e = api_of_store e'
  end.

Lemma awp_revoke h origin id s :
  app_wf s -> awp (api_revoke_token state h origin id) (revoke_post h origin id) s.
Proof.
  intros Hwf. unfold api_revoke_token. apply awp_enter; [done| |by left]. intros c s1 Hwf1 Hc. awp_bind.
  apply awp_read_store; [done|apply token_reads|]. intros s2 s3 Hwf3 Hv2 Hs2 Hs3.
  destruct (fst (Tokens.token id (app_store s2))) as [found|e] eqn:Hf; cbn [map_err];
    [|right; right; by exists e].
  apply awp_enter_decision; [done| |by left]. intros s4 Hwf4 Hs4 Hd.
  destruct found as [found|]; [|by apply awp_fail; [done|]; right; left]. cbn [option_map] in Hd. awp_bind.
  apply awp_complete, awp_with_store_now; [exact calm|done| |].
  - intros a Ha Hg. right. intros st. eapply decided_licensed; [| |by apply grows_same].
    2: { by eapply grows_decided. }
    done.
  - intros now s5 s6 Hwf6 Hv5 Hs5 Hs6. split; [done|]. unfold mmap_err.
    destruct (revoke_token id now (app_store s5)) as [[revoked|e] st] eqn:Hr; cbn [fst map_err]; [|by left; left].
    intros s7 Hwf7 Hs7. apply awp_ret; [done|]. intros s8 Hwf8 Hs8.
    exists c, s2, found, s5, now. simpl. rewrite Hr. split_and!; try done.
    + eapply grows_authenticated; [|exact Hc]. etrans; [exact Hs2|]. etrans; [exact Hs3|]. by etrans.
    + by eapply grows_decided.
    + etrans; [exact Hs6|]. by etrans.
Qed.

(** ** Federating a login *)

Definition mint_entry (a : Accepted) (token_id : string) (request : RequestContext) : Entry :=
  federation_entry state (acc_provider a) (Some (acc_subject a)) (Minted (acc_identity a) token_id) 200 request.

(** How long the minted token lives. *)
Definition granted_ttl (asked : option Z) (a : Accepted) : Z :=
  match asked with None => acc_ttl_ms a | Some asked => Z.min asked (acc_ttl_ms a) end.

Definition login_post (h : Headers) (origin : option IpAddr) (body : OidcLoginRequest)
    (r : result ApiError OidcLoginResponse) (s : App D) : Prop :=
  match r with
  | Ok resp => exists asked presented_at a t before now, visits before /\
      asked_ttl (or_ttl_seconds body) = Ok asked /\
      exchange (in_federation state) (or_id_token body) presented_at = Accepted_ a /\
      trail_holds (mint_entry a (TokenId_as_text (Token.token_id t)) (request_context h origin)) before /\
      fst (issue_token (acc_identity a) t (in_pepper state) ("oidc:" ++ acc_provider a)
             (Some (ol_expires_at resp)) Credential_ now (app_store before)) = Ok tt /\
      resp = mkOidcLoginResponse (expose_text t) (TokenId_as_text (Token.token_id t)) (acc_identity a)
               (i64_sat (presented_at + granted_ttl asked a)) /\ trail_grows before s
  | Err e => told s e \/ asked_ttl (or_ttl_seconds body) = Err e \/
      (exists now u, exchange (in_federation state) (or_id_token body) now = Unverifiable_ u /\ e = Unauthenticated) \/
      exists m, e = Internal m
  end.

Lemma awp_record_federation {B} provider subject reason status request e
    (Q : result ApiError B -> App D -> Prop) s :
  app_wf s -> (forall e' s', app_wf s' -> e' = AuditUnavailable \/ (e' = e /\ denial_recorded s') -> Q (Err e') s') ->
  awp (pbind (record_federation state provider subject (FederationRefused reason) status request)
         (fun _ => pfail e)) Q s.
Proof.
  intros Hwf HQ. awp_bind. apply awp_record; [exact calm|done| |].
  - intros s1 Hwf1 Hs1 Hh. apply awp_fail; [done|]. intros s2 Hwf2 Hs2. apply HQ; [done|]. right. split; [done|].
    eapply grows_denial; [exact Hs2|]. eexists. split; [|exact Hh]. by destruct subject.
  - intros s1 Hwf1 Hs1. apply HQ; [done|by left].
Qed.

Lemma awp_login h origin body s :
  app_wf s -> awp (oidc_login state h origin body) (login_post h origin body) s.
Proof.
  intros Hwf. unfold oidc_login. awp_bind. apply awp_read; [exact calm|done|done|]. intros at_ s1 Hwf1 Hs1.
  awp_bind. apply awp_lift; [done|]. intros s2 Hwf2 Hs2.
  destruct (asked_ttl (or_ttl_seconds body)) as [asked|e] eqn:Hasked; [|by right; left].
  destruct (exchange (in_federation state) (or_id_token body) at_) as [u|provider subject reason|a] eqn:Hx.
  - apply awp_fail; [done|]. intros s3 _ _. right. right. left. by exists at_, u.
  - apply awp_record_federation; [done|]. intros e' s3 _ [->|[-> He]]; left; [by left|by right].
  - cbv zeta. awp_bind. apply awp_atomic; [done| | |].
    + intros a0. by destruct (Token_generate (app_rng a0)).
    + intros a0 _ _. apply calm; [apply grows_same|]; by destruct (Token_generate (app_rng a0)).
    + intros s3 s4 Hwf4 Hv3 Hs3 Hs4. destruct (Token_generate (app_rng s3)) as [[t|e] g] eqn:Hg; cbn [fst map_err];
        [|by right; right; right; eexists].
      awp_bind. apply awp_record; [exact calm|done| |by left; left].
      intros s5 Hwf5 Hs5 Hh. awp_bind. apply wp_try, awp_with_store_now; [exact calm|done| |].
      * intros a0 Ha0 Hg0. right. intros st. eapply licensed_by; [by apply grows_same| |by eapply grows_holds].
        by eapply licence_mint.
      * intros now s6 s7 Hwf7 Hv6 Hs6 Hs7. unfold mmap_err.
        destruct (issue_token _ _ _ _ _ _ now (app_store s6)) as [[[]|e] st] eqn:Hi; cbn [fst map_err].
        -- apply awp_ret; [done|]. intros s8 Hwf8 Hs8. exists asked, at_, a, t, s6, now. split_and!; try done.
           ++ by eapply grows_holds.
           ++ cbn [ol_expires_at]. unfold granted_ttl. by rewrite Hi.
           ++ by etrans.
        -- apply awp_record_federation; [done|]. intros e' s8 _ [->|[-> He]]; left; [by left|by right].
Qed.

(** ** The remaining routes *)

Lemma awp_health s : app_wf s -> awp (health state) (fun r _ => exists v, r = Ok v) s.
Proof.
  intros Hwf. unfold health. awp_bind.
  assert (forall tripwire s1, app_wf s1 -> awp
    (let watching : bool := honeypot_alert in
     let degraded := if watching && is_none tripwire then ["tripwires"] else [] in
     let* devices := audit_devices in
     pret (mkHealth (match degraded with [] => "ok" | _ => "degraded" end) false (in_seal_id state)
          (in_key_source state) devices (surface_names (in_surface state)) (fst <$> tripwire) (snd <$> tripwire)
          degraded "v1")) (fun r _ => exists v, r = Ok v) s1) as Hrest.
  { intros tripwire s1 Hwf1. cbv zeta. awp_bind. apply awp_read; [exact calm|done|done|].
    intros devices s2 Hwf2 Hs2. by apply awp_ret; [done|]; eexists. }
  destruct honeypot_alert eqn:Hh.
  - awp_bind. apply wp_try, awp_read_store; [done|apply reads_only_sql|]. intros s1 s2 Hwf2 Hv1 Hs1 Hs2.
    destruct (map_err api_of_store _) as [open|e]; (apply awp_ret; [done|]); intros s3 Hwf3 Hs3; by apply Hrest.
  - apply awp_ret; [done|]. intros s1 Hwf1 Hs1. by apply Hrest.
Qed.

Lemma awp_latch_work job s :
  app_wf s -> awp (latch_work (D := D) job) (fun r _ => r = Ok tt) s.
Proof.
  intros Hwf. unfold latch_work. awp_bind. apply wp_try, awp_with_store_now; [exact calm|done| |].
  { intros a _ _. left. intros now. apply keeps_latch_trip. }
  intros now s1 s2 Hwf2 Hv1 Hs1 Hs2. destruct (fst (mmap_err api_of_store _ (app_store s1))) as [b|e].
  - by apply awp_ret.
  - awp_bind. apply awp_read; [exact calm|done|done|]. intros [] s3 Hwf3 Hs3. awp_bind.
    apply wp_try, awp_record; [exact calm|done| |]; intros s4 Hwf4 Hs4; [intros _|]; by apply awp_ret.
Qed.

(** A request that no route takes, or whose body did not parse: recorded when its
    caller is known, and never served. *)
Definition refused_post {B} (refusal : ApiError) (r : result ApiError B) (_ : App D) : Prop :=
  match r with Ok _ => False | Err e => e = AuditUnavailable \/ e = refusal end.

Lemma awp_fallback h origin reason s :
  app_wf s -> awp (fallback state h origin reason) (refused_post ApiNotFound) s.
Proof.
  intros Hwf. unfold fallback, refused_request. awp_bind. awp_bind.
  apply awp_state_authenticate; [exact calm|done| |].
  - intros c s1 Hwf1 Hs1 Hc. awp_bind. apply wp_try, awp_record_refusal; [exact calm|done| |].
    + intros s2 Hwf2 Hs2 Hd. apply awp_ret; [done|]. intros s3 Hwf3 Hs3. apply awp_fail; [done|]. by right.
    + intros s2 Hwf2 Hs2. apply awp_ret; [done|]. intros s3 Hwf3 Hs3. apply awp_fail; [done|]. by left.
  - intros e s1 Hwf1 Hs1. apply awp_ret; [done|]. intros s3 Hwf3 Hs3. apply awp_fail; [done|]. by right.
Qed.

Lemma awp_audited {T B} attempted h origin (body : result string T) (k : T -> app_m B)
    (P : T -> result ApiError B -> App D -> Prop) s :
  app_wf s -> (forall v s', app_wf s' -> body = Ok v -> awp (k v) (P v) s') ->
  awp (pbind (audited_json state attempted h origin body) k)
    (match body with Ok v => P v | Err m => refused_post (BadRequest m) end) s.
Proof.
  intros Hwf Hk. awp_bind. unfold audited_json. destruct body as [v|m].
  - apply awp_ret; [done|]. intros s1 Hwf1 Hs1. by apply Hk.
  - awp_bind. apply awp_state_authenticate; [exact calm|done| |].
    + intros c s1 Hwf1 Hs1 Hc. awp_bind. apply awp_record_refusal; [exact calm|done| |].
      * intros s2 Hwf2 Hs2 Hd. apply awp_fail; [done|]. by right.
      * intros s2 Hwf2 Hs2. by left.
    + intros e s1 Hwf1 Hs1. apply awp_fail; [done|]. by right.
Qed.

(** ** Every request *)

Definition as_reply {B} (f : B -> Reply) (P : result ApiError B -> App D -> Prop)
    (r : result ApiError Reply) (s : App D) : Prop :=
  match r with Ok rep => exists v, rep = f v /\ P (Ok v) s | Err e => P (Err e) s end.

Lemma wp_reply_of {B} (f : B -> Reply) (m : app_m B) P s :
  awp m P s -> awp (reply_of f m) (as_reply f P) s.
Proof.
  revert s. unfold reply_of. induction m as [[v|e]| |C g k IH]; intros s Hw; simpl; [| |done|].
  - intros s' Hs. exists v. split; [done|]. by apply Hw.
  - intros s' Hs. by apply Hw.
  - intros s1 Hs. destruct (Hw s1 Hs) as [Hg Hk]. split; [done|]. by apply IH.
Qed.

Definition on_body {T B} (body : result string T) (P : T -> result ApiError B -> App D -> Prop)
    : result ApiError B -> App D -> Prop :=
  match body with Ok v => P v | Err m => refused_post (BadRequest m) end.

Definition route_post (h : Headers) (origin : option IpAddr) (q : Request)
    : result ApiError Reply -> App D -> Prop :=
  match q with
  | ReqHealth => as_reply RepHealth (fun r _ => exists v, r = Ok v)
  | ReqRead path version => as_reply RepSecret (read_post state visits h origin path version)
  | ReqWrite path body => on_body body (fun b => as_reply RepWrite (write_post state visits h origin path b))
  | ReqDelete path version => as_reply (fun _ => RepNoContent) (delete_post state visits h origin path version)
  | ReqVersions path => as_reply RepVersions (versions_post h origin path)
  | ReqList prefix rotation => as_reply RepList (list_post h origin prefix rotation)
  | ReqSurface => as_reply RepSurface
      (admin_post h origin "surface" (fun r => r = map surface_entry_response (in_surface state)))
  | ReqAudit q => as_reply RepAudit (admin_post h origin "audit" (audit_good q))
  | ReqIdentities => as_reply RepIdentities
      (admin_post h origin "identities"
         (fun r => r = map identity_response (ps_all_identities (in_policies state))))
  | ReqPolicies => as_reply RepPolicies
      (admin_post h origin "policies"
         (fun r => r = map (fun p => mkPolicyResponse (policy_name p) (map rule_response (policy_rules p)))
                         (ps_all_policies (in_policies state))))
  | ReqExport body => on_body body (fun b => as_reply RepExport (export_post h origin b))
  | ReqTokens identity => as_reply RepTokens (admin_post h origin "tokens" (tokens_good identity))
  | ReqRevoke id => as_reply RepRevoke (revoke_post h origin id)
  | ReqOidcLogin body => on_body body (fun b => as_reply RepOidcLogin (login_post h origin b))
  | ReqHoneypots => as_reply (fun '(b, t) => RepHoneypots b t)
      (admin_post h origin "honeypots" honeypots_good)
  | ReqUnmatchedRoute | ReqUnmatchedMethod => refused_post ApiNotFound
  end.

Definition serve_post (h : Headers) (origin : option IpAddr) (q : Request) : result ApiError Reply -> App D -> Prop :=
  match request_route q with
  | Some r => if has_route state r then route_post h origin q else refused_post ApiNotFound
  | None => route_post h origin q
  end.

Lemma awp_route h origin q s : app_wf s -> awp (serve_route state h origin q) (route_post h origin q) s.
Proof.
  intros Hwf. destruct q; cbn [serve_route route_post];
    try (apply wp_reply_of); try (apply awp_audited; [done|]; intros v s' Hwf' _; apply wp_reply_of);
    try (by apply awp_inspect_pure);
    auto using awp_health, awp_read_secret, awp_write_secret, awp_delete_secret, awp_list_versions, awp_list_paths,
      awp_read_audit, awp_export, awp_read_tokens, awp_revoke, awp_login, awp_read_honeypots,
      awp_fallback.
Qed.

Lemma awp_serve h origin q s : app_wf s -> awp (serve state h origin q) (serve_post h origin q) s.
Proof.
  intros Hwf. unfold serve, serve_post. destruct (request_route q) as [r|]; [|by apply awp_route].
  destruct (has_route state r); [by apply awp_route|by apply awp_fallback].
Qed.
End contract.
