(* ===== verification/Guarantees.v ===== *)
(** * Guarantees of the running service

    Any number of requests and background latches in any interleaving, over the
    state they share: what each answer implies, what never happens, and what a
    change implies.  The states the statements speak of ([seen]) are states of the
    run itself. *)

From Stdlib Require Import ZArith NArith Lia Ascii String.
From stdpp Require Import base tactics list strings gmap relations.
From S2P Require Import Prelude Text Hex Path Pattern Vocabulary PolicyModel Evaluate Crypto Token Chain Sink Db Store.
From S2P Require Import Tokens Honeypots StoreAudit Surface Oidc Config Prog State Trail Api Service Contract.

Record Incoming : Type := mkIncoming {
  inc_headers : Headers;
  inc_origin : option IpAddr;
  inc_request : Request;
}.

(** The pages of the administration, and the reserved name each is decided on. *)
Definition admin_page (q : Request) : option string :=
  match q with
  | ReqSurface => Some "surface"
  | ReqAudit _ => Some "audit"
  | ReqIdentities => Some "identities"
  | ReqPolicies => Some "policies"
  | ReqTokens _ => Some "tokens"
  | ReqHoneypots => Some "honeypots"
  | _ => None
  end.

Section guarantees.
Context {H : Sha256} {J : Json} {M : Mac} {En : Entropy} {F : Features}.
Context {D : Type} `{!AuditDevice D} {L : AuditDeviceLaws D}.
Context {A : Aead} {U : Unicode} {LJ : LogJson} {RJ : RawJson} {R : ClaimsReader} {Sg : Signatures}.
Context (state : Inner).

Definition program (i : Incoming) : app_m (D := D) Reply :=
  serve state (inc_headers i) (inc_origin i) (inc_request i).

(** What runs: requests, and the latches they spawned. *)
Inductive arrives : app_m (D := D) Reply -> Prop :=
| arrives_request i : arrives (program i)
| arrives_latch job : arrives (reply_of (fun _ => RepNoContent) (latch_work job)).

Definition start (reqs : list Incoming) (s : App D) : list (app_m Reply) * App D := (map program reqs, s).

Definition runs (reqs : list Incoming) (s : App D) (ts : list (app_m Reply)) (s' : App D) : Prop :=
  rtc (pool_step arrives) (start reqs s) (ts, s').

(** The states of this run. *)
Definition seen (reqs : list Incoming) (s : App D) (ts : list (app_m Reply)) (s' : App D) : App D -> Prop :=
  visited arrives (start reqs s) (ts, s').

Definition request_spec (visits : App D -> Prop) (m : app_m Reply) (r : result ApiError Reply) (s : App D) : Prop :=
  forall i, m = program i -> serve_post state visits (inc_headers i) (inc_origin i) (inc_request i) r s.

Lemma wp_true {B} rely guar (m : app_m B) Q (s : App D) : wp rely guar m Q s -> wp rely guar m (fun _ _ => True) s.
Proof. by apply wp_mono. Qed.

Lemma arrives_meets visits m s :
  arrives m -> app_wf s -> visits s ->
  wp (within visits trail_grows) (licensed state) m (request_spec visits m) s.
Proof.
  intros Ha Hwf _. apply wp_all.
  - destruct Ha as [i|job]; eapply wp_true; [by apply awp_serve|]. by apply wp_reply_of, awp_latch_work.
  - intros i ->. by apply awp_serve.
Qed.

Lemma service_sound reqs s ts s' :
  app_wf s -> runs reqs s ts s' ->
  trail_grows s s' /\ app_wf s' /\
  (forall ts2 s2, pool_step arrives (ts, s') (ts2, s2) -> licensed state s' s2) /\
  (forall i, ts !! i <> Some Panicked) /\
  forall i q r, reqs !! i = Some q -> ts !! i = Some (Done r) ->
    serve_post state (seen reqs s ts s') (inc_headers q) (inc_origin q) (inc_request q) r s'.
Proof.
  intros Hwf Hr.
  destruct (pool_sound arrives trail_grows (licensed state) app_wf (grows_wf) (fun a a' Hl => proj1 Hl) request_spec
    arrives_meets (map program reqs) s (ts, s')) as (Hg & Hstep & more & _ & _ & Hall); [|done|done|].
  { apply Forall_forall. intros m Hm. apply list_elem_of_fmap in Hm as (i & -> & _). constructor. }
  simpl in Hg. split_and!; [done|by eapply grows_wf| | |].
  - intros ts2 s2 H2. destruct (Hstep _ H2) as [E|Hl]; [|done]. simpl in E. rewrite E. by apply licensed_quiet.
  - intros i Hi. destruct (Hall i _ Hi) as (m0 & _ & Hne & _). done.
  - intros i q r Hq Hi. destruct (Hall i _ Hi) as (m0 & Hm0 & _ & Hspec).
    apply (Hspec r eq_refl q). rewrite lookup_app_l in Hm0.
    + rewrite list_lookup_fmap, Hq in Hm0. by injection Hm0.
    + rewrite length_map. by eapply lookup_lt_Some.
Qed.

(** A route that answered was in the composition. *)
Lemma route_answered visits h origin q r s :
  serve_post state visits h origin q (Ok r) s -> route_post state visits h origin q (Ok r) s.
Proof. unfold serve_post. destruct (request_route q) as [t|]; [|done]. by destruct (has_route state t). Qed.

(** The decision of a capability on a path: permitted, and its entry on a device. *)
Definition decided_on_record (c : Caller) (action : Action) (capability : Capability) (path : SecretPath)
    (subject : option Principal) (request : RequestContext) (s : App D) : Prop :=
  permitted (in_policies state) (caller_identity c) path capability /\
  exists bait, trail_holds
    (decision_entry c action path subject request (authorize state c capability path) bait) s.

Lemma decided_recorded c action capability path subject request s :
  decided state c action capability path subject request s ->
  decided_on_record c action capability path subject request s.
Proof. intros [Ha Hb]. split; [by apply evaluate_permitted|done]. Qed.

(** The answer to a request of a run, and what its route promises. *)
Lemma answered reqs s ts s' i h origin q r :
  app_wf s -> runs reqs s ts s' -> reqs !! i = Some (mkIncoming h origin q) -> ts !! i = Some (Done (Ok r)) ->
  route_post state (seen reqs s ts s') h origin q (Ok r) s'.
Proof.
  intros Hwf Hr Hq Hi. apply route_answered.
  by apply (proj2 (proj2 (proj2 (proj2 (service_sound _ _ _ _ Hwf Hr)))) i (mkIncoming h origin q)).
Qed.

(** C4: a value is served only after this chain of events, in this order, in states
    of the run: the caller's token authenticated, the policies permitted the caller
    [read] on exactly this path and a device held the entry that says so, and only
    then was the value read from the store; what is answered is that version,
    decrypted. *)
Theorem secret_served_is_decided reqs s ts s' i h origin raw version resp :
  app_wf s -> runs reqs s ts s' -> reqs !! i = Some (mkIncoming h origin (ReqRead raw version)) ->
  ts !! i = Some (Done (Ok (RepSecret resp))) ->
  exists c path wanted stored before,
    seen reqs s ts s' before /\ api_parse_path raw = Ok path /\ query_version version = Ok wanted /\
    authenticated state (seen reqs s ts s') h c before /\
    decided_on_record c ActRead CapRead path None (request_context h origin) before /\
    fst (Store.get path wanted (app_store before)) = Ok stored /\
    decrypt_to_text state stored = Ok (sr_value resp) /\
    sr_path resp = path_str path /\ sr_version resp = version_get (sv_version stored) /\
    trail_grows before s'.
Proof.
  intros Hwf Hr Hq Hi. destruct (answered _ _ _ _ _ _ _ _ _ Hwf Hr Hq Hi) as (v & [= ->] & Hp).
  destruct Hp as (path & wanted & stored & Hpath & Hv & (c & before & Hb & Hc & Hd & Hg & Ht & Hgr) & E).
  exists c, path, wanted, stored, before. rewrite E. split_and!; try done; [by apply decided_recorded|].
  simpl. by destruct (get_names _ _ _ _ Hg) as [-> _].
Qed.

(** C5: whatever is running, a step that changes a secret, a version or a token
    (but for the time it was last used) happens only when a device already holds
    the entry that licenses it: an allowed decision of [write], [delete] or
    [revoke], or the mint of an exchange that accepted the presented token. *)
Theorem protected_change_is_licensed reqs s ts s' ts2 s2 :
  app_wf s -> runs reqs s ts s' -> pool_step arrives (ts, s') (ts2, s2) -> protected s2 <> protected s' ->
  exists e, trail_holds e s' /\
    ((exists c action capability path subject request bait,
        mutating capability = true /\ permitted (in_policies state) (caller_identity c) path capability /\
        e = decision_entry c action path subject request (authorize state c capability path) bait) \/
     (exists presented now a token_id request,
        exchange (in_federation state) presented now = Accepted_ a /\ e = mint_entry state a token_id request)).
Proof.
  intros Hwf Hr Hs Hne. destruct (service_sound _ _ _ _ Hwf Hr) as (_ & _ & Hstep & _).
  destruct (Hstep _ _ Hs) as [_ [E|(e & He & Hh)]]; [done|]. exists e. split; [done|].
  destruct He as [c action capability path subject request bait Hm Hp|presented now a token_id request Ha];
    [left|right].
  - by exists c, action, capability, path, subject, request, bait.
  - by exists presented, now, a, token_id, request.
Qed.

(** C6: no request and no background latch panics, in any interleaving: not on a
    header, a path, a body or what the store holds; and what a device has recorded
    stays recorded. *)
Theorem service_never_panics reqs s ts s' :
  app_wf s -> runs reqs s ts s' -> (forall i, ts !! i <> Some Panicked) /\ trail_grows s s'.
Proof. intros Hwf Hr. by destruct (service_sound _ _ _ _ Hwf Hr) as (Hg & _ & _ & Hp & _). Qed.

(** C7: a write that is answered with a version was permitted and recorded before
    the store was asked, is not below the reserved prefix, and put exactly the body
    of the request; a rotation class was decided on the record a second time. *)
Theorem secret_written_is_decided reqs s ts s' i h origin raw body resp :
  app_wf s -> runs reqs s ts s' -> reqs !! i = Some (mkIncoming h origin (ReqWrite raw (Ok body))) ->
  ts !! i = Some (Done (Ok (RepWrite resp))) ->
  exists c path rotation version before now g,
    seen reqs s ts s' before /\ api_parse_path raw = Ok path /\ is_reserved path = false /\
    parse_rotation (sb_rotation body) = Ok rotation /\ authenticated state (seen reqs s ts s') h c before /\
    decided_on_record c ActWrite CapWrite path None (request_context h origin) before /\
    (is_Some rotation ->
      decided_on_record c ActClassify CapWrite path None (request_context h origin) before) /\
    put_at state path (caller_identity c) rotation (as_bytes (sb_value body)) now g (app_store before) = Ok version /\
    resp = mkWriteResponse (path_str path) (version_get version) /\ trail_grows before s'.
Proof.
  intros Hwf Hr Hq Hi. destruct (answered _ _ _ _ _ _ _ _ _ Hwf Hr Hq Hi) as (v & [= ->] & Hp).
  destruct Hp as (c & path & rotation & version & before & now & g & Hb & Hpath & Hres & Hrot & Hc & Hd & Hcl & Hp).
  exists c, path, rotation, version, before, now, g. split_and!; try done; try apply Hp; [by apply decided_recorded|].
  intros Hs. by apply decided_recorded, Hcl.
Qed.

(** a deletion that is answered was permitted and recorded before the store was
    asked, and deleted the version asked for, or the one that was current. *)
Theorem secret_deleted_is_decided reqs s ts s' i h origin raw version :
  app_wf s -> runs reqs s ts s' -> reqs !! i = Some (mkIncoming h origin (ReqDelete raw version)) ->
  ts !! i = Some (Done (Ok RepNoContent)) ->
  exists c path wanted number before now,
    seen reqs s ts s' before /\ api_parse_path raw = Ok path /\ is_reserved path = false /\
    authenticated state (seen reqs s ts s') h c before /\
    decided_on_record c ActDelete CapDelete path None (request_context h origin) before /\
    query_version version = Ok wanted /\ delete_target (seen reqs s ts s') path wanted number /\
    fst (Store.delete path number now (app_store before)) = Ok tt /\ trail_grows before s'.
Proof.
  intros Hwf Hr Hq Hi. destruct (answered _ _ _ _ _ _ _ _ _ Hwf Hr Hq Hi) as (v & _ & Hp).
  destruct Hp as (c & path & wanted & number & before & now & Hb & Hpath & Hres & Hc & Hd & Hp).
  exists c, path, wanted, number, before, now. split_and!; try done; try apply Hp. by apply decided_recorded.
Qed.

(** C8: an export answers each requested path in order, and each of its values was
    decided on the record before it was read: no value of a path the caller may not
    read is ever part of an answer. *)
Theorem export_serves_only_decided reqs s ts s' i h origin body secrets :
  app_wf s -> runs reqs s ts s' -> reqs !! i = Some (mkIncoming h origin (ReqExport (Ok body))) ->
  ts !! i = Some (Done (Ok (RepExport secrets))) ->
  exists paths, validate_export_paths body = Ok paths /\
    Forall2 (fun path x => ex_path x = path_str path /\ exists c stored before,
      seen reqs s ts s' before /\ authenticated state (seen reqs s ts s') h c before /\
      decided_on_record c ActRead CapRead path None (request_context h origin) before /\
      fst (Store.get path None (app_store before)) = Ok stored /\
      decrypt_to_text state stored = Ok (ex_value x) /\ ex_version x = version_get (sv_version stored)) paths secrets.
Proof.
  intros Hwf Hr Hq Hi. destruct (answered _ _ _ _ _ _ _ _ _ Hwf Hr Hq Hi) as (v & [= ->] & paths & Hv & Hp).
  exists paths. split; [done|]. eapply Forall2_impl; [exact Hp|].
  intros path x (stored & (c & before & Hb & Hc & Hd & Hg & Ht & _) & E).
  split; [rewrite E; simpl; by destruct (get_names _ _ _ _ Hg) as [-> _]|].
  exists c, stored, before. split_and!; try done; [by apply decided_recorded|by rewrite E].
Qed.

(** a listing names a secret only when the policies let the caller list that
    very path, whatever the prefix; and how many names left is on a device when the
    answer leaves. *)
Theorem listing_names_only_permitted reqs s ts s' i h origin raw rotation resp :
  app_wf s -> runs reqs s ts s' -> reqs !! i = Some (mkIncoming h origin (ReqList raw rotation)) ->
  ts !! i = Some (Done (Ok (RepList resp))) ->
  exists c prefix listed before,
    seen reqs s ts s' before /\ api_parse_path raw = Ok prefix /\
    authenticated state (seen reqs s ts s') h c before /\
    fst (list_with_rotation (Some prefix) (app_store before)) = Ok listed /\
    (forall name, name ∈ lr_paths resp -> exists l, l ∈ listed /\ name = path_str (ls_path l) /\
      permitted (in_policies state) (caller_identity c) (ls_path l) CapList) /\
    trail_holds (listing_entry c prefix (request_context h origin) (Z.of_nat (length (lr_paths resp)))) s'.
Proof.
  intros Hwf Hr Hq Hi. destruct (answered _ _ _ _ _ _ _ _ _ Hwf Hr Hq Hi) as (v & [= ->] & Hp).
  destruct Hp as (c & prefix & wanted & listed & before & Hb & Hpath & _ & Hc & Hl & He & Hn & Hh & _).
  exists c, prefix, listed, before. split_and!; try done. intros name Hname. rewrite Hn in Hname.
  apply elem_of_map in Hname as (e & -> & Hin). rewrite He in Hin.
  destruct (visible_permitted _ _ _ _ _ Hin) as (l & Hll & -> & Hperm). by exists l.
Qed.

(** a revocation that is answered was permitted on the reserved path of the
    tokens and recorded with the token's owner as its subject before the store was
    asked, and it is that token's. *)
Theorem token_revoked_is_decided reqs s ts s' i h origin id resp :
  app_wf s -> runs reqs s ts s' -> reqs !! i = Some (mkIncoming h origin (ReqRevoke id)) ->
  ts !! i = Some (Done (Ok (RepRevoke resp))) ->
  exists c earlier found before now,
    seen reqs s ts s' earlier /\ fst (Tokens.token id (app_store earlier)) = Ok (Some found) /\
    seen reqs s ts s' before /\ authenticated state (seen reqs s ts s') h c before /\
    decided_on_record c ActRevokeToken CapRevoke (reserved_path "tokens") (Some (revoke_subject found))
      (request_context h origin) before /\
    fst (revoke_token id now (app_store before)) = Ok (re_revoked_now resp) /\
    re_token_id resp = id /\ re_identity resp = tr_identity found.
Proof.
  intros Hwf Hr Hq Hi. destruct (answered _ _ _ _ _ _ _ _ _ Hwf Hr Hq Hi) as (v & [= ->] & Hp).
  destruct Hp as (c & earlier & found & before & now & He & Hb & Hf & Hc & Hd & Hrev & E & _).
  exists c, earlier, found, before, now. destruct v as [rid owner revoked]. simpl in *. injection E as -> ->.
  split_and!; try done. by apply decided_recorded.
Qed.

(** C9: a token is minted for a login only when the presented token was accepted by
    a configured provider, for the identity its binding names; the mint is on a
    device before the token can authenticate; and it lives no longer than asked and
    no longer than the provider allows. *)
Theorem login_mints_what_was_accepted reqs s ts s' i h origin body resp :
  app_wf s -> runs reqs s ts s' -> reqs !! i = Some (mkIncoming h origin (ReqOidcLogin (Ok body))) ->
  ts !! i = Some (Done (Ok (RepOidcLogin resp))) ->
  exists presented_at a t before now,
    exchange (in_federation state) (or_id_token body) presented_at = Accepted_ a /\
    seen reqs s ts s' before /\
    trail_holds (mint_entry state a (TokenId_as_text (Token.token_id t)) (request_context h origin)) before /\
    fst (issue_token (acc_identity a) t (in_pepper state) ("oidc:" ++ acc_provider a)
           (Some (ol_expires_at resp)) Credential_ now (app_store before)) = Ok tt /\
    ol_token resp = expose_text t /\ ol_identity resp = acc_identity a /\
    exists ttl, ol_expires_at resp = i64_sat (presented_at + ttl) /\ (ttl <= acc_ttl_ms a)%Z /\
      forall seconds, or_ttl_seconds body = Some seconds -> (ttl <= i64_sat (seconds * 1000))%Z.
Proof.
  intros Hwf Hr Hq Hi. destruct (answered _ _ _ _ _ _ _ _ _ Hwf Hr Hq Hi) as (v & [= ->] & Hp).
  destruct Hp as (asked & at_ & a & t & before & now & Hb & Hasked & Hx & Hh & Hi' & E & _).
  exists at_, a, t, before, now. split_and!; try done; try by rewrite E.
  exists (granted_ttl asked a). split; [by rewrite E|]. unfold granted_ttl.
  split; [destruct asked; lia|]. intros seconds Hs. unfold asked_ttl in Hasked. rewrite Hs in Hasked.
  destruct (_ <? 1000)%Z; [done|]. injection Hasked as <-. lia.
Qed.

(** each administrative page is answered only to a caller the policies let
    [inspect] that page, recorded before anything of it was read. *)
Theorem admin_page_is_inspected reqs s ts s' i h origin q name rep :
  app_wf s -> runs reqs s ts s' -> reqs !! i = Some (mkIncoming h origin q) -> ts !! i = Some (Done (Ok rep)) ->
  admin_page q = Some name ->
  exists c, authenticated state (seen reqs s ts s') h c s' /\
    decided_on_record c ActRead CapInspect (reserved_path name) None (request_context h origin) s'.
Proof.
  intros Hwf Hr Hq Hi Hn. pose proof (answered _ _ _ _ _ _ _ _ _ Hwf Hr Hq Hi) as Hp.
  destruct q; try done; injection Hn as <-; destruct Hp as (v & _ & (c & Hc & Hd) & _); exists c;
    (split; [done|by apply decided_recorded]).
Qed.

(** a request no route of this composition takes is never served: the routes
    behind an extension answer 404 unless the extension was acknowledged. *)
Theorem absent_route_is_refused reqs s ts s' i h origin q rep :
  app_wf s -> runs reqs s ts s' -> reqs !! i = Some (mkIncoming h origin q) ->
  match request_route q with Some t => has_route state t = false | None => True end ->
  ts !! i = Some (Done rep) -> rep = Err ApiNotFound \/ rep = Err AuditUnavailable.
Proof.
  intros Hwf Hr Hq Hroute Hi.
  pose proof (proj2 (proj2 (proj2 (proj2 (service_sound _ _ _ _ Hwf Hr)))) i _ _ Hq Hi) as Hp.
  unfold serve_post in Hp. simpl in Hp. destruct (request_route q) as [t|] eqn:Ht.
  - rewrite Hroute in Hp. destruct rep as [r|e]; [done|]. destruct Hp as [->| ->]; auto.
  - destruct q; try done; (destruct rep as [r|e]; [done|]; destruct Hp as [->| ->]; auto).
Qed.
End guarantees.
