(* ===== verification/Bounds.v ===== *)
(** * How large an answer can be ([ciphr-server]: api.rs)

    Bounds on what a handler answers, whatever the store holds, whatever other
    requests do meanwhile and whatever clock values are read: they are facts of the
    handler's own code, so no invariant of the shared state is assumed. *)

From Stdlib Require Import ZArith NArith Lia Ascii String.
From stdpp Require Import base tactics list strings gmap sorting relations.
From S2P Require Import Prelude Text Hex Path Pattern Vocabulary PolicyModel Evaluate Crypto Token Chain Sink Db Store.
From S2P Require Import Tokens Honeypots StoreAudit Surface Oidc Config Prog State Api Service Guarantees.

Local Open Scope Z_scope.

(** The bytes of the values of an export. *)
Definition export_size (secrets : list ExportedSecret) : Z :=
  foldr (fun x n => len (ex_value x) + n) 0 secrets.

Lemma export_size_snoc secrets x : export_size (secrets ++ [x]) = export_size secrets + len (ex_value x).
Proof. unfold export_size. induction secrets as [|y l IH]; simpl; lia. Qed.

(** What a page of the audit log holds. *)
Record page_ok (q : AuditQuery) (page : list AuditEntryResponse) : Prop := {
  page_size : Z.of_nat (length page) <= clamp_limit (aq_limit q) <= AUDIT_LIMIT_MAX;
  page_order : Sorted Z.le (map aer_seq page);
  page_after : forall after e, aq_after_seq q = Some after -> e ∈ page -> cursor after < aer_seq e;
  page_before : forall before e, aq_before_seq q = Some before -> e ∈ page -> aer_seq e < cursor before;
}.

(** An export of these paths. *)
Record export_ok {U : Unicode} (raw : list string) (secrets : list ExportedSecret) : Prop := {
  export_count : (1 <= length secrets <= EXPORT_PATHS_MAX)%nat;
  export_names : map ex_path secrets = map normalize raw;
  export_distinct : NoDup (map ex_path secrets);
  export_bytes : export_size secrets <= EXPORT_BYTES_MAX;
}.

Definition bounded {U : Unicode} (q : Request) (rep : Reply) : Prop :=
  match q, rep with
  | ReqExport (Ok raw), RepExport secrets => export_ok raw secrets
  | ReqAudit q, RepAudit page => page_ok q page
  | ReqOidcLogin _, RepOidcLogin r => i64_min <= ol_expires_at r <= i64_max
  | ReqRead _ (Some version), RepSecret r => sr_version r = version
  | _, _ => True
  end.

(** ** The requested paths *)

Lemma validate_paths_Ok {U : Unicode} seen raw paths : NoDup (map path_str seen) -> validate_paths seen raw = Ok paths ->
  NoDup (map path_str paths) /\ map path_str paths = map path_str seen ++ map normalize raw.
Proof.
  revert seen. induction raw as [|one raw IH]; intros seen Hn; simpl.
  - intros [= <-]. by rewrite app_nil_r.
  - intros (path & Hp & Hv)%res_bind_Ok. apply map_err_Ok, SecretPath_parse_Ok in Hp as (E & _).
    destruct (existsb _ seen) eqn:Hseen; [done|]. apply IH in Hv as [Hd Hm].
    + split; [done|]. rewrite Hm, map_app, <- app_assoc. simpl. by rewrite E.
    + rewrite map_app. apply NoDup_app_one; [done|]. intros (p & Ep & Hin)%list_elem_of_fmap.
      rewrite <- not_true_iff_false, existsb_exists in Hseen. apply Hseen. exists p.
      split; [by apply list_elem_of_In|]. by apply String.eqb_eq.
Qed.

Lemma validate_export_paths_Ok {U : Unicode} raw paths : validate_export_paths raw = Ok paths ->
  (1 <= length paths <= EXPORT_PATHS_MAX)%nat /\ NoDup (map path_str paths) /\ map path_str paths = map normalize raw.
Proof.
  unfold validate_export_paths. destruct raw as [|one raw]; [done|].
  destruct (Nat.ltb_spec EXPORT_PATHS_MAX (length (one :: raw))) as [|Hle]; [done|].
  intros [Hd Hm]%validate_paths_Ok; [|constructor]. split_and!; [| |done|done].
  - apply (f_equal length) in Hm. rewrite length_app, !length_map in Hm. simpl in *. lia.
  - apply (f_equal length) in Hm. rewrite length_app, !length_map in Hm. simpl in *. lia.
Qed.

(** ** The query of the audit log *)

Lemma clamp_limit_bounds limit : 1 <= clamp_limit limit <= AUDIT_LIMIT_MAX.
Proof. unfold clamp_limit, AUDIT_LIMIT_MAX. lia. Qed.

Lemma length_take_Z {A} n (l : list A) : 0 <= n -> Z.of_nat (length (take_Z n l)) <= n.
Proof. intros Hn. rewrite take_Z_take, length_take. lia. Qed.

Lemma take_Z_elem {A} n (l : list A) x : x ∈ take_Z n l -> x ∈ l.
Proof. rewrite take_Z_take. apply subseteq_take. Qed.

Lemma take_sorted {A} (R : A -> A -> Prop) n l : Sorted R l -> Sorted R (take n l).
Proof.
  intros Hs. revert n. induction Hs as [|x l Hs IH Hd]; intros n; [by rewrite take_nil|].
  destruct n as [|n]; [constructor|]. simpl. constructor; [apply IH|].
  destruct n as [|n], Hd as [|y l Hxy]; by constructor.
Qed.

Section query.
Context {LJ : LogJson}.

Lemma query_rows_ok filter d : 0 <= af_limit filter ->
  Z.of_nat (length (query_rows filter d)) <= af_limit filter /\
  Sorted (fun a b => seq_leb a b = true) (query_rows filter d) /\
  forall r, r ∈ query_rows filter d -> in_window (af_window filter) r = true.
Proof.
  intros Hl. unfold query_rows. set (matching := List.filter _ (db_log d)).
  assert (forall r, r ∈ matching -> in_window (af_window filter) r = true) as Hm.
  { intros r Hr. apply list_elem_of_In, List.filter_In in Hr as [_ Hr]. by apply andb_true_iff in Hr as [? _]. }
  assert (forall a b : LogRow, seq_leb a b = false -> seq_leb b a = true) as Htot.
  { intros a b. unfold seq_leb. lia. }
  destruct (af_window filter) as [after|before].
  - split_and!; [by apply length_take_Z| |].
    + rewrite take_Z_take. by apply take_sorted, sort_by_sorted.
    + intros r Hr. apply Hm. apply take_Z_elem in Hr. by rewrite sort_by_perm in Hr.
  - split_and!; [|by apply sort_by_sorted|].
    + rewrite (Permutation_length (sort_by_perm _ _)). by apply length_take_Z.
    + intros r Hr. rewrite sort_by_perm in Hr. apply take_Z_elem in Hr. rewrite sort_by_perm in Hr. by apply Hm.
Qed.
End query.

Lemma audit_row_seq r row : audit_row r = Ok row -> ar_seq row = l_seq r.
Proof.
  unfold audit_row. intros (seq & Hs & Hr)%res_bind_Ok. apply ok_or_Ok in Hs.
  apply res_bind_Ok in Hr as (h & _ & [= <-]). unfold u64_try_from in Hs. simpl.
  destruct (_ && _); [|done]. by injection Hs.
Qed.

Lemma audit_entry_seq {RJ : RawJson} row e : audit_entry row = Ok e -> aer_seq e = ar_seq row.
Proof. unfold audit_entry. by intros (record & _ & [= <-])%res_bind_Ok. Qed.

Lemma rows_and_entries {RJ : RawJson} rows stored page :
  res_mapM audit_row rows = Ok stored -> res_mapM audit_entry stored = Ok page ->
  length page = length rows /\ map aer_seq page = map l_seq rows.
Proof.
  intros H1%res_mapM_Ok H2%res_mapM_Ok. revert page H2.
  induction H1 as [|r row rows stored Hr _ IH]; intros page H2; inversion H2 as [|? e ? es He Hes]; subst; [done|].
  destruct (IH _ Hes) as [E1 E2]. simpl. by rewrite E1, E2, (audit_entry_seq _ _ He), (audit_row_seq _ _ Hr).
Qed.

Lemma audit_window_Ok q w : audit_window q = Ok w ->
  (forall after, aq_after_seq q = Some after -> w = Oldest (Some after)) /\
  (forall before, aq_before_seq q = Some before -> w = Newest (Some before)).
Proof.
  unfold audit_window. intros (newest & _ & Hw)%res_bind_Ok.
  destruct (aq_after_seq q) as [a|], (aq_before_seq q) as [b|]; try done.
  - destruct (newest : bool); [done|]. injection Hw as <-. by split; intros ? [= <-].
  - repeat case_match; try done; simplify_eq; by split; intros ? [= <-].
Qed.

(** ** The handlers *)

Section handlers.
Context {H : Sha256} {J : Json} {M : Mac} {En : Entropy} {F : Features}.
Context {D : Type} `{!AuditDevice D}.
Context {A : Aead} {U : Unicode} {LJ : LogJson} {RJ : RawJson} {R : ClaimsReader} {Sg : Signatures}.
Context (state : Inner).

Lemma yields_reply {B C} (f : B -> C) (m : app_m (D := D) B) (P : C -> Prop) :
  yields m (fun b => P (f b)) -> yields (reply_of f m) P.
Proof. intros Hm. apply yields_bind. eapply yields_mono; [|exact Hm]. done. Qed.

Lemma yields_complete {B} c action path request reason (work : app_m (D := D) B) P :
  yields work P -> yields (complete_or_record c action path request reason work) P.
Proof.
  intros Hw. apply yields_bind, yields_try; [|done]. intros e. by apply yields_then.
Qed.

Lemma yields_store {B} (work : stm Store StoreError B) (P : B -> Prop) :
  (forall s b s', work s = (Ok b, s') -> P b) -> yields (with_store (D := D) (mmap_err api_of_store work)) P.
Proof.
  intros Hw. apply yields_atomic. intros a b a'. unfold mmap_err.
  destruct (work (app_store a)) as [[x|e] s'] eqn:E; [|done]. intros [= <- _]. by eapply Hw.
Qed.

Lemma yields_audit h origin q : yields (read_audit (D := D) state h origin q) (page_ok q).
Proof.
  apply yields_then. intros c. apply yields_then. intros allowed.
  apply yields_bind, yields_lift. intros w [Hafter Hbefore]%audit_window_Ok.
  pose proof (clamp_limit_bounds (aq_limit q)) as Hclamp.
  apply yields_complete, yields_bind, yields_store. intros s rows s' Hq.
  apply yields_lift. intros page Hpage. unfold audit_query in Hq.
  apply mbind_Ok in Hq as (found & s1 & Hread & Hrows). apply sql_Ok in Hread. injection Hread as <- _.
  apply mlift_Ok in Hrows as [Hrows _]. destruct (rows_and_entries _ _ _ Hrows Hpage) as [Hlen Hseq].
  match type of Hrows with context [query_rows ?filter ?d] =>
    destruct (query_rows_ok filter d) as (Hn & Hsorted & Hwin); [simpl; lia|] end.
  assert (forall e, e ∈ page -> exists r, in_window w r = true /\ l_seq r = aer_seq e) as Hin.
  { intros e He. assert (aer_seq e ∈ map aer_seq page) as Hs by (apply elem_of_map; by exists e).
    rewrite Hseq in Hs. apply elem_of_map in Hs as (r & -> & Hr). exists r. split; [by apply (Hwin r)|done]. }
  split.
  - rewrite Hlen. split; [exact Hn|apply Hclamp].
  - rewrite Hseq. eapply Sorted_fmap; [|exact Hsorted]. intros a b. unfold seq_leb. lia.
  - intros after e Ha He. destruct (Hin e He) as (r & Hr & <-). rewrite (Hafter _ Ha) in Hr. simpl in Hr. lia.
  - intros before e Hb He. destruct (Hin e He) as (r & Hr & <-). rewrite (Hbefore _ Hb) in Hr. simpl in Hr. lia.
Qed.

(** What the loop holds so far. *)
Definition export_so_far (paths : list SecretPath) (bytes : Z) (secrets : list ExportedSecret) : Prop :=
  map ex_path secrets = map path_str paths /\ export_size secrets = bytes /\ 0 <= bytes <= EXPORT_BYTES_MAX.

Lemma yields_export_secrets c request paths recorded bytes secrets :
  export_so_far recorded bytes secrets ->
  yields (export_secrets (D := D) state c request paths recorded bytes secrets)
    (fun r => forall served, fst r = Ok served ->
       map ex_path served = map path_str (recorded ++ paths) /\ export_size served <= EXPORT_BYTES_MAX).
Proof.
  revert recorded bytes secrets. induction paths as [|path paths IH]; intros recorded bytes secrets (Hn & Hs & Hb);
    cbn [export_secrets].
  { intros served [= <-]. rewrite app_nil_r, Hs. split; [done|lia]. }
  apply yields_then. intros [[]|e]; [|by apply yields_ret]. apply yields_bind, yields_try; [intros e; by apply yields_ret|]. apply yields_bind, yields_store. intros s stored s' Hget.
  apply yields_bind, yields_lift. intros value _. apply yields_ret. cbv beta zeta iota.
  destruct (Z.ltb_spec EXPORT_BYTES_MAX (u64_sat_add bytes (len value))) as [|Hle];
    [by apply yields_ret|].
  pose proof (get_names path None s stored) as [Hpath _]; [by rewrite Hget|].
  replace (recorded ++ path :: paths) with ((recorded ++ [path]) ++ paths) by by rewrite <- app_assoc.
  apply IH. unfold u64_sat_add, u64_max, EXPORT_BYTES_MAX in *. split_and!.
  - rewrite !map_app, Hn. simpl. by rewrite Hpath.
  - rewrite export_size_snoc, Hs. simpl. lia.
  - unfold len. lia.
  - exact Hle.
Qed.

Lemma yields_export h origin raw : yields (export (D := D) state h origin raw) (export_ok raw).
Proof.
  apply yields_then. intros c. apply yields_bind.
  destruct (validate_export_paths raw) as [paths|refused] eqn:Hv; [|by apply yields_then].
  destruct (validate_export_paths_Ok _ _ Hv) as (Hc & Hd & Hm). simpl. apply yields_bind.
  eapply yields_mono; [|apply (yields_export_secrets c _ paths [] 0 [])]; [|split_and!; done].
  intros [[served|e] recorded] Hr; [|by apply yields_then]. destruct (Hr served eq_refl) as [Hnames Hsize].
  simpl in Hnames. split.
  - rewrite <- (length_map ex_path), Hnames, length_map. exact Hc.
  - by rewrite Hnames.
  - by rewrite Hnames.
  - exact Hsize.
Qed.

Lemma yields_read h origin raw version :
  yields (read_secret (D := D) state h origin raw (Some version)) (fun r => sr_version r = version).
Proof.
  apply yields_then. intros c. apply yields_then. intros path. apply yields_then. intros [].
  apply yields_bind, yields_lift. intros wanted Hwanted.
  apply yields_bind, yields_try; [intros e; by apply yields_then|]. apply yields_store. intros s stored s' Hget.
  destruct (decrypt_to_text state stored) as [value|e]; [|by apply yields_then]. simpl.
  pose proof (get_names path wanted s stored) as [_ Hv]; [by rewrite Hget|].
  unfold query_version in Hwanted. destruct (version_new version) as [v|] eqn:E; [|done]. injection Hwanted as <-.
  rewrite (Hv v eq_refl). unfold version_new in E. destruct (version =? 0); [done|]. by injection E as <-.
Qed.

Lemma yields_login h origin body :
  yields (oidc_login (D := D) state h origin body) (fun r => i64_min <= ol_expires_at r <= i64_max).
Proof.
  apply yields_then. intros now. apply yields_then. intros asked.
  destruct (exchange _ _ _) as [why|provider subject reason|accepted].
  - done.
  - by apply yields_then.
  - apply yields_then. intros t. apply yields_then. intros []. apply yields_then. intros [[]|e]; [|by apply yields_then].
    apply yields_ret. cbn [ol_expires_at]. unfold i64_sat, i64_min, i64_max. lia.
Qed.

Lemma yields_serve h origin q : yields (serve (D := D) state h origin q) (bounded q).
Proof.
  assert (yields (serve_route (D := D) state h origin q) (bounded q)) as Hroute.
  { destruct q; try (eapply yields_mono; [|apply yields_any]; done); cbn [serve_route].
    - destruct version as [version|]; [|eapply yields_mono; [|apply yields_any]; done].
      apply yields_reply, yields_read.
    - apply yields_reply, yields_audit.
    - destruct body as [raw|e]; [|eapply yields_mono; [|apply yields_any]; done].
      apply yields_reply, yields_export.
    - apply yields_then. intros body'. apply yields_reply. eapply yields_mono; [|apply yields_login]. by intros r. }
  unfold serve. destruct (request_route q) as [t|]; [|done]. destruct (has_route state t); [done|]. by apply yields_then.
Qed.


End handlers.
