(* ===== verification/Availability.v ===== *)
(** * That requests are answered ([ciphr-server], [ciphr-audit])

    The service refuses everything when no device takes a record.  Here is the other
    side: as long as one device takes what it is given, no request is refused for
    the trail's sake, whatever the other devices do, and every request that gets its
    turns is answered. *)

From Stdlib Require Import ZArith NArith Lia Ascii String.
From stdpp Require Import base tactics list strings gmap relations.
From S2P Require Import Prelude Text Hex Path Pattern Vocabulary PolicyModel Evaluate Crypto Token Time Chain Sink Db Store.
From S2P Require Import Tokens Honeypots StoreAudit Surface Oidc Config Prog State Trail Api Service Contract Guarantees.

Section availability.
Context {H : Sha256} {J : Json} {M : Mac} {En : Entropy} {F : Features}.
Context {D : Type} `{!AuditDevice D} {L : AuditDeviceLaws D}.
Context {A : Aead} {U : Unicode} {LJ : LogJson} {RJ : RawJson} {R : ClaimsReader} {Sg : Signatures}.
Context (state : Inner).

(** A device that takes what it is given, and goes on doing so. *)
Context (reliable : D -> Prop).
Definition takes_everything : Prop :=
  forall r d, reliable d -> exists d', dev_write r d = (Ok tt, d') /\ reliable d'.
(** serde_json writes every entry: it has no map and no number that is not one. *)
Definition always_encodes : Prop :=
  forall seq ts hash e, is_ok (json_record seq ts (hex_encode hash) e) = true.

Context (Hreliable : takes_everything) (Hencodes : always_encodes).

(** ** The sink *)

Definition good_slot (s : Slot D) : Prop := slot_quarantined s = None /\ reliable (slot_device s).
Definition serviceable (sk : AuditSink D) : Prop :=
  NoDup (device_names sk) /\ exists s, s ∈ slots sk /\ good_slot s.

Lemma write_all_good r l l' failures attempted s :
  NoDup (map slot_name l) -> s ∈ l -> good_slot s -> write_all r l = (l', failures, attempted) ->
  length failures < attempted /\ named_in failures (slot_name s) = false /\
  exists s', s' ∈ l' /\ good_slot s' /\ slot_name s' = slot_name s.
Proof.
  revert l' failures attempted. induction l as [|x l IH]; intros l' failures attempted Hnd Hs Hg Hw; simpl in *;
    [by apply elem_of_nil in Hs|].
  apply NoDup_cons in Hnd as [Hni Hnd]. destruct (write_all r l) as [[l1 f1] n1] eqn:E.
  destruct (write_all_spec _ _ _ _ _ Hnd E) as [_ Hsub].
  apply elem_of_cons in Hs as [->|Hs].
  - destruct Hg as [Hq Hr]. destruct x as [d q]. simpl in *. subst q. simpl in Hw.
    destruct (Hreliable r d Hr) as (d' & Hd & Hr'). rewrite Hd in Hw. injection Hw as <- <- <-.
    split_and!; [apply write_all_failures_le in E; lia|by apply not_true_is_false; intros Ht; apply Hni, Hsub|].
    exists (mkSlot d' None). split_and!; [by left|done|]. by apply dev_write_ok in Hd as [_ Hn].
  - destruct (IH _ _ _ Hnd Hs Hg eq_refl) as (Hlt & Hf & s' & Hs' & Hg' & Hn).
    assert (slot_name s <> slot_name x) as Hne by (intros Heq; apply Hni; rewrite <- Heq; by apply list_elem_of_fmap_2).
    destruct (negb (slot_active x)).
    + injection Hw as <- <- <-. split_and!; [done|done|]. exists s'. split_and!; [by right|done|done].
    + pose proof (dev_write_slot r (slot_device x)) as Hd. destruct (dev_write r (slot_device x)) as [[[]|e] d'];
        injection Hw as <- <- <-; simpl; (split_and!; [lia| |exists s'; split_and!; [by right|done|done]]); [done|].
      unfold named_in in *. simpl. rewrite Hf. destruct Hd as [Hname _]. unfold slot_name in Hname at 1. simpl in Hname.
      rewrite Hname, orb_false_r. apply String.eqb_neq. intros Heq. by apply Hne.
Qed.

Lemma sink_record_good e now sk : serviceable sk ->
  is_ok (fst (sink_record e now sk)) = true /\ serviceable (snd (sink_record e now sk)).
Proof.
  intros [Hnd (s & Hs & Hg)]. destruct (sink_record e now sk) as [res sk'] eqn:Hr.
  assert (device_names sk' = device_names sk) as Hnames.
  { pose proof (sink_record_step _ _ _ _ _ Hnd Hr) as Hstep. destruct res as [w|err].
    - destruct Hstep as (r & _ & _ & _ & _ & HF). by eapply device_names_follow.
    - destruct Hstep as [_ HF]. by eapply device_names_follow. }
  unfold sink_record in Hr. destruct (chain_encode (sink_chain sk) e now) as [r|err] eqn:He.
  2: { unfold chain_encode in He. pose proof (Hencodes (next_seq (sink_chain sk)) (rfc3339_millis now)
         (prev_hash (sink_chain sk)) e) as Hok. by destruct (json_record _ _ _ _). }
  destruct (write_all r (slots sk)) as [[l failures] attempted] eqn:Hw.
  destruct (write_all_good _ _ _ _ _ _ Hnd Hs Hg Hw) as (Hlt & Hf & s' & Hs' & Hg' & Hn).
  rewrite (proj2 (Nat.eqb_neq _ _)), (proj2 (Nat.eqb_neq _ _)) in Hr by lia. simpl in Hr.
  pose proof (quarantine_failed_spec failures r l) as HQ. destruct (quarantine_failed failures r l) as [l2 stopped].
  injection Hr as <- <-. simpl in HQ. cbn [fst snd]. split; [done|]. split; [by rewrite Hnames|].
  apply list_elem_of_lookup in Hs' as [i Hi]. destruct (Forall2_lookup_l _ _ _ _ _ HQ Hi) as (s2 & Hi2 & Hd2 & Hq2).
  exists s2. split; [by apply list_elem_of_lookup; exists i|]. destruct Hg' as [Hq' Hr']. split.
  - by rewrite Hq2, Hn, Hf, andb_false_r.
  - by rewrite Hd2.
Qed.

(** ** What the handlers are made of *)

Definition in_service (a : App D) : Prop := serviceable (app_audit a).

(** Never the answer that the trail is unavailable. *)
Definition spared {B} (r : result ApiError B) : Prop := r <> Err AuditUnavailable.
Definition sparing {B} (m : app_m (D := D) B) : Prop := answers in_service m spared.

Lemma sparing_bind {B C} (m : app_m (D := D) B) (k : B -> app_m C) :
  sparing m -> (forall b, sparing (k b)) -> sparing (pbind m k).
Proof.
  intros Hm Hk. apply answers_bind. eapply answers_mono; [|exact Hm]. intros [b|e] Hr; [by apply Hk|].
  intros [= ->]. by apply Hr.
Qed.

Lemma sparing_try {B C} (m : app_m (D := D) B) (k : result ApiError B -> app_m C) :
  sparing m -> (forall r, spared r -> sparing (k r)) -> sparing (pbind (ptry m) k).
Proof.
  intros Hm Hk. apply answers_bind, answers_try. eapply answers_mono; [|exact Hm]. intros r Hr. by apply Hk.
Qed.

Lemma sparing_ret {B} (b : B) : sparing (pret b).
Proof. done. Qed.
Lemma sparing_fail {B} e : e <> AuditUnavailable -> sparing (B := B) (pfail e).
Proof. intros He. apply answers_fail. by intros [= ->]. Qed.
Lemma sparing_fail_as {B C} e : spared (Err (A := C) e) -> sparing (B := B) (pfail e).
Proof. intros He. apply answers_fail. intros [= ->]. by apply He. Qed.
Lemma sparing_lift {B} (r : result ApiError B) : spared r -> sparing (plift r).
Proof. done. Qed.
Lemma sparing_panic {B} : sparing (B := B) Panicked.
Proof. done. Qed.

(** A step that leaves the sink alone. *)
Lemma sparing_step {B} (f : App D -> B * App D) :
  (forall a, app_audit (snd (f a)) = app_audit a) -> sparing (pstep f).
Proof. intros Hf. apply answers_step. intros a Ha. split; [|done]. unfold in_service. by rewrite Hf. Qed.

Lemma spared_store {B} (r : result StoreError B) : spared (map_err api_of_store r).
Proof. destruct r as [b|e]; [done|]. intros [= E]. by destruct e. Qed.

Lemma spared_mmap {B} (work : store_m B) st : spared (fst (mmap_err api_of_store work st)).
Proof. unfold mmap_err. destruct (work st) as [r st']. apply spared_store. Qed.

Lemma sparing_store {B} (work : store_m B) : sparing (with_store (mmap_err api_of_store work)).
Proof.
  apply answers_atomic. intros a r a' Ha Hr. pose proof (spared_mmap work (app_store a)) as Hs.
  destruct (mmap_err api_of_store work (app_store a)) as [r0 st]. by injection Hr as <- <-.
Qed.

Lemma sparing_store_now {B} (work : Z -> store_m B) :
  sparing (with_store_now (fun now => mmap_err api_of_store (work now))).
Proof.
  apply answers_atomic. intros a r a' Ha Hr. unfold read_clock in Hr.
  match type of Hr with context [mmap_err api_of_store ?w ?st] =>
    pose proof (spared_mmap w st) as Hs; destruct (mmap_err api_of_store w st) as [r0 st'] end.
  by injection Hr as <- <-.
Qed.

(** A step that only records. *)
Lemma sink_call_good e a : in_service a ->
  is_ok (fst (sink_call e a)) = true /\ in_service (snd (sink_call e a)).
Proof.
  intros Ha. unfold sink_call, read_clock. destruct (sink_record_good e (default 0%Z (head (app_clock a))) _ Ha) as [Hok Hs].
  simpl. destruct (sink_record _ _ _) as [r sk]. by split.
Qed.

Lemma record_gaps_good quarantined failures a : in_service a -> in_service (record_gaps quarantined failures a).
Proof. revert a. induction failures as [|f fs IH]; intros a Ha; [done|]. simpl. by apply IH, sink_call_good. Qed.

Lemma sparing_record e : sparing (record e).
Proof.
  apply answers_bind, answers_step. intros a Ha. destruct (sink_call_good e a Ha) as [Hok Hs]. split; [done|].
  destruct (fst (sink_call e a)) as [written|err]; [|done]. apply sparing_bind; [by apply sparing_step|]. intros _.
  unfold explain_the_gap. destruct (w_failures written) as [|f fs]; [apply sparing_ret|].
  apply answers_step. intros a' Ha'. split; [|done]. cbn [snd]. by apply record_gaps_good.
Qed.

(** Every handler is a sequence of these. *)
Ltac sparing_step1 :=
  first
  [ apply sparing_ret | apply sparing_panic | apply sparing_fail; done | eapply sparing_fail_as; eassumption
  | apply sparing_record | apply sparing_store | apply sparing_store_now
  | apply sparing_try; [|intros [?|?] ?] | apply sparing_bind; [|intros ?]
  | (apply sparing_step; intros; reflexivity) ].
Ltac sparing := repeat (intros; cbv zeta; first [sparing_step1 | case_match; try done]).

Lemma sparing_for {B} (l : list B) (body : B -> app_m unit) : (forall x, sparing (body x)) -> sparing (pfor l body).
Proof. intros Hb. induction l as [|x l IH]; [apply sparing_ret|]. simpl. by apply sparing_bind. Qed.

Lemma sparing_latch kind reference identity tier : sparing (latch_off_the_request_path kind reference identity tier).
Proof. unfold latch_off_the_request_path, claim, spawn_blocking. sparing. Qed.

Lemma sparing_latch_work job : sparing (latch_work job).
Proof. unfold latch_work, release. sparing. Qed.

(** A rejection of the caller is spared as well. *)
Definition spared_outcome {B} (r : result ApiError (result Rejection B)) : Prop :=
  match r with
  | Ok (Err rejection) => rej_error rejection <> AuditUnavailable
  | Ok (Ok _) => True
  | Err e => e <> AuditUnavailable
  end.

Lemma answers_authenticate bearer : answers in_service (state_authenticate state bearer) spared_outcome.
Proof.
  unfold state_authenticate. destruct bearer as [presented|]; [|done]. destruct (Token_parse presented); [|done].
  apply answers_bind, answers_try. eapply answers_mono; [|apply sparing_store_now].
  intros [[| |]|e] Hr; try done. apply answers_ret. simpl. intros ->. by apply Hr.
Qed.

Lemma sparing_caller {B} bearer (k : result Rejection Caller -> app_m B) :
  (forall r, spared_outcome (Ok r) -> sparing (k r)) -> sparing (pbind (state_authenticate state bearer) k).
Proof.
  intros Hk. apply answers_bind. eapply answers_mono; [|apply answers_authenticate].
  intros [r|e] Hr; [by apply Hk|]. intros [= ->]. by apply Hr.
Qed.

Lemma sparing_rejection action request bait : sparing (record_rejection action request bait).
Proof. unfold record_rejection, record_unauthenticated. sparing. Qed.

Lemma sparing_enter h action request : sparing (api_authenticate state h action request).
Proof.
  unfold api_authenticate. apply sparing_caller. intros [c|rejection] Hr; [apply sparing_ret|].
  apply sparing_bind; [apply sparing_rejection|]. intros _. by apply sparing_fail.
Qed.

Lemma sparing_refusal c attempted request status reason : sparing (record_refusal c attempted request status reason).
Proof. apply sparing_record. Qed.

Lemma sparing_path c attempted request raw : sparing (parse_path_recorded c attempted request raw).
Proof.
  unfold parse_path_recorded, api_parse_path. destruct (SecretPath_parse raw); cbn [map_err]; [apply sparing_ret|].
  apply sparing_bind; [apply sparing_refusal|]. intros _. by apply sparing_fail.
Qed.

Lemma sparing_decide c action capability path subject request :
  sparing (authorize_and_record_subject state c action capability path subject request).
Proof. unfold authorize_and_record_subject. sparing. Qed.

Lemma sparing_authorize c action capability path request :
  sparing (authorize_and_record state c action capability path request).
Proof. apply sparing_decide. Qed.

Lemma sparing_complete {B} c action path request reason (work : app_m B) :
  sparing work -> sparing (complete_or_record c action path request reason work).
Proof. intros Hw. unfold complete_or_record, record_outcome. apply sparing_try; [done|]. intros [b|e] Hr; sparing. Qed.

Lemma sparing_json {T} attempted h origin (body : result string T) : sparing (audited_json state attempted h origin body).
Proof.
  unfold audited_json. destruct body as [v|e]; [apply sparing_ret|]. apply sparing_caller.
  intros [c|rejection] _; [|by apply sparing_fail]. apply sparing_bind; [apply sparing_refusal|]. intros _. by apply sparing_fail.
Qed.

Lemma sparing_fallback h origin reason : sparing (fallback state h origin reason).
Proof.
  unfold fallback, refused_request. apply answers_bind, answers_bind.
  eapply answers_mono; [|apply answers_authenticate]. intros [[c|rejection]|e] Hr; [|done|by intros [= ->]; apply Hr].
  apply answers_bind, answers_try. eapply answers_mono; [|apply sparing_refusal].
  intros [[]|e] He; [done|]. intros [= ->]. by apply He.
Qed.

(** ** The handlers *)

Lemma spared_ok_or {B} e (o : option B) : e <> AuditUnavailable -> spared (ok_or e o).
Proof. intros He. destruct o; [done|]. by intros [= ->]. Qed.

Lemma spared_decrypt stored : spared (decrypt_to_text state stored).
Proof.
  unfold decrypt_to_text. destruct (decrypt _ _ _ _); simpl; [by apply spared_ok_or|done].
Qed.

#[local] Hint Resolve sparing_enter sparing_path sparing_authorize sparing_decide sparing_complete sparing_json
  sparing_store sparing_store_now sparing_record : sparing.


Lemma spared_map_err {E B} (f : E -> ApiError) (r : result E B) :
  (forall e, f e <> AuditUnavailable) -> spared (map_err f r).
Proof. intros Hf. destruct r as [b|e]; [done|]. intros [= E']. by apply (Hf e). Qed.

Lemma spared_bind {B C} (r : result ApiError B) (k : B -> result ApiError C) :
  spared r -> (forall b, spared (k b)) -> spared (res_bind r k).
Proof. intros Hr Hk. destruct r as [b|e]; [apply Hk|]. simpl. intros [= ->]. by apply Hr. Qed.

Lemma spared_mapM {B C} (f : B -> result ApiError C) l : (forall x, spared (f x)) -> spared (res_mapM f l).
Proof.
  intros Hf. induction l as [|x l IH]; simpl; [done|]. pose proof (Hf x) as Hx.
  destruct (f x) as [y|e]; [|intros [= ->]; by apply Hx]. destruct (res_mapM f l) as [ys|e]; [done|].
  intros [= ->]. by apply IH.
Qed.

(** What the handlers compute without a step. *)
Ltac spared := repeat first
  [ done | apply spared_decrypt | apply spared_ok_or; done | apply spared_map_err; done
  | apply spared_bind; [|intros ?] | apply spared_mapM; intros ? | case_match ].

Lemma spared_version version : spared (query_version version).
Proof. unfold query_version. spared. Qed.
Lemma spared_rotation raw : spared (parse_rotation raw).
Proof. unfold parse_rotation. spared. Qed.
Lemma spared_reserved path : spared (api_reject_reserved path).
Proof. unfold api_reject_reserved. spared. Qed.
Lemma spared_window q : spared (audit_window q).
Proof. unfold audit_window. spared. Qed.
Lemma spared_decision q : spared (audit_decision q).
Proof. unfold audit_decision. spared. Qed.
Lemma spared_entry row : spared (audit_entry row).
Proof. unfold audit_entry. spared. Qed.
Lemma spared_ttl ttl : spared (asked_ttl ttl).
Proof. unfold asked_ttl. spared. Qed.
Lemma spared_export raw : spared (validate_export_paths raw).
Proof.
  unfold validate_export_paths. destruct raw as [|one raw]; [done|]. destruct (_ <? _); [done|].
  generalize (one :: raw) (@nil SecretPath). clear. intros raw. induction raw as [|one raw IH]; intros seen; simpl; [done|].
  apply spared_bind; [unfold api_parse_path; spared|]. intros path. destruct (existsb _ _); [done|]. apply IH.
Qed.

#[local] Hint Resolve spared_version spared_rotation spared_reserved spared_window spared_decision spared_entry
  spared_ttl spared_decrypt spared_mapM : sparing.

Ltac handler := repeat (intros; cbv zeta beta; first
  [ solve [eauto with sparing]
  | match goal with |- context [match decrypt_to_text state ?x with _ => _ end] =>
      pose proof (spared_decrypt x); destruct (decrypt_to_text state x) end
  | sparing_step1 | apply sparing_complete
  | apply sparing_lift; first [solve [eauto with sparing] | spared] | case_match; try done ]).

Lemma sparing_read h origin raw version : sparing (read_secret state h origin raw version).
Proof. unfold read_secret. handler. Qed.

Lemma sparing_put path by_ rotation plaintext : sparing (put_encrypted state path by_ rotation plaintext).
Proof.
  apply answers_atomic. intros a r a' Ha Hr. unfold read_clock in Hr.
  destruct (put_with_rotation _ _ _ _ _ _) as [r0 st]. injection Hr as <- <-. split; [exact Ha|apply spared_store].
Qed.

Lemma sparing_token : sparing generate_token.
Proof.
  apply answers_atomic. intros a r a' Ha Hr. destruct (Token_generate (app_rng a)) as [r0 g].
  injection Hr as <- <-. split; [exact Ha|]. by apply spared_map_err.
Qed.

#[local] Hint Resolve sparing_put sparing_token : sparing.

Lemma sparing_write h origin raw body : sparing (write_secret state h origin raw body).
Proof. unfold write_secret. handler. Qed.

Lemma sparing_delete h origin raw version : sparing (delete_secret state h origin raw version).
Proof. unfold delete_secret. handler. Qed.

Lemma sparing_versions h origin raw : sparing (list_versions state h origin raw).
Proof. unfold list_versions. handler. Qed.

Lemma sparing_list h origin raw rotation : sparing (api_list_paths state h origin raw rotation).
Proof. unfold api_list_paths, record_listing. handler. Qed.

Lemma sparing_inspect h origin name : sparing (inspect state h origin name).
Proof. unfold inspect. handler. Qed.
#[local] Hint Resolve sparing_inspect : sparing.

Lemma sparing_surface h origin : sparing (read_surface state h origin).
Proof. unfold read_surface. handler. Qed.
Lemma sparing_honeypots h origin : sparing (read_honeypots state h origin).
Proof. unfold read_honeypots. handler. Qed.
Lemma sparing_audit h origin q : sparing (read_audit state h origin q).
Proof. unfold read_audit. handler. Qed.
Lemma sparing_identities h origin : sparing (read_identities state h origin).
Proof. unfold read_identities. handler. Qed.
Lemma sparing_policies h origin : sparing (read_policies state h origin).
Proof. unfold read_policies. handler. Qed.
Lemma sparing_tokens h origin identity : sparing (read_tokens state h origin identity).
Proof. unfold read_tokens, now_millis. handler. Qed.
Lemma sparing_revoke h origin id : sparing (api_revoke_token state h origin id).
Proof. unfold api_revoke_token. handler. Qed.
Lemma sparing_login h origin body : sparing (oidc_login state h origin body).
Proof. unfold oidc_login, now_millis, record_federation, store_federated_token. handler. Qed.
Lemma sparing_health : sparing (health state).
Proof. unfold health, tripwire_state, audit_devices. handler. Qed.

Lemma sparing_value path : sparing (export_value state path).
Proof. unfold export_value. handler. Qed.
#[local] Hint Resolve sparing_value : sparing.

Lemma answers_export_secrets c request paths recorded bytes secrets :
  answers in_service (export_secrets state c request paths recorded bytes secrets)
    (fun r => match r with Ok (outcome, _) => spared outcome | Err e => e <> AuditUnavailable end).
Proof.
  revert recorded bytes secrets. induction paths as [|path paths IH]; intros recorded bytes secrets; cbn [export_secrets]; [done|].
  apply answers_bind, answers_try. eapply answers_mono; [|apply sparing_authorize]. intros [[]|e] Hr;
    [|apply answers_ret; intros [= ->]; by apply Hr].
  apply answers_bind, answers_try. eapply answers_mono; [|apply sparing_value]. intros [[stored value]|e] Hv;
    [|apply answers_ret; intros [= ->]; by apply Hv].
  cbv zeta. destruct (_ <? _)%Z; [by apply answers_ret|]. apply IH.
Qed.

Lemma sparing_export h origin raw : sparing (export state h origin raw).
Proof.
  unfold export. apply sparing_bind; [apply sparing_enter|]. intros c. apply sparing_bind.
  { pose proof (spared_export raw). destruct (validate_export_paths raw); handler. }
  intros paths. apply answers_bind. eapply answers_mono; [|apply answers_export_secrets].
  intros [[[served|e] recorded]|e] Hr; [done| |by intros [= ->]].
  apply sparing_bind; [apply sparing_for; intros path; apply sparing_record|]. intros _. by eapply sparing_fail_as.
Qed.

Lemma sparing_reply {B C} (f : B -> C) (m : app_m B) : sparing m -> sparing (reply_of f m).
Proof. intros Hm. by apply sparing_bind. Qed.

Lemma sparing_serve h origin q : sparing (serve state h origin q).
Proof.
  assert (sparing (serve_route state h origin q)) as Hroute.
  { destruct q; cbn [serve_route]; try (apply sparing_bind; [apply sparing_json|intros body']);
      try apply sparing_reply; auto using sparing_health, sparing_read, sparing_write, sparing_delete, sparing_versions,
        sparing_list, sparing_surface, sparing_audit, sparing_identities, sparing_policies, sparing_export,
        sparing_tokens, sparing_revoke, sparing_login, sparing_honeypots, sparing_fallback. }
  unfold serve. destruct (request_route q) as [t|]; [|done]. destruct (has_route state t); [done|].
  apply sparing_fallback.
Qed.

Lemma arrives_answers m : arrives state m -> sparing m.
Proof. intros [i|job]; [apply sparing_serve|]. apply sparing_reply, sparing_latch_work. Qed.

(** As long as one device takes what it is given, in any run: the sink stays in
    service, and no request is refused because of the trail. *)
Lemma run_stays_in_service reqs s ts s' i h origin q :
  in_service s -> runs state reqs s ts s' -> reqs !! i = Some (mkIncoming h origin q) ->
  in_service s' /\ exists m, ts !! i = Some m /\ sparing m.
Proof.
  intros Hs Hr Hq.
  assert (forall m : app_m (D := D) Reply, sparing m -> answers in_service m (fun _ => True)) as Hweak
    by (intros m; by apply answers_mono).
  apply (answers_pool in_service _ _ _ _ i (program state (mkIncoming h origin q)) spared
    (fun m Hm => Hweak m (arrives_answers m Hm))) in Hr; [exact Hr| |exact Hs| |apply sparing_serve].
  - apply Forall_forall. intros m (x & -> & _)%list_elem_of_fmap. apply Hweak, sparing_serve.
  - by rewrite list_lookup_fmap, Hq.
Qed.

(** C11: whatever other requests arrive and however they interleave, a request that is
    given its turns is answered, once and for all; and while one audit device takes
    what it is given, never with the answer that the trail is unavailable, whatever
    the other devices do. *)
Theorem every_request_is_answered reqs s at_ i h origin q :
  app_wf s -> in_service s -> at_ 0 = start state reqs s -> schedule (arrives state) at_ ->
  not_neglected at_ i -> reqs !! i = Some (mkIncoming h origin q) ->
  exists n r, r <> Err AuditUnavailable /\ forall n', n <= n' -> fst (at_ n') !! i = Some (Done r).
Proof.
  intros Hwf Hs H0 Hsched Hturns Hq.
  assert (fst (at_ 0) !! i = Some (program state (mkIncoming h origin q))) as Hi
    by (rewrite H0; simpl; by rewrite list_lookup_fmap, Hq).
  destruct (schedule_finishes _ _ 0 i _ Hsched Hturns Hi) as (n & m & _ & Hm & Hfin).
  assert (runs state reqs s (fst (at_ n)) (snd (at_ n))) as Hr.
  { unfold runs. rewrite <- H0, <- surjective_pairing. apply schedule_later; [done|lia]. }
  destruct (run_stays_in_service _ _ _ _ _ _ _ _ Hs Hr Hq) as (_ & m' & Hm' & Hsp).
  pose proof (eq_trans (eq_sym Hm) Hm') as E. injection E as <-.
  destruct (service_sound state _ _ _ _ Hwf Hr) as (_ & _ & _ & Hpanic & _).
  destruct Hfin as [->|[r ->]]; [by destruct (Hpanic i)|].
  exists n, r. split; [exact Hsp|]. intros n' Hn'.
  eapply finished_stays; [right; by exists r|by apply schedule_later|exact Hm].
Qed.
End availability.
