(* ===== verification/Lasting.v ===== *)
(** * What was written lasts

    A running service writes new versions, marks versions deleted, and never touches
    the value of a version that is there: whatever requests and latches run, in any
    interleaving, a version that can still be read is what was written. *)

From Stdlib Require Import ZArith NArith Lia Ascii String.
From stdpp Require Import base tactics list strings gmap relations.
From S2P Require Import Prelude Text Hex Path Pattern Vocabulary PolicyModel Evaluate Crypto Token Chain Sink Db Store.
From S2P Require Import Tokens Honeypots StoreAudit Surface Oidc Config Prog Effects State Trail Api Service Contract Guarantees.

(** The value columns of a version. *)
Definition value_columns (r : VersionRow) : string * bytes * bytes * bytes * bytes :=
  (r_dek_id r, r_dek_nonce r, r_wrapped_dek r, r_value_nonce r, r_ciphertext r).

(** Every secret and version is still there, under its id and with its value. *)
Definition values_last (d d' : Db) : Prop :=
  store_wf d ->
  store_wf d' /\
  (forall s, s ∈ db_secrets d -> exists s', s' ∈ db_secrets d' /\ s_id s' = s_id s /\ s_path s' = s_path s) /\
  (forall r, r ∈ db_versions d -> exists r', r' ∈ db_versions d' /\ r_secret r' = r_secret r /\
     r_version r' = r_version r /\ value_columns r' = value_columns r).

#[export] Instance values_last_preorder : PreOrder values_last.
Proof.
  split.
  - intros d Hwf. split_and!; [done|intros s Hs; by exists s|intros r Hr; by exists r].
  - intros a b c H1 H2 Hwf. destruct (H1 Hwf) as (Hwf1 & S1 & V1). destruct (H2 Hwf1) as (Hwf2 & S2 & V2).
    split_and!; [done| |].
    + intros s (s1 & Hs1 & I1 & P1)%S1. destruct (S2 s1 Hs1) as (s2 & Hs2 & I2 & P2). exists s2. split_and!; congruence.
    + intros r (r1 & Hr1 & K1 & N1 & C1)%V1. destruct (V2 r1 Hr1) as (r2 & Hr2 & K2 & N2 & C2). exists r2. split_and!; congruence.
Qed.

(** ** The calls of the store *)

(** What leaves secrets and versions alone. *)
Lemma last_same d d' : db_secrets d' = db_secrets d -> db_versions d' = db_versions d -> values_last d d'.
Proof.
  intros Es Ev [W1 W2 W3 W4 W5 W6]. rewrite Es, Ev. split_and!; [|intros s Hs; by exists s|intros r Hr; by exists r].
  split; rewrite ?Es, ?Ev; done.
Qed.

Abbreviation lasting := (changes values_last).

Lemma lasting_put path by_ rotation encrypt now : lasting (put_with_rotation path by_ rotation encrypt now).
Proof.
  intros s r s' Hput Hwf. destruct r as [v|e].
  - assert (store_wf (st_db s')) as Hwf' by (eapply store_step_wf; [exact Hwf|by eapply step_put]).
    apply put_Ok in Hput as (id & current & l & value & _ & Hp & _ & _ & _ & _ & Hs').
    destruct (put_secret_wf _ _ _ _ _ _ Hwf Hp) as (_ & _ & _ & Hl & _). split_and!; [done| |].
    + intros x Hx. exists (bump id (version_get v) now rotation x).
      destruct (bump_fields id (version_get v) now rotation x) as (B1 & B2 & _). split_and!; [|done|done].
      rewrite Hs'. simpl. apply elem_of_map. exists x. auto.
    + intros x Hx. exists x. split_and!; try done. rewrite Hs'. simpl. apply elem_of_app. by left.
  - assert (st_db s' = st_db s) as ->; [|by apply (reflexivity (R := values_last))].
    unfold put_with_rotation in Hput. apply mbind_inv in Hput as [(u & s1 & [_ ->]%mlift_Ok & Hput)|(e' & Hput & _)].
    + by apply transaction_Err in Hput.
    + by apply mlift_inv in Hput as [_ ->].
Qed.

Lemma lasting_reads {B} (work : store_m B) : reads_only work -> lasting work.
Proof. apply changes_reads, _. Qed.

Lemma lasting_require path : lasting (require_secret path).
Proof. apply lasting_reads, require_secret_reads. Qed.
Lemma lasting_exists path id v : lasting (version_exists path id v).
Proof. apply lasting_reads, version_exists_reads. Qed.

Lemma lasting_deleted (p : VersionRow -> bool) now : lasting (update_versions p (set_deleted now)).
Proof.
  apply changes_change; [typeclasses eauto|]. intros d Hwf. split_and!.
  - eapply store_wf_effect; [exact Hwf|]. eapply eff_versions; [apply (delete_keeps p now)|done].
  - intros s Hs. by exists s.
  - intros r Hr. exists (if p r then set_deleted now r else r). split_and!; [|by destruct (p r)..].
    simpl. apply elem_of_map. by exists r.
Qed.
#[local] Hint Resolve lasting_require lasting_exists lasting_deleted : changes.

Lemma lasting_delete path v now : lasting (Store.delete path v now).
Proof. unfold Store.delete. changes_all. Qed.

Lemma lasting_tokens (p : TokenRow -> bool) f : lasting (update_tokens p f).
Proof. apply changes_change; [typeclasses eauto|]. intros d. by apply last_same. Qed.
Lemma lasting_insert_token row : lasting (insert_token row).
Proof.
  apply changes_sql; [typeclasses eauto|]. intros d b d'. cbv beta. repeat case_match; intros [= _ <-]; by apply last_same.
Qed.
Lemma lasting_insert_trip kind reference identity tier now : lasting (insert_trip kind reference identity tier now).
Proof.
  apply changes_sql; [typeclasses eauto|]. intros d b d'. cbv beta. repeat case_match; intros [= _ <-]; by apply last_same.
Qed.
Lemma lasting_token id : lasting (token id).
Proof. apply lasting_reads, token_reads. Qed.
Lemma lasting_try {B} (work : store_m B) : lasting work -> lasting (mtry (F := StoreError) work).
Proof. apply respects_try. Qed.
Lemma lasting_verifier id : lasting (verifier_for id).
Proof. unfold verifier_for. changes_all. Qed.
#[local] Hint Resolve lasting_tokens lasting_insert_token lasting_insert_trip lasting_token lasting_try lasting_verifier : changes.

Lemma lasting_authenticate {M : Mac} t pepper now : lasting (authenticate_token t pepper now).
Proof. unfold authenticate_token. changes_all. Qed.
Lemma lasting_revoke id now : lasting (revoke_token id now).
Proof. unfold revoke_token. changes_all. Qed.
Lemma lasting_issue {M : Mac} identity t pepper by_ expires now purpose : lasting (issue_token identity t pepper by_ expires now purpose).
Proof. unfold issue_token. changes_all. Qed.
Lemma lasting_latch kind reference identity tier now : lasting (latch_trip kind reference identity tier now).
Proof. unfold latch_trip, trip_is_open. changes_all. Qed.
#[local] Hint Resolve lasting_delete lasting_authenticate lasting_revoke lasting_issue lasting_latch : changes.

(** ** The steps of the service *)

Section service.
Context {H : Sha256} {J : Json} {M : Mac} {En : Entropy} {F : Features}.
Context {D : Type} `{!AuditDevice D} {L : AuditDeviceLaws D}.
Context {A : Aead} {U : Unicode} {LJ : LogJson} {RJ : RawJson} {R : ClaimsReader} {Sg : Signatures}.
Context (state : Inner).

Definition app_db (a : App D) : Db := st_db (app_store a).
Abbreviation lasts := (stays app_db values_last).

Lemma lasts_same {B} (f : App D -> B * App D) : (forall a, app_store (snd (f a)) = app_store a) -> lasts (pstep (Er := ApiError) f).
Proof. intros Hf. apply stays_step. intros a. unfold app_db. by rewrite Hf. Qed.

Lemma lasts_now : lasts (now_millis (D := D)).
Proof. by apply lasts_same. Qed.

Lemma sink_call_store e (a : App D) : app_store (snd (sink_call e a)) = app_store a.
Proof. unfold sink_call. simpl. by destruct (sink_record _ _ _). Qed.

Lemma gaps_store quarantined failures (a : App D) : app_store (record_gaps quarantined failures a) = app_store a.
Proof. revert a. induction failures as [|f failures IH]; intros a; simpl; [done|]. by rewrite IH, sink_call_store. Qed.

Lemma lasts_record e : lasts (record (D := D) e).
Proof.
  unfold record. apply stays_bind; [apply lasts_same, sink_call_store|]. intros [w|[]]; try apply stays_done.
  - apply stays_bind; [by apply lasts_same|intros _]. unfold explain_the_gap. destruct (w_failures w); [apply stays_done|].
    apply lasts_same. intros a. apply gaps_store.
  - apply stays_bind; [by apply lasts_same|intros _]. apply stays_done.
Qed.

Lemma lasts_store {B} (work : store_m B) : lasting work -> lasts (with_store (D := D) (mmap_err api_of_store work)).
Proof.
  intros Hw. apply stays_atomic. intros a. unfold app_db, mmap_err. cbv beta. pose proof (changes_run _ _ (app_store a) Hw) as Hr.
  by destruct (work (app_store a)).
Qed.
Lemma lasts_store_now {B} (work : Z -> store_m B) : (forall now, lasting (work now)) ->
  lasts (with_store_now (D := D) (fun now => mmap_err api_of_store (work now))).
Proof.
  intros Hw. apply stays_atomic. intros a. unfold app_db, mmap_err, read_clock. cbv beta zeta.
  match goal with |- context [work ?now _] => pose proof (changes_run _ _ (app_store a) (Hw now)) as Hr end.
  simpl in *. by destruct (work _ (app_store a)).
Qed.
Lemma lasts_asks {B} (work : store_m B) : reads_only work -> lasts (with_store (D := D) (mmap_err api_of_store work)).
Proof. intros Hw. by apply lasts_store, lasting_reads. Qed.
#[local] Hint Resolve lasts_now lasts_record : stays.

Lemma lasts_latch_work job : lasts (latch_work (D := D) job).
Proof.
  unfold latch_work. apply stays_bind; [apply stays_try, lasts_store_now; intros now; auto with changes|].
  intros [b|e]; [apply stays_done|]. apply stays_bind; [by apply lasts_same|intros _]. stays_all.
Qed.

Lemma lasts_authenticate h : lasts (state_authenticate (D := D) state (bearer_token h)).
Proof.
  unfold state_authenticate. destruct (bearer_token h) as [presented|] eqn:Hb; [|apply stays_done].
  pose proof (bearer_token_parses _ _ Hb) as Hp. destruct (Token_parse presented) as [parsed|] eqn:Ht; [|done].
  apply stays_bind; [|intros [[]|]; apply stays_done]. apply stays_try, lasts_store_now. intros now. unfold authenticate. rewrite Ht.
  destruct parsed; auto with changes.
Qed.

Lemma lasts_latch kind reference identity tier : lasts (latch_off_the_request_path (D := D) kind reference identity tier).
Proof.
  unfold latch_off_the_request_path. apply stays_bind; [by apply lasts_same|intros []]; [by apply lasts_same|apply stays_done].
Qed.
#[local] Hint Resolve lasts_authenticate lasts_latch : stays.

Lemma lasts_rejection action request bait : lasts (record_rejection (D := D) action request bait).
Proof. unfold record_rejection, record_unauthenticated. stays_all. Qed.
#[local] Hint Resolve lasts_rejection : stays.

Lemma lasts_api_authenticate h action request : lasts (api_authenticate (D := D) state h action request).
Proof. unfold api_authenticate. stays_all. Qed.
Lemma lasts_refusal c attempted request status reason : lasts (record_refusal (D := D) c attempted request status reason).
Proof. apply lasts_record. Qed.
Lemma lasts_outcome c action path request status reason : lasts (record_outcome (D := D) c action path request status reason).
Proof. apply lasts_record. Qed.
#[local] Hint Resolve lasts_api_authenticate lasts_refusal lasts_outcome : stays.

Lemma lasts_parse c attempted request raw : lasts (parse_path_recorded (D := D) c attempted request raw).
Proof. unfold parse_path_recorded. stays_all. Qed.

Lemma lasts_decision c action capability path subject request :
  lasts (authorize_and_record_subject (D := D) state c action capability path subject request).
Proof. unfold authorize_and_record_subject. stays_all. apply lasts_asks, reads_honeypot_tier. Qed.
Lemma lasts_decided c action capability path request : lasts (authorize_and_record (D := D) state c action capability path request).
Proof. apply lasts_decision. Qed.
#[local] Hint Resolve lasts_parse lasts_decision lasts_decided : stays.

Lemma lasts_inspect h origin name : lasts (inspect (D := D) state h origin name).
Proof. unfold inspect. stays_all. Qed.
Lemma lasts_json {T} attempted h origin (body : result string T) : lasts (audited_json (D := D) state attempted h origin body).
Proof. unfold audited_json. stays_all. Qed.
Lemma lasts_refused h origin reason : lasts (refused_request (D := D) state h origin reason).
Proof. unfold refused_request. stays_all. Qed.
#[local] Hint Resolve lasts_inspect lasts_json lasts_refused : stays.

(** ** The handlers *)

Lemma lasts_get path version : lasts (with_store (D := D) (mmap_err api_of_store (Store.get path version))).
Proof. apply lasts_asks, reads_get. Qed.
Lemma lasts_metadata path : lasts (with_store (D := D) (mmap_err api_of_store (metadata path))).
Proof. apply lasts_asks, reads_metadata. Qed.
#[local] Hint Resolve lasts_get lasts_metadata : stays.

Lemma lasts_read h origin raw version : lasts (read_secret (D := D) state h origin raw version).
Proof. unfold read_secret. stays_all. Qed.

Lemma lasts_put_encrypted path by_ rotation plaintext : lasts (put_encrypted (D := D) state path by_ rotation plaintext).
Proof.
  apply stays_atomic. intros a. unfold app_db, read_clock. cbv beta zeta.
  match goal with |- context [put_with_rotation ?p ?b ?r ?e ?n ?s] =>
    pose proof (changes_run _ _ s (lasting_put p b r e n)) as Hr; destruct (put_with_rotation p b r e n s) as [r1 st] end.
  exact Hr.
Qed.
#[local] Hint Resolve lasts_put_encrypted : stays.

Lemma lasts_write h origin raw body : lasts (write_secret (D := D) state h origin raw body).
Proof. unfold write_secret. stays_all. Qed.

Lemma lasts_delete h origin raw version : lasts (delete_secret (D := D) state h origin raw version).
Proof.
  unfold delete_secret. stays_all. apply lasts_store_now. intros now. auto with changes.
Qed.

Lemma lasts_versions h origin raw : lasts (list_versions (D := D) state h origin raw).
Proof.
  unfold list_versions. stays_all. apply lasts_asks.
  apply respects_bind; [typeclasses eauto|apply reads_metadata|]. intros md.
  apply respects_bind; [typeclasses eauto|apply reads_versions|]. intros vs. reads.
Qed.

Lemma lasts_list h origin raw rotation : lasts (api_list_paths (D := D) state h origin raw rotation).
Proof. unfold api_list_paths, record_listing. stays_all. apply lasts_asks, reads_list. Qed.

Lemma lasts_export_secrets c request paths recorded bytes secrets :
  lasts (export_secrets (D := D) state c request paths recorded bytes secrets).
Proof.
  revert recorded bytes secrets. induction paths as [|path paths IH]; intros recorded bytes secrets; cbn [export_secrets]; [apply stays_done|].
  unfold export_value. stays_all.
Qed.
Lemma lasts_export h origin body : lasts (Api.export (D := D) state h origin body).
Proof. unfold Api.export. stays_all. apply lasts_export_secrets. Qed.

Lemma lasts_revoke_token h origin id : lasts (api_revoke_token (D := D) state h origin id).
Proof.
  unfold api_revoke_token. stays_all; [apply lasts_asks, token_reads|]. apply lasts_store_now. intros now. auto with changes.
Qed.

Lemma lasts_login h origin body : lasts (oidc_login (D := D) state h origin body).
Proof.
  unfold oidc_login, record_federation, store_federated_token. stays_all.
  - apply stays_atomic. intros w. cbv beta. by destruct (Token_generate (app_rng w)).
  - apply lasts_store_now. intros now. auto with changes.
Qed.
#[local] Hint Resolve lasts_read lasts_write lasts_delete lasts_versions lasts_list lasts_export lasts_revoke_token lasts_login : stays.

Lemma lasts_reply {B} (f : B -> Reply) (m : app_m (D := D) B) : lasts m -> lasts (reply_of f m).
Proof. intros Hm. apply stays_bind; [exact Hm|]. intros b. apply stays_done. Qed.

Lemma lasts_audit h origin q : lasts (read_audit (D := D) state h origin q).
Proof. unfold read_audit. stays_all. apply lasts_asks, reads_audit_query. Qed.
Lemma lasts_tokens h origin identity : lasts (read_tokens (D := D) state h origin identity).
Proof. unfold read_tokens. stays_all. apply lasts_asks, reads_tokens. Qed.
Lemma lasts_honeypots h origin : lasts (read_honeypots (D := D) state h origin).
Proof. unfold read_honeypots. stays_all. apply lasts_asks, reads_honeypots. Qed.
Lemma lasts_health : lasts (health (D := D) state).
Proof.
  unfold health, tripwire_state, audit_devices. stays_all; [apply lasts_asks; unfold open_trip_count; reads|by apply lasts_same..].
Qed.
#[local] Hint Resolve lasts_audit lasts_tokens lasts_honeypots lasts_health : stays.

Lemma lasts_fallback h origin reason : lasts (fallback (D := D) state h origin reason).
Proof. unfold fallback. stays_all. Qed.
#[local] Hint Resolve lasts_fallback : stays.

Lemma lasts_route h origin q : lasts (serve_route (D := D) state h origin q).
Proof.
  destruct q; cbn [serve_route]; try apply lasts_reply; unfold read_surface, read_identities, read_policies; stays_all;
    apply lasts_reply; stays_all.
Qed.

Lemma lasts_serve h origin q : lasts (serve (D := D) state h origin q).
Proof. unfold serve. destruct (request_route q); [destruct (has_route state _)|]; auto using lasts_route with stays. Qed.

(** ** The run *)

Lemma arrives_lasts (m : app_m (D := D) Reply) : arrives state m -> lasts m.
Proof. intros [i|job]; [apply lasts_serve|apply lasts_reply, lasts_latch_work]. Qed.

(** From any moment of a run to any later one. *)
Lemma run_lasts reqs s c1 c2 : rtc (pool_step (arrives state)) (start state reqs s) c1 -> rtc (pool_step (arrives state)) c1 c2 ->
  values_last (app_db (snd c1)) (app_db (snd c2)).
Proof.
  intros H1 H2. revert H1. induction H2 as [c|c c' c2 Hs H2 IH]; intros H1; [reflexivity|].
  etrans; [|apply IH; by eapply rtc_r].
  destruct (pool_sound (arrives state) (anything (St := App D)) (fun a a' => values_last (app_db a) (app_db a')) (fun _ => True)
    (fun _ _ _ _ => I) (fun _ _ _ => I) (fun _ _ _ _ => True)
    (fun visits m s Ha _ _ => stays_under _ _ _ _ _ (arrives_lasts m Ha)) (map (program state) reqs) s c)
    as (_ & Hstep & _); [|done|done|].
  - apply Forall_forall. intros m Hm. apply list_elem_of_fmap in Hm as (i & -> & _). constructor.
  - destruct (Hstep _ Hs) as [->|Hl]; [reflexivity|exact Hl].
Qed.
End service.

(** ** One version *)

(** The version of the path is there with this value. *)
Definition holds_version (path : SecretPath) (v : SecretVersion) (value : EncryptedValue) (d : Db) : Prop :=
  exists s r, s ∈ db_secrets d /\ s_path s = path_str path /\ r ∈ db_versions d /\ r_secret r = s_id s /\
    r_version r = version_get v /\ value_columns r = value_columns (version_row 0 v value 0 EmptyString).

Lemma last_holds path v value d d' : store_wf d -> values_last d d' -> holds_version path v value d -> holds_version path v value d'.
Proof.
  intros Hwf Hl (s & r & Hs & Hp & Hr & Hid & Hn & Hc). destruct (Hl Hwf) as (_ & HS & HV).
  destruct (HS s Hs) as (s' & Hs' & Is & Ps). destruct (HV r Hr) as (r' & Hr' & Ir & Nr & Cr).
  exists s', r'. split_and!; congruence.
Qed.

Lemma put_holds path by_ rotation encrypt now s v s' : store_wf (st_db s) ->
  put_with_rotation path by_ rotation encrypt now s = (Ok v, s') ->
  exists value, encrypt v = Ok value /\ holds_version path v value (st_db s').
Proof.
  intros Hwf Hput. apply put_Ok in Hput as (id & current & l & value & _ & Hp & _ & _ & He & _ & Hs').
  destruct (put_secret_wf _ _ _ _ _ _ Hwf Hp) as (_ & _ & _ & _ & (x & Hx & Ix & Px & _) & _).
  exists value. split; [done|]. exists (bump id (version_get v) now rotation x), (version_row id v value now by_).
  destruct (bump_fields id (version_get v) now rotation x) as (B1 & B2 & _).
  split_and!; [|congruence| |by rewrite B1, Ix|done|done].
  - rewrite Hs'. simpl. apply elem_of_map. by exists x.
  - rewrite Hs'. simpl. apply elem_of_app. right. by apply list_elem_of_singleton.
Qed.

Lemma dek_id_round id id' : DekId_from_hex (DekId_to_hex id) = Ok id' -> id' = id.
Proof.
  unfold DekId_from_hex, DekId_to_hex, fixed_from_hex. destruct (decide (length (zeroed ID_LEN) = length (dek_id_bytes id))) as [Hl|Hl].
  - rewrite hex_decode_into_encode by done. intros [= <-]. by destruct id.
  - unfold hex_decode_into, len. rewrite hex_encode_length. rewrite (proj2 (Z.eqb_neq _ _)) by lia. done.
Qed.

(** Reading it gives the value, or an error. *)
Lemma holds_get path v value s stored s' : store_wf (st_db s) -> holds_version path v value (st_db s) ->
  get path (Some v) s = (Ok stored, s') -> sv_path stored = path /\ sv_version stored = v /\ sv_value stored = value.
Proof.
  intros Hwf (x & r & Hx & Px & Hr & Ir & Nr & Cr) Hg. unfold get in Hg.
  apply mbind_Ok in Hg as ([[id current] ro] & s1 & H1 & Hg). apply require_secret_Ok in H1 as (E1 & row & Hf & Hid & _).
  apply mbind_Ok in Hg as (wanted & s2 & [-> ->]%mret_Ok & Hg).
  apply mbind_Ok in Hg as (found & s3 & [-> E3]%sql_read_Ok & Hg). rewrite E1 in Hg.
  rewrite (find_secret_unique _ path x) in Hf by done. injection Hf as <-. subst id.
  rewrite (find_version_unique _ (s_id x) v r) in Hg by done. apply mlift_Ok in Hg as [Hg _].
  unfold stored_version in Hg. destruct (r_destroyed_at r); [done|]. destruct (r_deleted_at r); [done|].
  unfold value_columns, version_row in Cr. simpl in Cr. injection Cr as C1 C2 C3 C4 C5. rewrite C1, C2, C3, C4, C5 in Hg.
  apply res_bind_Ok in Hg as (d & Hd & Hg). apply map_err_Ok, dek_id_round in Hd. subst d.
  apply res_bind_Ok in Hg as (n1 & Hn1 & Hg). apply res_bind_Ok in Hg as (n2 & Hn2 & Hg). injection Hg as <-.
  unfold to_nonce in Hn1, Hn2. destruct (_ =? _)%nat in Hn1; [|done]. destruct (_ =? _)%nat in Hn2; [|done].
  injection Hn1 as <-. injection Hn2 as <-. by destruct value.
Qed.

(** ** A request that comes while others run *)

(** What a program that arrived meets when it is done, whatever the others did that
    the rely allows. *)
Lemma wp_in_pool {St Er B} (comes : prog St Er B -> Prop) (rely guar : St -> St -> Prop) `{!PreOrder rely} Q i m c1 c2 r :
  wp rely guar m Q (snd c1) -> fst c1 !! i = Some m -> rtc (pool_step comes) c1 c2 ->
  (forall c c', rtc (pool_step comes) c1 c -> pool_step comes c c' -> rtc (pool_step comes) c' c2 -> rely (snd c) (snd c')) ->
  fst c2 !! i = Some (Done r) -> Q r (snd c2).
Proof.
  intros Hw Hi Hr. revert m Hw Hi. induction Hr as [c|c c' c2 Hs Hr IH]; intros m Hw Hi Hrely Hd.
  - rewrite Hi in Hd. injection Hd as ->. apply Hw. reflexivity.
  - assert (rely (snd c) (snd c')) as Hcc by (apply (Hrely c c'); [apply rtc_refl|done|done]).
    assert (forall c3 c3', rtc (pool_step comes) c' c3 -> pool_step comes c3 c3' -> rtc (pool_step comes) c3' c2 ->
      rely (snd c3) (snd c3')) as Hrest by (intros c3 c3' H1 H2 H3; apply (Hrely c3 c3'); [by eapply rtc_l|done|done]).
    destruct Hs as [j C f k ts s Hj|new ts s Hnew]; simpl in *.
    + destruct (decide (j = i)) as [->|Hne].
      * rewrite Hi in Hj. injection Hj as ->. simpl in Hw. destruct (Hw s) as [_ Hk]; [reflexivity|].
        apply (IH (k (fst (f s))) Hk); [|exact Hrest|exact Hd]. rewrite list_lookup_insert_eq; [done|by eapply lookup_lt_Some].
      * apply (IH m); [eapply (wp_rely rely guar); [exact Hcc|exact Hw]| |exact Hrest|exact Hd]. by rewrite list_lookup_insert_ne.
    + apply (IH m Hw); [|exact Hrest|exact Hd]. rewrite lookup_app_l; [done|by eapply lookup_lt_Some].
Qed.

(** ** A version that was reported is there *)

Section written.
Context {H : Sha256} {J : Json} {M : Mac} {En : Entropy} {F : Features}.
Context {D : Type} `{!AuditDevice D} {L : AuditDeviceLaws D}.
Context {A : Aead} {U : Unicode} {LJ : LogJson} {RJ : RawJson} {R : ClaimsReader} {Sg : Signatures}.
Context (state : Inner).

Definition last_a (a a' : App D) : Prop := values_last (app_db a) (app_db a').
#[export] Instance last_a_preorder : PreOrder last_a.
Proof. split; [intros a; apply (reflexivity (R := values_last))|]. intros a b c. apply (transitivity (R := values_last)). Qed.

Abbreviation lwp := (wp last_a last_a).

(** What holds now and, as values last, holds whatever runs. *)
Class Lasting (Iv : App D -> Prop) : Prop := lasting_inv : forall s s', last_a s s' -> Iv s -> Iv s'.

#[export] Instance wf_lasting : Lasting (fun s => store_wf (app_db s)).
Proof. intros s s' Hs Hwf. by destruct (Hs Hwf). Qed.

Lemma lwp_done {B} Iv `{!Lasting Iv} (b : result ApiError B) (Q : result ApiError B -> App D -> Prop) s : Iv s ->
  (forall s', Iv s' -> last_a s s' -> Q b s') -> lwp (Done b : app_m (D := D) B) Q s.
Proof. intros Hi Hq s' Hs. apply Hq; [|done]. by eapply lasting_inv. Qed.

(** A part that only lets values last. *)
Lemma lwp_stays {B} Iv `{!Lasting Iv} (m : app_m (D := D) B) s : stays app_db values_last m -> Iv s -> lwp m (fun _ s' => Iv s') s.
Proof.
  intros Hm Hi. specialize (Hm s). revert s Hi Hm. induction m as [r| |X f k IH]; intros s Hi; simpl.
  - intros _ s' Hs. by eapply lasting_inv.
  - intros Hm s' _. by apply (Hm s').
  - intros Hm s1 Hs. destruct (Hm s1 I) as [Hg Hw]. split; [exact Hg|]. apply IH; [|exact Hw].
    eapply lasting_inv; [exact Hg|]. by eapply lasting_inv.
Qed.

Lemma lwp_skip {B C} Iv `{!Lasting Iv} (m : app_m (D := D) B) (k : B -> app_m (D := D) C) Q s :
  stays app_db values_last m -> Iv s ->
  (forall b s', Iv s' -> lwp (k b) Q s') -> (forall e s', Iv s' -> Q (Err e) s') -> lwp (pbind m k) Q s.
Proof.
  intros Hm Hi Hk He. apply wp_bind; [typeclasses eauto|]. eapply wp_mono; [|by apply (lwp_stays Iv)].
  intros [b|e] s' Hs'; [by apply Hk|by apply He].
Qed.

Abbreviation sound := (fun s : App D => store_wf (app_db s)).

(** What a write that is answered leaves. *)
Definition written (raw : string) (body : SecretBody) (r : result ApiError Reply) (s : App D) : Prop :=
  forall reply, r = Ok reply -> exists path version value g, api_parse_path raw = Ok path /\
    reply = RepWrite (mkWriteResponse (path_str path) (version_get version)) /\
    fst (encrypt (in_root state) path version (as_bytes (sb_value body)) g) = Ok value /\
    holds_version path version value (app_db s).

Definition put_response (raw : string) (body : SecretBody) (r : result ApiError WriteResponse) (s : App D) : Prop :=
  store_wf (app_db s) /\ forall resp, r = Ok resp -> exists path version value g, api_parse_path raw = Ok path /\
    resp = mkWriteResponse (path_str path) (version_get version) /\
    fst (encrypt (in_root state) path version (as_bytes (sb_value body)) g) = Ok value /\
    holds_version path version value (app_db s).

Lemma put_response_holds raw body path version value g s s' : store_wf (app_db s) -> last_a s s' ->
  api_parse_path raw = Ok path -> fst (encrypt (in_root state) path version (as_bytes (sb_value body)) g) = Ok value ->
  holds_version path version value (app_db s) ->
  put_response raw body (Ok (mkWriteResponse (path_str path) (version_get version))) s'.
Proof.
  intros Hwf Hs Hp He Hh. split; [by destruct (Hs Hwf)|]. intros resp [= <-]. exists path, version, value, g. split_and!; try done.
  by apply (last_holds _ _ _ _ _ Hwf Hs Hh).
Qed.

Lemma put_response_refused raw body e s : store_wf (app_db s) -> put_response raw body (Err e) s.
Proof. by split. Qed.
#[local] Hint Resolve put_response_refused : core.

(** The step that writes. *)
Lemma lwp_put path by_ rotation plaintext (Q : result ApiError SecretVersion -> App D -> Prop) s : store_wf (app_db s) ->
  (forall version value g s', store_wf (app_db s') -> fst (encrypt (in_root state) path version plaintext g) = Ok value ->
     holds_version path version value (app_db s') -> Q (Ok version) s') ->
  (forall e s', store_wf (app_db s') -> Q (Err e) s') ->
  lwp (put_encrypted state path by_ rotation plaintext) Q s.
Proof.
  intros Hwf HOk HErr. apply wp_atomic. intros s1 Hs1. destruct (Hs1 Hwf) as [Hwf1 _]. unfold last_a, app_db, read_clock. cbv beta zeta.
  match goal with |- context [put_with_rotation ?p ?b ?r ?e ?n ?st] =>
    pose proof (changes_run _ _ st (lasting_put p b r e n)) as Hl; destruct (put_with_rotation p b r e n st) as [res st'] eqn:Hput end.
  cbn [fst snd app_store set_rng set_store set_clock] in Hl |- *. split; [exact Hl|]. intros s2 Hs2.
  destruct (Hl Hwf1) as [Hwf' _]. destruct (Hs2 Hwf') as [Hwf2 _]. destruct res as [version|e]; cbn [map_err]; [|by apply HErr].
  destruct (put_holds _ _ _ _ _ _ _ _ Hwf1 Hput) as (value & He & Hh).
  eapply HOk; [exact Hwf2|exact He|]. by apply (last_holds _ _ _ (st_db st') _ Hwf' Hs2 Hh).
Qed.

Lemma lwp_write_secret h origin raw body s : store_wf (app_db s) ->
  lwp (write_secret state h origin raw body) (put_response raw body) s.
Proof.
  intros Hwf. unfold write_secret. apply (lwp_skip sound); [apply lasts_api_authenticate|done| |auto]. intros c s1 Hwf1.
  unfold parse_path_recorded. destruct (api_parse_path raw) as [path|e] eqn:Hpath.
  2: { apply wp_assoc, (lwp_skip sound); [apply lasts_refusal|done| |auto]. intros b s2 Hwf2. apply (lwp_done sound); auto. }
  cbn [pbind pret]. destruct (api_reject_reserved path) as [[]|e]; [|apply (lwp_done sound); auto]. cbn [pbind plift].
  destruct (parse_rotation (sb_rotation body)) as [rotation|e]; [|apply (lwp_done sound); auto]. cbn [pbind plift].
  apply (lwp_skip sound); [apply lasts_decided|done| |auto]. intros [] s2 Hwf2.
  apply (lwp_skip sound); [destruct rotation; [apply lasts_decided|apply stays_done]|done| |auto]. intros [] s3 Hwf3.
  apply wp_bind; [typeclasses eauto|]. apply wp_try. apply lwp_put; [done| |].
  - intros version value g s4 Hwf4 He Hh. apply (lwp_done sound); [done|]. intros s5 Hwf5 Hs5. by apply (put_response_holds _ _ _ _ value g s4).
  - intros e s4 Hwf4. apply (lwp_skip sound); [apply lasts_outcome|done| |auto]. intros [] s5 Hwf5.
    apply (lwp_skip sound); [destruct rotation; [apply lasts_outcome|apply stays_done]|done| |auto]. intros [] s6 Hwf6. apply (lwp_done sound); auto.
Qed.

Lemma lwp_serve_write h origin raw body s : store_wf (app_db s) ->
  lwp (serve state h origin (ReqWrite raw (Ok body))) (written raw body) s.
Proof.
  intros Hwf. unfold serve. cbn [request_route has_route serve_route audited_json pbind pret]. unfold reply_of.
  apply wp_bind; [typeclasses eauto|]. eapply wp_mono; [|by apply lwp_write_secret]. intros [resp|e] s1 [Hwf1 Hq]; [|done].
  apply (lwp_done sound); [done|]. intros s2 Hwf2 Hs2 reply [= <-]. destruct (Hq resp eq_refl) as (path & version & value & g & Hp & -> & He & Hh).
  exists path, version, value, g. split_and!; try done. by apply (last_holds _ _ _ _ _ Hwf1 Hs2 Hh).
Qed.

(** ** A version that is there is what is read *)

Section reading.
Context (path : SecretPath) (v : SecretVersion) (value : EncryptedValue) (text : string).
Context (decrypts : decrypt (in_root state) path v value = Ok (as_bytes text)).

Definition kept (s : App D) : Prop := store_wf (app_db s) /\ holds_version path v value (app_db s).

#[local] Instance kept_lasting : Lasting kept.
Proof. intros s s' Hs [Hwf Hh]. split; [by destruct (Hs Hwf)|]. by apply (last_holds _ _ _ _ _ Hwf Hs Hh). Qed.

Definition reads_it (r : result ApiError SecretResponse) (s : App D) : Prop :=
  forall got, r = Ok got -> sr_path got = path_str path /\ sr_version got = version_get v /\ sr_value got = text.

Lemma reads_refused e s : reads_it (Err e) s.
Proof. by intros got [=]. Qed.
#[local] Hint Resolve reads_refused : core.

Lemma decrypted_is_text stored got : sv_path stored = path -> sv_version stored = v -> sv_value stored = value ->
  decrypt_to_text state stored = Ok got -> got = text.
Proof.
  intros Ep Ev Ec. unfold decrypt_to_text. rewrite Ep, Ev, Ec, decrypts. cbn [map_err res_bind]. intros [Hu E]%ok_or_Ok%from_utf8_utf8.
  rewrite E. apply str_of_as.
Qed.

(** The step that reads. *)
Lemma lwp_get (Q : result ApiError (result ApiError StoredVersion) -> App D -> Prop) s : kept s ->
  (forall stored s', kept s' -> sv_path stored = path -> sv_version stored = v -> sv_value stored = value -> Q (Ok (Ok stored)) s') ->
  (forall e s', kept s' -> Q (Ok (Err e)) s') ->
  lwp (ptry (with_store (mmap_err api_of_store (Store.get path (Some v))))) Q s.
Proof.
  intros Hi HOk HErr. apply wp_try. apply wp_atomic. intros s1 Hs1. assert (kept s1) as Hk1 by by eapply lasting_inv.
  unfold mmap_err. cbv beta. destruct (Store.get path (Some v) (app_store s1)) as [res st] eqn:Hget.
  pose proof (reads_get path (Some v) _ _ _ Hget) as Est.
  assert (last_a s1 (set_store st s1)) as Hl by (unfold last_a, app_db; simpl; rewrite Est; reflexivity).
  split; [exact Hl|]. intros s2 Hs2. assert (kept s2) as Hk2 by (eapply lasting_inv; [exact Hs2|]; by eapply lasting_inv).
  destruct res as [stored|e]; simpl; [|by apply HErr]. destruct Hk1 as [Hwf1 Hh1].
  destruct (holds_get _ _ _ _ _ _ Hwf1 Hh1 Hget) as (Ep & Ev & Ec). by apply HOk.
Qed.

Lemma lwp_read_secret h origin raw s : kept s -> api_parse_path raw = Ok path ->
  lwp (read_secret state h origin raw (Some (version_get v))) reads_it s.
Proof.
  intros Hi Hp. unfold read_secret. apply (lwp_skip kept); [apply lasts_api_authenticate|done| |auto]. intros c s1 H1.
  unfold parse_path_recorded. rewrite Hp. cbn [pbind pret].
  apply (lwp_skip kept); [apply lasts_decided|done| |auto]. intros [] s2 H2.
  unfold query_version, version_new. destruct (version_get v =? 0)%Z; [by apply (lwp_done kept)|]. cbn [plift pbind].
  replace (mkVersion (version_get v)) with v by by destruct v.
  apply wp_bind; [typeclasses eauto|]. apply lwp_get; [done| |].
  - intros stored s3 H3 Ep Ev Ec. destruct (decrypt_to_text state stored) as [got|e] eqn:Hd.
    + apply (lwp_done kept); [done|]. intros s4 _ _ resp [= <-]. simpl. rewrite Ep, Ev. split_and!; [done..|]. by eapply decrypted_is_text.
    + apply (lwp_skip kept); [apply lasts_outcome|done| |auto]. intros [] s4 H4. by apply (lwp_done kept).
  - intros e s3 H3. apply (lwp_skip kept); [apply lasts_outcome|done| |auto]. intros [] s4 H4. by apply (lwp_done kept).
Qed.

Definition served_it (r : result ApiError Reply) (s : App D) : Prop :=
  forall reply, r = Ok reply -> exists got, reply = RepSecret got /\
    sr_path got = path_str path /\ sr_version got = version_get v /\ sr_value got = text.

Lemma lwp_serve_read h origin raw s : kept s -> api_parse_path raw = Ok path ->
  lwp (serve state h origin (ReqRead raw (Some (version_get v)))) served_it s.
Proof.
  intros Hi Hp. unfold serve. cbn [request_route has_route serve_route]. unfold reply_of.
  apply wp_bind; [typeclasses eauto|]. eapply wp_mono; [|by apply lwp_read_secret]. intros [resp|e] s1 Hq; [|done].
  intros s2 _ reply [= <-]. exists resp. split; [done|]. by apply Hq.
Qed.
End reading.

Lemma in_run_lasts reqs s c1 c2 : rtc (pool_step (arrives state)) (start state reqs s) c1 ->
  forall c c', rtc (pool_step (arrives state)) c1 c -> pool_step (arrives state) c c' ->
    rtc (pool_step (arrives state)) c' c2 -> last_a (snd c) (snd c').
Proof. intros R1 c c' R2 Hs _. apply (run_lasts state reqs s c c'); [by etrans|by apply rtc_once]. Qed.

(** ** Written, then read *)

(** A write that arrived in a run and is answered: what it left. *)
Lemma write_leaves reqs s c0 c1 i h origin raw body reply : store_wf (app_db s) ->
  rtc (pool_step (arrives state)) (start state reqs s) c0 ->
  fst c0 !! i = Some (program state (mkIncoming h origin (ReqWrite raw (Ok body)))) ->
  rtc (pool_step (arrives state)) c0 c1 -> fst c1 !! i = Some (Done (Ok reply)) ->
  exists path version value g, api_parse_path raw = Ok path /\
    reply = RepWrite (mkWriteResponse (path_str path) (version_get version)) /\
    fst (encrypt (in_root state) path version (as_bytes (sb_value body)) g) = Ok value /\ kept path version value (snd c1).
Proof.
  intros Hwf R0 Hw R1 Dw.
  assert (store_wf (app_db (snd c0))) as Hwf0 by by apply (run_lasts state reqs s (start state reqs s) c0 (rtc_refl _ _) R0).
  assert (written raw body (Ok reply) (snd c1)) as Hwritten.
  { eapply (wp_in_pool (arrives state) last_a last_a); [by apply lwp_serve_write|exact Hw|exact R1|by eapply in_run_lasts|exact Dw]. }
  destruct (Hwritten _ eq_refl) as (path & version & value & g & Hp & E & He & Hh). exists path, version, value, g.
  split_and!; [done..|]. split; [|done]. by apply (run_lasts state reqs s c0 c1 R0 R1).
Qed.

(** A read of it that arrives later, at the end of whatever ran meanwhile. *)
Lemma read_finds reqs s c1 c2 c3 j path version value text g h origin raw reply : AeadLaws A ->
  rtc (pool_step (arrives state)) (start state reqs s) c1 -> kept path version value (snd c1) ->
  fst (encrypt (in_root state) path version (as_bytes text) g) = Ok value -> api_parse_path raw = Ok path ->
  rtc (pool_step (arrives state)) c1 c2 ->
  fst c2 !! j = Some (program state (mkIncoming h origin (ReqRead raw (Some (version_get version))))) ->
  rtc (pool_step (arrives state)) c2 c3 -> fst c3 !! j = Some (Done (Ok reply)) ->
  exists got, reply = RepSecret got /\ sr_path got = path_str path /\ sr_version got = version_get version /\ sr_value got = text.
Proof.
  intros HA R1 Hk He Hp R2 Hr R3 Dr.
  assert (kept path version value (snd c2)) as Hk2.
  { apply (kept_lasting path version value (snd c1)); [|done]. by apply (run_lasts state reqs s c1 c2). }
  assert (served_it path version text (Ok reply) (snd c3)) as Hgot; [|by apply Hgot].
  eapply (wp_in_pool (arrives state) last_a last_a); [|exact Hr|exact R3|by eapply in_run_lasts; [etrans; [exact R1|exact R2]]|exact Dr].
  apply lwp_serve_read with (value := value); [by apply (encrypt_decrypts HA) with (r := g)|done..].
Qed.

(** C3: What is written is what is read, whatever else the service does.  A write
    that arrives at any moment of a run is answered with a version; later a read of
    that version arrives and is answered with a value.  Whatever requests and
    latches run before, between and during, in whatever interleaving of their steps,
    deletions and later writes of the same path included: the value is the one that
    was written, under the path and the version the write reported. *)
Theorem written_value_reads_back reqs s c0 c1 c2 c3 i j hw ow raw body w hr oread raw' got :
  AeadLaws A -> store_wf (app_db s) ->
  rtc (pool_step (arrives state)) (start state reqs s) c0 ->
  fst c0 !! i = Some (program state (mkIncoming hw ow (ReqWrite raw (Ok body)))) ->
  rtc (pool_step (arrives state)) c0 c1 -> fst c1 !! i = Some (Done (Ok (RepWrite w))) ->
  rtc (pool_step (arrives state)) c1 c2 ->
  fst c2 !! j = Some (program state (mkIncoming hr oread (ReqRead raw' (Some (wr_version w))))) ->
  rtc (pool_step (arrives state)) c2 c3 -> fst c3 !! j = Some (Done (Ok (RepSecret got))) ->
  SecretPath_parse raw' = SecretPath_parse raw ->
  sr_path got = wr_path w /\ sr_version got = wr_version w /\ sr_value got = sb_value body.
Proof.
  intros HA Hwf R0 Hw R1 Dw R2 Hr R3 Dr Hraw.
  destruct (write_leaves _ _ _ _ _ _ _ _ _ _ Hwf R0 Hw R1 Dw) as (path & version & value & g & Hp & [= ->] & He & Hk). simpl in *.
  destruct (read_finds reqs s c1 c2 c3 j path version value (sb_value body) g hr oread raw' (RepSecret got)) as (? & [= <-] & Hgot);
    [done|by etrans|done|done| |done..].
  unfold api_parse_path in *. by rewrite Hraw.
Qed.
End written.
