(* ===== verification/Examples.v ===== *)
(** * A concrete service

    A small installation that the kernel runs: one secret, one token, two devices
    of which one fails once.  Each guarantee is applied to a request that is served
    here. *)

From Stdlib Require Import ZArith NArith Lia Ascii String.
From stdpp Require Import base tactics list strings gmap relations.
From S2P Require Import Prelude Text Hex Path Pattern Vocabulary PolicyModel Evaluate Crypto Token Chain Sink Db Store.
From S2P Require Import Tokens Honeypots StoreAudit Surface Oidc Config Prog State Trail Api Service Contract Guarantees Bounds.
From S2P Require Import Effects Availability Lasting.

#[local] Existing Instance toy_sha256.
#[local] Existing Instance toy_json.
#[local] Existing Instance toy_mac.
#[local] Existing Instance toy_entropy.
#[local] Existing Instance toy_aead.
#[local] Existing Instance ascii_unicode.
#[local] Existing Instance toy_claims.
#[local] Existing Instance toy_signatures.
#[local] Instance watching : Features := true.
#[local] Instance any_json : RawJson := fun s => Ok s.
#[local] Instance no_columns : LogJson :=
  {| json_name _ := None; json_path _ := None; json_allowed _ := None |}.

Definition demo_raw : RawConfig := {|
  raw_identity := [mkRawIdentity "deploy-runner" "machine" ["all"]];
  raw_policy := [mkRawPolicy "all"
    [mkRawRule "infra/**" ["read"; "list"; "write"; "delete"]; mkRawRule "infra/root/**" [];
     mkRawRule "sys/tokens" ["inspect"; "revoke"]; mkRawRule "sys/surface" ["inspect"]]];
|}.
Definition demo_policies : PolicySet :=
  match PolicySet_from_raw demo_raw with Ok ps => ps | Err _ => mkPolicySet ∅ ∅ end.

Definition demo_surface : Active :=
  [mkActiveEntry "bulk_export" Runtime "2026-01-01" "demo" "demo";
   mkActiveEntry "token_revoke" Runtime "2026-01-01" "demo" "demo";
   mkActiveEntry SURFACE_ENTRY Runtime "2026-01-01" "demo" "demo"].

Definition demo_state : Inner :=
  mkInner demo_policies example_root example_pepper "demo" "file" demo_surface example_federation.

Definition demo_store : Store :=
  let put p s := snd (put_with_rotation (mkSecretPath p) "admin" None
    (fun v => fst (encrypt example_root (mkSecretPath p) v (as_bytes "hunter2") 0%Z)) 7 s) in
  let s := put "infra/root/key" (put "infra/db" (mkStore db_empty [])) in
  snd (issue_token "deploy-runner" example_token example_pepper "admin" (Some 5000%Z) Credential_ 1
         (mkStore (st_db s) [])).

Definition demo_app : App MemDevice :=
  mkApp MemDevice _ demo_store example_sink (initial_devices example_sink) ∅ [] (repeat 50%Z 20) 9%Z.

Lemma demo_wf : app_wf demo_app.
Proof. exact example_sink_names. Qed.

Definition demo_headers : Headers :=
  mkHeaders (Some ("Bearer " ++ expose_text example_token)%string) (Some "req-1") None.
Definition demo (q : Request) : Incoming := mkIncoming demo_headers (Some (V4 [10; 0; 0; 1]%Z)) q.

(** Alone on the service: the answer, and the state it leaves. *)
Definition answer (q : Request) : option (result ApiError Reply) := fst (run (program demo_state (demo q)) demo_app).
Definition after (q : Request) : App MemDevice := snd (run (program demo_state (demo q)) demo_app).

Lemma demo_runs q r : answer q = Some r -> runs demo_state [demo q] demo_app [Done r] (after q).
Proof. apply run_pool. Qed.

Definition secret_answer : SecretResponse := mkSecretResponse "infra/db" 1 "hunter2" 7 "admin".

Example demo_read : answer (ReqRead "infra/db" None) = Some (Ok (RepSecret secret_answer)).
Proof. vm_compute. reflexivity. Qed.
Definition demo_body : SecretBody := mkSecretBody "s3cret" None.
Definition demo_write : Request := ReqWrite "infra/db" (Ok demo_body).


(** What the run of one request visits. *)
Abbreviation demo_seen q r := (seen demo_state [demo q] demo_app [Done r] (after q)).
Definition demo_context : RequestContext := request_context demo_headers (Some (V4 [10; 0; 0; 1]%Z)).

Ltac alone := first [exact demo_wf | apply demo_runs; vm_compute; reflexivity | reflexivity].

Lemma secret_served_is_decided_witness :
  exists c path stored before,
    demo_seen (ReqRead "infra/db" None) (Ok (RepSecret secret_answer)) before /\
    api_parse_path "infra/db" = Ok path /\
    decided_on_record demo_state c ActRead CapRead path None demo_context before /\
    fst (Store.get path None (app_store before)) = Ok stored /\ decrypt_to_text demo_state stored = Ok "hunter2".
Proof.
  destruct (secret_served_is_decided demo_state [demo (ReqRead "infra/db" None)] demo_app
    [Done (Ok (RepSecret secret_answer))] (after (ReqRead "infra/db" None)) 0 demo_headers (Some (V4 [10; 0; 0; 1]%Z))
    "infra/db" None secret_answer) as (c & path & wanted & stored & before & Hb & Hp & Hw & _ & Hd & Hg & Ht & _);
    [alone..|].
  injection Hw as <-. exists c, path, stored, before. by split_and!.
Defined.

Definition write_answer : WriteResponse := mkWriteResponse "infra/db" 2.

Lemma secret_written_is_decided_witness :
  exists c path version before now g,
    demo_seen demo_write (Ok (RepWrite write_answer)) before /\
    decided_on_record demo_state c ActWrite CapWrite path None demo_context before /\
    put_at demo_state path (caller_identity c) None (as_bytes "s3cret") now g (app_store before) = Ok version.
Proof.
  destruct (secret_written_is_decided demo_state [demo demo_write] demo_app [Done (Ok (RepWrite write_answer))]
    (after demo_write) 0 demo_headers (Some (V4 [10; 0; 0; 1]%Z)) "infra/db" demo_body write_answer)
    as (c & path & rotation & version & before & now & g & Hb & _ & _ & Hrot & _ & Hd & _ & Hput & _); [alone..|].
  injection Hrot as <-. exists c, path, version, before, now, g. by split_and!.
Defined.

Definition demo_delete : Request := ReqDelete "infra/db" (Some 1%Z).

Lemma secret_deleted_is_decided_witness :
  exists c path before now,
    demo_seen demo_delete (Ok RepNoContent) before /\
    decided_on_record demo_state c ActDelete CapDelete path None demo_context before /\
    fst (Store.delete path (mkVersion 1) now (app_store before)) = Ok tt.
Proof.
  destruct (secret_deleted_is_decided demo_state [demo demo_delete] demo_app [Done (Ok RepNoContent)]
    (after demo_delete) 0 demo_headers (Some (V4 [10; 0; 0; 1]%Z)) "infra/db" (Some 1%Z))
    as (c & path & wanted & number & before & now & Hb & _ & _ & _ & Hd & Hw & Ht & Hdel & _); [alone..|].
  injection Hw as <-. simpl in Ht. subst number. exists c, path, before, now. by split_and!.
Defined.

Definition demo_export : Request := ReqExport (Ok ["infra/db"]).
Definition export_answer : list ExportedSecret := [mkExportedSecret "infra/db" 1 "hunter2"].

Lemma export_serves_only_decided_witness :
  exists c path before,
    demo_seen demo_export (Ok (RepExport export_answer)) before /\ path_str path = "infra/db" /\
    decided_on_record demo_state c ActRead CapRead path None demo_context before.
Proof.
  destruct (export_serves_only_decided demo_state [demo demo_export] demo_app [Done (Ok (RepExport export_answer))]
    (after demo_export) 0 demo_headers (Some (V4 [10; 0; 0; 1]%Z)) ["infra/db"] export_answer)
    as (paths & _ & Hall); [alone..|].
  inversion Hall as [|path x l k [Hx (c & stored & before & Hb & _ & Hd & _)] _]; subst.
  exists c, path, before. by split_and!.
Defined.


Definition demo_list : Request := ReqList "infra" None.
Definition list_answer : ListResponse := mkListResponse "infra" ["infra/db"] [mkListEntry "infra/db" "unclassified"].

Lemma listing_names_only_permitted_witness :
  exists c prefix before listed,
    demo_seen demo_list (Ok (RepList list_answer)) before /\
    fst (list_with_rotation (Some prefix) (app_store before)) = Ok listed /\
    trail_holds (listing_entry c prefix demo_context 1) (after demo_list).
Proof.
  destruct (listing_names_only_permitted demo_state [demo demo_list] demo_app [Done (Ok (RepList list_answer))]
    (after demo_list) 0 demo_headers (Some (V4 [10; 0; 0; 1]%Z)) "infra" None list_answer)
    as (c & prefix & listed & before & Hb & _ & _ & Hl & _ & Hh); [alone..|].
  exists c, prefix, before, listed. by split_and!.
Defined.

Definition revoke_answer : RevokeResponse := mkRevokeResponse example_token_id "deploy-runner" true.

Lemma token_revoked_is_decided_witness :
  exists c found before now,
    demo_seen (ReqRevoke example_token_id) (Ok (RepRevoke revoke_answer)) before /\
    decided_on_record demo_state c ActRevokeToken CapRevoke (reserved_path "tokens") (Some (revoke_subject found))
      demo_context before /\
    fst (revoke_token example_token_id now (app_store before)) = Ok true /\ tr_identity found = "deploy-runner".
Proof.
  destruct (token_revoked_is_decided demo_state [demo (ReqRevoke example_token_id)] demo_app
    [Done (Ok (RepRevoke revoke_answer))] (after (ReqRevoke example_token_id)) 0 demo_headers
    (Some (V4 [10; 0; 0; 1]%Z)) example_token_id revoke_answer)
    as (c & earlier & found & before & now & _ & _ & Hb & _ & Hd & Hr & _ & Ho); [alone..|].
  exists c, found, before, now. by split_and!.
Defined.

Definition demo_login : OidcLoginRequest := mkOidcLoginRequest (example_id_token "ciphr") None.
Definition login_answer : OidcLoginResponse :=
  mkOidcLoginResponse "cph_CQkJCQkJCgoKCgoKCgoKCgoKCgoKCgoKCgoKCgoKCgoKCgoKCgo" "CQkJCQkJ" "deploy-runner" 900050.

Lemma login_mints_what_was_accepted_witness :
  exists presented_at a t before,
    exchange example_federation (example_id_token "ciphr") presented_at = Accepted_ a /\
    demo_seen (ReqOidcLogin (Ok demo_login)) (Ok (RepOidcLogin login_answer)) before /\
    trail_holds (mint_entry demo_state a (TokenId_as_text (Token.token_id t)) demo_context) before.
Proof.
  destruct (login_mints_what_was_accepted demo_state [demo (ReqOidcLogin (Ok demo_login))] demo_app
    [Done (Ok (RepOidcLogin login_answer))] (after (ReqOidcLogin (Ok demo_login))) 0 demo_headers
    (Some (V4 [10; 0; 0; 1]%Z)) demo_login login_answer)
    as (at_ & a & t & before & now & Hx & Hb & Hh & _); [alone..|].
  exists at_, a, t, before. by split_and!.
Defined.

(** The write, just before it reaches the store. *)
Definition before_put : app_m (D := MemDevice) Reply * App MemDevice :=
  advance 3 (program demo_state (demo demo_write)) demo_app.
Definition after_put : app_m (D := MemDevice) Reply * App MemDevice :=
  advance 4 (program demo_state (demo demo_write)) demo_app.

Lemma put_changes : protected (snd after_put) <> protected (snd before_put).
Proof. intros E. apply (f_equal (fun p => length (snd (fst p)))) in E. vm_compute in E. discriminate. Qed.

Lemma protected_change_is_licensed_witness :
  exists e, trail_holds e (snd before_put) /\
    ((exists c action capability path subject request bait,
        mutating capability = true /\ permitted demo_policies (caller_identity c) path capability /\
        e = decision_entry c action path subject request (authorize demo_state c capability path) bait) \/
     (exists presented now a token_id request,
        exchange example_federation presented now = Accepted_ a /\ e = mint_entry demo_state a token_id request)).
Proof.
  apply (protected_change_is_licensed demo_state [demo demo_write] demo_app [fst before_put] (snd before_put)
    [fst after_put] (snd after_put)).
  - exact demo_wf.
  - exact (advance_pool _ 3 _ _).
  - destruct (advance_step (arrives demo_state) 3 (program demo_state (demo demo_write)) demo_app) as [Hs|E];
      [exact Hs|]. exfalso. apply put_changes. unfold after_put, before_put. by rewrite E.
  - exact put_changes.
Defined.

Lemma service_never_panics_witness :
  (forall i, [fst before_put; program demo_state (demo demo_list)] !! i <> Some Panicked) /\
  trail_grows demo_app (snd before_put).
Proof.
  apply (service_never_panics demo_state [demo demo_write] demo_app
    [fst before_put; program demo_state (demo demo_list)] (snd before_put)).
  - exact demo_wf.
  - eapply rtc_r; [exact (advance_pool _ 3 _ _)|].
    exact (pool_step_new _ _ _ _ (arrives_request demo_state (demo demo_list))).
Defined.

Definition surface_answer : list SurfaceEntryResponse := map surface_entry_response demo_surface.

Lemma admin_page_is_inspected_witness :
  exists c, authenticated demo_state (demo_seen ReqSurface (Ok (RepSurface surface_answer))) demo_headers c
      (after ReqSurface) /\
    decided_on_record demo_state c ActRead CapInspect (reserved_path "surface") None demo_context (after ReqSurface).
Proof.
  apply (admin_page_is_inspected demo_state [demo ReqSurface] demo_app [Done (Ok (RepSurface surface_answer))]
    (after ReqSurface) 0 demo_headers (Some (V4 [10; 0; 0; 1]%Z)) ReqSurface "surface" (RepSurface surface_answer));
    alone.
Defined.

(** The audit log is not served here: nothing in the surface opens it. *)
Definition demo_audit : Request := ReqAudit (mkAuditQuery None None None None None None None None).

Lemma absent_route_is_refused_witness :
  answer demo_audit = Some (Err ApiNotFound) /\
  (Err (A := Reply) ApiNotFound = Err ApiNotFound \/ Err (A := Reply) ApiNotFound = Err AuditUnavailable).
Proof.
  split; [vm_compute; reflexivity|].
  apply (absent_route_is_refused demo_state [demo demo_audit] demo_app [Done (Err ApiNotFound)] (after demo_audit) 0
    demo_headers (Some (V4 [10; 0; 0; 1]%Z)) demo_audit (Err ApiNotFound)); alone.
Defined.

(** ** Availability

    The first device of the two takes everything, the other fails once. *)

Definition never_full (d : MemDevice) : Prop := mem_faults d = [].

Lemma never_full_takes : takes_everything never_full.
Proof. intros r d Hd. unfold never_full in Hd. simpl. rewrite Hd. by eexists. Qed.

Lemma hex_no_newline b : contains newline (hex_encode b) = false.
Proof.
  assert (forall c, contains newline (hex_encode_byte c) = false) as Hc
    by (intros [[] [] [] [] [] [] [] []]; reflexivity).
  induction b as [|c b IH]; [done|]. cbn [hex_encode]. by rewrite contains_app, Hc.
Qed.

Lemma toy_json_encodes : always_encodes.
Proof. intros seq ts hash e. simpl. by rewrite hex_no_newline. Qed.

(** A read that is served, and every later turn a new request that waits. *)
Definition demo_schedule : nat -> list (app_m Reply) * App MemDevice :=
  alone_first (program demo_state (demo (ReqRead "infra/db" None)))
    (program demo_state (demo (ReqRead "infra/db" None))) demo_app.

Lemma every_request_is_answered_witness :
  exists n r, r <> Err AuditUnavailable /\ forall n', n <= n' -> fst (demo_schedule n') !! 0 = Some (Done r).
Proof.
  apply (every_request_is_answered demo_state never_full never_full_takes toy_json_encodes
    [demo (ReqRead "infra/db" None)] demo_app demo_schedule 0 demo_headers (Some (V4 [10; 0; 0; 1]%Z))
    (ReqRead "infra/db" None)).
  - exact demo_wf.
  - split; [exact example_sink_names|]. exists (mkSlot (mkMemDevice "a" [] []) None). split; [left|done].
  - reflexivity.
  - apply alone_schedule. constructor.
  - apply alone_not_neglected.
  - reflexivity.
Defined.

(** ** Written, then read

    The write is half done when a deletion of the first version comes and goes; the
    read comes when the write is answered. *)

Definition reads_back : Request := ReqRead "infra/db" (Some 2%Z).
Definition deleted_between : option (result ApiError Reply) * App MemDevice :=
  run (program demo_state (demo demo_delete)) (snd before_put).
Definition then_written : option (result ApiError Reply) * App MemDevice := run (fst before_put) (snd deleted_between).
Definition then_read : option (result ApiError Reply) * App MemDevice :=
  run (program demo_state (demo reads_back)) (snd then_written).
Definition recalled : SecretResponse := mkSecretResponse "infra/db" 2 "s3cret" 50 "deploy-runner".

Lemma demo_store_wf : store_wf (app_db demo_app).
Proof.
  apply (changes_run _ _ _ (lasting_issue "deploy-runner" example_token example_pepper "admin" (Some 5000%Z) Credential_ 1)).
  do 2 apply (changes_run _ _ _ (lasting_put _ _ _ _ _)). exact store_wf_empty.
Qed.

Lemma demo_finishes (before after' : list (app_m (D := MemDevice) Reply)) m r s out : out = run m s -> fst out = Some r ->
  rtc (pool_step (arrives demo_state)) (before ++ m :: after', s) (before ++ Done r :: after', snd out).
Proof.
  intros -> Hr. pose proof (run_pool_at (arrives demo_state) m r (before ++ m :: after') (length before) s) as Hp.
  rewrite insert_app_r_alt, Nat.sub_diag in Hp by done. apply Hp; [by apply list_lookup_middle|done].
Qed.

Lemma deleted_then_written :
  fst deleted_between = Some (Ok RepNoContent) /\ fst then_written = Some (Ok (RepWrite write_answer)) /\
  fst then_read = Some (Ok (RepSecret recalled)).
Proof. vm_compute. by split_and!. Qed.

(** The pool at the moments of the run. *)
Definition write_comes : list (app_m (D := MemDevice) Reply) * App MemDevice := ([program demo_state (demo demo_write)], demo_app).
Definition delete_comes : list (app_m (D := MemDevice) Reply) * App MemDevice :=
  ([fst before_put; program demo_state (demo demo_delete)], snd before_put).
Definition delete_done : list (app_m (D := MemDevice) Reply) * App MemDevice :=
  ([fst before_put; Done (Ok RepNoContent)], snd deleted_between).
Definition write_done : list (app_m (D := MemDevice) Reply) * App MemDevice :=
  ([Done (Ok (RepWrite write_answer)); Done (Ok RepNoContent)], snd then_written).
Definition read_comes : list (app_m (D := MemDevice) Reply) * App MemDevice :=
  ([Done (Ok (RepWrite write_answer)); Done (Ok RepNoContent); program demo_state (demo reads_back)], snd then_written).
Definition read_done : list (app_m (D := MemDevice) Reply) * App MemDevice :=
  ([Done (Ok (RepWrite write_answer)); Done (Ok RepNoContent); Done (Ok (RepSecret recalled))], snd then_read).

#[local] Opaque run.
Lemma moment_1 : rtc (pool_step (arrives demo_state)) write_comes delete_comes.
Proof.
  eapply rtc_r; [exact (advance_pool _ 3 _ _)|]. exact (pool_step_new _ _ _ _ (arrives_request demo_state (demo demo_delete))).
Qed.
Lemma moment_2 : rtc (pool_step (arrives demo_state)) delete_comes delete_done.
Proof. exact (demo_finishes [fst before_put] [] _ _ (snd before_put) deleted_between eq_refl (proj1 deleted_then_written)). Qed.
Lemma moment_3 : rtc (pool_step (arrives demo_state)) delete_done write_done.
Proof.
  exact (demo_finishes [] [Done (Ok RepNoContent)] _ _ (snd deleted_between) then_written eq_refl (proj1 (proj2 deleted_then_written))).
Qed.
Lemma moment_4 : rtc (pool_step (arrives demo_state)) write_done read_comes.
Proof. apply rtc_once. exact (pool_step_new _ _ _ _ (arrives_request demo_state (demo reads_back))). Qed.
Lemma moment_5 : rtc (pool_step (arrives demo_state)) read_comes read_done.
Proof.
  exact (demo_finishes [Done (Ok (RepWrite write_answer)); Done (Ok RepNoContent)] [] _ _ (snd then_written) then_read
    eq_refl (proj2 (proj2 deleted_then_written))).
Qed.

#[local] Transparent run.

Lemma written_value_reads_back_witness :
  fst deleted_between = Some (Ok RepNoContent) /\
  (sr_path recalled = wr_path write_answer /\ sr_version recalled = wr_version write_answer /\
   sr_value recalled = sb_value demo_body).
Proof.
  split; [exact (proj1 deleted_then_written)|].
  apply (written_value_reads_back demo_state [demo demo_write] demo_app write_comes write_done read_comes read_done
    0 2 demo_headers (Some (V4 [10; 0; 0; 1]%Z)) "infra/db" demo_body write_answer
    demo_headers (Some (V4 [10; 0; 0; 1]%Z)) "infra/db" recalled toy_aead_laws demo_store_wf (rtc_refl _ _) eq_refl).
  - exact (rtc_trans _ _ _ moment_1 (rtc_trans _ _ _ moment_2 moment_3)).
  - reflexivity.
  - exact moment_4.
  - reflexivity.
  - exact moment_5.
  - reflexivity.
  - reflexivity.
Defined.

(** ** Refusals *)

(** A more specific rule without capabilities denies what the wider one permits. *)
Example denied_read : answer (ReqRead "infra/root/key" None) = Some (Err Forbidden).
Proof. vm_compute. reflexivity. Qed.

(** With one device that never fails: how many records a request leaves. *)
Definition one_device : App MemDevice :=
  set_audit (mkSink [mkSlot (mkMemDevice "a" [] []) None] chain_new) demo_app.
Definition answer_and_records (q : Request) : option (result ApiError Reply) * list nat :=
  let '(r, a) := run (program demo_state (demo q)) one_device in
  (r, map (fun s => length (mem_log (slot_device s))) (slots (app_audit a))).

(** Version 0 is refused after the decision was recorded as allowed, and no second
    entry says so; a version that does not exist leaves two. *)
Example zero_version_is_not_corrected :
  answer_and_records (ReqRead "infra/db" (Some 0%Z)) =
    (Some (Err (BadRequest "version must be greater than zero")), [1%nat]) /\
  answer_and_records (ReqRead "infra/db" (Some 9%Z)) = (Some (Err ApiNotFound), [2%nat]).
Proof. vm_compute. done. Qed.
