(* ===== verification/Rendering.v ===== *)
(** * Writing secrets out, and reading a [.env] file in

    The formats of [ciphr-export/src/lib.rs] and the parser of
    [ciphr-cli/src/formats.rs], with the readers they are written for: what a POSIX
    shell makes of a word, and what a runner makes of the file [$GITHUB_ENV]
    names. *)

From Stdlib Require Import ZArith NArith Lia Ascii String.
From stdpp Require Import base tactics list strings gmap.
From S2P Require Import Prelude Text Hex Path Vocabulary Crypto.

(** ** What is rendered *)

Record Exported : Type := mkExported { x_path : SecretPath; x_value : string }.

Inductive ExportError : Type :=
| ExEnvName (error : EnvNameError)
| ExDelimiter (name reason : string).

Definition export_error_display (e : ExportError) : string :=
  match e with
  | ExEnvName error => env_name_error_display error
  | ExDelimiter name reason => "cannot write " ++ name ++ " into an environment file: " ++ reason
  end.

Definition assign_names (secrets : list Exported) : result EnvNameError (list EnvVarName) :=
  env_assign (map x_path secrets).

Inductive ExportFormat : Type := Dotenv | ActionsEnv | JsonFormat.

Definition ExportFormat_parse (name : string) : result string ExportFormat :=
  if String.eqb name "dotenv" then Ok Dotenv
  else if String.eqb name "actions-env" then Ok ActionsEnv
  else if String.eqb name "json" then Ok JsonFormat
  else Err name.

Definition unknown_format_display (found : string) : string :=
  "format '" ++ found ++ "'; use dotenv, actions-env or json".

Definition writes_values_to_stdout (f : ExportFormat) : bool :=
  match f with Dotenv | JsonFormat => true | ActionsEnv => false end.

(** [serde_json]'s pretty printer on an object, whose keys it keeps in order. *)
Class JsonPretty : Type := json_pretty : gmap string string -> string.

(** ** Rendering *)

Definition backslash : ascii := ascii_of_N 92.

(** An ASCII quote is one byte of UTF-8, so the loop over characters is one over
    bytes. *)
Fixpoint quote_chars (value : string) : string :=
  match value with
  | EmptyString => EmptyString
  | String c value =>
      if Ascii.eqb c quote
      then String quote (String backslash (String quote (String quote (quote_chars value))))
      else String c (quote_chars value)
  end.

Definition shell_single_quote (value : string) : string :=
  String quote (quote_chars value ++ str1 quote).

Definition dotenv_line (secret : Exported) (name : EnvVarName) : string :=
  env_str name ++ "=" ++ shell_single_quote (x_value secret) ++ str1 newline.

Definition concat_strings (l : list string) : string := join EmptyString l.

Definition render_dotenv (secrets : list Exported) : result ExportError string :=
  let? names := map_err ExEnvName (assign_names secrets) in
  Ok (concat_strings (map (fun '(secret, name) => dotenv_line secret name) (combine secrets names))).

Definition DELIMITER_BYTES : nat := 16.
Definition DELIMITER_ATTEMPTS : nat := 4.

Section entropy.
Context {En : Entropy}.

Definition delimiter (name : string) (random : bytes) : string :=
  "ciphr_" ++ name ++ "_" ++ hex_encode random.

(** The attempts that are left. *)
Fixpoint draw_delimiter (attempts : nat) (name value : string) : stm rng ExportError string :=
  match attempts with
  | O => mfail (ExDelimiter name (dec (Z.of_nat DELIMITER_ATTEMPTS) ++ " random delimiters all occur in the value"))
  | S attempts => fun r =>
      match getrandom_fill DELIMITER_BYTES r with
      | (None, r) => (Err (ExDelimiter name "the operating system provided no entropy"), r)
      | (Some random, r) =>
          let candidate := delimiter name random in
          if negb (existsb (fun line => String.eqb line candidate) (lines value)) then (Ok candidate, r)
          else draw_delimiter attempts name value r
      end
  end.

Definition heredoc_delimiter (name value : string) : stm rng ExportError string :=
  draw_delimiter DELIMITER_ATTEMPTS name value.

(** One mask per line that is not empty. *)
Definition masks_of (value : string) : string :=
  concat_strings (map (fun line => ("::add-mask::" ++ line ++ str1 newline)%string)
    (List.filter (fun line => negb (is_empty line)) (lines value))).

Definition assignment_of (name value : string) : stm rng ExportError string :=
  if contains newline value then
    let! delimiter := heredoc_delimiter name value in
    mret (name ++ "<<" ++ delimiter ++ str1 newline ++ value ++ str1 newline ++ delimiter ++ str1 newline)%string
  else mret (name ++ "=" ++ value ++ str1 newline)%string.

Fixpoint render_pairs (pairs : list (Exported * EnvVarName)) (masks assignments : string)
    : stm rng ExportError (string * string) :=
  match pairs with
  | [] => mret (masks, assignments)
  | (secret, name) :: pairs =>
      let masks := (masks ++ masks_of (x_value secret))%string in
      let! assignment := assignment_of (env_str name) (x_value secret) in
      render_pairs pairs masks (assignments ++ assignment)%string
  end.

Definition render_actions_env (secrets : list Exported) : stm rng ExportError (string * string) :=
  let! names := mlift (map_err ExEnvName (assign_names secrets)) in
  render_pairs (combine secrets names) EmptyString EmptyString.

Context {P : JsonPretty}.

(** A later value of one path replaces an earlier one. *)
Definition render_json (secrets : list Exported) : string :=
  json_pretty (fold_left (fun m secret => <[path_str (x_path secret) := x_value secret]> m) secrets ∅)
  ++ str1 newline.

Definition render (f : ExportFormat) (secrets : list Exported) : stm rng ExportError string :=
  match f with
  | Dotenv => mlift (render_dotenv secrets)
  | ActionsEnv =>
      let! parts := render_actions_env secrets in
      mret (fst parts ++ snd parts)%string
  | JsonFormat => mret (render_json secrets)
  end.
End entropy.

(** ** Reading a [.env] file ([parse_dotenv]) *)

Record DotEnvEntry : Type := mkDotEnvEntry { de_key : string; de_value : string }.

(** One layer of matching quotes, on the bytes. *)
Definition unquote (value : string) : string :=
  match value with
  | String first rest =>
      match str_rev rest with
      | String last middle =>
          if (Ascii.eqb first (ascii_of_N 34) && Ascii.eqb last (ascii_of_N 34))
             || (Ascii.eqb first quote && Ascii.eqb last quote)
          then str_rev middle else value
      | EmptyString => value
      end
  | EmptyString => value
  end.

(** The ellipsis is U+2026. *)
Definition truncate (text : string) : string :=
  if (length (chars text) <=? 24)%nat then text
  else of_chars (take 24 (chars text)) ++ of_chars [8230%N].

Definition dotenv_entry (number : Z) (line : string) : result (Z * string) DotEnvEntry :=
  match split_once "="%char line with
  | None => Err (number, "no '=' on this line")
  | Some (key, value) =>
      let key := trim key in
      let? name := map_err (fun error =>
        (number, (str_debug (truncate key) ++ " is not a usable variable name: "
           ++ match error with
              | NotAName _ reason => name_fault_display reason
              | Collision _ _ _ => env_name_error_display error
              end)%string)) (EnvVarName_parse key) in
      Ok (mkDotEnvEntry (env_str name) (unquote (trim value)))
  end.

Fixpoint dotenv_lines (number : Z) (raw : list string) : result (Z * string) (list DotEnvEntry) :=
  match raw with
  | [] => Ok []
  | one :: raw =>
      let line := trim one in
      if is_empty line || starts_with line "#" then dotenv_lines (number + 1) raw
      else
        let line := trim (match strip_prefix "export " line with Some rest => rest | None => line end) in
        let? entry := dotenv_entry number line in
        let? entries := dotenv_lines (number + 1) raw in
        Ok (entry :: entries)
  end.

Definition parse_dotenv (text : string) : result (Z * string) (list DotEnvEntry) :=
  dotenv_lines 1 (lines text).

(** ** The readers the formats are written for

    A POSIX shell: inside single quotes every byte is itself; outside, a backslash
    makes the next byte itself.  Any other unquoted byte is refused, so what is
    read here is what any such shell reads. *)

Inductive quoting : Type := Unquoted | Quoted | Escaped.

Definition push_char (c : ascii) (r : option (string * string)) : option (string * string) :=
  option_map (fun '(word, rest) => (String c word, rest)) r.

Fixpoint shell_word (q : quoting) (s : string) : option (string * string) :=
  match s with
  | EmptyString => None
  | String c s =>
      match q with
      | Quoted => if Ascii.eqb c quote then shell_word Unquoted s else push_char c (shell_word Quoted s)
      | Escaped => if Ascii.eqb c newline then None else push_char c (shell_word Unquoted s)
      | Unquoted =>
          if Ascii.eqb c quote then shell_word Quoted s
          else if Ascii.eqb c backslash then shell_word Escaped s
          else if Ascii.eqb c newline then Some (EmptyString, s)
          else None
      end
  end.

(** A file of assignments: a name, an equals sign, a word, a newline. *)
Fixpoint shell_assignments (fuel : nat) (s : string) : option (list (string * string)) :=
  match fuel with
  | O => None
  | S fuel =>
      if is_empty s then Some []
      else
        match split_once "="%char s with
        | None => None
        | Some (name, s) =>
            match shell_word Unquoted s with
            | None => None
            | Some (value, s) => option_map (cons (name, value)) (shell_assignments fuel s)
            end
        end
  end.

(** A runner's environment file, line by line: [name=value], or [name<<word] and
    the lines up to one that is [word] alone.  The operator of a line is the first
    of the two on it. *)
Inductive env_operator : Type := Value (value : string) | Heredoc (word : string).

Fixpoint env_line (line : string) : option (string * env_operator) :=
  match line with
  | EmptyString => None
  | String c line =>
      if Ascii.eqb c "="%char then Some (EmptyString, Value line)
      else match (if Ascii.eqb c "<"%char then strip_prefix "<" line else None) with
      | Some word => Some (EmptyString, Heredoc word)
      | None => option_map (fun '(name, op) => (String c name, op)) (env_line line)
      end
  end.

Inductive env_mode : Type := AtLine | InHeredoc (name word : string) (read : list string).

Fixpoint runner_env (m : env_mode) (file : list string) : option (list (string * string)) :=
  match m, file with
  | AtLine, [] => Some []
  | InHeredoc _ _ _, [] => None
  | AtLine, line :: file =>
      if is_empty line then runner_env AtLine file
      else match env_line line with
      | Some (name, Value value) => option_map (cons (name, value)) (runner_env AtLine file)
      | Some (name, Heredoc word) => runner_env (InHeredoc name word []) file
      | None => None
      end
  | InHeredoc name word read, line :: file =>
      if String.eqb line word
      then option_map (cons (name, join (str1 newline) (rev read))) (runner_env AtLine file)
      else runner_env (InHeredoc name word (line :: read)) file
  end.

(** ** Lemmas *)

(** What the assignment of names gives: as many names as secrets, each of them
    letters, digits and underscores. *)
Definition name_char (c : ascii) : bool := env_char_ok (N_of_ascii c).

Definition good_name (name : string) : Prop :=
  name <> EmptyString /\ Forall (fun c => name_char c = true) (as_bytes name).

Lemma name_char_plain c : name_char c = true -> plain c = true.
Proof.
  unfold name_char, env_char_ok, is_ascii_alphanumeric, is_ascii_alphabetic, is_ascii_digit, plain.
  rewrite !orb_true_iff, !andb_true_iff, N.eqb_eq, !N.leb_le. lia.
Qed.

Lemma good_name_without c name : good_name name -> name_char c = false -> contains c name = false.
Proof.
  intros [_ H] Hc. induction name as [|a name IH]; [done|]. apply Forall_cons in H as [Ha H].
  simpl. rewrite IH by done. rewrite orb_false_r. apply Ascii.eqb_neq. congruence.
Qed.

Lemma good_name_utf8 name : good_name name -> utf8 name.
Proof.
  intros [_ H]. apply utf8_ascii. eapply Forall_impl; [exact H|]. intros c Hc.
  apply name_char_plain in Hc. unfold plain in Hc. apply andb_true_iff in Hc as [_ Hc%N.leb_le]. lia.
Qed.

Lemma concat_strings_cons s l : concat_strings (s :: l) = (s ++ concat_strings l)%string.
Proof. destruct l; simpl; [by rewrite str_app_nil_r|done]. Qed.

Lemma concat_strings_app l k : concat_strings (l ++ k) = (concat_strings l ++ concat_strings k)%string.
Proof.
  induction l as [|s l IH]; [done|]. simpl app. rewrite !concat_strings_cons, IH. by rewrite str_app_assoc.
Qed.

Lemma good_name_of_chars name : utf8 name -> name <> EmptyString ->
  Forall (fun c => env_char_ok c = true) (chars name) -> good_name name.
Proof.
  intros (l & Hl & ->) Hne H. split; [done|]. clear Hne.
  rewrite <- (str_app_nil_r (of_chars l)), chars_of_chars in H by done. rewrite app_nil_r in H.
  induction H as [|c l Hc H IH]; [by constructor|]. simpl in Hl. apply andb_true_iff in Hl as [_ Hl].
  change (of_chars (c :: l)) with (utf8_of_char c ++ of_chars l)%string. rewrite as_bytes_app.
  apply Forall_app. split; [|by apply IH].
  assert (c < 128)%N as Hlt.
  { unfold env_char_ok, is_ascii_alphanumeric, is_ascii_alphabetic, is_ascii_digit in Hc.
    rewrite !orb_true_iff, !andb_true_iff, N.eqb_eq, !N.leb_le in Hc. lia. }
  unfold utf8_of_char. rewrite (proj2 (N.ltb_lt _ _)) by done. constructor; [|done].
  unfold name_char. by rewrite N_ascii_embedding by lia.
Qed.

Lemma assign_names_good secrets names : assign_names secrets = Ok names ->
  Forall (fun n => utf8 (env_str n)) names ->
  length names = length secrets /\ Forall (fun n => good_name (env_str n)) names.
Proof.
  unfold assign_names, env_assign. intros H Hu.
  destruct (assign_loop [] (map x_path secrets)) as [out|e] eqn:Ha; simpl in H; [|done]. injection H as <-.
  apply assign_loop_Ok in Ha as (_ & ns & -> & HF); [|constructor]. simpl in *.
  pose proof (Forall2_length _ _ _ HF) as Hl. rewrite fst_zip in * by lia. rewrite length_map in Hl.
  split; [done|]. clear Hl. induction HF as [|n p ns ps Hn HF IH]; [done|].
  apply Forall_cons in Hu as [Hn' Hu]. constructor; [|by apply IH].
  unfold env_for_path in Hn. apply env_parse_Ok in Hn as (E & Hf). apply env_fault_None in Hf as (Hne & _ & Hc).
  rewrite <- E in *. by apply good_name_of_chars.
Qed.

Lemma assign_names_parsed secrets names : assign_names secrets = Ok names ->
  Forall (fun n => env_fault (env_str n) = None) names.
Proof.
  unfold assign_names, env_assign. intros H.
  destruct (assign_loop [] (map x_path secrets)) as [out|e] eqn:Ha; simpl in H; [|done]. injection H as <-.
  apply assign_loop_Ok in Ha as (_ & ns & -> & HF); [|constructor]. simpl in *.
  pose proof (Forall2_length _ _ _ HF) as Hl. rewrite fst_zip in * by lia. clear Hl.
  induction HF as [|n p ns ps Hn HF IH]; [done|]. constructor; [|done].
  unfold env_for_path in Hn. by apply env_parse_Ok in Hn as (-> & Hf).
Qed.

(** *** The shell reads a quoted word as the value *)

Definition prefix_word (v : string) (r : option (string * string)) : option (string * string) :=
  option_map (fun '(word, rest) => ((v ++ word)%string, rest)) r.

Lemma push_prefix c v r : push_char c (prefix_word v r) = prefix_word (String c v) r.
Proof. by destruct r as [[w t]|]. Qed.

Lemma shell_word_quoted v t :
  shell_word Quoted (quote_chars v ++ String quote t) = prefix_word v (shell_word Unquoted t).
Proof.
  induction v as [|c v IH].
  - simpl. by destruct (shell_word Unquoted t) as [[w r]|].
  - simpl quote_chars. destruct (Ascii.eqb_spec c quote) as [->|Hne].
    + change (push_char quote (shell_word Quoted (quote_chars v ++ String quote t)) = prefix_word (String quote v) (shell_word Unquoted t)).
      by rewrite IH, push_prefix.
    + simpl. rewrite (proj2 (Ascii.eqb_neq _ _) Hne), IH. apply push_prefix.
Qed.

Lemma shell_word_single_quote v t :
  shell_word Unquoted (shell_single_quote v ++ String newline t) = Some (v, t).
Proof.
  unfold shell_single_quote. cbn [append]. change (shell_word Unquoted (String quote ?s)) with (shell_word Quoted s).
  rewrite str_app_assoc. change (str1 quote ++ String newline t)%string with (String quote (String newline t)).
  rewrite shell_word_quoted. simpl. by rewrite str_app_nil_r.
Qed.

Definition pairs_of (secrets : list Exported) (names : list EnvVarName) : list (string * string) :=
  combine (map env_str names) (map x_value secrets).

(** C38: A POSIX shell that reads a rendered file gets every name with exactly its
    value, whatever bytes the value holds. *)
Theorem render_dotenv_shell secrets names text :
  assign_names secrets = Ok names -> Forall (fun n => utf8 (env_str n)) names ->
  render_dotenv secrets = Ok text ->
  shell_assignments (S (length secrets)) text = Some (pairs_of secrets names).
Proof.
  intros Ha Hu H. destruct (assign_names_good _ _ Ha Hu) as [Hl Hg]. unfold render_dotenv in H.
  rewrite Ha in H. cbn [map_err res_bind] in H. injection H as <-. clear Ha Hu. unfold pairs_of.
  revert names Hl Hg. induction secrets as [|x secrets IH]; intros [|n names] Hl Hg; try discriminate; [done|].
  apply Forall_cons in Hg as [Hn Hg]. injection Hl as Hl.
  cbn [combine map length]. rewrite concat_strings_cons. unfold dotenv_line. rewrite !str_app_assoc.
  change (shell_assignments (S (S (length secrets)))) with
    (fun s => if is_empty s then Some [] else
        match split_once "="%char s with
        | None => None
        | Some (name, s) =>
            match shell_word Unquoted s with
            | None => None
            | Some (value, s) => option_map (cons (name, value)) (shell_assignments (S (length secrets)) s)
            end
        end).
  cbv beta. destruct (is_empty _) eqn:E.
  { apply is_empty_spec in E. destruct Hn as [Hne _]. by destruct (env_str n). }
  change ("=" ++ ?s)%string with (String "="%char s).
  rewrite split_once_app by by apply good_name_without.
  change (str1 newline ++ ?s)%string with (String newline s). rewrite shell_word_single_quote.
  by rewrite IH.
Qed.

(** *** The runner reads an assignment as the value *)

Lemma env_line_name name s : good_name name ->
  env_line (name ++ s) = option_map (fun '(n, op) => ((name ++ n)%string, op)) (env_line s).
Proof.
  intros [_ H]. induction name as [|c name IH]; [simpl; by destruct (env_line s) as [[]|]|].
  apply Forall_cons in H as [Hc H]. change (String c name ++ s)%string with (String c (name ++ s)). cbn [env_line].
  destruct (Ascii.eqb_spec c "="%char) as [->|_]; [done|].
  destruct (Ascii.eqb_spec c "<"%char) as [->|_]; [done|].
  rewrite IH by done. by destruct (env_line s) as [[n op]|].
Qed.

Lemma drop_cr_clean s : contains (ascii_of_N 13) s = false -> drop_cr s = s.
Proof.
  intros H. unfold drop_cr. destruct (strip_suffix _ s) as [r|] eqn:E; [|done].
  apply strip_suffix_Some in E as ->. rewrite contains_app in H. apply orb_false_iff in H as [_ H]. done.
Qed.

Lemma lines_of_elem d pieces : d <> EmptyString -> contains (ascii_of_N 13) d = false ->
  d ∈ pieces -> d ∈ lines_of pieces.
Proof.
  intros Hne Hc. induction pieces as [|x pieces IH]; intros H; [by apply elem_of_nil in H|].
  destruct pieces as [|y pieces].
  - apply list_elem_of_singleton in H as <-. simpl. destruct (is_empty d) eqn:E; [by apply is_empty_spec in E|].
    by apply list_elem_of_singleton.
  - cbn [lines_of]. apply elem_of_cons in H as [<-|H]; [|by right; apply IH].
    rewrite drop_cr_clean by done. by left.
Qed.

Lemma runner_env_heredoc name d pieces : forall read rest, d ∉ pieces ->
  runner_env (InHeredoc name d read) (pieces ++ d :: rest) =
  option_map (cons (name, join (str1 newline) (rev read ++ pieces))) (runner_env AtLine rest).
Proof.
  induction pieces as [|x pieces IH]; intros read rest Hd; cbn [app runner_env].
  - by rewrite String.eqb_refl, app_nil_r.
  - apply not_elem_of_cons in Hd as [Hx Hd]. rewrite (proj2 (String.eqb_neq _ _)) by done.
    rewrite IH by done. cbn [rev]. by rewrite <- app_assoc.
Qed.

Lemma hex_name_chars b : Forall (fun c => name_char c = true) (as_bytes (hex_encode b)).
Proof.
  induction b as [|x b IH]; [by constructor|]. cbn [hex_encode]. rewrite as_bytes_app. apply Forall_app. split; [|done].
  enough (forallb name_char (as_bytes (hex_encode_byte x)) = true) as H
    by (apply Forall_forall; intros c Hc%list_elem_of_In; rewrite forallb_forall in H; by apply H).
  revert x. by_bytes.
Qed.

Lemma delimiter_good name random : good_name name -> good_name (delimiter name random).
Proof.
  intros [_ H]. unfold delimiter. split; [done|]. rewrite !as_bytes_app.
  rewrite !Forall_app. split_and!; [by repeat constructor|done|by repeat constructor|apply hex_name_chars].
Qed.

Lemma split_on_app1 c a b : contains c a = false -> split_on c (a ++ str1 c ++ b) = a :: split_on c b.
Proof. apply split_on_app. Qed.

Lemma split_on_app_sep1 c a b : split_on c (a ++ str1 c ++ b) = split_on c a ++ split_on c b.
Proof. apply split_on_app_sep. Qed.

Lemma heredoc_split name d value rest : contains newline name = false -> contains newline d = false ->
  split_on newline ((name ++ "<<" ++ d ++ str1 newline ++ value ++ str1 newline ++ d ++ str1 newline) ++ rest) =
  (name ++ "<<" ++ d)%string :: split_on newline value ++ d :: split_on newline rest.
Proof.
  intros Hn Hd. rewrite !str_app_assoc.
  rewrite <- (str_app_assoc "<<" d), <- (str_app_assoc name).
  rewrite split_on_app1, split_on_app_sep1, split_on_app1; [done|done|]. rewrite !contains_app. by rewrite Hn, Hd.
Qed.

Lemma value_split name value rest : contains newline name = false -> contains newline value = false ->
  split_on newline ((name ++ "=" ++ value ++ str1 newline) ++ rest) = (name ++ "=" ++ value)%string :: split_on newline rest.
Proof.
  intros Hn Hd. rewrite !str_app_assoc.
  rewrite <- (str_app_assoc "=" value), <- (str_app_assoc name).
  rewrite split_on_app1; [done|]. rewrite !contains_app. by rewrite Hn, Hd.
Qed.

Section runner.
Context {En : Entropy}.

Lemma draw_delimiter_Ok attempts name value r d r' : draw_delimiter attempts name value r = (Ok d, r') ->
  exists random, d = delimiter name random /\ d ∉ lines value.
Proof.
  revert r. induction attempts as [|k IH]; intros r H; [done|]. cbn [draw_delimiter] in H.
  destruct (getrandom_fill _ _) as [[random|] r1]; [|done]. cbv zeta in H.
  destruct (existsb _ _) eqn:E; cbn [negb] in H; [by apply IH in H|].
  apply pair_equal_spec in H as [[= <-] _]. exists random. split; [done|]. intros Hin%list_elem_of_In.
  enough (existsb (fun line => String.eqb line (delimiter name random)) (lines value) = true) by congruence.
  apply existsb_exists. exists (delimiter name random). by rewrite String.eqb_refl.
Qed.

Lemma assignment_read name value r a r' rest : good_name name -> assignment_of name value r = (Ok a, r') ->
  runner_env AtLine (split_on newline (a ++ rest)) =
  option_map (cons (name, value)) (runner_env AtLine (split_on newline rest)).
Proof.
  intros Hn H. unfold assignment_of in H. destruct (contains newline value) eqn:Hv.
  - unfold mbind, heredoc_delimiter in H. destruct (draw_delimiter _ _ _ r) as [[d|] r1] eqn:Hd; [|done].
    apply pair_equal_spec in H as [[= <-] _]. apply draw_delimiter_Ok in Hd as (random & Ed & Hnot).
    assert (good_name d) as Hg by (subst d; by apply delimiter_good).
    etransitivity; [apply (f_equal (runner_env AtLine)), (heredoc_split name d value rest);
      by apply good_name_without|].
    cbn [runner_env]. destruct (is_empty _) eqn:E.
    { apply is_empty_spec in E. destruct Hn. by destruct name. }
    rewrite env_line_name by done. cbn [append env_line]. simpl.
    rewrite str_app_nil_r, runner_env_heredoc.
    + cbn [rev app]. by rewrite join_split.
    + intros Hin. apply Hnot. unfold lines. apply lines_of_elem; [by destruct Hg|by apply good_name_without|done].
  - apply pair_equal_spec in H as [[= <-] _].
    etransitivity; [apply (f_equal (runner_env AtLine)), (value_split name value rest); [by apply good_name_without|done]|].
    cbn [runner_env]. destruct (is_empty _) eqn:E.
    { apply is_empty_spec in E. destruct Hn. by destruct name. }
    rewrite env_line_name by done. simpl. by rewrite str_app_nil_r.
Qed.

Lemma render_pairs_spec pairs : forall masks assignments r masks' assignments' r' names,
  Forall (fun '(_, n) => good_name (env_str n)) pairs ->
  render_pairs pairs masks assignments r = (Ok (masks', assignments'), r') ->
  names = map (fun '(x, n) => (env_str n, x_value x)) pairs ->
  masks' = (masks ++ concat_strings (map (fun '(x, _) => masks_of (x_value x)) pairs))%string /\
  exists added, assignments' = (assignments ++ added)%string /\
    runner_env AtLine (split_on newline added) = Some names.
Proof.
  induction pairs as [|[x n] pairs IH]; intros masks assignments r masks' assignments' r' names Hg H ->.
  - cbn in H. apply pair_equal_spec in H as [[= <- <-] _]. simpl. rewrite str_app_nil_r. split; [done|].
    exists EmptyString. by rewrite str_app_nil_r.
  - apply Forall_cons in Hg as [Hn Hg]. cbn [render_pairs] in H. unfold mbind in H.
    destruct (assignment_of _ _ r) as [[a|] r1] eqn:Ha; [|done].
    destruct (IH _ _ _ _ _ _ _ Hg H eq_refl) as (-> & added & -> & Hr). cbn [map]. rewrite concat_strings_cons, str_app_assoc.
    split; [done|]. exists (a ++ added)%string. rewrite str_app_assoc. split; [done|].
    by rewrite (assignment_read _ _ _ _ _ _ Hn Ha), Hr.
Qed.

Lemma combine_pairs {A} (secrets : list Exported) (names : list EnvVarName) (f : Exported -> A) : length names = length secrets ->
  map (fun '(x, n) => (env_str n, f x)) (combine secrets names) = combine (map env_str names) (map f secrets).
Proof.
  revert names. induction secrets as [|x secrets IH]; intros [|n names] H; try done. simpl. f_equal. apply IH. by injection H.
Qed.

(** The lines a runner is told to mask, in order. *)
Definition mask_lines (secrets : list Exported) : list string :=
  flat_map (fun x => map (append "::add-mask::") (List.filter (fun line => negb (is_empty line)) (lines (x_value x)))) secrets.

Lemma lines_clean value line : line ∈ lines value -> contains newline line = false.
Proof.
  assert (forall pieces, Forall (fun x => contains newline x = false) pieces ->
    Forall (fun x => contains newline x = false) (lines_of pieces)) as Hl.
  { induction 1 as [|x pieces Hx Hp IH]; [done|]. destruct pieces as [|y pieces].
    - simpl. destruct (is_empty x); by repeat constructor.
    - cbn [lines_of]. constructor; [|done]. unfold drop_cr. destruct (strip_suffix _ x) as [r|] eqn:E; [|done].
      apply strip_suffix_Some in E as ->. rewrite contains_app in Hx. by apply orb_false_iff in Hx as [Hx _]. }
  intros Hin. pose proof (Hl _ (split_on_no_sep newline value)) as H. rewrite Forall_forall in H. by apply H.
Qed.

Lemma split_lines l : Forall (fun x => contains newline x = false) l -> forall rest,
  split_on newline (concat_strings (map (fun x => (x ++ str1 newline)%string) l) ++ rest) = l ++ split_on newline rest.
Proof.
  induction 1 as [|x l Hx Hl IH]; intros rest; [done|]. cbn [map]. rewrite concat_strings_cons, !str_app_assoc.
  change (str1 newline ++ ?s)%string with (String newline s). rewrite split_on_app by done. by rewrite IH.
Qed.

Lemma masks_of_split value rest :
  split_on newline (masks_of value ++ rest) =
  map (append "::add-mask::") (List.filter (fun line => negb (is_empty line)) (lines value)) ++ split_on newline rest.
Proof.
  rewrite <- split_lines.
  - unfold masks_of. rewrite map_map. by do 3 f_equal.
  - apply Forall_forall. intros y (line & -> & Hin)%list_elem_of_fmap. rewrite contains_app. simpl.
    apply list_elem_of_In, List.filter_In in Hin as [Hin _]. apply (lines_clean value). by apply list_elem_of_In.
Qed.

End runner.

(** *** The importer reads a rendered line *)

Lemma quote_chars_id_app t s : contains quote t = false -> quote_chars (t ++ s) = (t ++ quote_chars s)%string.
Proof.
  induction t as [|c t IH]; [done|]. intros [Hc Ht]%orb_false_iff.
  change (String c t ++ s)%string with (String c (t ++ s)). cbn [quote_chars]. by rewrite Hc, IH.
Qed.

Lemma quote_chars_id s : contains quote s = false -> quote_chars s = s.
Proof. intros H. rewrite <- (str_app_nil_r s) at 1. rewrite quote_chars_id_app by done. apply str_app_nil_r. Qed.

Lemma quote_chars_utf8 v : utf8 v -> utf8 (quote_chars v).
Proof.
  apply (utf8_ind (fun v => utf8 (quote_chars v))); [by exists []| |].
  - intros c s Hc Hs. cbn [quote_chars]. destruct (Ascii.eqb_spec c quote) as [->|_].
    + change (utf8 ("'\''" ++ quote_chars s)). apply utf8_app; [|done]. apply utf8_ascii. by repeat (apply Forall_cons; split; [by vm_compute|]).
    + change (utf8 (str1 c ++ quote_chars s)). apply utf8_app; [|done]. apply utf8_ascii. by constructor.
  - intros t s Ht Hu Hs. rewrite quote_chars_id_app; [by apply utf8_app|]. clear Hu.
    induction t as [|c t IH]; [done|]. apply Forall_cons in Ht as [Hc Ht]. simpl. rewrite IH by done.
    rewrite orb_false_r. apply Ascii.eqb_neq. intros ->. vm_compute in Hc. by apply Hc.
Qed.

(** No text of [quote_chars] loses or gains a newline. *)
Lemma quote_chars_newline v : contains newline (quote_chars v) = contains newline v.
Proof.
  induction v as [|c v IH]; [done|]. cbn [quote_chars]. destruct (Ascii.eqb_spec c quote) as [->|_]; simpl; by rewrite IH.
Qed.

Lemma unquote_quoted v : unquote (String quote (v ++ str1 quote)) = v.
Proof.
  unfold unquote. rewrite str_rev_app. change (str_rev (str1 quote)) with (str1 quote). cbn [append str1].
  by rewrite str_rev_involutive.
Qed.

Lemma quoted_tight v : utf8 v -> trim (String quote (v ++ str1 quote)) = String quote (v ++ str1 quote).
Proof. intros Hv. by apply (trim_tight quote v quote). Qed.

Lemma export_not_a_name name s : good_name name -> strip_prefix "export " (name ++ "=" ++ s) = None.
Proof.
  intros Hn. destruct (strip_prefix "export " _) as [r|] eqn:E; [|done]. apply strip_prefix_Some in E.
  assert (contains " " name = false) as Hsp by by apply good_name_without.
  do 7 (destruct name as [|? name]; [by simpl in E|]; cbn [append] in E; injection E as -> E).
  by simpl in Hsp.
Qed.

Definition quoted_line (name v : string) : string := name ++ "=" ++ String quote (v ++ str1 quote).

Lemma quoted_line_tight name v : good_name name -> utf8 v ->
  trim (quoted_line name v) = quoted_line name v /\ is_empty (quoted_line name v) = false /\
  starts_with (quoted_line name v) "#" = false.
Proof.
  intros Hn Hv. destruct name as [|c name]; [by destruct Hn|]. pose proof (good_name_utf8 _ Hn) as Hu.
  destruct Hn as [_ [Hc Hn]%Forall_cons]. pose proof (name_char_plain _ Hc) as Hp.
  unfold plain in Hp. apply andb_true_iff in Hp as [H1%N.leb_le H2%N.leb_le].
  assert (utf8 name) as Hname.
  { apply utf8_ascii. eapply Forall_impl; [exact Hn|]. intros x Hx%name_char_plain.
    apply andb_true_iff in Hx as [_ Hx%N.leb_le]. lia. }
  assert (quoted_line (String c name) v = String c (name ++ "=" ++ str1 quote ++ v) ++ str1 quote)%string as E.
  { unfold quoted_line. cbn [append]. by rewrite str_app_assoc. }
  split_and!; [|done|].
  - rewrite E. apply trim_tight; [| lia | by vm_compute | | by vm_compute].
    + apply utf8_app; [done|]. apply utf8_app; [by apply utf8_ascii; repeat (apply Forall_cons; split; [by vm_compute|])|].
      apply utf8_app; [by apply utf8_ascii; repeat (apply Forall_cons; split; [by vm_compute|])|done].
    + unfold is_whitespace. repeat (apply orb_false_iff; split); try (apply andb_false_iff; rewrite !N.leb_gt; lia); apply N.eqb_neq; lia.
  - unfold starts_with, quoted_line. cbn [append strip_prefix]. destruct (Ascii.eqb_spec "#"%char c) as [<-|_]; [|done]. done.
Qed.

Lemma dotenv_line_read number name v lines : good_name name -> env_fault name = None -> utf8 v ->
  dotenv_lines number (quoted_line name v :: lines) =
  (let? entries := dotenv_lines (number + 1) lines in Ok (mkDotEnvEntry name v :: entries)).
Proof.
  intros Hn Hf Hv. destruct (quoted_line_tight _ _ Hn Hv) as (Ht & He & Hs).
  cbn [dotenv_lines]. rewrite Ht, He, Hs. cbn [orb]. unfold quoted_line at 1. rewrite export_not_a_name by done.
  rewrite Ht. unfold dotenv_entry. change (quoted_line name v) with (name ++ String "="%char (String quote (v ++ str1 quote)))%string.
  rewrite split_once_app by by apply good_name_without.
  rewrite (trim_plain name) by (destruct Hn as [_ Hn]; eapply Forall_impl; [exact Hn|]; apply name_char_plain).
  unfold EnvVarName_parse. rewrite Hf. cbn [map_err res_bind env_str]. by rewrite quoted_tight, unquote_quoted.
Qed.

Lemma lines_ended l : Forall (fun x => contains newline x = false /\ drop_cr x = x) l ->
  lines (concat_strings (map (fun x => (x ++ str1 newline)%string) l)) = l.
Proof.
  intros H. unfold lines. rewrite <- (str_app_nil_r (concat_strings _)).
  rewrite split_lines by (eapply Forall_impl; [exact H|]; by intros ? [? _]).
  induction H as [|x l [_ Hx] H IH]; [done|]. cbn [app]. cbn [split_on] in *.
  change (x :: l ++ [EmptyString]) with ([x] ++ (l ++ [EmptyString])).
  destruct (l ++ [EmptyString]) as [|y rest] eqn:E; [by destruct l|]. change (drop_cr x :: lines_of (y :: rest) = x :: l).
  by rewrite Hx, IH.
Qed.

Lemma drop_cr_quoted name v : drop_cr (quoted_line name v) = quoted_line name v.
Proof.
  unfold drop_cr. destruct (strip_suffix _ _) as [r|] eqn:E; [|done]. apply strip_suffix_Some in E.
  unfold quoted_line in E. change (String quote ?x) with (str1 quote ++ x)%string in E. rewrite <- !str_app_assoc in E.
  apply (f_equal str_rev) in E. rewrite !str_rev_app in E. by injection E.
Qed.

(** What comes back when a rendered file is imported: every name, and of every
    value the text between the outer quotes, which is the value itself when no
    quote is in it. *)
Theorem parse_dotenv_rendered secrets names text :
  assign_names secrets = Ok names -> Forall (fun n => utf8 (env_str n)) names ->
  Forall (fun x => utf8 (x_value x) /\ contains newline (x_value x) = false) secrets ->
  render_dotenv secrets = Ok text ->
  exists entries, parse_dotenv text = Ok entries /\
    map de_key entries = map env_str names /\ map de_value entries = map (fun x => quote_chars (x_value x)) secrets /\
    (Forall (fun x => contains quote (x_value x) = false) secrets -> map de_value entries = map x_value secrets).
Proof.
  intros Ha Hu Hv H. destruct (assign_names_good _ _ Ha Hu) as [Hl Hg]. pose proof (assign_names_parsed _ _ Ha) as Hp.
  unfold render_dotenv in H. rewrite Ha in H. cbn [map_err res_bind] in H. injection H as <-.
  assert (concat_strings (map (fun '(x, n) => dotenv_line x n) (combine secrets names)) =
    concat_strings (map (fun x => (x ++ str1 newline)%string)
      (map (fun '(x, n) => quoted_line (env_str n) (quote_chars (x_value x))) (combine secrets names)))) as ->.
  { rewrite map_map. f_equal. apply map_ext. intros [x n]. unfold dotenv_line, quoted_line, shell_single_quote. by rewrite !str_app_assoc. }
  unfold parse_dotenv. rewrite lines_ended.
  - clear Ha Hu. generalize 1%Z. revert names Hl Hg Hp.
    induction Hv as [|x secrets [Hx _] Hv IH]; intros [|n names] Hl Hg Hp number; try discriminate; [by exists []|].
    apply Forall_cons in Hg as [Hn Hg], Hp as [Hf Hp]. injection Hl as Hl.
    destruct (IH names Hl Hg Hp (number + 1)%Z) as (entries & E & Ek & Ev & Eq).
    exists (mkDotEnvEntry (env_str n) (quote_chars (x_value x)) :: entries). cbn [combine map].
    rewrite dotenv_line_read by (done || by apply quote_chars_utf8). rewrite E. cbn [res_bind map de_key de_value].
    rewrite Ek, Ev. split_and!; [done|done|done|]. intros [Hq Hqs]%Forall_cons. rewrite quote_chars_id by done. by rewrite <- Ev, Eq.
  - apply Forall_forall. intros y ([x n] & -> & Hin)%list_elem_of_fmap. split; [|apply drop_cr_quoted].
    apply list_elem_of_In in Hin. pose proof (in_combine_l _ _ _ _ Hin) as Hx. pose proof (in_combine_r _ _ _ _ Hin) as Hn.
    rewrite Forall_forall in Hv. rewrite Forall_forall in Hg. destruct (Hv x) as [_ Hc]; [by apply list_elem_of_In|].
    assert (good_name (env_str n)) as Hgn by by apply Hg, list_elem_of_In.
    unfold quoted_line. change (String quote ?x) with (str1 quote ++ x)%string. rewrite !contains_app, quote_chars_newline, Hc.
    by rewrite good_name_without by done.
Qed.

(** The outer quotes are all the importer takes off: a quote inside comes back as
    the shell's way of writing it, and a second line as one of the file. *)
Example dotenv_is_not_its_inverse :
  (let? text := map_err (fun e => (0%Z, export_error_display e)) (render_dotenv [mkExported (mkSecretPath "app/NOTE") "it's"]) in
   parse_dotenv text) = Ok [mkDotEnvEntry "NOTE" "it'\''s"] /\
  (let? text := map_err (fun e => (0%Z, export_error_display e))
     (render_dotenv [mkExported (mkSecretPath "app/KEY") ("a" ++ str1 newline ++ "USER=root")]) in
   parse_dotenv text) = Ok [mkDotEnvEntry "KEY" "'a"; mkDotEnvEntry "USER" "root'"].
Proof. split; vm_compute; reflexivity. Qed.

(** ** Concrete runs *)

Definition demo_secrets : list Exported :=
  [mkExported (mkSecretPath "app/NOTE") "it's $HOME";
   mkExported (mkSecretPath "app/KEY") ("-----BEGIN" ++ str1 newline ++ "NOTE<<x" ++ str1 newline ++ "x=1" ++ str1 newline)].
Definition plain_secrets : list Exported :=
  [mkExported (mkSecretPath "app/A") "one two"; mkExported (mkSecretPath "app/B") "b=c#"].

Ltac ascii_text := apply utf8_ascii; repeat (apply Forall_cons; split; [by vm_compute|]); by constructor.

Lemma render_dotenv_shell_witness : exists text,
  render_dotenv demo_secrets = Ok text /\
  shell_assignments 3 text = Some [("NOTE", "it's $HOME"); ("KEY", x_value (nth 1 demo_secrets (mkExported (mkSecretPath "x") "x")))].
Proof.
  eexists. split; [vm_compute; reflexivity|].
  apply (render_dotenv_shell demo_secrets [mkEnvVarName "NOTE"; mkEnvVarName "KEY"]);
    [vm_compute; reflexivity|repeat constructor; ascii_text|vm_compute; reflexivity].
Defined.


Lemma parse_dotenv_rendered_witness : exists text,
  render_dotenv plain_secrets = Ok text /\
  exists entries, parse_dotenv text = Ok entries /\ map de_value entries = ["one two"; "b=c#"].
Proof.
  eexists. split; [vm_compute; reflexivity|].
  destruct (parse_dotenv_rendered plain_secrets [mkEnvVarName "A"; mkEnvVarName "B"] (concat_strings
    (map (fun '(x, n) => dotenv_line x n) (combine plain_secrets [mkEnvVarName "A"; mkEnvVarName "B"])))) as (entries & E & _ & _ & Ev);
    [vm_compute; reflexivity|repeat constructor; ascii_text|repeat (constructor; [split; [ascii_text|vm_compute; reflexivity]|]); constructor|vm_compute; reflexivity|].
  exists entries. split; [exact E|]. apply Ev. repeat constructor.
Defined.
