(* ===== verification/Operator.v ===== *)
(** * An operator's session ([ciphr-cli]: error.rs, session.rs)

    What every command of the command line stands on: its errors, the shell it
    runs in, and a session, which holds the store's lock, the store, the root key
    and the audit sink.  A command is a [prog] on [Host]: the store, the sink, what
    the clock will say, and what was printed. *)

From Stdlib Require Import ZArith NArith Lia Ascii String.
From stdpp Require Import base tactics list strings gmap.
From S2P Require Import Prelude Text Path Vocabulary PolicyModel Crypto Token Time Chain Sink Db Store.
From S2P Require Import Tokens Honeypots StoreAudit Prog Rendering.

(** ** Errors (error.rs) *)

Inductive CliError : Type :=
| CeNotInitialized (path : string)
| CeAlreadyInitialized (path : string)
| CeUnknownIdentity (name : string)
| CeNeedsStdin
| CeWouldPipeSecret
| CeDuration (found : string)
| CeNoExpiryDecision
| CeDotEnv (line : Z) (reason : string)
| CeAudit (detail : string)
| CeChainBroken (reason : ChainBreak)
| CeStore (error : StoreError)
| CeLockedButServed (locked : StoreError) (request : string)
| CeCrypto (error : CryptoError)
| CePolicy (error : PolicyError)
| CePath (error : PathError)
| CeRotation (error : RotationError)
| CeEnvName (error : EnvNameError)
| CeExportDelimiter (name reason : string)
| CeConfig (path reason : string)
| CeStatePreflight (path : string) (missing : Z)
| CeBaitNeedsASecret (path : string)
| CeIo (error : string).

Definition PREFLIGHT_EXIT : Z := 3.
Definition exit_code (e : CliError) : Z :=
  match e with CeStatePreflight _ _ => PREFLIGHT_EXIT | _ => 1%Z end.

Definition nl : string := str1 newline.

Definition cli_error_display (e : CliError) : string :=
  match e with
  | CeNotInitialized path => path ++ " has no root key yet; run `ciphr init` first"
  | CeAlreadyInitialized path =>
      path ++ " is already initialized; initializing again would orphan every secret in it"
  | CeUnknownIdentity name =>
      "'" ++ name ++ "' is not an identity in the policy file; identities are defined there, not created by this command"
  | CeNeedsStdin =>
      "the value must come from standard input, not from an argument — an argument ends up in shell history and in /proc, where other processes can read it."
      ++ nl ++ nl ++ "    printf %s " ++ str1 (ascii_of_N 34) ++ "$VALUE" ++ str1 (ascii_of_N 34)
      ++ " | ciphr put <path>" ++ nl ++ "    ciphr put <path> < value.txt"
  | CeWouldPipeSecret =>
      "refusing to write a secret to something that is not a terminal; pass --force if that is what you meant"
  | CeDuration found => "'" ++ found ++ "' is not a duration; use a number with a unit, such as 30d, 12h or 90m"
  | CeNoExpiryDecision =>
      "say how long this token lives. A credential with no end is the one an attacker wants, and until now it was what you got by writing nothing."
      ++ nl ++ nl ++ "    ciphr token issue <identity> --ttl 90d" ++ nl ++ "    ciphr token issue <identity> --no-expiry"
      ++ nl ++ nl ++ "--no-expiry is a real answer and stays supported. It has to be the one you wrote down, not the one nobody chose."
  | CeDotEnv line reason => "line " ++ dec line ++ ": " ++ reason
  | CeAudit detail => "the audit trail could not be written, so the command was abandoned: " ++ detail
  | CeChainBroken reason => chain_break_display reason
  | CeStore error => store_error_display error
  | CeLockedButServed locked request =>
      store_error_display locked ++ nl ++ nl
      ++ "If the holder is the running ciphr-server, no outage is needed for this one: it serves the same operation as `"
      ++ request
      ++ "` (see openapi.yaml), authenticated with a token whose policy allows it. The CLI does not make that call for you — there the trail names an authenticated identity, here it names the operator, and which of the two acted must not depend on a lock file."
  | CeCrypto error => crypto_error_display error
  | CePolicy error => policy_error_display error
  | CePath error => path_error_display error
  | CeRotation error => rotation_error_display error
  | CeEnvName error => env_name_error_display error
  | CeExportDelimiter name reason =>
      name ++ " could not be exported: " ++ reason
      ++ ". A multi-line value is written with a heredoc, and a delimiter the value itself could close would let that value define environment variables for later steps"
  | CeConfig path reason => path ++ " is not a usable configuration: " ++ reason
  | CeStatePreflight path missing =>
      path ++ " is not a usable configuration: " ++ dec missing ++ " file(s) this configuration requires are not there"
  | CeBaitNeedsASecret path =>
      path ++ " holds nothing. Bait is a real secret with a real-looking value in it -- write one there first, then mark it. A tier on an empty path is a honeypot that answers 404 to whoever takes it."
  | CeIo error => error
  end.

Definition cli_of_export (e : ExportError) : CliError :=
  match e with
  | ExEnvName error => CeEnvName error
  | ExDelimiter name reason => CeExportDelimiter name reason
  end.

(** [checked_mul] on [i64], and [+] as a release build computes it. *)
Definition i64_add (a b : Z) : Z := ((a + b - i64_min) mod 18446744073709551616 + i64_min)%Z.

Definition unit_millis (unit : N) : option Z :=
  (if unit =? 100 then Some (24 * 60 * 60 * 1000)%Z
   else if unit =? 104 then Some (60 * 60 * 1000)%Z
   else if unit =? 109 then Some (60 * 1000)%Z
   else if unit =? 115 then Some 1000%Z
   else None)%N.

Definition parse_duration_millis (input : string) : result CliError Z :=
  let bad := Err (CeDuration input) in
  match rev (chars (trim input)) with
  | [] => bad
  | unit :: digits =>
      match unit_millis unit with
      | None => bad
      | Some millis =>
          match parse_i64 (of_chars (rev digits)) with
          | Some value =>
              if (0 <? value)%Z then ok_or (CeDuration input) (i64_checked (value * millis)) else bad
          | None => bad
          end
      end
  end.

(** ** The shell

    What a command finds around it: variables, files, terminals, the outcome of
    taking the store's lock and of opening the store and the audit devices. *)

Record Context : Type := mkContext {
  cx_database : string;
  cx_master_key_env : string;
  cx_master_key_file : option string;
  cx_policies : string;
  cx_audit_file : option string;
}.

Section operator.
Context {D : Type}.

Record Shell : Type := mkShell {
  sh_env : string -> env_var;
  sh_fs : filesystem;
  sh_read : string -> result string string;
  sh_stdin : result string bytes;
  sh_stdin_terminal : bool;
  sh_stdout_terminal : bool;
  sh_lock : result StoreError unit;
  sh_open : result StoreError unit;
  sh_open_read_only : result StoreError unit;
  sh_sqlite_device : result StoreError D;
  sh_file_device : string -> result string D;
  sh_toml : string -> result string RawConfig;
}.

Context {En : Entropy}.

(** What a command changes. The writes to come fail as the list says. *)
Record Host : Type := mkHost {
  h_store : Store;
  h_audit : option (AuditSink D);
  h_clock : list Z;
  h_rng : rng;
  h_stdout : string;
  h_stderr : string;
  h_appended : list (string * string);
  h_writes : list (option string);
}.

Definition op_m (A : Type) : Type := prog Host CliError A.

Definition set_h_store (st : Store) (h : Host) : Host :=
  mkHost st (h_audit h) (h_clock h) (h_rng h) (h_stdout h) (h_stderr h) (h_appended h) (h_writes h).
Definition set_h_audit (sk : option (AuditSink D)) (h : Host) : Host :=
  mkHost (h_store h) sk (h_clock h) (h_rng h) (h_stdout h) (h_stderr h) (h_appended h) (h_writes h).
Definition set_h_clock (l : list Z) (h : Host) : Host :=
  mkHost (h_store h) (h_audit h) l (h_rng h) (h_stdout h) (h_stderr h) (h_appended h) (h_writes h).
Definition set_h_rng (r : rng) (h : Host) : Host :=
  mkHost (h_store h) (h_audit h) (h_clock h) r (h_stdout h) (h_stderr h) (h_appended h) (h_writes h).
Definition set_h_stdout (s : string) (h : Host) : Host :=
  mkHost (h_store h) (h_audit h) (h_clock h) (h_rng h) s (h_stderr h) (h_appended h) (h_writes h).
Definition set_h_stderr (s : string) (h : Host) : Host :=
  mkHost (h_store h) (h_audit h) (h_clock h) (h_rng h) (h_stdout h) s (h_appended h) (h_writes h).
Definition set_h_appended (l : list (string * string)) (h : Host) : Host :=
  mkHost (h_store h) (h_audit h) (h_clock h) (h_rng h) (h_stdout h) (h_stderr h) l (h_writes h).
Definition set_h_writes (l : list (option string)) (h : Host) : Host :=
  mkHost (h_store h) (h_audit h) (h_clock h) (h_rng h) (h_stdout h) (h_stderr h) (h_appended h) l.

(** [now_millis()]: the next reading, 0 past the last. *)
Definition host_clock (h : Host) : Z * Host :=
  (default 0%Z (head (h_clock h)), set_h_clock (tail (h_clock h)) h).
Definition op_now : op_m Z := pstep host_clock.

(** A call of the store, and one that reads the clock. *)
Definition in_store {A} (work : store_m A) : op_m A :=
  patomic (fun h => let '(r, st) := work (h_store h) in (map_err CeStore r, set_h_store st h)).
Definition in_store_now {A} (work : Z -> store_m A) : op_m A :=
  patomic (fun h =>
    let '(now, h) := host_clock h in
    let '(r, st) := work now (h_store h) in (map_err CeStore r, set_h_store st h)).

(** Randomness. *)
Definition with_rng {E A} (err : E -> CliError) (work : stm rng E A) : op_m A :=
  patomic (fun h => let '(r, g) := work (h_rng h) in (map_err err r, set_h_rng g h)).

(** [print!], [println!], [eprintln!] *)
Definition print (text : string) : op_m unit :=
  pstep (fun h => (tt, set_h_stdout (h_stdout h ++ text) h)).
Definition println (text : string) : op_m unit := print (text ++ nl).
Definition eprintln (text : string) : op_m unit :=
  pstep (fun h => (tt, set_h_stderr (h_stderr h ++ text ++ nl) h)).

(** A call that writes and whose failure is looked at. *)
Definition writing (effect : Host -> Host) : op_m unit :=
  patomic (fun h =>
    match h_writes h with
    | Some e :: l => (Err (CeIo e), set_h_writes l h)
    | l => (Ok tt, effect (set_h_writes (tail l) h))
    end).
Definition stdout_write_all (text : string) : op_m unit :=
  writing (fun h => set_h_stdout (h_stdout h ++ text) h).
(** [OpenOptions::new().append(true).open(target)?.write_all(text)?] *)
Definition append_to_file (target text : string) : op_m unit :=
  let* _ := writing (fun h => h) in
  writing (fun h => set_h_appended (h_appended h ++ [(target, text)]) h).

(** ** The session (session.rs) *)

Record Session : Type := mkSession { ss_root : RootKey; ss_pepper : TokenPepper }.

Context (sh : Shell).

Definition env_text (name : string) : option string :=
  match sh_env sh name with VarPresent value => Some value | _ => None end.

Definition cli_seal (cli : Context) : result CliError StaticSeal :=
  map_err CeCrypto
    match cx_master_key_file cli with
    | Some path => StaticSeal_from_file (sh_fs sh) path
    | None => StaticSeal_from_env (sh_env sh) (cx_master_key_env cli)
    end.

Section aead.
Context {A : Aead} {M : Mac}.

Definition Session_open (database : string) (seal : StaticSeal) : op_m Session :=
  let* _ := plift (map_err CeStore (sh_lock sh)) in
  let* _ := plift (map_err CeStore (sh_open sh)) in
  let* found := in_store seal_state in
  let* state := plift (ok_or (CeNotInitialized database) found) in
  let* root := plift (map_err CeCrypto (unseal seal (seal_wrapped state))) in
  pret (mkSession root (TokenPepper_derive root)).

Context {H : Sha256} {J : Json} `{!AuditDevice D}.

Definition set_sink (sk : AuditSink D) : op_m unit := pstep (fun h => (tt, set_h_audit (Some sk) h)).

Definition with_audit (session : Session) (file : option string) : op_m Session :=
  let* device := plift (map_err CeStore (sh_sqlite_device sh)) in
  let* devices :=
    match file with
    | None => pret [device]
    | Some path =>
        let* second := plift (map_err (fun error => CeAudit
          ("cannot open " ++ path ++ " for append: " ++ error ++ nl
           ++ "  the file device appends every entry, so its directory has to be writable by the user running this command")%string)
          (sh_file_device sh path)) in
        pret [device; second]
    end in
  let* chain := in_store chain_to_continue in
  let* sk := plift (map_err (fun e => CeAudit (audit_error_display e)) (AuditSink_new devices chain)) in
  let* _ := set_sink sk in
  pret session.

Definition host_sink_call (e : Entry) (h : Host) : result AuditError unit * Host :=
  match h_audit h with
  | None => (Ok tt, h)
  | Some sk =>
      let '(now, h) := host_clock h in
      let '(r, sk) := sink_record e now sk in
      (res_map (fun _ => tt) r, set_h_audit (Some sk) h)
  end.

Definition op_record (e : Entry) : op_m unit :=
  patomic (fun h => let '(r, h) := host_sink_call e h in
                    (map_err (fun e => CeAudit (audit_error_display e)) r, h)).

Definition operator_name : string :=
  match env_text "USER" with
  | Some name => name
  | None => match env_text "USERNAME" with Some name => name | None => "operator" end
  end.

Definition operator_entry (action : Action) (allowed : bool) (reason : option string) : Entry :=
  with_principal (mkPrincipal ("cli:" ++ operator_name) (Some "operator"%string) None)
    (if allowed then entry_allowed action
     else entry_denied action (match reason with Some reason => reason | None => "refused" end)).

Definition cli_open (cli : Context) : op_m Session :=
  let* seal := plift (cli_seal cli) in
  let* session := Session_open (cx_database cli) seal in
  with_audit session (cx_audit_file cli).

(** A reading connection: nothing is locked or migrated. *)
Definition open_metadata : op_m unit := plift (map_err CeStore (sh_open_read_only sh)).

Definition open_or_served (cli : Context) (request : string) : op_m Session :=
  let* outcome := ptry (cli_open cli) in
  match outcome with
  | Ok session => pret session
  | Err (CeStore (Locked holder)) => pfail (CeLockedButServed (Locked holder) request)
  | Err other => pfail other
  end.
End aead.

(** ** Standard input and output *)

Definition strip_newline (value : bytes) : bytes :=
  match rev value with
  | last :: rest =>
      if Ascii.eqb last newline then
        match rest with
        | c :: rest' => if Ascii.eqb c (ascii_of_N 13) then rev rest' else rev rest
        | [] => []
        end
      else value
  | [] => []
  end.

Definition read_value_from_stdin : op_m bytes :=
  if sh_stdin_terminal sh then pfail CeNeedsStdin
  else plift (map_err CeIo (res_map strip_newline (sh_stdin sh))).

Definition guard_secret_output (force : bool) : op_m unit :=
  if force || sh_stdout_terminal sh then pret tt else pfail CeWouldPipeSecret.
End operator.
Arguments Shell : clear implicits.
Arguments Host D {En}.
