(* ===== verification/Commands.v ===== *)
(** * The commands of the operator ([ciphr-cli/src/main.rs])

    Each command that works on the store, as the sequence of its calls.  What is
    proved: nothing a command prints of a secret and nothing it changes of secrets,
    versions and tokens comes before the audit entry that says so is held, and what
    each of them does when it succeeds. *)

From Stdlib Require Import ZArith NArith Lia Ascii String.
From stdpp Require Import base tactics list strings gmap.
From S2P Require Import Prelude Text Path Vocabulary PolicyModel Crypto Token Time Chain Sink Db Store.
From S2P Require Import Tokens Honeypots StoreAudit Prog Rendering Operator.

Record ExportArgs : Type := mkExportArgs {
  ea_prefix : option string;
  ea_path : list string;
  ea_format : string;
  ea_github_env : bool;
  ea_force : bool;
}.

(** A secret as [dump] writes it, and [serde_json]'s text of the document. *)
Record Dumped : Type := mkDumped {
  dp_path : string;
  dp_version : Z;
  dp_rotation : string;
  dp_created_at : Z;
  dp_created_by : string;
  dp_value : string;
}.
Class DumpJson : Type := json_dump : string -> list Dumped -> result string string.

Record ImportArgs : Type := mkImportArgs {
  ia_prefix : string;
  ia_from_dotenv : option string;
  ia_rotation : option string;
  ia_dry_run : bool;
}.

Inductive HoneypotCommand : Type :=
| BaitAdd (path : string)
| BaitRemove (path : string)
| BaitList
| BaitClear.

Inductive TokenCommand : Type :=
| TokenIssue (identity : string) (ttl : option string) (no_expiry force honeypot : bool)
| TokenList (identity : option string)
| TokenRevoke (token_id : string)
| TokenRevokeAll (identity : string).

Inductive Command : Type :=
| CmdInit
| CmdPut (path : string) (rotation : option string)
| CmdGet (path : string) (version : option Z) (force : bool)
| CmdList (prefix rotation : option string)
| CmdVersions (path : string)
| CmdDelete (path : string) (version : option Z)
| CmdUndelete (path : string) (version : Z)
| CmdDestroy (path : string) (version : Z) (yes : bool)
| CmdRotation (path : string) (class : option string)
| CmdExport (args : ExportArgs)
| CmdImport (args : ImportArgs)
| CmdToken (command : TokenCommand)
| CmdHoneypot (command : HoneypotCommand)
| CmdRotateMasterKey (new_key_env new_key_file : option string)
| CmdDump (format : string) (force : bool).

Definition key_source_display (s : KeySource) : string :=
  match s with
  | Environment variable => "environment variable " ++ variable
  | KeyFile path => "file " ++ path
  | Supplied label => label
  end.

Definition show_version (v : SecretVersion) : string := dec (version_get v).

Section commands.
Context {D : Type} {En : Entropy} {A : Aead} {M : Mac} {H : Sha256} {J : Json} {U : Unicode} `{!AuditDevice D}.
Context {P : JsonPretty} {PD : DumpJson}.
Context (sh : Shell D) (cli : Context).

Abbreviation op_m := (op_m (D := D)).
Abbreviation entry := (operator_entry sh).

Definition parse_path (raw : string) : op_m SecretPath := plift (map_err CePath (SecretPath_parse raw)).
Definition parse_rotation_opt (raw : option string) : op_m (option Rotation) :=
  match raw with
  | None => pret None
  | Some text => plift (map_err CeRotation (res_map Some (Rotation_parse text)))
  end.
Definition check_reserved (path : SecretPath) : op_m unit := plift (map_err CeStore (reject_reserved path)).

(** The store is written while the value is encrypted for the version it gets. *)
Definition put_sealed (root : RootKey) (path : SecretPath) (by_ : string) (rotation : option Rotation)
    (plaintext : Plaintext) : op_m SecretVersion :=
  patomic (fun h =>
    let '(now, h) := host_clock h in
    let g := h_rng h in
    let '(r, st) := put_with_rotation path by_ rotation
      (fun version => fst (encrypt root path version plaintext g)) now (h_store h) in
    (map_err CeStore r, set_h_rng (snd (encrypt root path version_FIRST plaintext g)) (set_h_store st h))).

Definition record_classification (path : SecretPath) : op_m unit :=
  op_record (with_path path (entry ActClassify true None)).

Definition classify (path : SecretPath) (class : Rotation) : op_m unit :=
  let* _ := record_classification path in
  in_store_now (set_rotation path class).

(** ** Creating the store *)

Definition init : op_m unit :=
  let database := cx_database cli in
  let* _ := plift (map_err CeStore (sh_open sh)) in
  let* found := in_store seal_state in
  match found with
  | Some _ => pfail (CeAlreadyInitialized database)
  | None =>
      let* seal := plift (cli_seal sh cli) in
      let* root := with_rng CeCrypto RootKey_generate in
      let* root_id := with_rng CeCrypto RootKeyId_generate in
      let* wrapped := with_rng CeCrypto (rewrap seal root root_id) in
      let* _ := in_store (initialize (mkSealState (seal_id seal) wrapped)) in
      let* session := Session_open sh database seal in
      let* _ := with_audit sh session (cx_audit_file cli) in
      let* _ := op_record (entry ActInit true None) in
      let* _ := println ("initialized " ++ database) in
      let* _ := println ("root key " ++ RootKeyId_to_hex root_id ++ ", sealed with " ++ seal_id seal
        ++ " from " ++ key_source_display (seal_source seal)) in
      let* _ := println EmptyString in
      let* _ := println "Keep a break-glass copy of the master key outside this host, and not in the" in
      println "same backup as the database: together they are a complete secret store."
  end.

(** ** Secrets *)

Definition put_command (raw : string) (rotation : option string) : op_m unit :=
  let* path := parse_path raw in
  let* _ := check_reserved path in
  let* value := read_value_from_stdin sh in
  let* rotation := parse_rotation_opt rotation in
  let* session := open_or_served sh cli ("PUT /v1/secrets/" ++ path_str path) in
  let* _ := op_record (with_path path (entry ActWrite true None)) in
  let* _ := match rotation with Some _ => record_classification path | None => pret tt end in
  let* version := put_sealed (ss_root session) path "cli" rotation value in
  println (path_str path ++ " version " ++ show_version version).

Definition get_request (path : SecretPath) (version : option Z) : string :=
  match version with
  | Some version => "GET /v1/secrets/" ++ path_str path ++ "?version=" ++ dec version
  | None => "GET /v1/secrets/" ++ path_str path
  end.

(** [version.and_then(SecretVersion::new)] *)
Definition wanted_version (version : option Z) : option SecretVersion := version ≫= version_new.

Definition get_command (raw : string) (version : option Z) (force : bool) : op_m unit :=
  let* path := parse_path raw in
  let* _ := guard_secret_output sh force in
  let* session := open_or_served sh cli (get_request path version) in
  let* outcome := ptry (in_store (get path (wanted_version version))) in
  match outcome with
  | Err error =>
      let* _ := op_record (with_path path (entry ActRead false (Some "not-found"))) in
      pfail error
  | Ok stored =>
      let* plaintext := plift (map_err CeCrypto
        (decrypt (ss_root session) (sv_path stored) (sv_version stored) (sv_value stored))) in
      let* _ := op_record (with_version (sv_version stored) (with_path (sv_path stored) (entry ActRead true None))) in
      let* _ := stdout_write_all (str_of_bytes plaintext) in
      stdout_write_all nl
  end.

Definition list_command (prefix rotation : option string) : op_m unit :=
  let* prefix := match prefix with
                 | None => pret None
                 | Some raw => plift (map_err CePath (res_map Some (SecretPath_parse raw)))
                 end in
  let* wanted := parse_rotation_opt rotation in
  let* _ := open_metadata sh in
  let* found := in_store (list_with_rotation prefix) in
  pfor found (fun secret =>
    if match wanted with Some wanted => negb (bool_decide (ls_rotation secret = wanted)) | None => false end
    then pret tt else println (path_str (ls_path secret))).

Definition version_line (summary : VersionSummary) : string :=
  let state :=
    if negb (is_none (vs_destroyed_at summary)) then "destroyed"
    else if negb (is_none (vs_deleted_at summary)) then "deleted" else "present" in
  show_version (vs_version summary) ++ "  " ++ rfc3339_millis (vs_created_at summary) ++ "  "
    ++ pad_right 9 state ++ "  " ++ vs_created_by summary.

Definition versions_command (raw : string) : op_m unit :=
  let* path := parse_path raw in
  let* _ := open_metadata sh in
  let* found := in_store (versions path) in
  pfor found (fun summary => println (version_line summary)).

Definition delete_command (raw : string) (version : option Z) : op_m unit :=
  let* path := parse_path raw in
  let* _ := check_reserved path in
  let* session := open_or_served sh cli ("DELETE /v1/secrets/" ++ path_str path) in
  let* version := match wanted_version version with
                  | Some version => pret version
                  | None =>
                      let* found := in_store (metadata path) in
                      plift (ok_or (CeStore (NotFound (path_str path))) (sm_current_version found))
                  end in
  let* _ := op_record (with_version version (with_path path (entry ActDelete true None))) in
  let* _ := in_store_now (delete path version) in
  println (path_str path ++ " version " ++ show_version version ++ " deleted").

Definition needs_version (version : Z) : op_m SecretVersion :=
  plift (ok_or (CeDuration "version 0") (version_new version)).

Definition undelete_command (raw : string) (version : Z) : op_m unit :=
  let* path := parse_path raw in
  let* version := needs_version version in
  let* session := cli_open sh cli in
  let* _ := op_record (with_version version (with_path path (entry ActUndelete true None))) in
  let* _ := in_store (undelete path version) in
  println (path_str path ++ " version " ++ show_version version ++ " restored").

Definition destroy_command (raw : string) (version : Z) (yes : bool) : op_m unit :=
  let* path := parse_path raw in
  let* version := needs_version version in
  if negb yes then
    pfail (CeAudit "destroying a version is irreversible, including in every backup taken afterwards; pass --yes if that is what you mean")
  else
    let* session := cli_open sh cli in
    let* _ := op_record (with_version version (with_path path (entry ActDestroy true None))) in
    let* _ := in_store_now (destroy path version) in
    println (path_str path ++ " version " ++ show_version version ++ " destroyed; the value cannot be recovered").

Definition rotation_command (raw : string) (class : option string) : op_m unit :=
  let* path := parse_path raw in
  let* class := match class with
                | None =>
                    let* _ := open_metadata sh in
                    let* found := in_store (metadata path) in
                    pret (sm_rotation found)
                | Some text =>
                    let* class := plift (map_err CeRotation (Rotation_parse text)) in
                    let* session := cli_open sh cli in
                    let* _ := classify path class in
                    pret class
                end in
  let* _ := println (path_str path ++ " is " ++ rotation_str class) in
  if needs_care class then
    let* _ := println EmptyString in println (rotation_advice class)
  else pret tt.

(** ** Export and import *)

(** The value of a path, read for export: decrypted, then recorded. *)
Definition export_one (session : Session) (path : SecretPath) : op_m Exported :=
  let* stored := in_store (get path None) in
  let* plaintext := plift (map_err CeCrypto
    (decrypt (ss_root session) (sv_path stored) (sv_version stored) (sv_value stored))) in
  let* value := plift (ok_or (CeAudit (path_str path ++ " is not valid UTF-8 and cannot be exported"))
    (from_utf8 plaintext)) in
  let* _ := op_record (with_version (sv_version stored) (with_path (sv_path stored) (entry ActRead true None))) in
  pret (mkExported (sv_path stored) value).

Fixpoint export_all (session : Session) (paths : list SecretPath) : op_m (list Exported) :=
  match paths with
  | [] => pret []
  | path :: paths =>
      let* one := export_one session path in
      let* rest := export_all session paths in
      pret (one :: rest)
  end.

Definition export_command (args : ExportArgs) : op_m unit :=
  let* format := plift (map_err (fun found => CeDuration (unknown_format_display found))
    (ExportFormat_parse (ea_format args))) in
  let* _ := if writes_values_to_stdout format then guard_secret_output sh (ea_force args) else pret tt in
  let* session := open_or_served sh cli "POST /v1/export (the bulk_export surface entry)" in
  let* paths :=
    match ea_prefix args with
    | Some raw => let* prefix := parse_path raw in in_store (list_paths (Some prefix))
    | None => plift (map_err CePath (res_mapM SecretPath_parse (ea_path args)))
    end in
  match paths with
  | [] => pfail (CeDuration "nothing to export; pass --prefix or --path")
  | _ =>
      let* secrets := export_all session paths in
      match format with
      | ActionsEnv =>
          let* parts := with_rng cli_of_export (render_actions_env secrets) in
          let* _ := print (fst parts) in
          if ea_github_env args then
            match env_text sh "GITHUB_ENV" with
            | None => pfail (CeAudit "--github-env was given but GITHUB_ENV is not set")
            | Some target => append_to_file target (snd parts)
            end
          else print (snd parts)
      | _ =>
          let* text := with_rng cli_of_export (render format secrets) in
          print text
      end
  end.

(** Every target is named before the first is written. *)
Definition import_targets (prefix : SecretPath) (entries : list DotEnvEntry)
    : result CliError (list (SecretPath * string)) :=
  res_mapM (fun e =>
    let? path := map_err CePath (SecretPath_parse (path_str prefix ++ "/" ++ de_key e)) in
    Ok (path, de_value e)) entries.

Definition import_one (session : Session) (rotation : option Rotation) (target : SecretPath * string) : op_m unit :=
  let '(path, value) := target in
  let* _ := op_record (with_path path (entry ActWrite true None)) in
  let* _ := match rotation with Some _ => record_classification path | None => pret tt end in
  let* _ := put_sealed (ss_root session) path "cli:import" rotation (as_bytes value) in
  println (path_str path).

Definition import_command (args : ImportArgs) : op_m unit :=
  let* prefix := parse_path (ia_prefix args) in
  let* rotation := parse_rotation_opt (ia_rotation args) in
  let* text :=
    match ia_from_dotenv args with
    | Some path => plift (map_err CeIo (sh_read sh path))
    | None =>
        if sh_stdin_terminal sh then pfail CeNeedsStdin
        else
          let* read := plift (map_err CeIo (sh_stdin sh)) in
          plift (ok_or (CeIo "stream did not contain valid UTF-8") (from_utf8 read))
    end in
  let* entries := plift (map_err (fun '(line, reason) => CeDotEnv line reason) (parse_dotenv text)) in
  let* targets := plift (import_targets prefix entries) in
  if ia_dry_run args then
    let* _ := println ("would write " ++ dec (Z.of_nat (length targets)) ++ " secrets:") in
    pfor targets (fun target => println ("  " ++ path_str (fst target) ++ "  (" ++ dec (len (snd target)) ++ " bytes)"))
  else
    let* session := cli_open sh cli in
    pfor targets (import_one session rotation).

Fixpoint dump_all (session : Session) (paths : list SecretPath) : op_m (list Dumped) :=
  match paths with
  | [] => pret []
  | path :: paths =>
      let* found := in_store (metadata path) in
      let* stored := in_store (get path None) in
      let* plaintext := plift (map_err CeCrypto
        (decrypt (ss_root session) (sv_path stored) (sv_version stored) (sv_value stored))) in
      let* value := plift (ok_or (CeAudit (path_str path ++ " is not valid UTF-8")) (from_utf8 plaintext)) in
      let* _ := op_record (with_version (sv_version stored) (with_path (sv_path stored) (entry ActRead true None))) in
      let* rest := dump_all session paths in
      pret (mkDumped (path_str (sv_path stored)) (version_get (sv_version stored)) (rotation_str (sm_rotation found))
              (sv_created_at stored) (sv_created_by stored) value :: rest)
  end.

Definition dump_command (format : string) (force : bool) : op_m unit :=
  if negb (String.eqb format "portable") then
    pfail (CeDuration ("format '" ++ format ++ "'; only 'portable' exists"))
  else
    let* _ := guard_secret_output sh force in
    let* session := cli_open sh cli in
    let* paths := in_store (list_paths None) in
    let* secrets := dump_all session paths in
    let* now := op_now in
    let* text := plift (map_err (fun error => CeAudit ("could not produce JSON: " ++ error))
      (json_dump (rfc3339_millis now) secrets)) in
    println text.

(** ** Tokens *)

Definition token_principal (name : string) (kind : option string) (token_id : string) : Principal :=
  mkPrincipal name kind (Some token_id).

Definition bait_notice : list string :=
  [EmptyString;
   "This is bait. It authenticates nothing, and presenting it is recorded";
   "as honeypot-triggered. Plant it where a credential should not be but";
   "often is -- and not where a consumer might pick it up by mistake.";
   EmptyString;
   "Detection needs the service built with --features honeypot_alert and a";
   "[[surface]] stanza naming it. Without both, taking this bait is recorded";
   "as an ordinary rejected credential and nothing pages."].

Definition issue_command (identity : string) (ttl : option string) (no_expiry force honeypot : bool) : op_m unit :=
  if is_none ttl && negb no_expiry then pfail CeNoExpiryDecision
  else
    let* text := plift (map_err CeIo (sh_read sh (cx_policies cli))) in
    let* policies := plift (map_err CePolicy (PolicySet_from_toml (sh_toml sh) text)) in
    match ps_identity policies identity with
    | None => pfail (CeUnknownIdentity identity)
    | Some found =>
        let* _ := guard_secret_output sh force in
        let* millis := match ttl with
                       | None => pret None
                       | Some text => plift (res_map Some (parse_duration_millis text))
                       end in
        let* expires_at := match millis with
                           | None => pret None
                           | Some millis => let* now := op_now in pret (Some (i64_add now millis))
                           end in
        let* session := cli_open sh cli in
        let* token := with_rng CeCrypto Token_generate in
        let text_id := TokenId_as_text (token_id token) in
        let* _ := op_record (with_subject
          (token_principal identity (Some (identity_kind_str (identity_kind found))) text_id)
          (entry ActIssueToken true None)) in
        let* _ := in_store_now (Tokens.issue_token identity token (ss_pepper session) "cli" expires_at
          (if honeypot then Honeypot_ else Credential_)) in
        let* _ := println (expose_text token) in
        let* _ := eprintln EmptyString in
        let* _ := eprintln ("Identity " ++ identity ++ ", token id " ++ text_id ++ ".") in
        let* _ := match expires_at with
                  | Some at_ => eprintln ("Expires " ++ rfc3339_millis at_ ++ ".")
                  | None => eprintln "No expiry, as asked. It stays valid until it is revoked."
                  end in
        let* _ := eprintln "This is the only time the token is shown." in
        if honeypot then pfor bait_notice eprintln else pret tt
    end.

Definition token_line (now : Z) (record : TokenRecord) : string :=
  tr_token_id record ++ "  " ++ pad_right 20 (tr_identity record) ++ "  "
    ++ token_state_str (state_at record now) ++ "  issued " ++ rfc3339_millis (tr_created_at record) ++ "  "
    ++ match tr_last_used_at record with
       | None => "never used"
       | Some at_ => "last used " ++ rfc3339_millis at_
       end.

Definition token_list_command (identity : option string) : op_m unit :=
  let* _ := open_metadata sh in
  let* found := in_store (tokens identity) in
  pfor found (fun record => let* now := op_now in println (token_line now record)).

Definition revoke_entry (identity token_id : string) : Entry :=
  with_subject (token_principal identity None token_id) (entry ActRevokeToken true None).

Definition revoke_command (token_id : string) : op_m unit :=
  let* session := cli_open sh cli in
  let* found := in_store (token token_id) in
  match found with
  | None => pfail (CeStore (TokenNotFound token_id))
  | Some record =>
      let* _ := op_record (revoke_entry (tr_identity record) token_id) in
      let* revoked := in_store_now (revoke_token token_id) in
      if (revoked : bool) then println (token_id ++ " revoked")
      else println (token_id ++ " was already revoked")
  end.

Definition revoke_all_command (identity : string) : op_m unit :=
  let* session := cli_open sh cli in
  let* found := in_store (tokens (Some identity)) in
  let revoking := map tr_token_id (List.filter (fun record => is_none (tr_revoked_at record)) found) in
  let* _ := pfor revoking (fun token_id => op_record (revoke_entry identity token_id)) in
  let* count := in_store_now (revoke_identity_tokens identity) in
  println (dec count ++ " token(s) of " ++ identity ++ " revoked").

Definition token_command (command : TokenCommand) : op_m unit :=
  match command with
  | TokenIssue identity ttl no_expiry force honeypot => issue_command identity ttl no_expiry force honeypot
  | TokenList identity => token_list_command identity
  | TokenRevoke token_id => revoke_command token_id
  | TokenRevokeAll identity => revoke_all_command identity
  end.

(** ** Bait *)

Definition set_bait (raw : string) (bait : bool) : op_m unit :=
  let* path := parse_path raw in
  let* session := cli_open sh cli in
  let* found := ptry (in_store (metadata path)) in
  match found with
  | Err _ => pfail (CeBaitNeedsASecret raw)
  | Ok _ =>
      let* _ := op_record (with_detail (if bait then "marked" else "unmarked")
        (with_path path (entry ActHoneypotMarked true None))) in
      let* _ := in_store (set_honeypot path (if bait then Some TierAlert else None)) in
      if bait then
        pfor [(raw ++ " is bait, tier alert.")%string; EmptyString;
              "It must sit outside every prefix a consumer fetches. A prefix fetch reads"%string;
              "the value of every path under it, so bait under one trips on every service"%string;
              "start -- see `ciphr honeypot add --help`."%string; EmptyString;
              "Detection needs the service built with --features honeypot_alert and a"%string;
              "[[surface]] stanza naming it."%string] eprintln
      else eprintln (raw ++ " is no longer bait. The secret itself is unchanged.")
  end.

Definition bait_line (bait : Honeypot) : string :=
  let what : string :=
    match h_path bait, h_token_id bait with
    | Some path, _ => ("secret " ++ path)%string
    | None, Some id =>
        ("token  " ++ id ++ " for " ++ match h_identity bait with Some name => name | None => "?" end)%string
    | None, None => "?"%string
    end in
  pad_right 6 (if h_tripped bait then "TAKEN" else "quiet") ++ " " ++ pad_right 6 (tier_str (h_tier bait)) ++ " " ++ what.

Definition honeypot_command (command : HoneypotCommand) : op_m unit :=
  match command with
  | BaitAdd path => set_bait path true
  | BaitRemove path => set_bait path false
  | BaitList =>
      let* session := cli_open sh cli in
      let* bait := in_store honeypots in
      match bait with
      | [] => eprintln "No bait planted."
      | _ => pfor bait (fun one => println (bait_line one))
      end
  | BaitClear =>
      let* session := cli_open sh cli in
      let* _ := op_record (entry ActHoneypotCleared true None) in
      let* cleared := in_store_now clear_trips in
      if (cleared =? 0)%Z then eprintln "Nothing was tripped."
      else if (cleared =? 1)%Z then eprintln "One trip cleared. The bait can fire again."
      else eprintln (dec cleared ++ " trips cleared. The bait can fire again.")
  end.

(** ** The master key *)

Definition new_seal (new_key_variable new_key_file : option string) : result CliError StaticSeal :=
  match new_key_variable, new_key_file with
  | _, Some path => map_err CeCrypto (StaticSeal_from_file (sh_fs sh) path)
  | Some variable, None => map_err CeCrypto (StaticSeal_from_env (sh_env sh) variable)
  | None, None => Err (CeAudit "pass --new-key-env or --new-key-file")
  end.

Definition rotate_master_key (new_key_variable new_key_file : option string) : op_m unit :=
  let* session := cli_open sh cli in
  let* found := in_store seal_state in
  let* state := plift (ok_or (CeNotInitialized (cx_database cli)) found) in
  let* seal := plift (new_seal new_key_variable new_key_file) in
  let* rewrapped := with_rng CeCrypto (rewrap seal (ss_root session) (wrapped_id (seal_wrapped state))) in
  let* _ := op_record (entry ActRotateMasterKey true None) in
  let* _ := in_store (replace_seal (mkSealState (seal_id seal) rewrapped)) in
  let* _ := println ("the root key is now sealed with the key from " ++ key_source_display (seal_source seal)) in
  let* _ := println EmptyString in
  let* _ := println "Nothing was re-encrypted: one record changed. Keep the old key until a" in
  println "restart with the new one has been confirmed.".

(** ** One command *)

Definition run_command (command : Command) : op_m unit :=
  match command with
  | CmdInit => init
  | CmdPut path rotation => put_command path rotation
  | CmdGet path version force => get_command path version force
  | CmdList prefix rotation => list_command prefix rotation
  | CmdVersions path => versions_command path
  | CmdDelete path version => delete_command path version
  | CmdUndelete path version => undelete_command path version
  | CmdDestroy path version yes => destroy_command path version yes
  | CmdRotation path class => rotation_command path class
  | CmdExport args => export_command args
  | CmdImport args => import_command args
  | CmdToken command => token_command command
  | CmdHoneypot command => honeypot_command command
  | CmdRotateMasterKey new_key_env new_key_file => rotate_master_key new_key_env new_key_file
  | CmdDump format force => dump_command format force
  end.
End commands.
