(* ===== verification/Accountable.v ===== *)
(** * What an operator does is on record first

    A command of the operator changes secrets, versions, bait and tokens, and shows
    values and tokens, without a policy that would decide it.  What takes the place
    of the decision is the trail: this file proves that every step of a command that
    changes a table or discloses something finds the entry that says so already held
    by a device, and what a [get] and an [export] that succeed have shown. *)

From Stdlib Require Import ZArith NArith Lia Ascii String.
From stdpp Require Import base tactics list strings gmap.
From S2P Require Import Prelude Text Path Vocabulary PolicyModel Crypto Token Time Chain Sink Db Store.
From S2P Require Import Tokens Honeypots StoreAudit Prog Rendering Operator Commands.

Section accountable.
Context {D : Type} {En : Entropy} {A : Aead} {M : Mac} {H : Sha256} {J : Json} {U : Unicode} `{!AuditDevice D}.
Context {P : JsonPretty} {PD : DumpJson} {L : AuditDeviceLaws D}.
Context (sh : Shell D) (cli : Context).

Abbreviation entry := (operator_entry sh).

Definition tables (h : Host D) : Db := st_db (h_store h).
(** What was shown: on the standard output, and in the files appended to. *)
Definition shown (h : Host D) : string * list (string * string) := (h_stdout h, h_appended h).

(** Some device of the session holds the record of this entry. *)
Definition host_holds (e : Entry) (h : Host D) : Prop :=
  exists sk s r c now, h_audit h = Some sk /\ s ∈ slots sk /\ chain_encode c e now = Ok r /\
    r ∈ dev_log (slot_device s).

Definition discloses (cmd : Command) : bool :=
  match cmd with
  | CmdGet _ _ _ | CmdExport _ | CmdDump _ _ | CmdToken (TokenIssue _ _ _ _ _) => true
  | _ => false
  end.

Definition read_entry (p : SecretPath) (v : SecretVersion) : Entry :=
  with_version v (with_path p (entry ActRead true None)).

Definition on_path (raw : string) (action : Action) (e : Entry) : Prop :=
  exists p, SecretPath_parse raw = Ok p /\ e = with_path p (entry action true None).
Definition on_version (raw : string) (wanted : option SecretVersion) (action : Action) (e : Entry) : Prop :=
  exists p v, SecretPath_parse raw = Ok p /\ (forall w, wanted = Some w -> v = w) /\
    e = with_version v (with_path p (entry action true None)).

(** The entry that lets a command go on. *)
Definition cli_licence (cmd : Command) (e : Entry) : Prop :=
  match cmd with
  | CmdPut raw _ => on_path raw ActWrite e
  | CmdGet raw version _ => on_version raw (wanted_version version) ActRead e
  | CmdDelete raw version => on_version raw (wanted_version version) ActDelete e
  | CmdUndelete raw version => on_version raw (version_new version) ActUndelete e
  | CmdDestroy raw version yes => yes = true /\ on_version raw (version_new version) ActDestroy e
  | CmdRotation raw (Some _) => on_path raw ActClassify e
  | CmdExport args =>
      exists p v, e = read_entry p v /\
        (ea_prefix args = None -> exists raw, raw ∈ ea_path args /\ SecretPath_parse raw = Ok p)
  | CmdImport args =>
      ia_dry_run args = false /\
      exists prefix p key, SecretPath_parse (ia_prefix args) = Ok prefix /\
        SecretPath_parse (path_str prefix ++ "/" ++ key) = Ok p /\ e = with_path p (entry ActWrite true None)
  | CmdToken (TokenIssue identity ttl no_expiry _ _) =>
      (is_none ttl = true -> no_expiry = true) /\
      exists kind id, e = with_subject (token_principal identity (Some kind) id) (entry ActIssueToken true None)
  | CmdToken (TokenRevoke id) => exists identity, e = revoke_entry sh identity id
  | CmdToken (TokenRevokeAll identity) => exists id, e = revoke_entry sh identity id
  | CmdHoneypot (BaitAdd raw) =>
      exists p, SecretPath_parse raw = Ok p /\
        e = with_detail "marked" (with_path p (entry ActHoneypotMarked true None))
  | CmdHoneypot (BaitRemove raw) =>
      exists p, SecretPath_parse raw = Ok p /\
        e = with_detail "unmarked" (with_path p (entry ActHoneypotMarked true None))
  | CmdHoneypot BaitClear => e = entry ActHoneypotCleared true None
  | CmdRotateMasterKey _ _ => e = entry ActRotateMasterKey true None
  | CmdDump _ _ => exists p v, e = read_entry p v
  | CmdInit | CmdList _ _ | CmdVersions _ | CmdRotation _ None | CmdToken (TokenList _) | CmdHoneypot BaitList => False
  end.

(** Secrets, versions and tokens, whole. *)
Definition rows (d : Db) : list SecretRow * list VersionRow * list TokenRow :=
  (db_secrets d, db_versions d, db_tokens d).

(** A dump of a store without secrets is a document without values. *)
Definition empty_dump (cmd : Command) (d : Db) : Prop :=
  match cmd with CmdDump _ _ => db_secrets d = [] | _ => False end.

(** A step of a command: it changes nothing and shows nothing, or it creates the
    store, or the entry that licenses it is held. *)
Definition accounted (cmd : Command) (h h' : Host D) : Prop :=
  (tables h' = tables h /\ (discloses cmd = true -> shown h' = shown h \/ empty_dump cmd (tables h))) \/
  (cmd = CmdInit /\ rows (tables h') = rows (tables h)) \/
  exists e, cli_licence cmd e /\ host_holds e h.

(** ** Where a command is

    Before its session it has no sink; from then on it knows entries that are held.
    All the time it may know something of the tables, which no one else changes. *)
Record Place : Type := mkPlace { pl_held : option (list Entry); pl_known : Db -> Prop }.

Definition closed : Place := mkPlace None (fun _ => True).
Definition opened (E : list Entry) : Place := mkPlace (Some E) (fun _ => True).

Definition host_at (o : Place) (h : Host D) : Prop :=
  pl_known o (tables h) /\
  match pl_held o with
  | None => h_audit h = None
  | Some E => (exists sk, h_audit h = Some sk /\ NoDup (device_names sk)) /\ forall e, e ∈ E -> host_holds e h
  end.

Section acts.
Context (cmd : Command).

Definition acts {B} (o : Place) (m : op_m B) (Q : result CliError B -> Place -> Prop) : Prop :=
  forall h, host_at o h -> wp eq (accounted cmd) m (fun r h' => exists o', host_at o' h' /\ Q r o') h.
Definition goes {B} (_ : result CliError B) (_ : Place) : Prop := True.

Definition licensed (o : Place) : Prop :=
  exists E e, pl_held o = Some E /\ e ∈ E /\ cli_licence cmd e.

Lemma licensed_holds o h : licensed o -> host_at o h -> exists e, cli_licence cmd e /\ host_holds e h.
Proof. intros (E & e & Eo & He & Hl) [_ Ho]. rewrite Eo in Ho. exists e. split; [done|]. by apply Ho. Qed.

Lemma host_at_same o o' h h' :
  pl_held o' = pl_held o -> h_audit h' = h_audit h -> pl_known o' (tables h') -> host_at o h -> host_at o' h'.
Proof.
  intros Eo Ea Hk [_ Ho]. split; [done|]. rewrite Eo. destruct (pl_held o) as [E|]; [|by rewrite Ea].
  destruct Ho as [(sk & Hs & Hnd) He]. split; [exists sk; by rewrite Ea|].
  intros e (sk' & s & r & c & now & Hs' & Hr)%He. exists sk', s, r, c, now. by rewrite Ea.
Qed.

Lemma acts_mono {B} o (m : op_m B) (Q Q' : result CliError B -> Place -> Prop) :
  (forall r o', Q r o' -> Q' r o') -> acts o m Q -> acts o m Q'.
Proof.
  intros HQ Hm h Hh. eapply wp_mono; [|by apply Hm]. intros r h' (o' & ? & ?). exists o'. auto.
Qed.

Lemma acts_done {B} o (r : result CliError B) Q : Q r o -> acts o (Done r) Q.
Proof. intros HQ h Hh h' <-. by exists o. Qed.

Lemma acts_bind {B C} o (m : op_m B) (k : B -> op_m C) Q R :
  acts o m R -> (forall b o', R (Ok b) o' -> acts o' (k b) Q) -> (forall e o', R (Err e) o' -> Q (Err e) o') ->
  acts o (pbind m k) Q.
Proof.
  intros Hm Hk He h Hh. apply wp_bind; [typeclasses eauto|]. eapply wp_mono; [|by apply Hm].
  intros [b|e] h' (o' & Ho' & HR); [by apply (Hk b o')|]. exists o'. auto.
Qed.

(** The common case: nothing is asked of the outcome. *)
Lemma acts_seq {B C} o (m : op_m B) (k : B -> op_m C) R :
  acts o m R -> (forall b o', R (Ok b) o' -> acts o' (k b) goes) -> acts o (pbind m k) goes.
Proof. intros Hm Hk. by eapply acts_bind. Qed.

Lemma acts_lift {B C} o (r : result CliError B) (k : B -> op_m C) :
  (forall b, r = Ok b -> acts o (k b) goes) -> acts o (pbind (plift r) k) goes.
Proof. destruct r as [b|e]; simpl; intros Hk; [by apply Hk|by apply acts_done]. Qed.

Lemma acts_try {B} o (m : op_m B) (Q : result CliError (result CliError B) -> Place -> Prop) :
  acts o m (fun r => Q (Ok r)) -> acts o (ptry m) Q.
Proof. intros Hm h Hh. apply wp_try. eapply wp_mono; [|by apply Hm]. done. Qed.

(** A step that leaves the tables and what was shown. *)
Lemma acts_quiet {B} o (f : stm (Host D) CliError B) (Q : result CliError B -> Place -> Prop) :
  (forall h, pl_known o (tables h) -> let h' := snd (f h) in tables h' = tables h /\ h_audit h' = h_audit h /\ shown h' = shown h) ->
  (forall r, Q r o) -> acts o (patomic f) Q.
Proof.
  intros Hf HQ h Hh h1 <-. destruct (Hf h) as (Ht & Ha & Hs); [apply Hh|]. split; [left; split; [done|]; by left|].
  intros h2 <-. exists o. split; [|done]. eapply host_at_same; [done|exact Ha| |done]. rewrite Ht. apply Hh.
Qed.

Lemma acts_reads {B} o (work : store_m B) (Q : result CliError B -> Place -> Prop) :
  reads_only work ->
  (forall r, Q (map_err CeStore r)
     (mkPlace (pl_held o) (fun d => pl_known o d /\ exists st, st_db st = d /\ fst (work st) = r))) ->
  acts o (in_store work) Q.
Proof.
  intros Hr HQ h Hh. apply wp_atomic. intros h1 <-. cbv beta. destruct (work (h_store h)) as [r st] eqn:Hw.
  assert (st_db st = tables h) as Hd by by eapply Hr.
  cbn [fst snd]. split; [left; split; [done|]; by left|]. intros h2 <-. cbn [fst snd].
  eexists. split; [|apply HQ]. apply (host_at_same o _ h); [done..| |exact Hh]. simpl. split.
  - unfold tables in Hd |- *. simpl. rewrite Hd. apply Hh.
  - exists (h_store h). rewrite Hw. split; [symmetry; exact Hd|done].
Qed.

(** A licensed step may do what it likes but touch the sink. *)
Lemma acts_loud {B} E K (f : stm (Host D) CliError B) (Q : result CliError B -> Place -> Prop) :
  licensed (mkPlace (Some E) K) -> (forall h, h_audit (snd (f h)) = h_audit h) ->
  (forall r, Q r (opened E)) -> acts (mkPlace (Some E) K) (patomic f) Q.
Proof.
  intros Hl Hf HQ h Hh h1 <-. split; [right; right; by eapply licensed_holds|].
  intros h2 <-. exists (opened E). split; [|done]. by apply (host_at_same (mkPlace (Some E) K) _ h).
Qed.

(** When a command may print. *)
Definition prints (o : Place) : Prop :=
  discloses cmd = false \/ licensed o \/ forall d, pl_known o d -> empty_dump cmd d.

Lemma acts_print {B} o text (k : unit -> op_m B) :
  prints o -> acts o (k tt) goes -> acts o (pbind (print text) k) goes.
Proof.
  intros Hd Hk h Hh h1 <-. split.
  - destruct Hd as [Hd|[Hl|He]]; [left|right; right; by eapply licensed_holds|left; split; [done|]; intros _; right; apply He, Hh].
    split; [done|]. by rewrite Hd.
  - eapply wp_mono; [|apply Hk; by apply (host_at_same o _ h); [done..|apply Hh|]]. done.
Qed.

Lemma acts_eprint {B} o text (k : unit -> op_m B) : acts o (k tt) goes -> acts o (pbind (eprintln text) k) goes.
Proof.
  intros Hk h Hh h1 <-. split; [left; split; [done|]; by left|].
  eapply wp_mono; [|apply Hk; by apply (host_at_same o _ h); [done..|apply Hh|]]. done.
Qed.

Lemma acts_now {B} o (k : Z -> op_m B) : (forall now, acts o (k now) goes) -> acts o (pbind op_now k) goes.
Proof.
  intros Hk h Hh h1 <-. split; [left; split; [done|]; by left|].
  eapply wp_mono; [|apply Hk; by apply (host_at_same o _ h); [done..|apply Hh|]]. done.
Qed.
End acts.

Lemma host_holds_grows e h sk sk' h' :
  h_audit h = Some sk -> h_audit h' = Some sk' ->
  Forall2 (fun s s' => dev_log (slot_device s) `prefix_of` dev_log (slot_device s')) (slots sk) (slots sk') ->
  host_holds e h -> host_holds e h'.
Proof.
  intros Ha Ha' HF (sk0 & s & r & c & now & Hs & Hin & He & Hr). rewrite Ha in Hs. injection Hs as <-.
  apply list_elem_of_lookup in Hin as [i Hi]. destruct (Forall2_lookup_l _ _ _ _ _ HF Hi) as (s' & Hi' & [more Hp]).
  exists sk', s', r, c, now. split_and!; [done|by eapply list_elem_of_lookup_2|done|].
  rewrite Hp. apply elem_of_app. by left.
Qed.

(** An entry that was recorded is held, and so are those before it. *)
Lemma host_sink_call_spec e h sk : h_audit h = Some sk -> NoDup (device_names sk) ->
  let '(r, h') := host_sink_call e h in
  tables h' = tables h /\ shown h' = shown h /\
  (exists sk', h_audit h' = Some sk' /\ NoDup (device_names sk')) /\
  (forall e', host_holds e' h -> host_holds e' h') /\ (r = Ok tt -> host_holds e h').
Proof.
  intros Ha Hnd. unfold host_sink_call. rewrite Ha. simpl.
  set (now := default 0%Z (head (h_clock h))). destruct (sink_record e now sk) as [res sk'] eqn:Hr.
  assert (Forall2 (fun s s' => slot_name s' = slot_name s /\
            dev_log (slot_device s) `prefix_of` dev_log (slot_device s')) (slots sk) (slots sk')) as HF.
  { pose proof (sink_record_step _ _ _ _ _ Hnd Hr) as Hs. destruct res as [w|err];
      [destruct Hs as (r & _ & _ & _ & _ & HF)|destruct Hs as [_ HF]];
      (eapply Forall2_impl; [exact HF|]); intros s s' [Hn Hm]; (split; [exact Hn|]);
      destruct (slot_quarantined s) as [q|]; try (by destruct Hm as [_ ->]);
      (destruct (slot_quarantined s') as [q'|]; [destruct Hm as (b & r' & x & _ & _ & _ & ->)|rewrite Hm]; by eexists). }
  split_and!; [done|done| | |].
  - exists sk'. split; [done|]. replace (device_names sk') with (device_names sk); [done|].
    unfold device_names. induction HF as [|s s' l l' [Hn _] _ IH]; simpl; [done|]. f_equal; [by symmetry|done].
  - intros e'. eapply host_holds_grows; [exact Ha|done|]. eapply Forall2_impl; [exact HF|]. by intros s s' [_ ?].
  - destruct res as [w|err]; [|done]. intros _.
    destruct (sink_record_durable _ _ _ _ _ Hnd Hr) as (r & s & s' & He & _ & _ & _ & Hin & _ & _ & Hl).
    exists sk', s', r, (sink_chain sk), now. split_and!; [done..|]. rewrite Hl. apply elem_of_app. right. left.
Qed.

Section acts.
Context (cmd : Command).
Abbreviation acts := (acts cmd).

Lemma acts_recorded E K e (Q : result CliError unit -> Place -> Prop) :
  Q (Ok tt) (mkPlace (Some (e :: E)) K) -> (forall x, Q (Err x) (mkPlace (Some E) K)) ->
  acts (mkPlace (Some E) K) (op_record e) Q.
Proof.
  intros HOk HErr h [Hk [(sk & Ha & Hnd) Hh]]. apply wp_atomic. intros h1 <-. cbv beta.
  pose proof (host_sink_call_spec e h sk Ha Hnd) as Hc. destruct (host_sink_call e h) as [r h'].
  destruct Hc as (Ht & Hs & Hsk & Hg & He). cbn [fst snd]. split; [left; split; [done|]; by left|]. intros h2 <-.
  simpl in Hk. destruct r as [[]|x]; eexists; (split; [|first [apply HOk|apply HErr]]);
    (split; [simpl; by rewrite Ht|]); simpl; (split; [done|]).
  - intros e' [->|Hin]%elem_of_cons; [by apply He|]. by apply Hg, Hh.
  - intros e' Hin. by apply Hg, Hh.
Qed.

Lemma acts_record {B} E K e (k : unit -> op_m B) :
  acts (mkPlace (Some (e :: E)) K) (k tt) goes -> acts (mkPlace (Some E) K) (pbind (op_record e) k) goes.
Proof.
  intros Hk. apply acts_seq with (R := fun r o => r = Ok tt -> o = mkPlace (Some (e :: E)) K).
  - by apply acts_recorded.
  - intros [] o' ->; done.
Qed.

(** What is known may be forgotten. *)
Lemma acts_forget {B} X K (m : op_m B) Q : acts (mkPlace X (fun _ => True)) m Q -> acts (mkPlace X K) m Q.
Proof. intros Hm h [_ Hh]. by apply Hm. Qed.

Lemma acts_ask {B C} o (work : store_m B) (k : B -> op_m C) :
  reads_only work ->
  (forall b, acts (mkPlace (pl_held o) (fun d => pl_known o d /\ exists st, st_db st = d /\ fst (work st) = Ok b))
     (k b) goes) ->
  acts o (pbind (in_store work) k) goes.
Proof.
  intros Hr Hk. apply acts_seq with (R := fun r o' => forall b, r = Ok b ->
    o' = mkPlace (pl_held o) (fun d => pl_known o d /\ exists st, st_db st = d /\ fst (work st) = Ok b)).
  - apply acts_reads; [done|]. by intros [b|e] b' [= <-].
  - intros b o' Ho. rewrite (Ho b eq_refl). apply Hk.
Qed.

Lemma acts_rng {B C X} o (err : X -> CliError) (work : stm rng X B) (k : B -> op_m C) :
  (forall b, acts o (k b) goes) -> acts o (pbind (with_rng err work) k) goes.
Proof.
  intros Hk. apply acts_seq with (R := fun _ o' => o' = o).
  - apply acts_quiet; [|done]. intros h _. by destruct (work (h_rng h)).
  - intros b o' ->. apply Hk.
Qed.

Lemma acts_writes {B} E K (f : stm (Host D) CliError B) :
  licensed cmd (mkPlace (Some E) K) -> (forall h, h_audit (snd (f h)) = h_audit h) ->
  acts (mkPlace (Some E) K) (patomic f) goes.
Proof. intros Hl Hf. by apply acts_loud. Qed.

Lemma acts_write {B C} E K (f : stm (Host D) CliError B) (k : B -> op_m C) :
  licensed cmd (mkPlace (Some E) K) -> (forall h, h_audit (snd (f h)) = h_audit h) ->
  (forall b, acts (opened E) (k b) goes) ->
  acts (mkPlace (Some E) K) (pbind (patomic f) k) goes.
Proof.
  intros Hl Hf Hk. apply acts_seq with (R := fun _ o' => o' = opened E).
  - by apply acts_loud.
  - intros b o' ->. apply Hk.
Qed.
End acts.

(** The two devices of a session never share a name. *)
Section sessions.
Context (two_devices : forall d path file,
  sh_sqlite_device sh = Ok d -> sh_file_device sh path = Ok file -> dev_name d <> dev_name file).
Context (cmd : Command).
Abbreviation acts := (acts cmd).

(** What opening a session comes to: opened, and nothing held yet. *)
Definition is_opened {B} (r : result CliError B) (o : Place) : Prop :=
  match r with Ok _ => o = opened [] | Err _ => True end.
Definition is_closed {B} (r : result CliError B) (o : Place) : Prop := pl_held o = None.

Lemma acts_session {B} o (m : op_m B) (k : B -> op_m Session) (R : result CliError B -> Place -> Prop) :
  acts o m R -> (forall b o', R (Ok b) o' -> acts o' (k b) is_opened) -> acts o (pbind m k) is_opened.
Proof. intros Hm Hk. by eapply acts_bind. Qed.

Lemma acts_session_lift {B} o (r : result CliError B) (k : B -> op_m Session) :
  (forall b, r = Ok b -> acts o (k b) is_opened) -> acts o (pbind (plift r) k) is_opened.
Proof. destruct r as [b|e]; simpl; intros Hk; [by apply Hk|by apply acts_done]. Qed.

Lemma acts_set_sink K sk (k : unit -> op_m Session) :
  NoDup (device_names sk) -> acts (opened []) (k tt) is_opened ->
  acts (mkPlace None K) (pbind (set_sink sk) k) is_opened.
Proof.
  intros Hnd Hk h Hh h1 <-. split; [left; split; [done|]; by left|]. eapply wp_mono; [|apply Hk]; [done|].
  split; [done|]. split; [by exists sk|]. intros e He. by apply elem_of_nil in He.
Qed.

Lemma sink_new_names devices chain sk : AuditSink_new devices chain = Ok sk -> device_names sk = map dev_name devices.
Proof.
  intros Hn. apply sink_new_quarantines in Hn as [<- _]. unfold device_names. by rewrite map_map.
Qed.

Lemma acts_with_audit K session file :
  acts (mkPlace None K) (with_audit sh session file) is_opened.
Proof.
  unfold with_audit. apply acts_session_lift. intros d Hd.
  assert (forall devices, NoDup (map dev_name devices) -> acts (mkPlace None K) (
    let* chain := in_store chain_to_continue in
    let* sk := plift (map_err (fun e => CeAudit (audit_error_display e)) (AuditSink_new devices chain)) in
    let* _ := set_sink sk in pret session) is_opened) as Hrest.
  { intros devices Hnd. apply acts_session with (R := is_closed).
    - apply acts_reads; [apply reads_chain|done].
    - intros chain [X K'] Ho. cbv [is_closed pl_held] in Ho. subst X. apply acts_session_lift. intros sk Hsk.
      apply acts_set_sink; [|by apply acts_done].
      apply map_err_Ok in Hsk. by rewrite (sink_new_names _ _ _ Hsk). }
  destruct file as [path|]; [|apply Hrest; apply NoDup_singleton].
  cbn [pbind]. destruct (sh_file_device sh path) as [second|e] eqn:Hf; [|by apply acts_done].
  apply Hrest. simpl. apply NoDup_cons. split; [|apply NoDup_singleton].
  intros Heq%list_elem_of_singleton. apply map_err_Ok in Hd. by apply (two_devices d path second).
Qed.

Lemma acts_Session_open K database seal :
  acts (mkPlace None K) (Session_open sh database seal) is_closed.
Proof.
  unfold Session_open.
  destruct (sh_lock sh) as [[]|e]; [|by apply acts_done]. cbn [map_err plift pbind].
  destruct (sh_open sh) as [[]|e]; [|by apply acts_done]. cbn [map_err plift pbind].
  eapply acts_bind with (R := is_closed); [by apply acts_reads; [apply seal_state_reads|]| |done].
  intros found o Ho. destruct found as [state|]; [|by apply acts_done]. cbn [ok_or plift pbind].
  destruct (unseal seal (seal_wrapped state)); by apply acts_done.
Qed.

Lemma acts_cli_open K : acts (mkPlace None K) (cli_open sh cli) is_opened.
Proof.
  unfold cli_open. apply acts_session_lift. intros seal _. eapply acts_session; [apply acts_Session_open|].
  intros session [X K'] Ho. cbv [is_closed pl_held] in Ho. subst X. apply acts_with_audit.
Qed.

Lemma acts_open {B} K (k : Session -> op_m B) :
  (forall session, acts (opened []) (k session) goes) ->
  acts (mkPlace None K) (pbind (cli_open sh cli) k) goes.
Proof. intros Hk. eapply acts_seq; [apply acts_cli_open|]. intros session o ->. apply Hk. Qed.

Lemma acts_open_or_served {B} K request (k : Session -> op_m B) :
  (forall session, acts (opened []) (k session) goes) ->
  acts (mkPlace None K) (pbind (open_or_served sh cli request) k) goes.
Proof.
  intros Hk. eapply acts_seq with (R := is_opened).
  - unfold open_or_served. apply acts_session with (R := fun r o =>
      match r with Ok (Ok _) => o = opened [] | _ => True end).
    + apply acts_try. eapply acts_mono; [|apply acts_cli_open]. by intros [s|e].
    + intros [session|e] o Ho; [subst o; by apply acts_done|].
      destruct e; try (by apply acts_done). destruct error; by apply acts_done.
  - intros session o ->. apply Hk.
Qed.

(** ** The commands *)

Lemma acts_println o text : prints cmd o -> acts o (println text) goes.
Proof.
  intros Hd. unfold println. eapply acts_mono; [by intros ? ? ?|].
  change (acts o (pbind (print (text ++ nl)) pret) goes). apply acts_print; [done|]. by apply acts_done.
Qed.

Lemma acts_print_last o text : prints cmd o -> acts o (print text) goes.
Proof. intros Hd. change (acts o (pbind (print text) pret) goes). apply acts_print; [done|]. by apply acts_done. Qed.

Lemma acts_eprintln o text : acts o (eprintln text) goes.
Proof.
  change (acts o (pbind (eprintln text) pret) goes). apply acts_eprint. by apply acts_done.
Qed.

(** Lines, one after the other. *)
Lemma acts_lines {B} o (l : list B) (body : B -> op_m unit) :
  (forall x (k : unit -> op_m unit), acts o (k tt) goes -> acts o (pbind (body x) k) goes) -> acts o (pfor l body) goes.
Proof. intros Hb. induction l as [|x l IH]; simpl; [by apply acts_done|]. by apply Hb. Qed.

Lemma acts_asks {B C} X K (work : store_m B) (k : B -> op_m C) :
  reads_only work -> (forall b, acts (mkPlace X (fun _ => True)) (k b) goes) ->
  acts (mkPlace X K) (pbind (in_store work) k) goes.
Proof. intros Hr Hk. apply acts_ask; [done|]. intros b. apply acts_forget, Hk. Qed.

Lemma acts_ask_try {B C} E (work : store_m B) (k : result CliError B -> op_m C) :
  reads_only work ->
  (forall r, (forall b, r = Ok b -> exists st, fst (work st) = Ok b) -> acts (opened E) (k r) goes) ->
  acts (opened E) (pbind (ptry (in_store work)) k) goes.
Proof.
  intros Hr Hk. apply acts_seq with (R := fun r o => pl_held o = Some E /\
    forall b, r = Ok (Ok b) -> exists st, fst (work st) = Ok b).
  - apply acts_try.
    intros h Hh. apply wp_atomic. intros h1 <-. cbv beta. destruct (work (h_store h)) as [r st] eqn:Hw. cbn [fst snd].
    assert (st_db st = tables h) as Hd by by eapply Hr.
    split; [left; split; [done|]; by left|]. intros h2 <-. exists (opened E). split.
    + by apply (host_at_same (opened E) _ h).
    + split; [done|]. intros b Hb. injection Hb as Hb. apply map_err_Ok in Hb as ->. exists (h_store h). by rewrite Hw.
  - intros r [X K'] [HX Hb]. simpl in HX. subst X. apply acts_forget, Hk. intros b ->. by apply Hb.
Qed.

Lemma licensed_in E e K : e ∈ E -> cli_licence cmd e -> licensed cmd (mkPlace (Some E) K).
Proof. intros He Hl. by exists E, e. Qed.

End sessions.

Ltac licence := first [left; reflexivity | right; apply (licensed_in _ _ _ _ _ ltac:(left)); hnf | apply (licensed_in _ _ _ _ _ ltac:(left)); hnf].
Ltac untouched := let h := fresh in intros h; cbv beta; repeat (case_match; cbn [snd]); done.

Section commands.
Context (two_devices : forall d path file,
  sh_sqlite_device sh = Ok d -> sh_file_device sh path = Ok file -> dev_name d <> dev_name file).

Lemma acts_stdout {B} cmd E K text (k : unit -> op_m B) :
  licensed cmd (mkPlace (Some E) K) -> acts cmd (opened E) (k tt) goes ->
  acts cmd (mkPlace (Some E) K) (pbind (stdout_write_all text) k) goes.
Proof.
  intros Hl Hk. apply acts_write; [done| |by intros []]. intros h. by destruct (h_writes h) as [|[e|] l].
Qed.

Lemma get_acts raw version force : acts (CmdGet raw version force) closed (get_command sh cli raw version force) goes.
Proof.
  unfold get_command, parse_path. apply acts_lift. intros path Hp%map_err_Ok.
  unfold guard_secret_output. destruct (force || sh_stdout_terminal sh); [|by apply acts_done]. cbn [pret pbind].
  apply acts_open_or_served; [done|]. intros session. apply acts_ask_try; [apply reads_get|]. intros [stored|e] Hst.
  - apply acts_lift. intros plaintext _. apply acts_record. destruct (Hst stored eq_refl) as [st [Hpath Hv]%get_names].
    assert (licensed (CmdGet raw version force)
      (opened [with_version (sv_version stored) (with_path (sv_path stored) (entry ActRead true None))])) as Hl.
    { eapply licensed_in; [left|]. exists path, (sv_version stored). by rewrite Hpath. }
    apply acts_stdout; [done|]. apply acts_writes; [done|]. intros h. by destruct (h_writes h) as [|[e|] l].
  - apply acts_record. by apply acts_done.
Qed.

Lemma acts_classification {B} cmd E K path (k : unit -> op_m B) :
  acts cmd (mkPlace (Some (with_path path (entry ActClassify true None) :: E)) K) (k tt) goes ->
  acts cmd (mkPlace (Some E) K) (pbind (record_classification sh path) k) goes.
Proof. apply acts_record. Qed.

Lemma acts_put {B} cmd E K root path by_ rotation value (k : SecretVersion -> op_m B) :
  licensed cmd (mkPlace (Some E) K) -> (forall v, acts cmd (opened E) (k v) goes) ->
  acts cmd (mkPlace (Some E) K) (pbind (put_sealed root path by_ rotation value) k) goes.
Proof.
  intros Hl Hk. apply acts_write; [done| |done]. intros h. cbv beta. unfold host_clock. cbv beta iota zeta.
  by destruct (put_with_rotation _ _ _ _ _ _).
Qed.

Lemma acts_in_store {B C} cmd E K (work : store_m B) (k : B -> op_m C) :
  licensed cmd (mkPlace (Some E) K) -> (forall b, acts cmd (opened E) (k b) goes) ->
  acts cmd (mkPlace (Some E) K) (pbind (in_store work) k) goes.
Proof. intros Hl Hk. apply acts_write; [done| |done]. intros h. cbv beta. by destruct (work (h_store h)). Qed.

Lemma acts_in_store_now {B C} cmd E K (work : Z -> store_m B) (k : B -> op_m C) :
  licensed cmd (mkPlace (Some E) K) -> (forall b, acts cmd (opened E) (k b) goes) ->
  acts cmd (mkPlace (Some E) K) (pbind (in_store_now work) k) goes.
Proof.
  intros Hl Hk. apply acts_write; [done| |done]. intros h. cbv beta. unfold host_clock. cbv beta iota zeta.
  by destruct (work _ _).
Qed.

Lemma put_acts raw rotation : acts (CmdPut raw rotation) closed (put_command sh cli raw rotation) goes.
Proof.
  unfold put_command, parse_path, check_reserved, read_value_from_stdin, parse_rotation_opt.
  apply acts_lift. intros path Hp%map_err_Ok. apply acts_lift. intros _ _.
  destruct (sh_stdin_terminal sh); [by apply acts_done|]. apply acts_lift. intros value _.
  apply acts_seq with (R := fun _ o => o = closed); [by destruct rotation; apply acts_done|]. intros class o ->.
  apply acts_open_or_served; [done|]. intros session. apply acts_record.
  set (e := with_path path (entry ActWrite true None)).
  assert (forall E, e ∈ E -> acts (CmdPut raw rotation) (opened E)
    (let* version := put_sealed (ss_root session) path "cli" class value in
     println (path_str path ++ " version " ++ show_version version)) goes) as Hrest.
  { intros E He. apply acts_put; [apply (licensed_in _ E e); [done|by exists path]|].
    intros v. apply acts_println. by left. }
  destruct class as [class|]; [|apply Hrest; left]. apply acts_classification, Hrest. right. left.
Qed.

Lemma delete_acts raw version : acts (CmdDelete raw version) closed (delete_command sh cli raw version) goes.
Proof.
  unfold delete_command, parse_path, check_reserved. apply acts_lift. intros path Hp%map_err_Ok.
  apply acts_lift. intros _ _. apply acts_open_or_served; [done|]. intros session.
  apply acts_seq with (R := fun r o => pl_held o = Some [] /\ forall v, r = Ok v ->
    forall w, wanted_version version = Some w -> v = w).
  { destruct (wanted_version version) as [w|]; [apply acts_done; split; [done|]; by intros v [= ->] w' [= ->]|].
    apply acts_bind with (R := fun _ o => pl_held o = Some []); [by apply acts_reads; [apply reads_metadata|]| |].
    - intros found o Ho. by apply acts_done.
    - by intros e o Ho. }
  intros v [X K] [HX Hv]. simpl in HX. subst X. apply acts_record, acts_in_store_now.
  - eapply licensed_in; [left|]. exists path, v. split_and!; [done|by apply Hv|done].
  - intros _. apply acts_println. by left.
Qed.

Lemma undelete_acts raw version : acts (CmdUndelete raw version) closed (undelete_command sh cli raw version) goes.
Proof.
  unfold undelete_command, parse_path, needs_version. apply acts_lift. intros path Hp%map_err_Ok.
  apply acts_lift. intros v Hv%ok_or_Ok. apply acts_open; [done|]. intros session. apply acts_record, acts_in_store.
  - eapply licensed_in; [left|]. exists path, v. split_and!; [done| |done]. rewrite Hv. by intros w [= ->].
  - intros _. apply acts_println. by left.
Qed.

Lemma destroy_acts raw version yes : acts (CmdDestroy raw version yes) closed (destroy_command sh cli raw version yes) goes.
Proof.
  unfold destroy_command, parse_path, needs_version. apply acts_lift. intros path Hp%map_err_Ok.
  apply acts_lift. intros v Hv%ok_or_Ok. destruct yes; [|by apply acts_done]. cbn [negb].
  apply acts_open; [done|]. intros session. apply acts_record, acts_in_store_now.
  - eapply licensed_in; [left|]. split; [done|]. exists path, v. split_and!; [done| |done]. rewrite Hv. by intros w [= ->].
  - intros _. apply acts_println. by left.
Qed.

Lemma acts_metadata {B} cmd (k : unit -> op_m B) :
  acts cmd closed (k tt) goes -> acts cmd closed (pbind (open_metadata sh) k) goes.
Proof. intros Hk. unfold open_metadata. by apply acts_lift; intros []. Qed.

Lemma list_acts prefix rotation : acts (CmdList prefix rotation) closed (list_command sh prefix rotation) goes.
Proof.
  unfold list_command, parse_rotation_opt.
  apply acts_seq with (R := fun _ o => o = closed); [by destruct prefix; apply acts_done|]. intros pre o ->.
  apply acts_seq with (R := fun _ o => o = closed); [by destruct rotation; apply acts_done|]. intros wanted o ->.
  apply acts_metadata, acts_asks; [apply reads_list|]. intros found. apply acts_lines. intros secret k Hk.
  destruct (match wanted with Some w => _ | None => false end); [done|]. apply acts_print; [by left|done].
Qed.

Lemma versions_acts raw : acts (CmdVersions raw) closed (versions_command sh raw) goes.
Proof.
  unfold versions_command, parse_path. apply acts_lift. intros path _. apply acts_metadata, acts_asks; [apply reads_versions|].
  intros found. apply acts_lines. intros summary k Hk. apply acts_print; [by left|done].
Qed.

Lemma rotation_acts raw class : acts (CmdRotation raw class) closed (rotation_command sh cli raw class) goes.
Proof.
  unfold rotation_command, parse_path. apply acts_lift. intros path Hp%map_err_Ok.
  apply acts_seq with (R := fun _ _ => True).
  - destruct class as [text|].
    + apply acts_lift. intros class _. apply acts_open; [done|]. intros session.
      change (acts (CmdRotation raw (Some text)) (opened [])
        (pbind (pbind (record_classification sh path) (fun _ => in_store_now (set_rotation path class))) (fun _ => pret class)) goes).
      apply acts_seq with (R := goes); [|by intros; apply acts_done]. apply acts_classification, acts_writes.
      * eapply licensed_in; [left|]. by exists path.
      * intros h. cbv beta. unfold host_clock. cbv beta iota zeta. by destruct (set_rotation _ _ _ _).
    + apply acts_metadata, acts_asks; [apply reads_metadata|]. intros found. by apply acts_done.
  - intros shown_class o _. apply acts_print; [by left|]. destruct (needs_care shown_class); [|by apply acts_done].
    apply acts_print; [by left|]. apply acts_println. by left.
Qed.

Lemma acts_assoc {X Y Z} cmd o (m : op_m X) (f : X -> op_m Y) (k : Y -> op_m Z) Q :
  acts cmd o (pbind m (fun x => pbind (f x) k)) Q -> acts cmd o (pbind (pbind m f) k) Q.
Proof. intros Hm h Hh. apply wp_assoc. by apply Hm. Qed.

Lemma acts_imports args prefix session class targets E :
  SecretPath_parse (ia_prefix args) = Ok prefix -> ia_dry_run args = false ->
  (forall t, t ∈ targets -> exists key, SecretPath_parse (path_str prefix ++ "/" ++ key) = Ok (fst t)) ->
  acts (CmdImport args) (opened E) (pfor targets (import_one sh session class)) goes.
Proof.
  intros Hp Hdry. revert E. induction targets as [|[path value] targets IH]; intros E Hkey; [by apply acts_done|].
  cbn [pfor]. unfold import_one at 1. apply acts_assoc, acts_record.
  assert (forall E, with_path path (entry ActWrite true None) ∈ E -> acts (CmdImport args) (opened E)
    (pbind (let* _ := put_sealed (ss_root session) path "cli:import" class (as_bytes value) in println (path_str path))
       (fun _ => pfor targets (import_one sh session class))) goes) as Hrest.
  { intros E' He.
    assert (licensed (CmdImport args) (opened E')) as Hl.
    { eapply licensed_in; [exact He|]. split; [done|]. destruct (Hkey (path, value)) as [key Hk]; [left|].
      by exists prefix, path, key. }
    apply acts_assoc, acts_put; [done|]. intros v. apply acts_print; [by left|]. apply IH.
    intros t Ht. apply Hkey. by right. }
  apply acts_assoc. destruct class as [class|]; [|apply Hrest; left]. apply acts_classification, Hrest. right. left.
Qed.

Lemma import_acts args : acts (CmdImport args) closed (import_command sh cli args) goes.
Proof.
  unfold import_command, parse_path, parse_rotation_opt. apply acts_lift. intros prefix Hp%map_err_Ok.
  apply acts_seq with (R := fun _ o => o = closed); [by destruct (ia_rotation args); apply acts_done|].
  intros class o ->. apply acts_seq with (R := fun _ o => o = closed).
  { destruct (ia_from_dotenv args); [by apply acts_done|]. destruct (sh_stdin_terminal sh); [by apply acts_done|].
    destruct (sh_stdin sh); by apply acts_done. }
  intros text o ->. apply acts_lift. intros entries _. apply acts_lift. intros targets Ht.
  destruct (ia_dry_run args) eqn:Hdry.
  { apply acts_print; [by left|]. apply acts_lines. intros t k Hk. apply acts_print; [by left|done]. }
  apply acts_open; [done|]. intros session.
  assert (forall t, t ∈ targets -> exists key, SecretPath_parse (path_str prefix ++ "/" ++ key) = Ok (fst t)) as Hkey.
  { intros t Hin. apply list_elem_of_lookup in Hin as [i Hi]. apply res_mapM_Ok in Ht.
    destruct (Forall2_lookup_r _ _ _ _ _ Ht Hi) as (e & _ & (p & He%map_err_Ok & [= <-])%res_bind_Ok).
    by exists (de_key e). }
  apply (acts_imports args prefix session class targets []); [done..|]. exact Hkey.
Qed.

(** ** What is read in bulk *)

(** The entries of the paths are held when all of them were read. *)
Definition all_read {B} (paths : list SecretPath) (E : list Entry) (r : result CliError B) (o : Place) : Prop :=
  exists E', pl_held o = Some E' /\ (forall e, e ∈ E -> e ∈ E') /\
    (is_ok r = true -> forall p, p ∈ paths -> exists v, read_entry p v ∈ E').

Lemma all_read_nil {B} E K (b : B) : all_read [] E (Ok b) (mkPlace (Some E) K).
Proof. exists E. split_and!; [done|done|]. intros _ p Hp. by apply elem_of_nil in Hp. Qed.
Lemma all_read_Err {B} paths E K (e : CliError) : all_read (B := B) paths E (Err e) (mkPlace (Some E) K).
Proof. exists E. by split_and!. Qed.

Lemma acts_read_lift {B C} cmd E K paths (r : result CliError B) (k : B -> op_m C) :
  (forall b, r = Ok b -> acts cmd (mkPlace (Some E) K) (k b) (all_read paths E)) ->
  acts cmd (mkPlace (Some E) K) (pbind (plift r) k) (all_read paths E).
Proof. destruct r as [b|e]; simpl; intros Hk; [by apply Hk|]. apply acts_done, all_read_Err. Qed.

Lemma acts_read_asks {B C} cmd E K paths (work : store_m B) (k : B -> op_m C) :
  reads_only work ->
  (forall b st, fst (work st) = Ok b -> acts cmd (opened E) (k b) (all_read paths E)) ->
  acts cmd (mkPlace (Some E) K) (pbind (in_store work) k) (all_read paths E).
Proof.
  intros Hr Hk. eapply acts_bind with (R := fun r o => pl_held o = Some E /\
    forall b, r = Ok b -> exists st, fst (work st) = Ok b).
  - intros h Hh. apply wp_atomic. intros h1 <-. cbv beta. destruct (work (h_store h)) as [r st] eqn:Hw. cbn [fst snd].
    assert (st_db st = tables h) as Hd by by eapply Hr.
    split; [left; split; [done|]; by left|]. intros h2 <-. exists (opened E). split; [by apply (host_at_same (mkPlace (Some E) K) _ h)|].
    split; [done|]. intros b ->%map_err_Ok. exists (h_store h). by rewrite Hw.
  - intros b [X K'] [HX Hb]. simpl in HX. subst X. destruct (Hb b eq_refl) as [st Hst]. apply acts_forget. by eapply Hk.
  - intros e [X K'] [HX _]. simpl in HX. subst X. apply all_read_Err.
Qed.

(** One entry, and the rest of the work. *)
Lemma acts_read_next {B} cmd E path v paths (m : op_m B) :
  acts cmd (opened (read_entry path v :: E)) m (all_read paths (read_entry path v :: E)) ->
  acts cmd (opened E) (pbind (op_record (read_entry path v)) (fun _ => m)) (all_read (path :: paths) E).
Proof.
  intros Hm. eapply acts_bind with (R := fun r o => match r with
    | Ok _ => o = opened (read_entry path v :: E) | Err _ => o = opened E end).
  - by apply acts_recorded.
  - intros [] o ->. eapply acts_mono; [|exact Hm]. intros r o (E' & Ho & Hsub & Hr). exists E'. split_and!; [done| |].
    + intros e He. apply Hsub. by right.
    + intros Hok p [->|Hp]%elem_of_cons; [|by apply Hr]. exists v. apply Hsub. left.
  - intros e o ->. apply all_read_Err.
Qed.

Lemma export_all_acts cmd session paths E :
  acts cmd (opened E) (export_all sh session paths) (all_read paths E).
Proof.
  revert E. induction paths as [|path paths IH]; intros E; [apply acts_done, all_read_nil|].
  cbn [export_all]. unfold export_one. apply acts_assoc, acts_read_asks; [apply reads_get|].
  intros stored st [Hpath _]%get_names. apply acts_assoc, acts_read_lift. intros plaintext _.
  apply acts_assoc, acts_read_lift. intros value _. apply acts_assoc.
  rewrite Hpath. apply (acts_read_next _ _ path (sv_version stored)). cbn [pbind pret].
  eapply acts_bind; [apply IH| |]; [intros rest o Ho|intros e o Ho]; [apply acts_done|]; exact Ho.
Qed.

Lemma dump_all_acts cmd session paths E :
  acts cmd (opened E) (dump_all sh session paths) (all_read paths E).
Proof.
  revert E. induction paths as [|path paths IH]; intros E; [apply acts_done, all_read_nil|].
  cbn [dump_all]. apply acts_read_asks; [apply reads_metadata|]. intros found st0 _.
  apply acts_read_asks; [apply reads_get|]. intros stored st [Hpath _]%get_names.
  apply acts_read_lift. intros plaintext _. apply acts_read_lift. intros value _.
  rewrite Hpath. apply (acts_read_next _ _ path (sv_version stored)).
  eapply acts_bind; [apply IH| |]; [intros rest o Ho|intros e o Ho]; [apply acts_done|]; exact Ho.
Qed.

Lemma export_acts args : acts (CmdExport args) closed (export_command sh cli args) goes.
Proof.
  unfold export_command, parse_path, guard_secret_output. apply acts_lift. intros format _.
  apply acts_seq with (R := fun _ o => o = closed).
  { destruct (writes_values_to_stdout format); [|by apply acts_done]. by destruct (ea_force args || _); apply acts_done. }
  intros _ o ->. apply acts_open_or_served; [done|]. intros session.
  apply acts_seq with (R := fun r o => pl_held o = Some [] /\ forall paths, r = Ok paths ->
    ea_prefix args = None -> res_mapM SecretPath_parse (ea_path args) = Ok paths).
  { destruct (ea_prefix args) as [raw|].
    - eapply acts_bind with (R := fun _ o => o = opened []); [by apply acts_done| |by intros e o ->; split].
      intros prefix o ->. apply acts_reads; [unfold list_paths; reads|]. intros r. by split.
    - apply acts_done. split; [done|]. by intros paths Hm%map_err_Ok _. }
  intros paths [X K] [HX Hpaths]. simpl in HX. subst X.
  destruct paths as [|path paths]; [by apply acts_done|]. apply acts_forget.
  eapply acts_seq; [apply export_all_acts|]. intros secrets [X K'] (E & HX & _ & Hr). simpl in HX. subst X.
  destruct (Hr eq_refl path) as [v Hv]; [left|].
  assert (forall K, licensed (CmdExport args) (mkPlace (Some E) K)) as Hl.
  { intros K0. eapply licensed_in; [exact Hv|]. exists path, v. split; [done|]. intros Hnone.
    pose proof (Hpaths _ eq_refl Hnone) as Hm%res_mapM_Ok. inversion Hm as [|raw ? l ? Hraw _ Ea]; subst.
    exists raw. split; [left|done]. }
  destruct format; try (apply acts_rng; intros text; apply (acts_print_last _ _ text); right; by left).
  apply acts_rng. intros [masks text]. apply acts_print; [right; by left|].
  destruct (ea_github_env args); [|apply acts_print_last; right; by left].
  destruct (env_text sh "GITHUB_ENV"); [|by apply acts_done].
  unfold append_to_file. apply acts_write; [done|intros h; by destruct (h_writes h) as [|[e|] l]|]. intros [].
  apply acts_writes; [apply Hl|]. intros h. by destruct (h_writes h) as [|[e|] l].
Qed.

Lemma no_paths_no_secrets s : fst (list_paths None s) = Ok [] -> db_secrets (st_db s) = [].
Proof.
  unfold list_paths. destruct (mbind _ _ s) as [r s'] eqn:Hl. cbn [fst]. intros ->.
  apply mbind_Ok in Hl as (rows & s1 & [-> _]%sql_read_Ok & [Hm _]%mlift_Ok).
  apply res_mapM_Ok in Hm. inversion Hm as [Hrows|]. unfold listing_rows in Hrows.
  destruct (db_secrets (st_db s)) as [|row l]; [done|]. exfalso.
  enough (row ∈ ([] : list SecretRow)) as Hin by by apply elem_of_nil in Hin.
  rewrite Hrows, sort_by_perm. apply list_elem_of_In, List.filter_In. split; [by left|done].
Qed.

Lemma dump_acts format force : acts (CmdDump format force) closed (dump_command sh cli format force) goes.
Proof.
  unfold dump_command, guard_secret_output. destruct (negb (String.eqb format "portable")); [by apply acts_done|].
  destruct (force || sh_stdout_terminal sh); [|by apply acts_done]. cbn [pret pbind].
  apply acts_open; [done|]. intros session. apply acts_ask; [unfold list_paths; reads|]. intros [|path paths].
  - cbn [dump_all pret pbind]. apply acts_now. intros now. apply acts_lift. intros text _. apply acts_println.
    right. right. intros d [_ (st & <- & Hn)]. by apply no_paths_no_secrets.
  - apply acts_forget. eapply acts_seq; [apply dump_all_acts|]. intros secrets [X K'] (E & HX & _ & Hr). simpl in HX. subst X.
    destruct (Hr eq_refl path) as [v Hv]; [left|]. apply acts_now. intros now. apply acts_lift. intros text _.
    apply acts_println. right. left. eapply licensed_in; [exact Hv|]. by exists path, v.
Qed.

(** ** Tokens, bait and the master key *)

Lemma acts_eprint_lines cmd o l : acts cmd o (pfor l eprintln) goes.
Proof. apply acts_lines. intros x k Hk. by apply acts_eprint. Qed.

Lemma issue_acts identity ttl no_expiry force honeypot :
  acts (CmdToken (TokenIssue identity ttl no_expiry force honeypot)) closed
    (issue_command sh cli identity ttl no_expiry force honeypot) goes.
Proof.
  unfold issue_command, guard_secret_output. destruct (is_none ttl && negb no_expiry) eqn:Hex; [by apply acts_done|].
  apply acts_lift. intros text _. apply acts_lift. intros policies _. destruct (ps_identity policies identity) as [found|];
    [|by apply acts_done].
  destruct (force || sh_stdout_terminal sh); [|by apply acts_done]. cbn [pret pbind].
  apply acts_seq with (R := fun _ o => o = closed); [by destruct ttl; apply acts_done|]. intros millis o ->.
  apply acts_seq with (R := fun _ o => o = closed).
  { destruct millis as [millis|]; [|by apply acts_done]. intros h Hh h1 <-. split; [left; split; [done|]; by left|].
    intros h2 <-. exists closed. split; [|done]. by apply (host_at_same closed _ h). }
  intros expires_at o ->. apply acts_open; [done|]. intros session. apply acts_rng. intros token. apply acts_record.
  set (e := with_subject _ _).
  assert (cli_licence (CmdToken (TokenIssue identity ttl no_expiry force honeypot)) e) as Hl.
  { split; [|by eexists _, _]. intros Hn. rewrite Hn in Hex. by destruct no_expiry. }
  apply acts_in_store_now; [by eapply licensed_in; [left|]|]. intros [].
  apply acts_print; [right; left; by eapply licensed_in; [left|]|]. apply acts_eprint, acts_eprint.
  apply acts_seq with (R := fun _ o => True); [by destruct expires_at; apply acts_eprintln|]. intros [] o _.
  apply acts_eprint. destruct honeypot; [apply acts_eprint_lines|by apply acts_done].
Qed.

Lemma token_list_acts identity : acts (CmdToken (TokenList identity)) closed (token_list_command sh identity) goes.
Proof.
  unfold token_list_command. apply acts_metadata, acts_asks; [apply reads_tokens|]. intros found.
  apply acts_lines. intros record k Hk. apply acts_assoc, acts_now. intros now. apply acts_print; [by left|done].
Qed.

Lemma revoke_acts id : acts (CmdToken (TokenRevoke id)) closed (revoke_command sh cli id) goes.
Proof.
  unfold revoke_command. apply acts_open; [done|]. intros session. apply acts_asks; [apply token_reads|].
  intros [record|]; [|by apply acts_done]. apply acts_record, acts_in_store_now.
  - eapply licensed_in; [left|]. by exists (tr_identity record).
  - intros []; apply acts_println; by left.
Qed.

(** Recording entries keeps one that is held. *)
Lemma acts_entries cmd (ids : list string) identity e E K :
  e ∈ E -> acts cmd (mkPlace (Some E) K) (pfor ids (fun id => op_record (revoke_entry sh identity id)))
    (fun _ o => exists E', o = mkPlace (Some E') K /\ e ∈ E').
Proof.
  revert E. induction ids as [|id ids IH]; intros E He; cbn [pfor]; [apply acts_done; by exists E|].
  eapply acts_bind with (R := fun _ o => exists E', o = mkPlace (Some E') K /\ e ∈ E').
  - apply acts_recorded; [exists (revoke_entry sh identity id :: E)|intros x; exists E]; (split; [done|]); [by right|done].
  - intros [] o (E' & -> & He'). by apply IH.
  - done.
Qed.

Lemma revoke_all_acts identity : acts (CmdToken (TokenRevokeAll identity)) closed (revoke_all_command sh cli identity) goes.
Proof.
  unfold revoke_all_command. apply acts_open; [done|]. intros session. apply acts_ask; [apply reads_tokens|].
  intros found. set (K := fun d : Db => _). set (revoking := map _ _). cbn [pl_held opened].
  apply acts_seq with (R := fun r o => exists E, o = mkPlace (Some E) K /\
    (r = Ok tt -> revoking = [] \/ exists id, revoke_entry sh identity id ∈ E)).
  { generalize (@nil Entry). intros E. destruct revoking as [|id ids].
    - apply acts_done. exists E. split; [done|]. by left.
    - cbn [pfor]. eapply acts_bind; [apply acts_recorded with (Q := fun r o => match r with
        | Ok _ => o = mkPlace (Some (revoke_entry sh identity id :: E)) K
        | Err _ => exists E, o = mkPlace (Some E) K end); [done|by eexists]| |].
      + intros [] o ->. eapply acts_mono; [|apply (acts_entries _ ids identity (revoke_entry sh identity id) _ K); left].
        intros r o (E' & -> & Hin). exists E'. split; [done|]. intros _. right. by exists id.
      + intros e o (E' & ->). by exists E'. }
  intros [] o (E & -> & Hr). specialize (Hr eq_refl).
  apply acts_seq with (R := goes).
  - destruct Hr as [Hnone|[id Hid]].
    + apply acts_quiet; [|done]. intros h [_ (st & Hst & Hf)]. unfold host_clock. cbv beta iota zeta.
      destruct (revoke_identity_tokens _ _ _) as [r st'] eqn:Hw. cbn [snd fst]. split_and!; [|done..].
      unfold tables. cbn [h_store set_h_store]. unfold revoking in Hnone. apply map_eq_nil in Hnone.
      pose proof (revoke_identity_nothing identity (default 0%Z (head (h_clock h))) (h_store h) found st Hf Hst Hnone) as Hsame.
      cbn [h_store set_h_clock] in Hw. by rewrite Hw in Hsame.
    + apply acts_writes; [eapply licensed_in; [exact Hid|by exists id]|]. intros h. unfold host_clock. cbv beta iota zeta.
      by destruct (revoke_identity_tokens _ _ _).
  - intros n o _. apply acts_println. by left.
Qed.

Lemma bait_acts raw (bait : bool) cmd :
  discloses cmd = false ->
  (forall p, SecretPath_parse raw = Ok p -> cli_licence cmd
     (with_detail (if bait then "marked" else "unmarked") (with_path p (entry ActHoneypotMarked true None)))) ->
  acts cmd closed (set_bait sh cli raw bait) goes.
Proof.
  intros Hd Hl. unfold set_bait, parse_path. apply acts_lift. intros path Hp%map_err_Ok. apply acts_open; [done|].
  intros session. apply acts_ask_try; [apply reads_metadata|]. intros [found|e] _; [|by apply acts_done].
  apply acts_record, acts_in_store; [eapply licensed_in; [left|by apply Hl]|]. intros [].
  destruct bait; [apply acts_eprint_lines|apply acts_eprintln].
Qed.

Lemma honeypot_acts command : acts (CmdHoneypot command) closed (honeypot_command sh cli command) goes.
Proof.
  destruct command as [raw|raw| |]; cbn [honeypot_command].
  - apply bait_acts; [done|]. intros p Hp. by exists p.
  - apply bait_acts; [done|]. intros p Hp. by exists p.
  - apply acts_open; [done|]. intros session. apply acts_asks; [unfold honeypots; reads|]. intros [|one bait]; [apply acts_eprintln|].
    apply acts_lines. intros x k Hk. apply acts_print; [by left|done].
  - apply acts_open; [done|]. intros session. apply acts_record, acts_in_store_now; [by eapply licensed_in; [left|]|].
    intros cleared. repeat case_match; apply acts_eprintln.
Qed.

Lemma rotate_acts variable file :
  acts (CmdRotateMasterKey variable file) closed (rotate_master_key sh cli variable file) goes.
Proof.
  unfold rotate_master_key. apply acts_open; [done|]. intros session. apply acts_asks; [apply seal_state_reads|].
  intros found. apply acts_lift. intros state _. apply acts_lift. intros seal _. apply acts_rng. intros rewrapped.
  apply acts_record, acts_in_store; [by eapply licensed_in; [left|]|]. intros [].
  do 3 (apply acts_print; [by left|]). apply acts_println. by left.
Qed.

(** ** The store, created *)

Lemma initialize_rows state s : rows (st_db (snd (initialize state s))) = rows (st_db s).
Proof.
  destruct (initialize state s) as [r s'] eqn:Hi. cbn [snd].
  apply initialize_meta in Hi as [m ->]. done.
Qed.

Lemma acts_initialize {B} K state (k : unit -> op_m B) :
  acts CmdInit closed (k tt) goes -> acts CmdInit (mkPlace None K) (pbind (in_store (initialize state)) k) goes.
Proof.
  intros Hk. apply acts_seq with (R := fun _ o => o = closed).
  - intros h [_ Hh]. apply wp_atomic. intros h1 <-. cbv beta. pose proof (initialize_rows state (h_store h)) as Hr.
    destruct (initialize state (h_store h)) as [r st]. cbn [fst snd] in *. split; [right; left; by split|].
    intros h2 <-. exists closed. by split.
  - intros [] o ->. done.
Qed.

Lemma init_acts : acts CmdInit closed (init sh cli) goes.
Proof.
  unfold init. apply acts_lift. intros _ _. apply acts_asks; [apply seal_state_reads|].
  intros [state|]; [by apply acts_done|]. apply acts_lift. intros seal _. do 3 (apply acts_rng; intros ?).
  apply acts_initialize. eapply acts_seq; [apply acts_Session_open|]. intros session [X K] Ho.
  cbv [is_closed pl_held] in Ho. subst X. eapply acts_seq; [by apply acts_with_audit|]. intros session' o ->.
  apply acts_record. do 4 (apply acts_print; [by left|]). apply acts_println. by left.
Qed.

Lemma command_acts cmd : acts cmd closed (run_command sh cli cmd) goes.
Proof.
  destruct cmd as [|path rotation|path version force|prefix rotation|path|path version|path version|path version yes
    |path class|args|args|command|command|variable file|format force]; cbn [run_command].
  - apply init_acts.
  - apply put_acts.
  - apply get_acts.
  - apply list_acts.
  - apply versions_acts.
  - apply delete_acts.
  - apply undelete_acts.
  - apply destroy_acts.
  - apply rotation_acts.
  - apply export_acts.
  - apply import_acts.
  - destruct command; cbn [token_command]; [apply issue_acts|apply token_list_acts|apply revoke_acts|apply revoke_all_acts].
  - apply honeypot_acts.
  - apply rotate_acts.
  - apply dump_acts.
Qed.

(** No command of the operator changes a secret, a version, a token or any other
    table, and none that shows values or tokens prints or appends anything, before a
    device of its session holds the entry that says so: at every step of every
    command either nothing of that happens, or the store is being created, or the
    licensing entry is already on record. A dump of an empty store is the one thing
    shown without an entry, since nothing is read for it. And every command comes to
    its end, with a result. *)
Theorem command_is_accounted cmd h n :
  h_audit h = None ->
  (exists r, fst (run (run_command sh cli cmd) h) = Some r) /\
  let before := snd (advance n (run_command sh cli cmd) h) in
  let after := snd (advance (S n) (run_command sh cli cmd) h) in
  (tables after = tables before /\ (discloses cmd = true -> shown after = shown before \/ empty_dump cmd (tables before))) \/
  (cmd = CmdInit /\ rows (tables after) = rows (tables before)) \/
  exists e, cli_licence cmd e /\ host_holds e before.
Proof.
  intros Ha. assert (host_at closed h) as Hc by done.
  split; [by destruct (wp_run _ _ _ _ _ (command_acts cmd h Hc)) as (r & Hr & _); exists r|]. intros before after.
  destruct (wp_advance _ _ _ _ n (command_acts cmd h Hc)) as [Hs|Hg]; [|exact Hg].
  left. unfold after, before. rewrite Hs. split; [done|]. by left.
Qed.
End commands.
End accountable.
