(* ===== verification/Shown.v ===== *)
(** * What an operator is shown

    A [get] and an [export] that succeed: what they print is what the store holds,
    decrypted under the root key of the seal, and the read of each value is on
    record.  Then a host on which the commands run. *)

From Stdlib Require Import ZArith NArith Lia Ascii String.
From stdpp Require Import base tactics list strings gmap.
From S2P Require Import Prelude Text Path Vocabulary PolicyModel Crypto Token Time Chain Sink Db Store.
From S2P Require Import Tokens Honeypots StoreAudit Prog Rendering Operator Commands Accountable.

Section shown.
Context {D : Type} {En : Entropy} {A : Aead} {M : Mac} {H : Sha256} {J : Json} {U : Unicode} `{!AuditDevice D}.
Context {P : JsonPretty} {PD : DumpJson} {L : AuditDeviceLaws D}.
Context (sh : Shell D) (cli : Context).

(** ** Calm

    The tables and what was shown stay, the session goes on, and so does what it holds. *)
Record calm (h h' : Host D) : Prop := mkCalm {
  calm_tables : tables h' = tables h;
  calm_shown : shown h' = shown h;
  calm_sink : forall sk, h_audit h = Some sk -> NoDup (device_names sk) ->
    exists sk', h_audit h' = Some sk' /\ NoDup (device_names sk');
  calm_holds : forall sk, h_audit h = Some sk -> NoDup (device_names sk) ->
    forall e, host_holds e h -> host_holds e h';
}.

Definition in_session (h : Host D) : Prop := exists sk, h_audit h = Some sk /\ NoDup (device_names sk).

Lemma calm_session h h' : calm h h' -> in_session h -> in_session h'.
Proof. intros [_ _ Hs _] (sk & Ha & Hn). by eapply Hs. Qed.
Lemma calm_held h h' e : calm h h' -> in_session h -> host_holds e h -> host_holds e h'.
Proof. intros [_ _ _ Hh] (sk & Ha & Hn). by eapply Hh. Qed.

#[local] Instance calm_preorder : PreOrder calm.
Proof.
  split; [intros h; split; eauto|]. intros a b c [T1 S1 K1 H1] [T2 S2 K2 H2]. split.
  - by rewrite T2.
  - by rewrite S2.
  - intros sk Ha Hn. destruct (K1 sk Ha Hn) as (sk1 & Ha1 & Hn1). by apply (K2 sk1).
  - intros sk Ha Hn e He. destruct (K1 sk Ha Hn) as (sk1 & Ha1 & Hn1). by eapply H2, H1.
Qed.

Lemma calm_same h h' : tables h' = tables h -> shown h' = shown h -> h_audit h' = h_audit h -> calm h h'.
Proof.
  intros Ht Hs Ha. split; [done|done| |].
  - intros sk Hk Hn. exists sk. by rewrite Ha.
  - intros _ _ _ e (sk & s & r & c & now & Hk & Hr). exists sk, s, r, c, now. by rewrite Ha.
Qed.

Lemma run_reads {B} (work : store_m B) h r h' : reads_only work ->
  run (in_store work) h = (Some r, h') -> calm h h' /\ map_err CeStore (fst (work (h_store h))) = r.
Proof.
  intros Hr Hrun%run_atomic_Ok. destruct (work (h_store h)) as [x st] eqn:Hw. injection Hrun as <- <-. split; [|done].
  apply calm_same; [|done..]. unfold tables. simpl. by eapply Hr.
Qed.

Lemma run_rng {B X} (err : X -> CliError) (work : stm rng X B) (h : Host D) b h' :
  run (with_rng err work) h = (Some (Ok b), h') -> calm h h' /\ fst (work (h_rng h)) = Ok b.
Proof.
  intros Hr%run_atomic_Ok. destruct (work (h_rng h)) as [r g]. injection Hr as ->%map_err_Ok <-. by split; [apply calm_same|].
Qed.

Lemma run_record e h h' : in_session h ->
  run (op_record e) h = (Some (Ok tt), h') -> calm h h' /\ host_holds e h'.
Proof.
  intros (sk & Ha & Hn) Hr%run_atomic_Ok. pose proof (host_sink_call_spec e h sk Ha Hn) as Hc.
  destruct (host_sink_call e h) as [r h1]. destruct Hc as (Ht & Hs & Hsk & Hg & He).
  injection Hr as ->%map_err_Ok <-. split; [|by apply He]. by split.
Qed.

(** ** The session *)

Context (two_devices : forall d path file,
  sh_sqlite_device sh = Ok d -> sh_file_device sh path = Ok file -> dev_name d <> dev_name file).

(** The root key: what the seal the operator holds opens. *)
Definition operator_root (d : Db) (root : RootKey) : Prop :=
  exists seal st state, cli_seal sh cli = Ok seal /\ st_db st = d /\ fst (seal_state st) = Ok (Some state) /\
    unseal seal (seal_wrapped state) = Ok root.

Lemma run_cli_open h session h' : run (cli_open sh cli) h = (Some (Ok session), h') ->
  tables h' = tables h /\ shown h' = shown h /\ in_session h' /\ operator_root (tables h) (ss_root session).
Proof.
  unfold cli_open. intros (seal & h1 & [Hseal ->]%run_lift_Ok & Hr)%run_bind_Ok.
  apply run_bind_Ok in Hr as (s1 & h2 & Ho & Hr). unfold Session_open in Ho.
  apply run_bind_Ok in Ho as (? & ? & [_ ->]%run_lift_Ok & Ho).
  apply run_bind_Ok in Ho as (? & ? & [_ ->]%run_lift_Ok & Ho).
  apply run_bind_Ok in Ho as (found & h3 & [C3 Hst]%run_reads & Ho); [|apply seal_state_reads].
  apply run_bind_Ok in Ho as (state & ? & [Hf%ok_or_Ok ->]%run_lift_Ok & Ho).
  apply run_bind_Ok in Ho as (root & ? & [Hun%map_err_Ok ->]%run_lift_Ok & Ho). injection Ho as <- <-.
  unfold with_audit in Hr. apply run_bind_Ok in Hr as (d & ? & [Hd%map_err_Ok ->]%run_lift_Ok & Hr).
  apply run_bind_Ok in Hr as (devices & h4 & Hdev & Hr).
  apply run_bind_Ok in Hr as (chain & h5 & [C5 _]%run_reads & Hr); [|apply reads_chain].
  apply run_bind_Ok in Hr as (sk & ? & [Hsk%map_err_Ok ->]%run_lift_Ok & Hr).
  apply run_bind_Ok in Hr as ([] & h6 & Hset & Hr). injection Hr as <- <-. apply run_step_Ok in Hset. injection Hset as <-.
  assert (NoDup (map dev_name devices) /\ h4 = h3) as [Hnd ->].
  { destruct (cx_audit_file cli) as [path|]; [|injection Hdev as <- <-; split; [apply NoDup_singleton|done]].
    apply run_bind_Ok in Hdev as (second & ? & [Hs%map_err_Ok ->]%run_lift_Ok & [= <- <-]). split; [|done].
    apply NoDup_cons. split; [|apply NoDup_singleton]. intros Heq%list_elem_of_singleton. by eapply two_devices. }
  split_and!.
  - transitivity (tables h5); [done|]. by rewrite (calm_tables _ _ C5), (calm_tables _ _ C3).
  - transitivity (shown h5); [done|]. by rewrite (calm_shown _ _ C5), (calm_shown _ _ C3).
  - exists sk. split; [done|]. by rewrite (sink_new_names _ _ _ Hsk).
  - exists seal, (h_store h), state. split_and!; try done. subst found. by apply map_err_Ok in Hst.
Qed.

Lemma run_open_or_served request h session h' :
  run (open_or_served sh cli request) h = (Some (Ok session), h') ->
  tables h' = tables h /\ shown h' = shown h /\ in_session h' /\ operator_root (tables h) (ss_root session).
Proof.
  unfold open_or_served. intros (outcome & h1 & Ho%run_try_Ok & Hr)%run_bind_Ok.
  destruct outcome as [s1|e].
  - injection Hr as <- <-. by apply run_cli_open.
  - destruct e; try done. by destruct error.
Qed.

(** ** Reading one secret *)

(** A value read: stored in these tables under this path, and on record. *)
Definition was_read (d : Db) (root : RootKey) (path : SecretPath) (wanted : option SecretVersion)
    (plaintext : Plaintext) (h : Host D) : Prop :=
  exists st stored, st_db st = d /\ fst (get path wanted st) = Ok stored /\ sv_path stored = path /\
    decrypt root path (sv_version stored) (sv_value stored) = Ok plaintext /\
    host_holds (read_entry sh path (sv_version stored)) h.

Lemma was_read_later d root path wanted plaintext h h' :
  calm h h' -> in_session h -> was_read d root path wanted plaintext h -> was_read d root path wanted plaintext h'.
Proof.
  intros Hc Hs (st & stored & E & G & Hp & Hd & Hh). exists st, stored. split_and!; try done. by eapply calm_held.
Qed.

Lemma run_write text (h h' : Host D) : run (stdout_write_all text) h = (Some (Ok tt), h') ->
  tables h' = tables h /\ shown h' = ((h_stdout h ++ text)%string, h_appended h) /\
  forall e, host_holds e h -> host_holds e h'.
Proof.
  intros Hr%run_atomic_Ok. destruct (h_writes h) as [|[e|] l]; [|done|];
    injection Hr as <-; (split_and!; [done|done|]); intros e (sk & s & r & c & now & Hk & Hrest);
    by exists sk, s, r, c, now.
Qed.

(** A [get] that succeeds printed exactly the value the store holds for that path
    and version, decrypted under the root key the operator's seal opens, and a
    newline; the tables are as they were, a device holds the entry of the read, and
    the value went to a terminal or was asked for with [--force]. *)
Theorem get_prints_what_is_stored raw version force h h' :
  run (get_command sh cli raw version force) h = (Some (Ok tt), h') ->
  exists path root plaintext,
    SecretPath_parse raw = Ok path /\ operator_root (tables h) root /\
    was_read (tables h) root path (wanted_version version) plaintext h' /\
    shown h' = ((h_stdout h ++ str_of_bytes plaintext ++ nl)%string, h_appended h) /\ tables h' = tables h /\
    force || sh_stdout_terminal sh = true.
Proof.
  unfold get_command, parse_path, guard_secret_output. intros (path & ? & [Hp%map_err_Ok ->]%run_lift_Ok & Hr)%run_bind_Ok.
  destruct (force || sh_stdout_terminal sh); [|done]. cbn [pret pbind] in Hr.
  apply run_bind_Ok in Hr as (session & h1 & (Ht1 & Hs1 & Hin1 & Hroot)%run_open_or_served & Hr).
  apply run_bind_Ok in Hr as (outcome & h2 & [C2 Hget]%run_try_Ok%run_reads & Hr); [|apply reads_get].
  destruct outcome as [stored|e]; [|apply run_bind_Ok in Hr as (? & ? & _ & Hr); done].
  apply map_err_Ok in Hget. pose proof (get_names _ _ _ _ Hget) as [Hpath Hv].
  apply run_bind_Ok in Hr as (plaintext & ? & [Hdec%map_err_Ok ->]%run_lift_Ok & Hr).
  apply run_bind_Ok in Hr as ([] & h3 & [C3 Hheld]%run_record & Hr); [|by eapply calm_session].
  apply run_bind_Ok in Hr as ([] & h4 & (Ht4 & Hs4 & Hh4)%run_write & (Ht5 & Hs5 & Hh5)%run_write).
  assert (calm h1 h3) as C13 by by etrans. assert (shown h3 = shown h) as Hs3 by by rewrite (calm_shown _ _ C13).
  exists path, (ss_root session), plaintext. rewrite Hpath in *. split_and!; try done.
  - exists (h_store h1), stored. split_and!; try done. by apply Hh5, Hh4.
  - injection Hs4 as E4 E4'. injection Hs3 as E3 E3'. rewrite Hs5, E4, E4', E3, E3'. f_equal. by rewrite str_app_assoc.
  - by rewrite Ht5, Ht4, (calm_tables _ _ C13).
Qed.

(** ** Export *)

(** A value that was exported: the text of the current version of its path. *)
Definition was_exported (d : Db) (root : RootKey) (path : SecretPath) (h : Host D) (x : Exported) : Prop :=
  exists plaintext, x_path x = path /\ was_read d root path None plaintext h /\ from_utf8 plaintext = Some (x_value x).

Lemma was_exported_later d root path x h h' :
  calm h h' -> in_session h -> was_exported d root path h x -> was_exported d root path h' x.
Proof. intros Hc Hs (p & E & Hr & Hu). exists p. split_and!; [done|by eapply was_read_later|done]. Qed.

Lemma run_export_one session path h x h' : in_session h ->
  run (export_one sh session path) h = (Some (Ok x), h') ->
  calm h h' /\ was_exported (tables h) (ss_root session) path h' x.
Proof.
  intros Hin. unfold export_one. intros (stored & h1 & [C1 Hget%map_err_Ok]%run_reads & Hr)%run_bind_Ok; [|apply reads_get].
  pose proof (get_names _ _ _ _ Hget) as [Hpath _].
  apply run_bind_Ok in Hr as (plaintext & ? & [Hdec%map_err_Ok ->]%run_lift_Ok & Hr).
  apply run_bind_Ok in Hr as (value & ? & [Hu%ok_or_Ok ->]%run_lift_Ok & Hr).
  apply run_bind_Ok in Hr as ([] & h2 & [C2 Hh]%run_record & Hr); [|by eapply calm_session].
  injection Hr as <- <-. rewrite Hpath in *. split; [by etrans|]. exists plaintext. split_and!; try done.
  by exists (h_store h), stored.
Qed.

Lemma run_export_all session paths h xs h' : in_session h ->
  run (export_all sh session paths) h = (Some (Ok xs), h') ->
  calm h h' /\ Forall2 (fun path x => was_exported (tables h) (ss_root session) path h' x) paths xs.
Proof.
  revert h xs h'. induction paths as [|path paths IH]; intros h xs h' Hin; cbn [export_all].
  - intros [= <- <-]. by split.
  - intros (x & h1 & [C1 Hx]%run_export_one & Hr)%run_bind_Ok; [|done].
    assert (in_session h1) as Hin1 by by eapply calm_session.
    apply run_bind_Ok in Hr as (rest & h2 & [C2 Hrest]%IH & [= <- <-]); [|done].
    split; [by etrans|]. rewrite (calm_tables _ _ C1) in Hrest. constructor; [|done]. by eapply was_exported_later.
Qed.

(** Which paths an export is of. *)
Definition export_paths (args : ExportArgs) (d : Db) (paths : list SecretPath) : Prop :=
  match ea_prefix args with
  | Some raw => exists prefix st, SecretPath_parse raw = Ok prefix /\ st_db st = d /\
      fst (list_paths (Some prefix) st) = Ok paths
  | None => res_mapM SecretPath_parse (ea_path args) = Ok paths
  end.

(** What an export writes of the values, and where. *)
Definition export_written (args : ExportArgs) (format : ExportFormat) (secrets : list Exported) (h h' : Host D) : Prop :=
  match format with
  | ActionsEnv => exists g masks text, fst (render_actions_env secrets g) = Ok (masks, text) /\
      if ea_github_env args
      then exists target, env_text sh "GITHUB_ENV" = Some target /\
        shown h' = ((h_stdout h ++ masks)%string, h_appended h ++ [(target, text)])
      else shown h' = ((h_stdout h ++ masks ++ text)%string, h_appended h)
  | _ => exists g text, fst (render format secrets g) = Ok text /\
      shown h' = ((h_stdout h ++ text)%string, h_appended h)
  end.

Lemma run_print text (h h' : Host D) : run (print text) h = (Some (Ok tt), h') ->
  h' = set_h_stdout (h_stdout h ++ text) h.
Proof. intros Hr%run_step_Ok. by injection Hr as <-. Qed.

(** A host on which only what was shown differs. *)
Definition shows (h h' : Host D) : Prop := h_store h' = h_store h /\ h_audit h' = h_audit h.

Lemma shows_held h h' e : shows h h' -> host_holds e h -> host_holds e h'.
Proof. intros [_ Ha] (sk & s & r & c & now & Hk & Hr). exists sk, s, r, c, now. by rewrite Ha. Qed.

Lemma run_writing f (h h' : Host D) : (forall h, shows h (f h)) -> run (writing f) h = (Some (Ok tt), h') ->
  shows h h' /\ exists l, h' = f (set_h_writes l h).
Proof.
  intros Hf Hr%run_atomic_Ok. destruct (h_writes h) as [|[e|] l]; [|done|]; injection Hr as <-; (split; [|by eexists]);
    match goal with |- shows _ (f ?x) => exact (Hf x) end.
Qed.

Lemma run_append target text (h h' : Host D) : run (append_to_file target text) h = (Some (Ok tt), h') ->
  shows h h' /\ shown h' = (h_stdout h, h_appended h ++ [(target, text)]).
Proof.
  unfold append_to_file. intros ([] & h1 & [[S1 A1] [l1 ->]]%run_writing & [[S2 A2] [l2 ->]]%run_writing)%run_bind_Ok;
    [|done|done]. by split.
Qed.

Lemma run_rng_keeps {B X} (err : X -> CliError) (work : stm rng X B) (h : Host D) b h' :
  run (with_rng err work) h = (Some (Ok b), h') ->
  (h_store h' = h_store h /\ h_audit h' = h_audit h /\ h_stdout h' = h_stdout h /\ h_appended h' = h_appended h) /\
  fst (work (h_rng h)) = Ok b.
Proof. intros Hr%run_atomic_Ok. destruct (work (h_rng h)) as [r g]. by injection Hr as ->%map_err_Ok <-. Qed.

(** The end of an export: its writes, once the values are there. *)
Lemma run_export_end args format secrets (h h' : Host D) :
  run match format with
      | ActionsEnv =>
          let* parts := with_rng cli_of_export (render_actions_env secrets) in
          let* _ := print (fst parts) in
          if ea_github_env args then
            match env_text sh "GITHUB_ENV" with
            | None => pfail (CeAudit "--github-env was given but GITHUB_ENV is not set")
            | Some target => append_to_file target (snd parts)
            end
          else print (snd parts)
      | _ =>
          let* text := with_rng cli_of_export (render format secrets) in
          print text
      end h = (Some (Ok tt), h') ->
  export_written args format secrets h h' /\ shows h h'.
Proof.
  assert (forall f, f <> ActionsEnv ->
    run (let* text := with_rng cli_of_export (render f secrets) in print text) h = (Some (Ok tt), h') ->
    (exists g text, fst (render f secrets g) = Ok text /\ shown h' = ((h_stdout h ++ text)%string, h_appended h)) /\ shows h h')
    as Hplain.
  { intros f _ (text & h1 & [C1 Ht]%run_rng_keeps & ->%run_print)%run_bind_Ok. destruct C1 as (Es & Ea & Eo & Ep).
    split; [|by split]. exists (h_rng h), text. split; [done|]. unfold shown. cbn. by rewrite Eo, Ep. }
  destruct format; try (intros Hr; by apply Hplain). clear Hplain.
  intros ([masks text] & h1 & [C1 Ht]%run_rng_keeps & Hr)%run_bind_Ok. destruct C1 as (Es & Ea & Eo & Ep).
  apply run_bind_Ok in Hr as ([] & h2 & ->%run_print & Hr). cbn [fst snd] in Hr. unfold export_written.
  destruct (ea_github_env args).
  - destruct (env_text sh "GITHUB_ENV") as [target|]; [|done]. apply run_append in Hr as [[S A'] Hs].
    split; [|split; [by rewrite S|by rewrite A']]. exists (h_rng h), masks, text. split; [done|]. exists target.
    split; [done|]. rewrite Hs. cbn. by rewrite Eo, Ep.
  - apply run_print in Hr as ->. split; [|by split]. exists (h_rng h), masks, text. split; [done|].
    unfold shown. cbn. by rewrite Eo, Ep, str_app_assoc.
Qed.

(** An export that succeeds wrote exactly the rendering of the values it was asked
    for: of each path the text of its current version, decrypted under the root key,
    in the order asked, each with the entry of its read held by a device; the tables
    are as they were. With [--github-env] the assignments went to the runner's file
    and only the masks to the output. *)
Theorem export_prints_what_was_recorded args h h' :
  run (export_command sh cli args) h = (Some (Ok tt), h') ->
  exists format root paths secrets,
    ExportFormat_parse (ea_format args) = Ok format /\ operator_root (tables h) root /\
    export_paths args (tables h) paths /\ paths <> [] /\
    Forall2 (fun path x => was_exported (tables h) root path h' x) paths secrets /\
    export_written args format secrets h h' /\ tables h' = tables h /\
    (writes_values_to_stdout format = true -> ea_force args || sh_stdout_terminal sh = true).
Proof.
  unfold export_command, parse_path, guard_secret_output.
  intros (format & ? & [Hf%map_err_Ok ->]%run_lift_Ok & Hr)%run_bind_Ok.
  apply run_bind_Ok in Hr as ([] & h0 & Hguard & Hr).
  assert (h0 = h /\ (writes_values_to_stdout format = true -> ea_force args || sh_stdout_terminal sh = true)) as [-> Hg].
  { destruct (writes_values_to_stdout format); [|injection Hguard as <-; by split].
    destruct (ea_force args || sh_stdout_terminal sh); [injection Hguard as <-; by split|done]. }
  apply run_bind_Ok in Hr as (session & h1 & (Ht1 & Hs1 & Hin1 & Hroot)%run_open_or_served & Hr).
  apply run_bind_Ok in Hr as (paths & h2 & Hp & Hr).
  assert (calm h1 h2 /\ export_paths args (tables h) paths) as [C2 Hpaths].
  { unfold export_paths. destruct (ea_prefix args) as [raw|].
    - apply run_bind_Ok in Hp as (prefix & ? & [Hq%map_err_Ok ->]%run_lift_Ok & [C Hl%map_err_Ok]%run_reads);
        [|unfold list_paths; reads].
      split; [done|]. by exists prefix, (h_store h1).
    - apply run_lift_Ok in Hp as [Hm%map_err_Ok ->]. by split. }
  destruct paths as [|path paths]; [done|].
  apply run_bind_Ok in Hr as (secrets & h3 & [C3 Hall]%run_export_all & Hr); [|by eapply calm_session].
  apply run_export_end in Hr as [Hw Hsh]. assert (calm h1 h3) as C13 by by etrans.
  assert (tables h2 = tables h) as Ht2 by by rewrite (calm_tables _ _ C2).
  assert (shown h3 = shown h) as Hs3 by by rewrite (calm_shown _ _ C13).
  exists format, (ss_root session), (path :: paths), secrets. split_and!; try done.
  - rewrite Ht2 in Hall. eapply Forall2_impl; [exact Hall|]. intros p x (plain & E & Hread & Hu). exists plain. split_and!; [done| |done].
    destruct Hread as (st & stored & G1 & G2 & G3 & G4 & G5). exists st, stored. split_and!; try done. by eapply shows_held.
  - injection Hs3 as E1 E2. unfold export_written in *. by rewrite E1, E2 in Hw.
  - destruct Hsh as [Est _]. transitivity (tables h3); [unfold tables; by rewrite Est|by rewrite (calm_tables _ _ C13)].
Qed.
End shown.

(** ** A host to run the commands on *)

#[local] Existing Instance toy_sha256.
#[local] Existing Instance toy_json.
#[local] Existing Instance toy_mac.
#[local] Existing Instance toy_entropy.
#[local] Existing Instance toy_aead.
#[local] Existing Instance ascii_unicode.
#[local] Instance no_pretty : JsonPretty := fun _ => EmptyString.
#[local] Instance no_dump : DumpJson := fun _ _ => Err "not here".

Definition bench_key : string := "000102030405060708090a0b0c0d0e0f101112131415161718191a1b1c1d1e1f".
Definition bench_shell : Shell MemDevice := {|
  sh_env name := if String.eqb name "CIPHR_MASTER_KEY" then VarPresent bench_key else VarNotPresent;
  sh_fs := fun _ => Err "not found";
  sh_read := fun _ => Err "not found";
  sh_stdin := Ok (as_bytes "hunter2");
  sh_stdin_terminal := false;
  sh_stdout_terminal := true;
  sh_lock := Ok tt;
  sh_open := Ok tt;
  sh_open_read_only := Ok tt;
  sh_sqlite_device := Ok (mkMemDevice "sqlite" [] []);
  sh_file_device := fun _ => Ok (mkMemDevice "file" [false; true] []);
  sh_toml := fun _ => Err "not here";
|}.
Definition bench_context : Context := mkContext "ciphr.db" "CIPHR_MASTER_KEY" None "policy.toml" (Some "audit.jsonl").

Definition bench_start : Host MemDevice := mkHost (mkStore db_empty []) None [10; 20; 30; 40; 50]%Z 7%Z EmptyString EmptyString [] [].
(** Another command, on the store the last one left. *)
Definition next_command (h : Host MemDevice) : Host MemDevice :=
  mkHost (h_store h) None [60; 70; 80]%Z 9%Z EmptyString EmptyString [] [].
Definition bench (cmd : Command) (h : Host MemDevice) : option (result CliError unit) * Host MemDevice :=
  run (run_command bench_shell bench_context cmd) h.

Definition bench_created : Host MemDevice := snd (bench CmdInit bench_start).
Definition bench_put : Command := CmdPut "app/DB_PASSWORD" None.
Definition bench_filled : Host MemDevice := snd (bench bench_put (next_command bench_created)).

Example bench_get :
  let '(r, h) := bench (CmdGet "app/DB_PASSWORD" None false) (next_command bench_filled) in
  r = Some (Ok tt) /\ h_stdout h = ("hunter2" ++ nl)%string.
Proof. vm_compute. by split. Qed.

Lemma bench_devices d path file :
  sh_sqlite_device bench_shell = Ok d -> sh_file_device bench_shell path = Ok file -> dev_name d <> dev_name file.
Proof. by intros [= <-] [= <-]. Qed.

(** The step of the put that writes, and the ones before it. *)
Definition bench_at (n : nat) : Host MemDevice :=
  snd (advance n (run_command bench_shell bench_context bench_put) (next_command bench_created)).

Example bench_steps :
  map (fun n => (length (db_versions (tables (bench_at n))),
                 option_map (fun sk => map (fun s => length (mem_log (slot_device s))) (slots sk)) (h_audit (bench_at n))))
    [2; 3; 4; 5] = [(0, None); (0, Some [0; 0]); (0, Some [1; 1]); (1, Some [1; 1])]%nat.
Proof. vm_compute. reflexivity. Qed.

Lemma command_is_accounted_witness :
  tables (bench_at 5) <> tables (bench_at 4) /\
  exists e, cli_licence bench_shell bench_put e /\ host_holds e (bench_at 4).
Proof.
  assert (tables (bench_at 5) <> tables (bench_at 4)) as Hne.
  { intros E. apply (f_equal (fun d => length (db_versions d))) in E. vm_compute in E. discriminate. }
  split; [exact Hne|].
  destruct (command_is_accounted bench_shell bench_context bench_devices bench_put (next_command bench_created) 4)
    as [_ [[E _]|[[E _]|He]]].
  - reflexivity.
  - exact (False_ind _ (Hne E)).
  - discriminate.
  - exact He.
Defined.

Definition bench_got : Host MemDevice := snd (bench (CmdGet "app/DB_PASSWORD" None false) (next_command bench_filled)).

Lemma get_prints_what_is_stored_witness : exists path root plaintext,
  SecretPath_parse "app/DB_PASSWORD" = Ok path /\
  was_read bench_shell (tables (next_command bench_filled)) root path None plaintext bench_got /\
  shown bench_got = ((str_of_bytes plaintext ++ nl)%string, []).
Proof.
  destruct (get_prints_what_is_stored bench_shell bench_context bench_devices "app/DB_PASSWORD" None false
    (next_command bench_filled) bench_got) as (path & root & plaintext & Hp & _ & Hr & Hs & _).
  - unfold bench_got, bench, run_command. apply run_outcome. vm_compute. reflexivity.
  - exists path, root, plaintext. split; [exact Hp|]. split; [exact Hr|exact Hs].
Defined.

Definition bench_args : ExportArgs := mkExportArgs (Some "app") [] "dotenv" false false.
Definition bench_exported : Host MemDevice := snd (bench (CmdExport bench_args) (next_command bench_filled)).

Example bench_export : h_stdout bench_exported = ("DB_PASSWORD='hunter2'" ++ nl)%string.
Proof. vm_compute. reflexivity. Qed.

Lemma export_prints_what_was_recorded_witness : exists root paths secrets,
  export_paths bench_args (tables (next_command bench_filled)) paths /\ paths <> [] /\
  Forall2 (fun path x => was_exported bench_shell (tables (next_command bench_filled)) root path bench_exported x) paths secrets /\
  export_written bench_shell bench_args Dotenv secrets (next_command bench_filled) bench_exported.
Proof.
  destruct (export_prints_what_was_recorded bench_shell bench_context bench_devices bench_args
    (next_command bench_filled) bench_exported) as (format & root & paths & secrets & Hf & _ & Hp & Hne & Hall & Hw & _).
  - unfold bench_exported, bench, run_command. apply run_outcome. vm_compute. reflexivity.
  - injection Hf as <-. exists root, paths, secrets. split; [exact Hp|]. split; [exact Hne|]. split; [exact Hall|exact Hw].
Defined.
