(* ===== verification/Started.v ===== *)
(** * A service started on the store the command line left

    [ciphr init] and [ciphr put] of [Shown], then [ciphr-server] on what they left:
    the check, the start, and a host that comes back with a device behind. *)

From Stdlib Require Import ZArith NArith Lia Ascii String.
From stdpp Require Import base tactics list strings gmap.
From S2P Require Import Prelude Text Hex Path Pattern Vocabulary PolicyModel Evaluate Crypto Token Time Chain Sink.
From S2P Require Import FileDevice Archive Db Store Migrations Tokens Honeypots StoreAudit Surface Oidc Config Prog State Trail.
From S2P Require Import Startup Operator Commands Shown Examples.

#[local] Existing Instance toy_sha256.
#[local] Existing Instance toy_json.
#[local] Existing Instance toy_mac.
#[local] Existing Instance toy_entropy.
#[local] Existing Instance toy_aead.
#[local] Existing Instance ascii_unicode.
#[local] Existing Instance toy_claims.
#[local] Existing Instance toy_signatures.
#[local] Instance not_watching : Features := false.

Definition started_config : Config :=
  mkConfig (mkServerConfig "[::]:8200" "cert.pem" "key.pem") "ciphr.db" (StaticEnv "CIPHR_MASTER_KEY") "policies.toml"
    [AuditSqlite; AuditFile "audit.jsonl" None] [mkSurfaceConfig "bulk_export" "2026-01-01" "demo"] [].

(** A file device in the file system is one that remembers. *)
Definition boxed_device (d : Device) (s : os) : MemDevice :=
  match d with
  | DevSqlite d => mkMemDevice (sad_name d) [] []
  | DevFile d => mkMemDevice (fd_name d) [] []
  end.

Definition host_files (path : string) : result string string :=
  if String.eqb path "policies.toml" then Ok "policies"
  else if String.eqb path "ciphr.toml" then Ok "configuration"
  else if String.eqb path "cert.pem" then Ok "-----BEGIN CERTIFICATE REQUEST-----"
  else Err "No such file or directory".

Definition started_boot : Boot (D := MemDevice) := {|
  bt_read := host_files;
  bt_config := fun _ => Ok started_config;
  bt_policies := fun _ => Ok demo_raw;
  bt_exists := fun path => String.eqb path "ciphr.db";
  bt_lock := fun _ => Ok tt;
  bt_connect := fun _ => Ok tt;
  bt_connect_read_only := fun _ => Ok tt;
  bt_env := fun name => if String.eqb name "CIPHR_MASTER_KEY" then VarPresent bench_key else VarNotPresent;
  bt_fs := fun _ => Err "not found"%string;
  bt_sqlite_device := fun path => Ok (mkSqliteAuditDevice ("sqlite:" ++ path) (h_store bench_filled));
  bt_boxed := boxed_device;
  bt_clock := [100; 110; 120]%Z;
  bt_rng := 11%Z;
|}.

Definition before_start : Machine (D := MemDevice) :=
  mkMachine (mkStore (st_db (h_store bench_filled)) []) example_os false None.

Lemma started_devices_distinct : distinct_devices started_boot started_config.
Proof.
  intros mc devices mc' Hb. unfold open_boxed in Hb. apply mzoom_Ok in Hb as [Hb _].
  apply mbind_Ok in Hb as (opened & s1 & Ho & Hb). injection Hb as <- _.
  unfold open_devices in Ho. run_ok. apply mlift_Ok in Hrun as [[= <-] ->].
  cbn [open_each cfg_audit started_config cfg_storage_path] in Hrun0. run_ok.
  match goal with Hx : mlift _ _ = _ |- _ => apply mlift_Ok in Hx as [[= <-] ->] end.
  match goal with Hx : mmap_err _ (FileDevice_open _ _) _ = _ |- _ => apply mmap_err_Ok in Hx; unfold FileDevice_open in Hx end.
  run_ok.
  change (NoDup ["sqlite:ciphr.db"; "file:audit.jsonl"]%string). apply (bool_decide_unpack _). vm_compute. exact I.
Qed.

Definition started : result StartupError Inner * Machine := prepare started_boot started_config before_start.

Example starts : is_ok (fst started) = true.
Proof. vm_compute. reflexivity. Qed.

Lemma prepared_service_is_ready_witness :
  exists inner mc', started = (Ok inner, mc') /\ mc_locked mc' = true /\
    exists app, mc_app mc' = Some app /\ trail_holds (surface_entry inner) app.
Proof.
  destruct started as [[inner|e] mc'] eqn:Hs; [|vm_compute in Hs; discriminate].
  destruct (prepared_service_is_ready started_boot started_config before_start (Ok inner) mc' started_devices_distinct Hs)
    as (policies & composition & _ & _ & [_ Hl _ (devices & chain & sk & app & s & _ & _ & _ & Happ & _ & _ & _ & Hh & _)]).
  exists inner, mc'. split; [reflexivity|]. split; [exact Hl|]. exists app. split; [exact Happ|exact Hh].
Defined.

(** ** The check *)

Definition checked : Exit * Machine :=
  server_main started_boot (fun _ _ => Ok tt) ["--check-config"; "ciphr.toml"]%string before_start.

Example check_is_fine : ex_status (fst checked) = 0%Z /\
  last (ex_stdout (fst checked)) = Some "  audit  sqlite:ciphr.db, file:audit.jsonl"%string.
Proof. vm_compute. by split. Qed.

(** The check locks nothing and leaves the database as it was, but it opens the file
    device as it will be opened: a file that was not there is created. *)
Example check_creates_the_audit_file :
  st_db (mc_store (snd checked)) = st_db (mc_store before_start) /\ mc_locked (snd checked) = false /\
  os_names (mc_os before_start) !! "audit.jsonl"%string = None /\
  negb (is_none (os_names (mc_os (snd checked)) !! "audit.jsonl"%string)) = true.
Proof. vm_compute. done. Qed.

(** A host without a database is told apart from a file that is wrong. *)
Example no_store_here :
  ex_status (fst (server_main (D := MemDevice) (mkBoot (D := MemDevice) host_files (fun _ => Ok started_config) (fun _ => Ok demo_raw)
    (fun _ => false) (fun _ => Ok tt) (fun _ => Ok tt) (fun _ => Ok tt) (fun _ => VarNotPresent)
    (fun _ => Err "not found"%string) (bt_sqlite_device started_boot) boxed_device [] 11%Z)
    (fun _ _ => Ok tt) ["--check-config"; "ciphr.toml"]%string before_start)) = HOST_NOT_READY /\
  ex_status (fst (server_main started_boot (fun _ _ => Ok tt) ["--check-config"; "absent.toml"]%string before_start)) = 1%Z /\
  ex_status (fst (server_main started_boot (fun _ _ => Ok tt) [] before_start)) = 2%Z.
Proof. vm_compute. done. Qed.

(** A certificate request is taken for a certificate here: what follows decides. *)
Example request_looks_like_a_certificate :
  looks_like_pem "-----BEGIN CERTIFICATE REQUEST-----" "CERTIFICATE" = true.
Proof. vm_compute. reflexivity. Qed.
