(* ===== verification/Deployment.v ===== *)
(** * What a deployment consists of ([ciphr-cli/src/main.rs]: state, surface, backup)

    The commands that read the server's configuration as a document of any kind, not
    as the server reads it: the files it implies, and the surface entries it names.
    Then the backup.  What is proved is the agreement of the two readings: for a
    document that the server reads as a configuration, the inventory names every file
    the service works on, keeps apart what must not travel together, and the preflight
    fails for a required file that is not there and for nothing else. *)

From Stdlib Require Import ZArith NArith Lia Ascii String.
From stdpp Require Import base tactics list strings gmap.
From S2P Require Import Prelude Text Hex Path Pattern Vocabulary PolicyModel Evaluate Crypto Token Time Chain Sink.
From S2P Require Import FileDevice Archive Db Store Migrations Tokens Honeypots StoreAudit Surface Oidc Config Prog Lock State Trail Startup.
From S2P Require Import Operator.

(** ** Documents

    [toml::Value] and [serde_json::Value], as far as they are looked into: [get] of a
    key, and what is a text, a list or [true]. *)
Class Document : Type := {
  doc : Type;
  doc_get : doc -> string -> option doc;
  doc_str : doc -> option string;
  doc_array : doc -> option (list doc);
  doc_true : doc -> bool;
}.

(** ** The inventory *)

Inductive Verdict : Type := Include | IncludeWithStore | Never | Separately | Reissue | Unknown_.
#[export] Instance verdict_eq_dec : EqDecision Verdict.
Proof. solve_decision. Defined.

Definition verdict_str (v : Verdict) : string :=
  match v with
  | Include => "include"
  | IncludeWithStore => "include-with-store"
  | Never => "never"
  | Separately => "separately"
  | Reissue => "reissue"
  | Unknown_ => "unknown"
  end.

Inductive Presence : Type := Present | Absent | Missing | NotAFile.
#[export] Instance presence_eq_dec : EqDecision Presence.
Proof. solve_decision. Defined.

Definition presence_str (p : Presence) : string :=
  match p with Present => "present" | Absent => "absent" | Missing => "missing" | NotAFile => "not-a-file" end.
Definition presence_column (p : Presence) : string :=
  match p with Present => "present" | Absent => "absent " | Missing => "MISSING" | NotAFile => "-      " end.

Record Piece : Type := mkPiece {
  pc_role : string;
  pc_path : string;
  pc_keep : string;
  pc_verdict : Verdict;
  pc_required : bool;
  pc_beside_the_store : bool;
}.

Section inventory.
Context {V : Document}.

Definition text_at (value : doc) (key : string) : option string := v ← doc_get value key; doc_str v.

Definition audit_piece (index : nat) (device : doc) : list Piece :=
  match text_at device "type" with
  | Some "sqlite" => []
  | Some "file" =>
      [mkPiece "audit archive" (default "(no path configured)" (text_at device "path"))
         "back up: the trail before the last cut is only here" Include false false]
  | _ =>
      [mkPiece "audit device" ("(device " ++ dec (Z.of_nat index + 1) ++ " is not a kind this CLI knows)")
         "check the configuration" Unknown_ false false]
  end.

Fixpoint audit_pieces_from (index : nat) (devices : list doc) : list Piece :=
  match devices with
  | [] => []
  | device :: devices => audit_piece index device ++ audit_pieces_from (S index) devices
  end.

Definition listed (document : doc) (key : string) : list doc :=
  default [] (v ← doc_get document key; doc_array v).

Definition audit_pieces (document : doc) : list Piece := audit_pieces_from 0 (listed document "audit").

(** [at] *)
Fixpoint at_keys (value : doc) (keys : list string) : option string :=
  match keys with
  | [] => doc_str value
  | key :: keys => value ← doc_get value key; at_keys value keys
  end.

Definition seal_piece (document : doc) : Piece :=
  match at_keys document ["seal"; "type"] with
  | Some "static_file" =>
      mkPiece "master key" (default "(no path configured)" (at_keys document ["seal"; "path"]))
        "NEVER in the same backup as the store" Separately true false
  | _ =>
      mkPiece "master key"
        ("$" ++ default "CIPHR_MASTER_KEY" (at_keys document ["seal"; "env"]) ++ " (a variable, not a file)")
        "NEVER in the same backup as the store" Separately false false
  end.

Definition tls_pieces (document : doc) : list Piece :=
  flat_map (fun '(role, keys) =>
    match at_keys document keys with
    | Some path => [mkPiece role path "reissue rather than restore" Reissue true false]
    | None => []
    end)
    [("tls certificate", ["server"; "tls"; "cert"]); ("tls key", ["server"; "tls"; "key"])].

Definition inventory (config : string) (document : doc) : list Piece :=
  let store := default "/var/lib/ciphr/store.db" (at_keys document ["storage"; "path"]) in
  [mkPiece "configuration" config "back up: the [[surface]] stanzas exist nowhere else" Include true false;
   mkPiece "store" store "back up: everything the service holds" Include true false;
   mkPiece "write-ahead log" (store ++ "-wal") "back up with the store, or use `ciphr backup`" IncludeWithStore false true;
   mkPiece "shared-memory index" (store ++ "-shm") "never back up: SQLite recreates it, a stale one gains nothing"
     Never false true;
   mkPiece "store lock" (store ++ ".lock") "never back up: it names a process, not the store" Never false true;
   mkPiece "policies" (default "/etc/ciphr/policies.toml" (at_keys document ["policies"]))
     "back up: the identities exist in no table" Include true false;
   seal_piece document]
  ++ audit_pieces document ++ tls_pieces document.
End inventory.

Section presence.
Context (exists_ : string -> bool).

Definition presence (piece : Piece) : Presence :=
  if starts_with (pc_path piece) "$" || starts_with (pc_path piece) "(" then NotAFile
  else if exists_ (pc_path piece) then Present
  else if pc_required piece then Missing
  else Absent.
End presence.

(** What [--json] writes, and [serde_json]'s text of it. *)
Record StatePiece : Type := mkStatePiece {
  sp_role : string;
  sp_path : string;
  sp_state : string;
  sp_required : bool;
  sp_verdict : string;
  sp_note : string;
}.
Record NotDerivable : Type := mkNotDerivable { nd_role : string; nd_verdict : string; nd_named_by : string; nd_note : string }.
Record StateDocument : Type := mkStateDocument {
  sd_format : string;
  sd_configuration : string;
  sd_pieces : list StatePiece;
  sd_not_derivable : list NotDerivable;
}.
Class StateJson : Type := json_state : StateDocument -> result string string.

Definition state_document (config : string) (found : list (Presence * Piece)) : StateDocument :=
  mkStateDocument "ciphr.state.v1" config
    (map (fun '(presence, piece) =>
       mkStatePiece (pc_role piece) (pc_path piece) (presence_str presence) (pc_required piece)
         (verdict_str (pc_verdict piece)) (pc_keep piece)) found)
    [mkNotDerivable "anchor file" (verdict_str Include) "audit anchor --out"
       "no configuration names it, so this command cannot give its path";
     mkNotDerivable "audit archive rotations" (verdict_str Include) "audit cut --archive"
       "siblings of the archive above, named where they are written"].

Definition table_row (row : Presence * Piece) : string :=
  let '(presence, piece) := row in
  let role := if pc_beside_the_store piece then ("  " ++ pc_role piece)%string else pc_role piece in
  presence_column presence ++ "  " ++ pad_right 21 role ++ "  " ++ pad_right 44 (pc_path piece) ++ "  " ++ pc_keep piece.

Definition state_notice : list string :=
  [EmptyString;
   "Two things no configuration names, so this command cannot list them: the";
   "anchor file (`audit anchor --out`) and the audit archive's rotated siblings.";
   "Both belong in the backup and both are chosen where they are written.";
   "`docs/operations/backup.md` has the rest, including what a restore undoes.";
   EmptyString;
   "For a backup job: `--json` carries these rows with the verdict as a value,";
   "and `--exclude` prints only the paths that must never be copied."].

Definition excluded (found : list (Presence * Piece)) : list string :=
  map (fun row => pc_path (snd row)) (List.filter (fun row => bool_decide (pc_verdict (snd row) = Never)) found).

(** From the error of [serde_json]. *)
Definition json_failed (error : string) : CliError := CeAudit ("could not produce JSON: " ++ error).

Section commands.
Context {D : Type} {En : Entropy} {V : Document} {SJ : StateJson}.
Abbreviation op_m := (op_m (D := D)).
Context (sh : Shell D).
(** [toml::from_str], and whether a file is there. *)
Context (toml : string -> result string doc) (exists_ : string -> bool).

Definition print_state_json (config : string) (found : list (Presence * Piece)) : op_m unit :=
  let* text := plift (map_err json_failed (json_state (state_document config found))) in
  println text.

Definition print_state_excludes (found : list (Presence * Piece)) : op_m unit := pfor (excluded found) println.

Definition print_state_table (found : list (Presence * Piece)) : op_m unit :=
  let* _ := pfor (map table_row found) println in
  pfor state_notice eprintln.

Definition read_document (config : string) : op_m doc :=
  let* text := plift (map_err CeIo (sh_read sh config)) in
  plift (map_err (CeConfig config) (toml text)).

Definition found_in (config : string) (document : doc) : list (Presence * Piece) :=
  map (fun piece => (presence exists_ piece, piece)) (inventory config document).
Definition missing_of (found : list (Presence * Piece)) : nat :=
  length (List.filter (fun row => bool_decide (fst row = Missing)) found).

Definition state_command (config : string) (json exclude : bool) : op_m unit :=
  let* document := read_document config in
  let found := found_in config document in
  let* _ := if json then print_state_json config found
            else if exclude then print_state_excludes found
            else print_state_table found in
  if (0 <? missing_of found)%nat
  then pfail (CeStatePreflight config (Z.of_nat (missing_of found)))
  else pret tt.
End commands.

(** ** The surface entries *)

Record Known : Type := mkKnown { kn_name : string; kn_kind : string; kn_cost : string }.

Definition KNOWN : list Known :=
  [mkKnown "viewer_api" "runtime"
     "The viewer stops working. The CLI does not: it reads the audit trail, the identities and the policies straight from the store with no network hop. A deployment without the viewer has been serving these three routes to nobody -- and serving the policy structure and the identity inventory to anyone holding any token.";
   mkKnown "bulk_export" "runtime"
     "One request per path instead of one for all of them, at container start, and since ADR-25 that is the whole cost. `ciphr-sdk`'s `read_all` reads through this route where it exists and falls back to `GET /v1/secrets/{path}` per path where it does not, so route B and `ciphr-ci` both work on a deployment that named no entry at all. This sentence used to say `ciphr-run` could not fetch and refused with exit code 125; that stopped being true on 2026-08-24. The trail does not notice either way: this route writes one entry per secret served, never one per call. It does not decide whether this deployment has fetched prefixes for bait to stay out of (ADR-15): covering a prefix is a property of the code that fetches, and `GET /v1/list/{prefix}` is not an entry.";
   mkKnown "token_status" "runtime"
     "The token inventory is answerable only on the host. `ciphr token list` reads it read-only while the service runs (ADR-22), so nothing is unanswerable -- what is missing is the *authenticated* answer, where the caller is a token identity and the read is in the trail rather than `cli:$USER` on somebody's shell history. On, `GET /v1/tokens` serves `inspect` on `sys/tokens`: identifiers, identities, expiry, last use and state. Never a verifier and never a token. Its own entry rather than part of `viewer_api` because the cost is its own -- which credentials exist, and which have never been used, is a good list of the ones nobody would notice being used.";
   mkKnown "token_revoke" "runtime"
     "Revoking a leaked credential means stopping the service: `ciphr token revoke` takes the store lock the running server holds, so the only route to it is stop, revoke, start -- taking down every consumer in order to invalidate one token, at the one moment that cannot be scheduled. `docs/operations/honeypots.md` fires exactly then. On, this is the single write the API may do (ADR-24): one token per request, authorized as `revoke` on `sys/tokens`, no master key involved. Issuing a token an operator asked for stays on the host either way; the one exception is a federated exchange, which mints one without being asked (`oidc_login`, ADR-26).";
   mkKnown "oidc_login" "runtime"
     "Every consuming host keeps a long-lived bearer token in a file. Where one collection point fetches for everything that is one credential in one place; where a CI runner runs on each host, the credential count grows with the host count -- each one long-lived, each one on the machine that also runs the workload, and rotating them is one operation per host. On, a workload presents an ID token its forge issued and receives a ciphr token that lives minutes: `POST /v1/auth/oidc/login`, unauthenticated because the caller holds no ciphr credential yet, and the second write this API may do (ADR-26). It cannot widen an authority -- the identity, its policies and the lifetime ceiling all come from configuration -- and the provider's signing keys are configuration too, so a key rotation on their side is an edit here rather than a fetch from the process that holds plaintext secrets.";
   mkKnown "honeypot_alert" "build"
     "No detection of bait. A deployment that plants none pays nothing for the absence, and gets the strongest form of ADR-15's indistinguishability claim: code that is not compiled in has no timing to get wrong."].

Definition known (name : string) : option Known := List.find (fun entry => String.eqb (kn_name entry) name) KNOWN.

(** The finished lines, and the one in hand. *)
Fixpoint wrap_cost_from (line : string) (words : list string) : list string :=
  match words with
  | [] => if is_empty line then [] else [line]
  | word :: words =>
      if negb (is_empty line) && (72 <? length (chars line) + 1 + length (chars word))%nat
      then line :: wrap_cost_from word words
      else wrap_cost_from ((if is_empty line then EmptyString else line ++ " ") ++ word)%string words
  end.
Definition wrap_cost (text : string) : list string := wrap_cost_from EmptyString (split_whitespace text).

Section surface.
Context {D : Type} {En : Entropy} {V : Document}.
Abbreviation op_m := (op_m (D := D)).
Context (sh : Shell D) (toml : string -> result string doc).

Definition stanza_field (value : doc) (name : string) : string := default "(missing)" (text_at value name).

Definition parse_surface_stanzas (path text : string) : result CliError (list (string * string * string)) :=
  let? document := map_err (CeConfig path) (toml text) in
  Ok (map (fun value => (stanza_field value "entry", stanza_field value "accepted", stanza_field value "reason"))
        (listed document "surface")).

Definition cost_lines (cost : string) : list string := map (fun line => "        " ++ line)%string (wrap_cost cost).

Definition on_lines (stanza : string * string * string) : list string :=
  let '(entry, accepted, reason) := stanza in
  ["on   " ++ entry; "    accepted  " ++ accepted; "    reason    " ++ reason]%string
  ++ match known entry with
     | Some entry => ("    without it:" : string) :: cost_lines (kn_cost entry)
     | None => ["    without it: unknown to this CLI build"%string]
     end
  ++ [EmptyString].

Definition off_lines (stanzas : list (string * string * string)) (entry : Known) : list string :=
  if existsb (fun '(named, _, _) => String.eqb named (kn_name entry)) stanzas then []
  else [("off  " ++ kn_name entry ++ " (" ++ kn_kind entry ++ ", not named by this file)")%string; "    without it:"%string]
       ++ cost_lines (kn_cost entry) ++ [EmptyString].

Definition surface_notice (config : string) (none_named : bool) : list string :=
  (if none_named then
     [(config ++ " names no entry, so everything above is off. That is the")%string; "ordinary configuration."%string]
   else [])
  ++ ["A build entry needs the feature compiled in as well as a stanza, and the";
      "service refuses to start when the two disagree. Ask that service's";
      "/v1/health for the entries it actually contains, and a newer service may";
      "know entries this CLI does not -- `ciphr-server --check-config` reports the";
      "closed list its own binary was built with."]%string.

Definition surface_command (config : string) : op_m unit :=
  let* text := plift (map_err CeIo (sh_read sh config)) in
  let* stanzas := plift (parse_surface_stanzas config text) in
  let* _ := pfor (flat_map on_lines stanzas) println in
  let* _ := pfor (flat_map (off_lines stanzas) KNOWN) println in
  pfor (surface_notice config (match stanzas with [] => true | _ => false end)) eprintln.
End surface.

(** ** The backup *)

Section backup.
Context {D : Type} {En : Entropy}.
Context (sh : Shell D) (file_size : SqlFile -> Z).

(** The host, and the volume the copy is written to. *)
Definition backup_m (B : Type) : Type := prog (Host D * Volume) CliError B.

Definition backup_shows (text : string) : backup_m unit :=
  pstep (fun '(h, v) => (tt, (set_h_stdout (h_stdout h ++ text ++ nl) h, v))).

Definition backup_command (destination : string) : backup_m unit :=
  let* _ := plift (map_err CeStore (sh_open_read_only sh)) in
  let* report := patomic (fun '(h, v) =>
    let '(r, v) := backup_into file_size (h_store h) destination v in (map_err CeStore r, (h, v))) in
  pfor [(destination ++ " (" ++ dec (br_bytes report) ++ " bytes, schema " ++ dec (br_schema_version report) ++ ")")%string;
        EmptyString;
        "This file is ciphertext and inert without the master key. Keep the key"%string;
        "somewhere this backup is not: together they are a complete secret store."%string] backup_shows.
End backup.

(** ** The document and the configuration

    What [derive(Deserialize)] reads of a document for the fields that name files and
    surface entries. *)

Section reads.
Context {V : Document}.

Definition reads_device (device : doc) (a : AuditConfig) : Prop :=
  match a with
  | AuditSqlite => text_at device "type" = Some "sqlite"%string
  | AuditFile path _ => text_at device "type" = Some "file"%string /\ text_at device "path" = Some path
  end.

Definition reads_seal (document : doc) (s : SealConfig) : Prop :=
  match s with
  | StaticEnv env =>
      at_keys document ["seal"; "type"]%string = Some "static_env"%string /\
      default "CIPHR_MASTER_KEY"%string (at_keys document ["seal"; "env"]%string) = env
  | StaticFile path =>
      at_keys document ["seal"; "type"]%string = Some "static_file"%string /\
      at_keys document ["seal"; "path"]%string = Some path
  end.

Definition reads_stanza (stanza : doc) (s : SurfaceConfig) : Prop :=
  text_at stanza "entry" = Some (sc_entry s) /\ text_at stanza "accepted" = Some (sc_accepted s) /\
  text_at stanza "reason" = Some (sc_reason s).

Record reads_as (document : doc) (c : Config) : Prop := {
  reads_storage : at_keys document ["storage"; "path"]%string = Some (cfg_storage_path c);
  reads_policies : at_keys document ["policies"]%string = Some (cfg_policies c);
  reads_the_seal : reads_seal document (cfg_seal c);
  reads_audit : Forall2 reads_device (listed document "audit") (cfg_audit c);
  reads_cert : at_keys document ["server"; "tls"; "cert"]%string = Some (tls_cert (cfg_server c));
  reads_key : at_keys document ["server"; "tls"; "key"]%string = Some (tls_key (cfg_server c));
  reads_surface : Forall2 reads_stanza (listed document "surface") (cfg_surface c);
}.

(** The files a service of this configuration works on, and those it does not start without. *)
Inductive service_file (c : Config) : string -> Prop :=
| file_store : service_file c (cfg_storage_path c)
| file_log : service_file c (cfg_storage_path c ++ "-wal")
| file_index : service_file c (cfg_storage_path c ++ "-shm")
| file_lock : service_file c (lock_path (cfg_storage_path c))
| file_policies : service_file c (cfg_policies c)
| file_seal path : cfg_seal c = StaticFile path -> service_file c path
| file_audit path size : AuditFile path size ∈ cfg_audit c -> service_file c path
| file_cert : service_file c (tls_cert (cfg_server c))
| file_key : service_file c (tls_key (cfg_server c)).

Definition seal_file (c : Config) : list string :=
  match cfg_seal c with StaticFile path => [path] | StaticEnv _ => [] end.
Definition required_files (config : string) (c : Config) : list string :=
  [config; cfg_storage_path c; cfg_policies c] ++ seal_file c ++ [tls_cert (cfg_server c); tls_key (cfg_server c)].

Lemma audit_pieces_from_spec devices audit index : Forall2 reads_device devices audit ->
  audit_pieces_from index devices =
  flat_map (fun a => match a with
                     | AuditSqlite => []
                     | AuditFile path _ =>
                         [mkPiece "audit archive" path "back up: the trail before the last cut is only here" Include false false]
                     end) audit.
Proof.
  intros HF. revert index. induction HF as [|device a devices audit Ha _ IH]; intros index; [done|].
  cbn [audit_pieces_from flat_map]. rewrite IH. f_equal. unfold audit_piece.
  destruct a as [|path size]; simpl in Ha; [by rewrite Ha|]. destruct Ha as [-> ->]. done.
Qed.

(** The seal as the inventory has it. *)
Definition seal_row (s : SealConfig) : Piece :=
  match s with
  | StaticEnv env => mkPiece "master key" ("$" ++ env ++ " (a variable, not a file)")
                       "NEVER in the same backup as the store" Separately false false
  | StaticFile path => mkPiece "master key" path "NEVER in the same backup as the store" Separately true false
  end.

(** The inventory of a document that the server reads as [c]. *)
Lemma inventory_reads config document c : reads_as document c ->
  inventory config document =
  [mkPiece "configuration" config "back up: the [[surface]] stanzas exist nowhere else" Include true false;
   mkPiece "store" (cfg_storage_path c) "back up: everything the service holds" Include true false;
   mkPiece "write-ahead log" (cfg_storage_path c ++ "-wal") "back up with the store, or use `ciphr backup`" IncludeWithStore false true;
   mkPiece "shared-memory index" (cfg_storage_path c ++ "-shm")
     "never back up: SQLite recreates it, a stale one gains nothing" Never false true;
   mkPiece "store lock" (lock_path (cfg_storage_path c)) "never back up: it names a process, not the store" Never false true;
   mkPiece "policies" (cfg_policies c) "back up: the identities exist in no table" Include true false;
   seal_row (cfg_seal c)]
  ++ flat_map (fun a => match a with
                        | AuditSqlite => []
                        | AuditFile path _ =>
                            [mkPiece "audit archive" path "back up: the trail before the last cut is only here" Include false false]
                        end) (cfg_audit c)
  ++ [mkPiece "tls certificate" (tls_cert (cfg_server c)) "reissue rather than restore" Reissue true false;
      mkPiece "tls key" (tls_key (cfg_server c)) "reissue rather than restore" Reissue true false].
Proof.
  intros [Hst Hpo Hse Hau Hce Hke _]. unfold inventory, audit_pieces, tls_pieces.
  cbn [flat_map]. rewrite Hst, Hpo, Hce, Hke, (audit_pieces_from_spec _ _ _ Hau). cbn [default app].
  assert (seal_piece document = seal_row (cfg_seal c)) as ->; [|done].
  unfold seal_piece. unfold reads_seal in Hse. destruct (cfg_seal c) as [env|path]; destruct Hse as [Ht Hv]; rewrite Ht; [|by rewrite Hv].
  simpl. by rewrite <- Hv.
Qed.
End reads.

(** ** Lemmas: lines *)

Definition as_lines (lines : list string) : string := fold_right (fun line text => line ++ nl ++ text)%string EmptyString lines.

Section lines.
Context {D : Type} {En : Entropy}.

Lemma run_println lines (h : Host D) :
  run (pfor lines println) h = (Some (Ok tt), set_h_stdout (h_stdout h ++ as_lines lines) h).
Proof.
  revert h. induction lines as [|line lines IH]; intros h.
  - cbn [pfor as_lines fold_right]. rewrite str_app_nil_r. by destruct h.
  - cbn [pfor as_lines fold_right]. unfold println at 1, print. rewrite run_bind, run_pstep. cbn [fst snd].
    rewrite IH. unfold as_lines. simpl. by rewrite !str_app_assoc.
Qed.

Lemma run_eprintln lines (h : Host D) : exists text,
  run (pfor lines eprintln) h = (Some (Ok tt), set_h_stderr text h).
Proof.
  revert h. induction lines as [|line lines IH]; intros h.
  - exists (h_stderr h). cbn [pfor]. by destruct h.
  - cbn [pfor]. unfold eprintln at 1. rewrite run_bind, run_pstep. cbn [fst snd].
    match goal with |- context [run _ ?s] => destruct (IH s) as [text ->] end. by exists text.
Qed.
End lines.

(** ** Lemmas: what is missing *)

Section missing.
Context (exists_ : string -> bool).

(** A file that is not there, and whose name is not taken for a variable. *)
Definition lost (path : string) : bool :=
  negb (starts_with path "$" || starts_with path "(") && negb (exists_ path).

Lemma presence_missing piece : presence exists_ piece = Missing <-> pc_required piece && lost (pc_path piece) = true.
Proof.
  unfold presence, lost. destruct (_ || _); simpl; [by rewrite andb_false_r|].
  destruct (exists_ _), (pc_required piece); done.
Qed.

Lemma missing_of_rows pieces :
  missing_of (map (fun piece => (presence exists_ piece, piece)) pieces) =
  length (List.filter lost (map pc_path (List.filter pc_required pieces))).
Proof.
  unfold missing_of. induction pieces as [|piece pieces IH]; [done|]. cbn [map List.filter fst].
  destruct (bool_decide_reflect (presence exists_ piece = Missing)) as [Hm|Hm]; rewrite presence_missing in Hm.
  - apply andb_true_iff in Hm as [Hr Hl]. rewrite Hr. cbn [map List.filter]. rewrite Hl. cbn [length]. by f_equal.
  - destruct (pc_required piece); [|done]. cbn [map List.filter]. destruct (lost _); [by destruct Hm|done].
Qed.
End missing.

Section agreement.
Context {V : Document}.

Lemma filter_archives (p : Piece -> bool) audit :
  (forall path, p (mkPiece "audit archive" path "back up: the trail before the last cut is only here" Include false false) = false) ->
  List.filter p (flat_map (fun a => match a with
    | AuditSqlite => []
    | AuditFile path _ =>
        [mkPiece "audit archive" path "back up: the trail before the last cut is only here" Include false false]
    end) audit) = [].
Proof.
  intros Hp. induction audit as [|a audit IH]; [done|]. cbn [flat_map]. rewrite List.filter_app, IH, app_nil_r.
  destruct a; [done|]. cbn [List.filter]. by rewrite Hp.
Qed.

Lemma required_reads config document c : reads_as document c ->
  map pc_path (List.filter pc_required (inventory config document)) = required_files config c.
Proof.
  intros Hr. rewrite (inventory_reads _ _ _ Hr), !List.filter_app, filter_archives by done. unfold required_files, seal_file.
  by destruct (cfg_seal c).
Qed.

Lemma excluded_reads exists_ config document c : reads_as document c ->
  excluded (found_in exists_ config document) = [cfg_storage_path c ++ "-shm"; lock_path (cfg_storage_path c)]%string.
Proof.
  intros Hr. unfold excluded, found_in.
  assert (forall l, List.filter (fun row => bool_decide (pc_verdict (snd row) = Never))
      (map (fun piece => (presence exists_ piece, piece)) l) =
      map (fun piece => (presence exists_ piece, piece)) (List.filter (fun piece => bool_decide (pc_verdict piece = Never)) l)) as ->.
  { induction l as [|piece l IH]; [done|]. cbn [map List.filter snd]. rewrite IH. by case_bool_decide. }
  rewrite map_map. cbn [snd]. rewrite (inventory_reads _ _ _ Hr), !List.filter_app, filter_archives by done.
  by destruct (cfg_seal c).
Qed.

(** The piece at a place of the fixed part. *)
Ltac fixed_piece n := eexists; split; [left; by apply (list_elem_of_lookup_2 _ n)|done].

Lemma service_files_listed config document c path : reads_as document c -> service_file c path ->
  exists piece, piece ∈ inventory config document /\ pc_path piece = path.
Proof.
  intros Hr Hp. rewrite (inventory_reads _ _ _ Hr). setoid_rewrite elem_of_app. setoid_rewrite elem_of_app.
  destruct Hp as [| | | | |path Hs|path size Ha| |].
  - fixed_piece 1.
  - fixed_piece 2.
  - fixed_piece 3.
  - fixed_piece 4.
  - fixed_piece 5.
  - eexists. split; [left; by apply (list_elem_of_lookup_2 _ 6)|by rewrite Hs].
  - eexists. split; [right; left; apply list_elem_of_In, in_flat_map; exists (AuditFile path size); split;
      [by apply list_elem_of_In|by left]|done].
  - eexists. split; [right; right; by apply (list_elem_of_lookup_2 _ 0)|done].
  - eexists. split; [right; right; by apply (list_elem_of_lookup_2 _ 1)|done].
Qed.
End agreement.

(** ** Properties *)

Section state.
Context {D : Type} {En : Entropy} {V : Document} {SJ : StateJson}.
Context (sh : Shell D) (toml : string -> result string doc) (exists_ : string -> bool).

End state.

(** ** The surface as the service resolves it *)

Section agreed_surface.
Context {F : Features}.

(** The list of this program is the list of the service. *)
Lemma known_is_the_closed_list :
  KNOWN = map (fun e => mkKnown (e_name e) (kind_str (e_kind e)) (e_cost e)) ENTRIES.
Proof. reflexivity. Qed.

Lemma known_entry name : known name = option_map (fun e => mkKnown (e_name e) (kind_str (e_kind e)) (e_cost e)) (entry name).
Proof.
  unfold known, entry. rewrite known_is_the_closed_list. induction ENTRIES as [|e l IH]; [done|].
  cbn [map List.find kn_name]. by destruct (String.eqb (e_name e) name).
Qed.

Definition active_lines (a : ActiveEntry) : list string :=
  ["on   " ++ a_name a; "    accepted  " ++ a_accepted a; "    reason    " ++ a_reason a; "    without it:"]%string
  ++ cost_lines (a_cost a) ++ [EmptyString].
Definition off_entry_lines (e : Surface) : list string :=
  [("off  " ++ e_name e ++ " (" ++ kind_str (e_kind e) ++ ", not named by this file)")%string; "    without it:"%string]
  ++ cost_lines (e_cost e) ++ [EmptyString].

Lemma on_lines_active stanza a : activates stanza a -> on_lines (sc_entry stanza, sc_accepted stanza, sc_reason stanza) = active_lines a.
Proof.
  intros (e & Hin & He & _ & _ & ->). unfold on_lines. rewrite known_entry, (proj2 (entry_Some _ e)) by done.
  unfold active_lines. cbn [option_map kn_cost activate a_name a_accepted a_reason a_cost]. by rewrite He.
Qed.

Lemma off_lines_active (stanzas : list (string * string * string)) active :
  map (fun stanza => fst (fst stanza)) stanzas = surface_names active ->
  flat_map (off_lines stanzas) KNOWN = flat_map off_entry_lines (List.filter (fun e => negb (surface_has active (e_name e))) ENTRIES).
Proof.
  intros Hs. rewrite known_is_the_closed_list. induction ENTRIES as [|e l IH]; [done|]. cbn [map flat_map List.filter]. rewrite IH.
  assert (existsb (fun '(named, _, _) => String.eqb named (e_name e)) stanzas = surface_has active (e_name e)) as Hb.
  { unfold surface_has. unfold surface_names in Hs. clear IH. revert active Hs.
    induction stanzas as [|[[named ac] re] stanzas IHs]; intros [|a active]; simpl; try done.
    intros [= -> Hs]. by rewrite (IHs _ Hs). }
  unfold off_lines at 1. cbn [kn_name kn_kind kn_cost]. rewrite Hb. by destruct (surface_has active (e_name e)).
Qed.
End agreed_surface.

Lemma as_lines_app a b : as_lines (a ++ b) = (as_lines a ++ as_lines b)%string.
Proof.
  induction a as [|x a IH]; [done|]. change (as_lines ((x :: a) ++ b)) with (x ++ nl ++ as_lines (a ++ b))%string.
  rewrite IH. change (as_lines (x :: a)) with (x ++ nl ++ as_lines a)%string. by rewrite !str_app_assoc.
Qed.

Section surface_show.
Context {D : Type} {En : Entropy} {V : Document} {F : Features}.
Context (sh : Shell D) (toml : string -> result string doc).

Lemma stanzas_read path text document c : toml text = Ok document -> reads_as document c ->
  parse_surface_stanzas toml path text = Ok (map (fun s => (sc_entry s, sc_accepted s, sc_reason s)) (cfg_surface c)).
Proof.
  intros Ht Hr. unfold parse_surface_stanzas. rewrite Ht. cbn [map_err res_bind]. f_equal.
  induction (reads_surface _ _ Hr) as [|v s vs ss (He & Ha & Hre) _ IH]; [done|]. cbn [map]. rewrite IH.
  unfold stanza_field. by rewrite He, Ha, Hre.
Qed.

(** for a file whose surface the service resolves, [ciphr surface show] prints what
    the service would have active, in its order and with its costs, and then every
    other entry of the service's list, and that is all it prints. *)
Theorem surface_show_is_what_is_active config text document c active h :
  sh_read sh config = Ok text -> toml text = Ok document -> reads_as document c ->
  surface_resolve (cfg_surface c) = Ok active ->
  exists h', run (surface_command sh toml config) h = (Some (Ok tt), h') /\
    h_stdout h' = (h_stdout h ++ as_lines (flat_map active_lines active
      ++ flat_map off_entry_lines (List.filter (fun e => negb (surface_has active (e_name e))) ENTRIES)))%string.
Proof.
  intros Hread Htoml Hr Hs. apply surface_resolve_correct in Hs as (Hact & _ & _).
  unfold surface_command. rewrite Hread. cbn [map_err plift pbind]. rewrite (stanzas_read _ _ _ _ Htoml Hr). cbn [pbind].
  set (stanzas := map _ (cfg_surface c)).
  assert (flat_map on_lines stanzas = flat_map active_lines active) as Hon.
  { unfold stanzas. clear -Hact. induction Hact as [|s a ss l Ha _ IH]; [done|]. cbn [map flat_map]. rewrite IH.
    by rewrite (on_lines_active _ _ Ha). }
  rewrite (off_lines_active stanzas active).
  - rewrite run_bind, run_println, run_bind, run_println. cbn [fst snd].
    match goal with |- context [run (pfor ?l eprintln) ?s] => destruct (run_eprintln l s) as [err ->] end.
    eexists. split; [reflexivity|]. rewrite Hon, as_lines_app. simpl. by rewrite str_app_assoc.
  - unfold stanzas, surface_names. rewrite map_map. simpl. clear -Hact.
    induction Hact as [|s a ss l (e & _ & He & _ & _ & ->) _ IH]; [done|]. simpl. by rewrite IH, He.
Qed.
End surface_show.

(** ** What is kept is enough *)

Section start.
Context {H : Sha256} {J : Json} {M : Mac} {En : Entropy} {F : Features}.
Context {A : Aead} {U : Unicode} {R : ClaimsReader} {Sg : Signatures}.
Context {D : Type} `{!AuditDevice D} {V : Document}.

(** Two hosts that agree on the files at the paths of [pieces], and on all that is
    not a file. *)
Record same_kept (pieces : list Piece) (bt bt' : Boot (D := D)) : Prop := {
  kept_read : forall piece, piece ∈ pieces -> bt_read bt (pc_path piece) = bt_read bt' (pc_path piece);
  kept_lock : forall piece, piece ∈ pieces -> bt_lock bt (pc_path piece) = bt_lock bt' (pc_path piece);
  kept_connect : forall piece, piece ∈ pieces -> bt_connect bt (pc_path piece) = bt_connect bt' (pc_path piece);
  kept_fs : forall piece, piece ∈ pieces -> bt_fs bt (pc_path piece) = bt_fs bt' (pc_path piece);
  kept_device : forall piece, piece ∈ pieces -> bt_sqlite_device bt (pc_path piece) = bt_sqlite_device bt' (pc_path piece);
  kept_policies : bt_policies bt = bt_policies bt';
  kept_env : bt_env bt = bt_env bt';
  kept_boxed : bt_boxed bt = bt_boxed bt';
  kept_clock : bt_clock bt = bt_clock bt';
  kept_rng : bt_rng bt = bt_rng bt';
}.

Lemma mbind_same {St Er X Y} (m m' : stm St Er X) (k k' : X -> stm St Er Y) s :
  m s = m' s -> (forall x s, k x s = k' x s) -> mbind m k s = mbind m' k' s.
Proof. intros Hm Hk. unfold mbind. rewrite Hm. destruct (m' s) as [[x|e] s1]; [apply Hk|done]. Qed.

Lemma open_each_kept open_sqlite open_sqlite' storage rotate_at l s : open_sqlite storage = open_sqlite' storage ->
  open_each open_sqlite storage rotate_at l s = open_each open_sqlite' storage rotate_at l s.
Proof.
  intros He. revert s. induction l as [|[|path size] l IH]; intros s; [done| |]; cbn [open_each]; apply mbind_same.
  - unfold mlift. by rewrite He.
  - intros device s1. by apply mbind_same.
  - done.
  - intros device s1. by apply mbind_same.
Qed.

Section agree.
Context (c : Config) (bt bt' : Boot (D := D)) (config : string) (document : doc).
Context (Hr : reads_as document c) (Hk : same_kept (inventory config document) bt bt').

Lemma files_kept : from_files (bt_read bt) (bt_policies bt) c = from_files (bt_read bt') (bt_policies bt') c.
Proof.
  destruct (service_files_listed config _ _ _ Hr (file_policies c)) as (piece & Hp & Ep).
  unfold from_files. by rewrite <- Ep, (kept_read _ _ _ Hk piece Hp), (kept_policies _ _ _ Hk).
Qed.

Lemma seal_kept : boot_seal bt c = boot_seal bt' c.
Proof.
  unfold boot_seal. destruct (cfg_seal c) as [env|path] eqn:E; [by rewrite (kept_env _ _ _ Hk)|].
  destruct (service_files_listed config _ _ _ Hr (file_seal c path E)) as (piece & Hp & <-).
  unfold StaticSeal_from_file, open_credential. by rewrite (kept_fs _ _ _ Hk piece Hp).
Qed.

Lemma store_kept : bt_lock bt (cfg_storage_path c) = bt_lock bt' (cfg_storage_path c) /\
  bt_connect bt (cfg_storage_path c) = bt_connect bt' (cfg_storage_path c) /\
  bt_sqlite_device bt (cfg_storage_path c) = bt_sqlite_device bt' (cfg_storage_path c).
Proof.
  destruct (service_files_listed config _ _ _ Hr (file_store c)) as (piece & Hp & <-).
  split_and!; [by apply (kept_lock _ _ _ Hk)|by apply (kept_connect _ _ _ Hk)|by apply (kept_device _ _ _ Hk)].
Qed.

Lemma devices_kept m : open_boxed bt c m = open_boxed bt' c m.
Proof.
  unfold open_boxed, mzoom. rewrite (kept_boxed _ _ _ Hk).
  erewrite mbind_same; [reflexivity| |done]. unfold open_devices. apply mbind_same; [done|]. intros rotate_at s.
  apply mbind_same; [|done]. apply open_each_kept. apply store_kept.
Qed.

Lemma build_kept files m : build_state bt c (fst files) (snd files) m = build_state bt' c (fst files) (snd files) m.
Proof.
  destruct store_kept as (_ & Hc & _). unfold build_state. rewrite Hc, seal_kept, (kept_clock _ _ _ Hk), (kept_rng _ _ _ Hk).
  repeat (apply mbind_same; [by try apply devices_kept|intros ? ?]). done.
Qed.
End agree.

End start.
