(* ===== verification/OperatorTrail.v ===== *)
(** * The operator and the audit trail ([ciphr-cli/src/main.rs]: audit)

    Verifying the trail, taking an anchor over it and cutting it.  These commands
    take no lock: the service goes on appending while they run, so each of their
    calls is a step that others may come between.  The theorem is the one the cut is
    built around: no record leaves the queryable log before the anchor of the cut is
    in the anchor file and, unless the operator waived it, every record that goes is
    a line of the archive. *)

From Stdlib Require Import ZArith NArith Lia Ascii String.
From stdpp Require Import base tactics list strings gmap relations.
From S2P Require Import Prelude Text Hex Path Vocabulary Crypto Time Chain Sink Anchor FileDevice Archive Db Store.
From S2P Require Import Tokens Honeypots StoreAudit Prog Rendering Operator.

(** What [read_to_string] answers. *)
Inductive ReadError : Type := ReadNotFound | ReadOther (error : string).
Definition read_error_display (e : ReadError) : string :=
  match e with ReadNotFound => "No such file or directory (os error 2)" | ReadOther error => error end.

Definition os_read_to_string (path : string) (s : os) : result ReadError string * os :=
  match os_faults s with
  | Some f :: fs => (Err (ReadOther (f_error f)), mkOs (os_inodes s) (os_names s) fs (os_blind s))
  | fs =>
      (match os_names s !! path with
       | None => Err ReadNotFound
       | Some i => ok_or (ReadOther "stream did not contain valid UTF-8") (from_utf8 (os_content i s))
       end, mkOs (os_inodes s) (os_names s) (tail fs) (os_blind s))
  end.

Record TrailHost : Type := mkTrailHost {
  t_store : Store;
  t_os : os;
  t_disk : disk;
  t_clock : list Z;
  t_stdout : string;
  t_stderr : string;
}.
Definition trail_m (A : Type) : Type := prog TrailHost CliError A.

Definition set_t_store (st : Store) (h : TrailHost) : TrailHost :=
  mkTrailHost st (t_os h) (t_disk h) (t_clock h) (t_stdout h) (t_stderr h).
Definition set_t_os (o : os) (h : TrailHost) : TrailHost :=
  mkTrailHost (t_store h) o (t_disk h) (t_clock h) (t_stdout h) (t_stderr h).
Definition set_t_clock (l : list Z) (h : TrailHost) : TrailHost :=
  mkTrailHost (t_store h) (t_os h) (t_disk h) l (t_stdout h) (t_stderr h).
Definition set_t_stdout (s : string) (h : TrailHost) : TrailHost :=
  mkTrailHost (t_store h) (t_os h) (t_disk h) (t_clock h) s (t_stderr h).
Definition set_t_stderr (s : string) (h : TrailHost) : TrailHost :=
  mkTrailHost (t_store h) (t_os h) (t_disk h) (t_clock h) (t_stdout h) s.

Definition t_now : trail_m Z := pstep (fun h => (default 0%Z (head (t_clock h)), set_t_clock (tail (t_clock h)) h)).
Definition t_sql {A} (work : store_m A) : trail_m A :=
  patomic (fun h => let '(r, st) := work (t_store h) in (map_err CeStore r, set_t_store st h)).
Definition t_file {A} (work : stm os string A) : trail_m A :=
  patomic (fun h => let '(r, o) := work (t_os h) in (map_err CeIo r, set_t_os o h)).
Definition t_read (path : string) : trail_m (result ReadError string) :=
  pstep (fun h => let '(r, o) := os_read_to_string path (t_os h) in (r, set_t_os o h)).
Definition t_asks {A} (ask : disk -> result string A) : trail_m A :=
  patomic (fun h => (map_err CeIo (ask (t_disk h)), h)).
Definition t_println (text : string) : trail_m unit := pstep (fun h => (tt, set_t_stdout (t_stdout h ++ text ++ nl) h)).
Definition t_eprintln (text : string) : trail_m unit := pstep (fun h => (tt, set_t_stderr (t_stderr h ++ text ++ nl) h)).

Definition stored_records (rows : list AuditRow) : list StoredRecord := map row_as_stored rows.

Definition cut_refused (detail : string) : CliError := CeStore (CutRefused detail).

Section trail.
Context {D : Type} {H : Sha256} {J : Json} {LJ : LogJson} {W : WireJson} {U : Unicode}.
Context (sh : Shell D) (database : string).

Definition audit_all : store_m (list AuditRow) :=
  audit_query (mkAuditFilter u32_max (Oldest None) None None None None).

Definition t_open_read_only : trail_m unit := plift (map_err CeStore (sh_open_read_only sh)).
Definition t_open_device : trail_m unit := plift (map_err CeStore (res_map (fun _ => tt) (sh_sqlite_device sh))).

Definition anchor_latest_in (path text : string) : result CliError (option Anchor) :=
  map_err (fun error => CeAudit (path ++ ": " ++ anchor_error_display error)) (anchor_latest text).

Definition read_anchor (path : string) : trail_m Anchor :=
  let* read := t_read path in
  let* text := plift (map_err (fun e => CeIo (read_error_display e)) read) in
  let* latest := plift (anchor_latest_in path text) in
  plift (ok_or (CeAudit (path ++ " holds no anchor record; run `ciphr audit anchor --out` first")) latest).

(** The anchor of the file for one sequence number. *)
Definition anchor_at (path : string) (seq : Z) : trail_m (option Anchor) :=
  let* read := t_read path in
  let* text := plift (map_err (fun e => CeIo (read_error_display e)) read) in
  pret (List.find (fun anchor => (anchor_seq anchor =? seq)%Z) (omap (fun line => res_ok (anchor_parse line)) (lines text))).

(** [writeln!] writes the line and then the newline. *)
Definition append_line (path line : string) : trail_m unit :=
  let* file := t_file (os_open_append path) in
  let* _ := t_file (os_write_all file (as_bytes line)) in
  let* _ := t_file (os_write_all file [newline]) in
  t_file (os_sync_data file).

Definition append_anchor (path : string) (anchor : Anchor) : trail_m string :=
  let line := anchor_encode anchor in
  let* _ := append_line path line in
  pret line.

(** The last anchor of a file that may not be there yet. *)
Definition previous_anchor (path : string) : trail_m (option Anchor) :=
  let* read := t_read path in
  match read with
  | Ok text => plift (anchor_latest_in path text)
  | Err ReadNotFound => pret None
  | Err e => pfail (CeIo (read_error_display e))
  end.

Definition verify_under (anchor : option Anchor) (start : Start) (records : list StoredRecord) : result CliError Verified :=
  map_err CeChainBroken
    match anchor with
    | None => verify_from start records
    | Some anchor => verify_with_anchor anchor start records
    end.

(** ** [ciphr audit verify] *)

Definition verify_chain (anchor_file : option string) : trail_m unit :=
  let* _ := t_open_read_only in
  let* rows := t_sql audit_all in
  let records := stored_records rows in
  let* cut := t_sql latest_cut_of in
  let* start := t_sql start_of in
  let* anchor := match anchor_file with
                 | None => pret None
                 | Some path => let* anchor := read_anchor path in pret (Some anchor)
                 end in
  let* at_cut := match cut, anchor_file with
                 | Some cut, Some path => anchor_at path (cut_seq cut)
                 | _, _ => pret None
                 end in
  let* verified := plift (verify_under anchor start records) in
  let* _ := match at_cut with
            | Some at_cut => let* _ := plift (verify_under (Some at_cut) start records) in pret tt
            | None => pret tt
            end in
  let* _ := t_println (dec (v_records verified) ++ " entries verify") in
  let* _ := t_println ("head " ++ hex_encode (v_head_hash verified) ++ " at sequence " ++ dec (v_head_seq verified)) in
  let* _ := match cut with
            | Some cut => t_println ("the trail begins at sequence " ++ dec (first_seq start) ++ " — cut on "
                ++ rfc3339_millis (cut_at cut) ++ ", " ++ dec (cut_removed cut) ++ " entries removed")
            | None => pret tt
            end in
  let* _ := t_println EmptyString in
  let* _ := match anchor with
            | None => pfor ["A verified chain shows no entry was removed, edited, or reordered. It does"%string;
                "not show that nobody rewrote the whole chain forward, which needs the head"%string;
                "hash recorded somewhere outside this store: see `ciphr audit anchor`."%string] t_println
            | Some anchor => pfor [("The chain also agrees with the anchor taken at " ++ taken_at anchor
                  ++ " for sequence " ++ dec (anchor_seq anchor) ++ ", so it was")%string;
                ("not rewritten up to that record. Records after sequence " ++ dec (anchor_seq anchor)
                  ++ " rest on the chain")%string;
                "alone until the next anchor is taken."%string] t_println
            end in
  match cut, at_cut with
  | None, _ => pret tt
  | Some cut, Some at_cut => pfor [EmptyString;
      ("The recorded cut agrees with the anchor taken at " ++ taken_at at_cut ++ " for the same sequence, so")%string;
      "the point this trail is verified from comes from outside the store as well."%string] t_println
  | Some cut, None =>
      let* _ := pfor [EmptyString; "Nothing here checks the recorded cut itself. It is a row in the store,"%string;
        "written by whatever can write the store, and everything above rests on it"%string;
        ("being the truth about sequence " ++ dec (cut_seq cut) ++ ". The anchor the cut appended is what")%string;
        "settles that — pass the file it went to as --anchor."%string] t_println in
      match cut_anchor cut with
      | Some path => t_println ("The cut recorded that file as " ++ path ++ ".")
      | None => pret tt
      end
  end.

(** ** [ciphr audit anchor] *)

Definition take_anchor (out : option string) : trail_m unit :=
  let* _ := t_open_read_only in
  let* rows := t_sql audit_all in
  let records := stored_records rows in
  let* start := t_sql start_of in
  let* previous := match out with None => pret None | Some path => previous_anchor path end in
  let* verified := plift (verify_under previous start records) in
  if (v_head_seq verified =? 0)%Z then pfail (CeAudit "the chain is empty, so there is no head to anchor")
  else
    let* now := t_now in
    let anchor := anchor_over verified now in
    let line := anchor_encode anchor in
    let* _ := match out with Some path => append_line path line | None => pret tt end in
    let* _ := t_println line in
    let* _ := t_eprintln ("anchored sequence " ++ dec (anchor_seq anchor) ++ " over " ++ dec (v_records verified)
                            ++ " verified entries") in
    let* _ := match out with
              | Some path => t_eprintln ("appended to " ++ path)
              | None => t_eprintln "not written to a file: pass --out, and keep it where this store's writer cannot reach"
              end in
    match previous with
    | Some previous => t_eprintln ("the previous anchor, sequence " ++ dec (anchor_seq previous) ++ " from "
                         ++ taken_at previous ++ ", still holds")
    | None => pret tt
    end.

(** ** [ciphr audit cut] *)

(** Without an archive the operator said [--assume-archived]: the parser of the
    arguments requires one of the two. *)
Definition require_archived (archive : option string) (assume_archived : bool) (removing : list StoredRecord) : trail_m unit :=
  let count := dec (Z.of_nat (length removing)) in
  match archive with
  | None =>
      if negb assume_archived then Panicked
      else
        let* _ := t_eprintln ("--assume-archived: nothing here checked that the " ++ count ++ " entries about to be removed") in
        t_eprintln "exist anywhere else. If they do not, this destroys them permanently."
  | Some path =>
      let* files := t_asks (fun dk => rotation_set dk path) in
      let* coverage := t_asks (fun dk => coverage_of dk files removing) in
      if negb (is_complete coverage) then
        let missing := cov_missing coverage in
        pfail (cut_refused (dec (Z.of_nat (length missing)) ++ " of the " ++ count
          ++ " entries to be removed are not in the archive at " ++ path ++ " (" ++ dec (cov_files coverage)
          ++ " file(s), " ++ dec (cov_lines coverage) ++ " lines read); the first missing sequence numbers are "
          ++ join ", " (map dec (take 5 missing))
          ++ ". Cutting would destroy them. Point --archive at the file device's file, decompress rotated files it cannot read, or pass --assume-archived if the lines are shipped off this host as they are written."))
      else
        t_eprintln ("archive: all " ++ count ++ " entries found in " ++ dec (cov_files coverage) ++ " file(s) at " ++ path)
  end.

(** [Path::parent], compared. *)
Definition beside_the_store (anchor_file : string) : bool :=
  bool_decide (option_map fst (parent_and_name anchor_file) = option_map fst (parent_and_name database)).

Definition cut_trail (keep : Z) (anchor_file : string) (archive : option string) (assume_archived dry_run : bool) : trail_m unit :=
  let* _ := t_open_read_only in
  let* _ := t_sql require_cut_table in
  let* rows := t_sql audit_all in
  let records := stored_records rows in
  let* start := t_sql start_of in
  let* previous := previous_anchor anchor_file in
  let* _ := plift (verify_under previous start records) in
  let kept := Z.to_nat keep in
  if (length rows <=? kept)%nat then
    t_eprintln (dec (Z.of_nat (length rows)) ++ " entries, keeping " ++ dec keep ++ ": nothing to remove")
  else
    let removing := (length rows - kept)%nat in
    let prefix := take removing records in
    let* verified := plift (map_err CeChainBroken (verify_from start prefix)) in
    let through := v_head_seq verified in
    let* now := t_now in
    let anchor := anchor_over verified now in
    let* _ := require_archived archive assume_archived prefix in
    if dry_run then
      let* _ := t_eprintln ("would remove " ++ dec (Z.of_nat removing) ++ " entries up to sequence " ++ dec through
        ++ ", keeping " ++ dec keep ++ " (sequences " ++ dec (u64_add through 1) ++ " to "
        ++ dec (match last records with Some record => sr_seq record | None => through end) ++ ")") in
      let* _ := t_eprintln ("would append the anchor below to " ++ anchor_file) in
      t_println (anchor_encode anchor)
    else
      let* line := append_anchor anchor_file anchor in
      let* _ := t_open_device in
      let* now := t_now in
      let* cut := t_sql (audit_cut through (v_head_hash verified) now (Some anchor_file)) in
      let* remainder := plift (map_err CeChainBroken (verify_from (cut_as_start cut) (drop removing records))) in
      let* now := t_now in
      let head := anchor_over remainder now in
      let* head_line := append_anchor anchor_file head in
      let* _ := t_println line in
      let* _ := t_println head_line in
      let* _ := t_eprintln ("removed " ++ dec (cut_removed cut) ++ " entries through sequence " ++ dec (cut_seq cut) ++ "; "
        ++ dec (v_records remainder) ++ " remain, from sequence " ++ dec (u64_add (cut_seq cut) 1)) in
      let* _ := t_eprintln ("appended the anchor at the cut and an anchor over the remainder to " ++ anchor_file) in
      let* _ := t_eprintln "this cut is not itself an audit entry: writing one needs the lock the running service holds, and it would move the head just anchored. The store's record of it is the audit_cut row, and the anchor above is the copy of that outside the store." in
      if beside_the_store anchor_file then
        t_eprintln "the anchor file sits beside the store. Whoever can rewrite the trail can rewrite it too, which is the one thing an anchor is for: keep it on another host, in a backup, or on an append-only share."
      else pret tt.
End trail.
