(* ===== verification/TrailCut.v ===== *)
(** * What a cut of the trail leaves behind

    [cut_trail] among others: the service appends to the log and the file device to
    its archive while the command runs.  The theorem holds at every step of it,
    whatever fails and wherever it stops. *)

From Stdlib Require Import ZArith NArith Lia Ascii String.
From stdpp Require Import base tactics list strings gmap sorting relations.
From S2P Require Import Prelude Text Hex Path Vocabulary Crypto Time Chain Sink Anchor FileDevice Archive Db Store.
From S2P Require Import Tokens Honeypots StoreAudit Prog Rendering Operator OperatorTrail.

(** ** Reading where the trail begins *)

Lemma start_of_any st start : fst (start_of st) = Ok start -> fst (start_of (clean st)) = Ok start.
Proof.
  destruct (start_of st) as [r s'] eqn:Hs. cbn [fst]. intros ->. unfold start_of, latest_cut_of, has_cut_table in Hs.
  apply mbind_Ok in Hs as (cut & s1 & Hc & Hs). apply mbind_Ok in Hc as (b & s2 & [-> E2]%sql_read_Ok & Hc).
  unfold start_of, latest_cut_of, has_cut_table, mbind, sql_read, sql, clean. cbn.
  destruct (4 <=? db_schema (st_db st))%Z; cbn in Hc |- *; [|injection Hc as <- _; by injection Hs as <- _].
  apply mbind_Ok in Hc as (row & s3 & [-> E3]%sql_read_Ok & Hc). rewrite E2 in Hc.
  destruct (last_cut_row (st_db st)) as [row|]; cbn in Hc |- *; [|injection Hc as <- _; by injection Hs as <- _].
  destruct (decode_count (c_seq row)); [|done]. destruct (decode_hash (c_hash row)); [|done].
  destruct (decode_count (c_removed row)); [|done]. cbn. injection Hc as <- _. by injection Hs as <- _.
Qed.

(** It is a matter of the cuts alone. *)
Lemma start_of_same d d' :
  db_cuts d' = db_cuts d -> db_schema d' = db_schema d -> fst (start_of (mkStore d' [])) = fst (start_of (mkStore d [])).
Proof.
  intros Ec Es. unfold start_of, latest_cut_of, has_cut_table, last_cut_row, mbind, sql_read, sql. cbn. rewrite Es.
  destruct (4 <=? db_schema d)%Z; cbn; [|done]. rewrite Ec.
  destruct (last _) as [row|]; cbn; [|done]. destruct (decode_count (c_seq row)); cbn; [|done].
  destruct (decode_hash (c_hash row)); cbn; [|done]. by destruct (decode_count (c_removed row)).
Qed.

Section cut.
Context {D : Type} {H : Sha256} {J : Json} {LJ : LogJson} {W : WireJson} {WL : WireJsonLaws W}.
Context (sh : Shell D) (database : string).

Definition trail_db (h : TrailHost) : Db := st_db (t_store h).

(** The log is in order and verifies from where it starts. *)
Definition trail_ok (d : Db) : Prop :=
  log_wf d /\ (4 <= db_schema d)%Z /\
  exists start rows v, fst (start_of (mkStore d [])) = Ok start /\ res_mapM audit_row (db_log d) = Ok rows /\
    verify_from start (map row_as_stored rows) = Ok v /\ (first_seq start + Z.of_nat (length rows) <= u64_max)%Z.

Definition in_archive (dk : disk) (path : string) (record : StoredRecord) : Prop :=
  exists files, rotation_set dk path = Ok files /\ held (archive_lines dk files) record.

(** ** What others do meanwhile

    The service appends records that keep the trail verifying; the archive only
    grows, by lines and by files; the anchor file is left alone. *)
Definition appends (d d' : Db) : Prop :=
  db_log d `prefix_of` db_log d' /\ db_cuts d' = db_cuts d /\ db_schema d' = db_schema d /\ (trail_ok d -> trail_ok d').
Definition archive_grows (dk dk' : disk) : Prop :=
  forall path files, rotation_set dk path = Ok files ->
    exists files', rotation_set dk' path = Ok files' /\ files ⊆ files' /\ archive_lines dk files ⊆ archive_lines dk' files'.
Definition same_files (o o' : os) : Prop := os_inodes o' = os_inodes o /\ os_names o' = os_names o.
Definition others_add (h h' : TrailHost) : Prop :=
  appends (trail_db h) (trail_db h') /\ same_files (t_os h) (t_os h') /\ archive_grows (t_disk h) (t_disk h').

#[local] Instance appends_preorder : PreOrder appends.
Proof.
  split; [by intros d|]. intros a b c (P1 & C1 & S1 & O1) (P2 & C2 & S2 & O2).
  split_and!; [by etrans|by rewrite C2|by rewrite S2|auto].
Qed.
#[local] Instance archive_grows_preorder : PreOrder archive_grows.
Proof.
  split; [intros dk path files Hf; by exists files|]. intros a b c H1 H2 path files Hf.
  destruct (H1 path files Hf) as (files1 & Hf1 & Hs1 & Hl1). destruct (H2 path files1 Hf1) as (files2 & Hf2 & Hs2 & Hl2).
  exists files2. split_and!; [done|set_solver|set_solver].
Qed.
#[local] Instance others_add_preorder : PreOrder others_add.
Proof.
  split; [by intros h|]. intros a b c (A1 & [I1 N1] & D1) (A2 & [I2 N2] & D2).
  split_and!; [by etrans|split; congruence|by etrans].
Qed.

Lemma archive_lines_subset dk files files' : files ⊆ files' -> archive_lines dk files ⊆ archive_lines dk files'.
Proof.
  intros Hs line. unfold archive_lines. rewrite !list_elem_of_In, !in_flat_map. intros (f & Hf & Hl). exists f. split; [|done].
  apply list_elem_of_In, Hs, list_elem_of_In, Hf.
Qed.

Lemma held_subset lines lines' record : lines ⊆ lines' -> held lines record -> held lines' record.
Proof. intros Hs [Hl|Hc]; [left; by apply Hs|by right]. Qed.

Lemma in_archive_grows dk dk' path record : archive_grows dk dk' -> in_archive dk path record -> in_archive dk' path record.
Proof.
  intros Hg (files & Hf & Hh). destruct (Hg path files Hf) as (files' & Hf' & _ & Hl). exists files'. split; [done|].
  by eapply held_subset.
Qed.

(** ** The anchor file *)

(** It ends where a line does. *)
Definition ends_line (b : bytes) : Prop := b = [] \/ exists b', b = b' ++ [newline].
Definition anchor_file_ok (path : string) (o : os) : Prop :=
  forall i, os_names o !! path = Some i -> ends_line (os_content i o).

Definition anchored (path line : string) (o : os) : Prop :=
  exists i, os_names o !! path = Some i /\ line ∈ split_on newline (str_of_bytes (os_content i o)).

Lemma str_of_bytes_app a b : str_of_bytes (a ++ b) = (str_of_bytes a ++ str_of_bytes b)%string.
Proof. induction a as [|x a IH]; simpl; [done|]. by rewrite <- IH. Qed.

(** A line written after the end of one is a line of the file. *)
Lemma split_ended b line : ends_line b -> contains newline line = false ->
  line ∈ split_on newline (str_of_bytes (b ++ as_bytes line ++ [newline])) /\
  forall other, other ∈ split_on newline (str_of_bytes b) ->
    other ∈ split_on newline (str_of_bytes (b ++ as_bytes line ++ [newline])).
Proof.
  intros Hb Hl. rewrite !str_of_bytes_app, str_of_as. change (str_of_bytes [newline]) with (String newline EmptyString).
  destruct Hb as [->|[b' ->]].
  - cbn [str_of_bytes string_of_list_ascii String.append]. rewrite split_on_app by done. split; [left|].
    intros other ->%list_elem_of_singleton. right. left.
  - assert (forall x, (String newline EmptyString ++ x)%string = String newline x) as En by done.
    rewrite str_of_bytes_app, str_app_assoc. change (str_of_bytes [newline]) with (String newline EmptyString).
    rewrite En, split_on_app_sep, (split_on_app newline line) by done.
    split; [apply elem_of_app; right; left|]. intros other. rewrite split_on_app_sep, !elem_of_app.
    intros [Ho| ->%list_elem_of_singleton]; [by left|]. right. right. left.
Qed.

Lemma anchor_encode_line a : contains newline (anchor_encode a) = false.
Proof. unfold anchor_encode. destruct (json_wire _) as [s|e] eqn:Hw; [by eapply json_wire_line|done]. Qed.

(** ** The log, split at a cut *)

Lemma query_all_Ok limit st rows : log_wf (st_db st) ->
  fst (audit_query (mkAuditFilter limit (Oldest None) None None None None) st) = Ok rows ->
  res_mapM audit_row (take_Z limit (db_log (st_db st))) = Ok rows.
Proof.
  intros Hwf. unfold audit_query. destruct (mbind _ _ st) as [r s'] eqn:Hr. cbn [fst]. intros ->.
  apply mbind_Ok in Hr as (l & s1 & [-> _]%sql_read_Ok & [Hm _]%mlift_Ok).
  unfold query_rows in Hm. cbn [af_window af_limit] in Hm.
  rewrite filter_keep in Hm by done. change (sort_by seq_leb (db_log (st_db st))) with (log_by_seq (st_db st)) in Hm.
  by rewrite log_by_seq_id in Hm.
Qed.

Lemma last_seq_snoc d l r : last_seq d (l ++ [r]) = sr_seq r.
Proof. revert d. induction l; simpl; auto. Qed.

(** The rows up to a verified head are the rows that were verified. *)
Lemma cut_splits d gone kept rows start v :
  log_wf d -> db_log d = gone ++ kept -> gone <> [] ->
  res_mapM audit_row gone = Ok rows -> verify_from start (map row_as_stored rows) = Ok v ->
  (forall y, y ∈ gone -> (l_seq y <=? v_head_seq v)%Z = true) /\
  (forall y, y ∈ kept -> (l_seq y <=? v_head_seq v)%Z = false) /\ (0 <= v_head_seq v)%Z.
Proof.
  intros Hwf Hd Hne Hrows (_ & Hv & _)%verify_from_Ok. destruct gone as [|x g _] using rev_ind; [done|].
  apply res_mapM_Ok, Forall2_app_inv_l in Hrows as (rs & l & _ & Hl & ->).
  inversion Hl as [|? a ? l' Hx Hn]; subst. inversion Hn; subst. apply audit_row_Ok in Hx as (Ea & _ & _ & H0).
  rewrite map_app in Hv. cbn [map] in Hv. rewrite last_seq_snoc in Hv. simpl in Hv. rewrite Hv, Ea. unfold log_wf in Hwf. rewrite Hd in Hwf.
  apply StronglySorted_app in Hwf as (Hgk & Hs & _). apply StronglySorted_app in Hs as (Hg & _ & _). split_and!; [| |done].
  - intros y [Hy| ->%list_elem_of_singleton]%elem_of_app; apply Z.leb_le; [|lia].
    apply Z.lt_le_incl, Hg; [done|]. left.
  - intros y Hy. apply Z.leb_gt, Hgk; [|done]. apply elem_of_app. right. left.
Qed.

(** A cut that is refused has changed nothing. *)
Lemma audit_cut_Err through hash now anchor s e s' : audit_cut through hash now anchor s = (Err e, s') -> st_db s' = st_db s.
Proof.
  unfold audit_cut. intros [(t & s1 & [_ ->]%mlift_Ok & Hc)|(x & Hx & _)]%mbind_inv; [|by apply mlift_inv in Hx as [_ ->]].
  apply mbind_inv in Hc as [(u & s2 & H2 & Hc)|(x & Hx & _)].
  - apply transaction_Err in Hc. rewrite Hc. by apply require_cut_reads in H2.
  - by apply require_cut_reads in Hx.
Qed.
(** ** What a step of the cut may do *)

Section command.
Context (keep : Z) (anchor_file : string) (archive : option string) (assume_archived dry_run : bool).

(** Records go: those of the log through the last that was verified, at least [keep]
    stay, the start is moved to it, its anchor is in the anchor file, and each record
    that goes is a line of the archive, unless the operator waived that. *)
Definition backed (h h' : TrailHost) : Prop :=
  exists start gone kept rows v taken,
    db_log (trail_db h) = gone ++ kept /\ db_log (trail_db h') = kept /\ (keep <= Z.of_nat (length kept))%Z /\
    fst (start_of (clean (t_store h))) = Ok start /\ res_mapM audit_row gone = Ok rows /\
    verify_from start (map row_as_stored rows) = Ok v /\
    fst (start_of (clean (t_store h'))) = Ok (AfterCut (v_head_seq v) (v_head_hash v)) /\
    anchored anchor_file (anchor_encode (anchor_over v taken)) (t_os h) /\
    match archive with
    | Some path => Forall (in_archive (t_disk h) path) (map row_as_stored rows)
    | None => assume_archived = true
    end.

Definition step_ok (h h' : TrailHost) : Prop :=
  (trail_ok (trail_db h) -> trail_ok (trail_db h')) /\
  (db_log (trail_db h') = db_log (trail_db h) \/ (dry_run = false /\ backed h h')).

Abbreviation twp m Q h := (wp others_add step_ok m Q h).

(** The calls that leave tables, anchor file and archive as they are. *)
Definition leaves (h h' : TrailHost) : Prop := trail_db h' = trail_db h /\ same_files (t_os h) (t_os h') /\ t_disk h' = t_disk h.

Lemma leaves_others h h' h2 : leaves h h' -> others_add h' h2 -> others_add h h2.
Proof. intros (Ed & [Ei En] & Ek). unfold others_add, same_files. by rewrite Ed, Ei, En, Ek. Qed.

Lemma leaves_ok h h' : leaves h h' -> step_ok h h'.
Proof. intros (Ed & _ & _). unfold step_ok. rewrite Ed. split; [done|by left]. Qed.

Lemma twp_quiet {A B} (f : stm TrailHost CliError A) (k : A -> trail_m B) Q h :
  (forall h, leaves h (snd (f h))) ->
  (forall h1 h2, others_add h h1 -> others_add h1 h2 ->
    match fst (f h1) with Ok a => twp (k a) Q h2 | Err e => Q (Err e) h2 end) ->
  twp (pbind (patomic f) k) Q h.
Proof.
  intros Hf Hk. apply wp_bind; [apply _|]. apply wp_atomic. intros h1 H1. split; [by apply leaves_ok|].
  intros h2 H2. apply Hk; [done|]. by eapply leaves_others.
Qed.

Lemma twp_step {A B} (f : TrailHost -> A * TrailHost) (k : A -> trail_m B) Q h :
  (forall h, leaves h (snd (f h))) ->
  (forall a h2, others_add h h2 -> twp (k a) Q h2) -> twp (pbind (pstep f) k) Q h.
Proof.
  intros Hf Hk. apply wp_bind; [apply _|]. apply wp_step. intros h1 H1. split; [by apply leaves_ok|].
  intros h2 H2. apply Hk. etrans; [exact H1|]. by eapply leaves_others.
Qed.

Lemma twp_lift {A B} (r : result CliError A) (k : A -> trail_m B) Q h :
  (forall a, r = Ok a -> twp (k a) Q h) -> (forall e h2, others_add h h2 -> r = Err e -> Q (Err e) h2) ->
  twp (pbind (plift r) k) Q h.
Proof. destruct r as [a|e]; simpl; intros HO HE; [by apply HO|]. intros h2 H2. by apply HE. Qed.

Lemma t_sql_leaves {A} (work : store_m A) h : reads_only work ->
  leaves h (snd ((fun h => let '(r, st) := work (t_store h) in (map_err CeStore r, set_t_store st h)) h)).
Proof.
  intros Hr. cbv beta. destruct (work (t_store h)) as [r st] eqn:Hw. split_and!; [|done|done].
  unfold trail_db. simpl. by eapply Hr.
Qed.

Lemma twp_sql {A B} (work : store_m A) (k : A -> trail_m B) Q h :
  reads_only work ->
  (forall a h1 h2, others_add h h1 -> others_add h1 h2 -> fst (work (t_store h1)) = Ok a -> twp (k a) Q h2) ->
  (forall e h2, others_add h h2 -> Q (Err (CeStore e)) h2) ->
  twp (pbind (t_sql work) k) Q h.
Proof.
  intros Hr HO HE. apply twp_quiet; [intros h'; by apply t_sql_leaves|]. intros h1 h2 H1 H2.
  destruct (work (t_store h1)) as [r st] eqn:Hw. simpl. destruct r as [a|e]; simpl.
  - apply (HO a h1 h2); [done|done|]. by rewrite Hw.
  - apply HE. by etrans.
Qed.

Lemma twp_asks {A B} (ask : disk -> result string A) (k : A -> trail_m B) Q h :
  (forall a h1 h2, others_add h h1 -> others_add h1 h2 -> ask (t_disk h1) = Ok a -> twp (k a) Q h2) ->
  (forall e h2, others_add h h2 -> Q (Err (CeIo e)) h2) ->
  twp (pbind (t_asks ask) k) Q h.
Proof.
  intros HO HE. apply twp_quiet; [done|]. intros h1 h2 H1 H2. simpl.
  destruct (ask (t_disk h1)) as [a|e] eqn:Ha; simpl; [by apply (HO a h1 h2)|]. apply HE. by etrans.
Qed.

Lemma anchored_same path line o o' : same_files o o' -> anchored path line o -> anchored path line o'.
Proof. intros [Ei En] (i & Hi & Hl). exists i. unfold os_content in *. by rewrite Ei, En. Qed.
Lemma anchor_file_ok_same path o o' : same_files o o' -> anchor_file_ok path o -> anchor_file_ok path o'.
Proof. intros [Ei En] Ho i. unfold os_content in *. rewrite Ei, En. apply Ho. Qed.

(** A read of a file leaves every file as it is. *)
Lemma twp_read {B} path (k : result ReadError string -> trail_m B) Q h :
  (forall r h2, others_add h h2 -> twp (k r) Q h2) -> twp (pbind (t_read path) k) Q h.
Proof.
  intros Hk. apply twp_step; [|done]. intros h1. destruct (os_read_to_string path (t_os h1)) as [r o] eqn:Hr.
  split_and!; [done| |done]. unfold os_read_to_string in Hr. simpl.
  by destruct (os_faults (t_os h1)) as [|[f|] fs]; injection Hr as _ <-.
Qed.

(** A call on the anchor file leaves the tables and the archive. *)
Lemma twp_file {A B} (work : stm os string A) (k : A -> trail_m B) Q h :
  (forall r h1 h2, others_add h h1 -> others_add (set_t_os (snd (work (t_os h1))) h1) h2 -> fst (work (t_os h1)) = r ->
     match r with Ok a => twp (k a) Q h2 | Err e => Q (Err (CeIo e)) h2 end) ->
  twp (pbind (t_file work) k) Q h.
Proof.
  intros Hk. apply wp_bind; [apply _|]. apply wp_atomic. intros h1 H1. cbv beta.
  destruct (work (t_os h1)) as [r o] eqn:Hw. split; [split; [done|by left]|]. intros h2 H2. cbn [fst snd] in *.
  specialize (Hk r h1 h2 H1). rewrite Hw in Hk. specialize (Hk H2 eq_refl). by destruct r.
Qed.

(** What others add, but for the anchor file. *)
Definition around (h h' : TrailHost) : Prop := appends (trail_db h) (trail_db h') /\ archive_grows (t_disk h) (t_disk h').
#[local] Instance around_preorder : PreOrder around.
Proof. split; [by intros h|]. intros a b c [A1 D1] [A2 D2]. split; by etrans. Qed.
Lemma others_around h h' : others_add h h' -> around h h'.
Proof. by intros (? & _ & ?). Qed.

Lemma around_file h h1 o h2 : around h h1 -> others_add (set_t_os o h1) h2 -> around h h2.
Proof. intros H1 (A & _ & K). etrans; [exact H1|]. by split. Qed.

Lemma open_append_anchor path o i o1 : anchor_file_ok path o -> os_open_append path o = (Ok i, o1) ->
  os_names o1 !! path = Some i /\ ends_line (os_content i o1) /\
  forall other, anchored path other o -> anchored path other o1.
Proof.
  intros Hok [_ [(Hn & En & Ei)|(Hn & En & Hi & Ei)]]%os_open_append_spec.
  - split_and!; [by rewrite En| |].
    + pose proof (Hok i Hn) as He. unfold os_content in *. by rewrite Ei.
    + intros other. by apply anchored_same.
  - split_and!; [by rewrite En, lookup_insert_eq| |].
    + left. unfold os_content. by rewrite Ei, lookup_insert_eq.
    + intros other (j & Hj & _). congruence.
Qed.

Lemma sync_same i o r o1 : os_sync_data i o = (r, o1) -> same_files o o1.
Proof. unfold os_sync_data, os_plain, os_call. by destruct (os_faults o) as [|[f|] fs]; intros [= <- <-]. Qed.

Lemma write_all_anchor i line o o1 : os_write_all i line o = (Ok tt, o1) ->
  os_names o1 = os_names o /\ os_content i o1 = os_content i o ++ line.
Proof.
  unfold os_write_all, os_call. destruct (os_faults o) as [|[f|] fs]; [|done|]; intros [= <-]; split; try done;
    by rewrite os_content_put.
Qed.

(** A line appended is a line of the file, and so are those that were. *)
Lemma append_line_spec path line Q h :
  contains newline line = false -> anchor_file_ok path (t_os h) ->
  (forall r h2, around h h2 ->
     (r = Ok tt -> anchored path line (t_os h2) /\ anchor_file_ok path (t_os h2) /\
        forall other, anchored path other (t_os h) -> anchored path other (t_os h2)) -> Q r h2) ->
  twp (append_line path line) Q h.
Proof.
  intros Hline Hok HQ. unfold append_line. apply twp_file. intros r h1 h2 H1 H2 Hr.
  assert (around h h2) as R2 by (eapply around_file; [by apply others_around|exact H2]).
  destruct r as [i|e]; [|by apply HQ]. destruct (os_open_append path (t_os h1)) as [r1 o1] eqn:Ho. cbn [fst snd] in *. subst r1.
  destruct H1 as (_ & F1 & _). destruct (open_append_anchor path (t_os h1) i o1) as (Hn & He & Hk);
    [by eapply anchor_file_ok_same|done|]. destruct H2 as (_ & F2 & _). cbn [t_os set_t_os] in F2.
  apply twp_file. intros r h3 h4 H3 H4 Hr.
  assert (around h h4) as R4 by (eapply around_file; [etrans; [exact R2|by apply others_around]|exact H4]).
  destruct r as [[]|e]; [|by apply HQ]. destruct (os_write_all i _ (t_os h3)) as [r3 o3] eqn:Hw3. cbn [fst snd] in *. subst r3.
  apply write_all_anchor in Hw3 as [N3 C3]. destruct H3 as (_ & F3 & _), H4 as (_ & F4 & _). cbn [t_os set_t_os] in F4.
  apply twp_file. intros r h5 h6 H5 H6 Hr.
  assert (around h h6) as R6 by (eapply around_file; [etrans; [exact R4|by apply others_around]|exact H6]).
  destruct r as [[]|e]; [|by apply HQ]. destruct (os_write_all i _ (t_os h5)) as [r5 o5] eqn:Hw5. cbn [fst snd] in *. subst r5.
  apply write_all_anchor in Hw5 as [N5 C5]. destruct H5 as (_ & F5 & _), H6 as (_ & F6 & _). cbn [t_os set_t_os] in F6.
  assert (os_names o5 !! path = Some i /\ os_content i o5 = os_content i o1 ++ as_bytes line ++ [newline]) as [Hname Hcontent].
  { destruct F2 as [I2 M2], F3 as [I3 M3], F4 as [I4 M4], F5 as [I5 M5]. split; [congruence|].
    rewrite C5. unfold os_content in *. rewrite I5, I4, C3, I3, I2. by rewrite <- app_assoc. }
  destruct (split_ended (os_content i o1) line He Hline) as [Hin Hothers]. rewrite <- Hcontent in Hin, Hothers.
  apply wp_atomic. intros h7 H7. cbv beta. destruct (os_sync_data i (t_os h7)) as [r7 o7] eqn:Hw7. cbn [fst snd].
  split; [split; [done|by left]|]. intros h8 H8.
  assert (around h h8) as R8 by (eapply around_file; [etrans; [exact R6|by apply others_around]|exact H8]).
  apply HQ; [done|]. intros _. destruct H7 as (_ & F7 & _), H8 as (_ & F8 & _). cbn [t_os set_t_os] in F8.
  assert (same_files o5 (t_os h8)) as Hsame.
  { pose proof (sync_same _ _ _ _ Hw7) as F78. destruct F6, F7, F8, F78. split; congruence. }
  split_and!.
  - apply (anchored_same path line o5); [done|]. by exists i.
  - apply (anchor_file_ok_same path o5); [done|]. intros j Hj. rewrite Hname in Hj. injection Hj as <-.
    right. exists (os_content i o1 ++ as_bytes line). by rewrite Hcontent, app_assoc.
  - intros other Ha. apply (anchored_same path other o5); [done|]. exists i. split; [done|]. apply Hothers.
    apply (anchored_same path other (t_os h) (t_os h1) F1) in Ha. destruct (Hk other Ha) as (j & Hj & Hl). congruence.
Qed.

(** The check of the archive, once it has passed. *)
Lemma require_archived_spec removing Q h :
  (archive = None -> assume_archived = true) ->
  (forall r h2, others_add h h2 ->
     (r = Ok tt -> match archive with
                   | Some path => Forall (in_archive (t_disk h2) path) removing
                   | None => assume_archived = true end) -> Q r h2) ->
  twp (require_archived archive assume_archived removing) Q h.
Proof.
  intros Hclap HQ. unfold require_archived. destruct archive as [path|].
  - apply twp_asks; [|intros e h2 H2; by apply HQ]. intros files h1 h2 H1 H2 Hfiles.
    assert (exists files', rotation_set (t_disk h2) path = Ok files' /\ files ⊆ files') as (files2 & Hf2 & Hs2).
    { destruct H2 as (_ & _ & Hg). destruct (Hg path files Hfiles) as (files2 & ? & ? & _). eauto. }
    assert (others_add h h2) as H02 by by etrans. clear h1 H1 H2 Hfiles.
    apply twp_asks; [|intros e h3 H3; apply HQ; [by etrans|done]]. intros c h3 h4 H3 H4 Hc.
    assert (others_add h h4) as H04 by (etrans; [exact H02|]; by etrans).
    destruct (is_complete c) eqn:Hcomplete; cbn [negb].
    + assert (Forall (in_archive (t_disk h4) path) removing) as Hall.
      { destruct H3 as (_ & _ & G3), H4 as (_ & _ & G4). destruct (G3 path files2 Hf2) as (files3 & Hf3 & Hs3 & _).
        pose proof (complete_held _ _ _ _ Hc Hcomplete) as Hheld. eapply Forall_impl; [exact Hheld|].
        intros r Hr. apply (in_archive_grows (t_disk h3)); [done|]. exists files3. split; [done|].
        eapply held_subset; [|exact Hr]. apply archive_lines_subset. set_solver. }
      apply wp_step. intros h5 H5. split; [by apply leaves_ok|]. intros h6 H6.
      assert (others_add h4 h6) as H46 by (etrans; [exact H5|]; by eapply leaves_others).
      apply HQ; [by etrans|]. intros _. eapply Forall_impl; [exact Hall|]. intros r. apply in_archive_grows, H46.
    + intros h5 H5. apply HQ; [by etrans|done].
  - rewrite (Hclap eq_refl). cbn [negb]. apply twp_step; [done|]. intros [] h2 H2. apply wp_step. intros h3 H3.
    split; [by apply leaves_ok|]. intros h4 H4. apply HQ; [|by intros _; apply Hclap].
    etrans; [exact H2|]. etrans; [exact H3|]. by eapply leaves_others.
Qed.

(** ** The step that removes *)

Lemma trail_ok_bound d start rows gone kept gone_rows v :
  db_log d = gone ++ kept -> res_mapM audit_row (db_log d) = Ok rows -> res_mapM audit_row gone = Ok gone_rows ->
  gone <> [] -> verify_from start (map row_as_stored gone_rows) = Ok v -> (0 <= first_seq start)%Z ->
  (first_seq start + Z.of_nat (length rows) <= u64_max)%Z ->
  (first_seq (AfterCut (v_head_seq v) (v_head_hash v)) + Z.of_nat (length kept) <= u64_max)%Z.
Proof.
  intros Hd Hrows Hgone Hne (Hc & Hv & _)%verify_from_Ok H0 Hm.
  apply res_mapM_Ok, Forall2_length in Hrows as Hlen. apply res_mapM_Ok, Forall2_length in Hgone as Hlen'.
  rewrite Hd, length_app in Hlen. destruct gone_rows as [|a g _] using rev_ind; [by destruct gone|].
  rewrite map_app in Hv. cbn [map] in Hv. rewrite last_seq_snoc in Hv.
  assert (map row_as_stored (g ++ [a]) !! length g = Some (row_as_stored a)) as Hi.
  { rewrite map_app. rewrite lookup_app_r by by rewrite length_map. by rewrite length_map, Nat.sub_diag. }
  rewrite length_app in Hlen'. simpl in Hlen'.
  assert (first_seq start + Z.of_nat (length (map row_as_stored (g ++ [a]))) <= u64_max)%Z as Hb
    by (rewrite length_map, length_app; simpl; lia).
  destruct (chained_take _ _ _ _ _ _ Hc H0 Hb Hi) as [Es _].
  simpl. rewrite Hv, Es. unfold u64_sat_add. lia.
Qed.

Lemma cut_step gone kept rows start v taken now h :
  dry_run = false -> trail_ok (trail_db h) -> db_log (trail_db h) = gone ++ kept -> gone <> [] ->
  res_mapM audit_row gone = Ok rows -> fst (start_of (clean (t_store h))) = Ok start ->
  verify_from start (map row_as_stored rows) = Ok v -> (keep <= Z.of_nat (length kept))%Z ->
  anchored anchor_file (anchor_encode (anchor_over v taken)) (t_os h) ->
  match archive with
  | Some path => Forall (in_archive (t_disk h) path) (map row_as_stored rows)
  | None => assume_archived = true
  end ->
  let '(r, st) := audit_cut (v_head_seq v) (v_head_hash v) now (Some anchor_file) (t_store h) in
  step_ok h (set_t_store st h) /\
  forall c, r = Ok c -> st_db st = trail_db (set_t_store st h) /\ db_log (st_db st) = kept /\ trail_ok (st_db st) /\
    cut_as_start c = AfterCut (v_head_seq v) (v_head_hash v).
Proof.
  intros Hdry (Hwf & Hsch & start0 & rows0 & v0 & Hstart0 & Hrows0 & Hv0 & Hm0) Hd Hne Hrows Hstart Hv Hkeep Hanchor Harch.
  destruct (audit_cut _ _ _ _ (t_store h)) as [r st] eqn:Hcut.
  destruct r as [c|e]; [|apply audit_cut_Err in Hcut; split; [|done]; unfold step_ok, trail_db; simpl; rewrite Hcut; by split; [|left]].
  assert (start0 = start) as -> by (unfold clean in Hstart; unfold trail_db in Hstart0; congruence).
  destruct (cut_splits _ _ _ _ _ _ Hwf Hd Hne Hrows Hv) as (Hin & Hout & Hpos).
  assert (0 <= first_seq start)%Z as H0 by by eapply (start_of_nonneg (t_store h)).
  pose proof (trail_ok_bound _ _ _ _ _ _ _ Hd Hrows0 Hrows Hne Hv H0 Hm0) as Hbound.
  assert (fst (records (clean (t_store h))) = Ok rows0) as Hrec0.
  { rewrite records_clean. unfold trail_db in *. by rewrite log_by_seq_id. }
  pose proof (cut_keeps_verifying _ _ _ _ _ _ _ _ _ _ Hwf Hpos Hrec0 Hstart Hv0 Hm0 Hcut) as Hkv.
  destruct Hkv as (Hne' & Hrec & Hstart' & v' & Hv' & _).
  apply audit_cut_Ok in Hcut as (row & _ & _ & _ & _ & _ & Ec & Edb). cbv zeta in Ec, Edb.
  assert (db_log (st_db st) = kept) as Elog.
  { rewrite Edb. simpl. change (st_db (t_store h)) with (trail_db h). rewrite Hd, List.filter_app.
    rewrite filter_drop, filter_keep; [done| |]; intros y Hy; [by rewrite Hout|by rewrite Hin]. }
  assert (log_wf (st_db st)) as Hwf'.
  { unfold log_wf. rewrite Elog. unfold log_wf in Hwf. rewrite Hd in Hwf. by apply StronglySorted_app in Hwf as (_ & _ & ?). }
  rewrite records_clean, log_by_seq_id in Hrec by done.
  assert (trail_ok (st_db st)) as Hok.
  { split; [done|]. split; [by rewrite Edb|]. eexists _, _, v'. split; [exact Hstart'|]. split; [exact Hrec|].
    split; [exact Hv'|]. apply res_mapM_Ok, Forall2_length in Hrec. rewrite <- Hrec, Elog. exact Hbound. }
  split; [|intros c0 [= <-]; split_and!; [done|done|done|by rewrite Ec]].
  split; [done|]. right. split; [done|].
  exists start, gone, kept, rows, v, taken. by split_and!.
Qed.

(** ** The whole command *)

(** What a cut that succeeds has done: either the log it found was no longer than
    what stays, or it kept exactly that many of what it found, the trail starts at
    the cut, and the anchors of the cut and of the head it verified after it are both
    in the anchor file. *)
Definition cut_done (h0 : TrailHost) (r : result CliError unit) (h' : TrailHost) : Prop :=
  r = Ok tt -> dry_run = false ->
  exists found, take_Z u32_max (db_log (trail_db h0)) `prefix_of` found /\
    ((length found <= Z.to_nat keep)%nat \/
     exists gone kept start rows rows' v v' taken taken',
       found = gone ++ kept /\ length kept = Z.to_nat keep /\ kept `prefix_of` db_log (trail_db h') /\
       res_mapM audit_row gone = Ok rows /\ verify_from start (map row_as_stored rows) = Ok v /\
       res_mapM audit_row kept = Ok rows' /\
       verify_from (AfterCut (v_head_seq v) (v_head_hash v)) (map row_as_stored rows') = Ok v' /\
       anchored anchor_file (anchor_encode (anchor_over v taken)) (t_os h') /\
       anchored anchor_file (anchor_encode (anchor_over v' taken')) (t_os h')).

Lemma others_ok h h' : others_add h h' -> trail_ok (trail_db h) -> trail_ok (trail_db h').
Proof. intros ((_ & _ & _ & Hok) & _). exact Hok. Qed.

(** The messages at the end. *)
Lemma twp_say {B} (text : string) (k : unit -> trail_m B) Q h :
  (forall h2, others_add h h2 -> twp (k tt) Q h2) ->
  twp (pbind (t_eprintln text) k) Q h /\ twp (pbind (t_println text) k) Q h.
Proof. intros Hk. split; (apply twp_step; [done|]); by intros []. Qed.

Lemma twp_said (text : string) Q h : (forall h2, others_add h h2 -> Q (Ok tt) h2) -> twp (t_eprintln text) Q h.
Proof.
  intros HQ. apply wp_step. intros h1 H1. split; [by apply leaves_ok|]. intros h2 H2. apply HQ.
  etrans; [exact H1|]. by eapply leaves_others.
Qed.

(** The end of a cut, from the anchor of the cut on. *)
Lemma cut_trail_end h0 found gone kept start rows rows' v Q h :
  dry_run = false -> (archive = None -> assume_archived = true) ->
  trail_ok (trail_db h) -> found = gone ++ kept -> gone <> [] -> found `prefix_of` db_log (trail_db h) ->
  length kept = Z.to_nat keep -> take_Z u32_max (db_log (trail_db h0)) `prefix_of` found ->
  res_mapM audit_row gone = Ok rows -> res_mapM audit_row kept = Ok rows' ->
  fst (start_of (clean (t_store h))) = Ok start -> verify_from start (map row_as_stored rows) = Ok v ->
  anchor_file_ok anchor_file (t_os h) ->
  match archive with
  | Some path => Forall (in_archive (t_disk h) path) (map row_as_stored rows)
  | None => assume_archived = true
  end ->
  (forall r h', cut_done h0 r h' -> Q r h') ->
  forall taken, twp (
    let* line := append_anchor anchor_file (anchor_over v taken) in
    let* _ := t_open_device sh in
    let* now := t_now in
    let* cut := t_sql (audit_cut (v_head_seq v) (v_head_hash v) now (Some anchor_file)) in
    let* remainder := plift (map_err CeChainBroken (verify_from (cut_as_start cut) (map row_as_stored rows'))) in
    let* now := t_now in
    let head := anchor_over remainder now in
    let* head_line := append_anchor anchor_file head in
    let* _ := t_println line in
    let* _ := t_println head_line in
    let* _ := t_eprintln ("removed " ++ dec (cut_removed cut) ++ " entries through sequence " ++ dec (cut_seq cut) ++ "; "
      ++ dec (v_records remainder) ++ " remain, from sequence " ++ dec (u64_add (cut_seq cut) 1)) in
    let* _ := t_eprintln ("appended the anchor at the cut and an anchor over the remainder to " ++ anchor_file) in
    let* _ := t_eprintln "this cut is not itself an audit entry: writing one needs the lock the running service holds, and it would move the head just anchored. The store's record of it is the audit_cut row, and the anchor above is the copy of that outside the store." in
    if beside_the_store database anchor_file then
      t_eprintln "the anchor file sits beside the store. Whoever can rewrite the trail can rewrite it too, which is the one thing an anchor is for: keep it on another host, in a backup, or on an append-only share."
    else pret tt) Q h.
Proof.
  intros Hdry Hclap Hok Hfound Hne Hpre Hlen Htake Hgone Hkept Hstart Hv Hfile Harch HQ taken.
  assert (forall r h', r <> Ok tt -> Q r h') as HErr by (intros r h' Hr; apply HQ; intros ->; done).
  set (line1 := anchor_encode (anchor_over v taken)).
  apply wp_bind; [apply _|]. unfold append_anchor at 1. apply wp_bind; [apply _|].
  apply append_line_spec; [apply anchor_encode_line|done|]. intros r h1 [A1 K1] Hr.
  destruct r as [[]|e]; [|by apply HErr]. destruct (Hr eq_refl) as (Hin1 & Hfile1 & _). clear Hr.
  apply wp_ret. intros h2 H2. unfold t_open_device. apply twp_lift; [|by intros; apply HErr]. intros [] _.
  apply twp_step; [done|]. intros now h3 H3. assert (others_add h1 h3) as H13 by by etrans.
  apply wp_bind; [apply _|]. apply wp_atomic. intros h4 H4. cbv beta. assert (others_add h1 h4) as H14 by by etrans.
  clear h2 h3 H2 H3 H13 H4.
  assert (appends (trail_db h) (trail_db h4)) as A4 by (etrans; [exact A1|apply H14]).
  assert (archive_grows (t_disk h) (t_disk h4)) as K4 by (etrans; [exact K1|apply H14]).
  destruct A4 as (P4 & C4 & S4 & O4).
  destruct (transitivity Hpre P4) as [more Elog]. rewrite Hfound, <- app_assoc in Elog.
  pose proof (cut_step gone (kept ++ more) rows start v taken now h4 Hdry (O4 Hok) Elog Hne Hgone) as Hcut.
  destruct (audit_cut _ _ _ _ _) as [r st] eqn:Hrun. destruct Hcut as [Hstep Hcut].
  { unfold clean in *. change (st_db (t_store ?x)) with (trail_db x) in *. by rewrite (start_of_same _ _ C4 S4). }
  { done. }
  { rewrite length_app. lia. }
  { destruct H14 as (_ & F14 & _). by eapply anchored_same. }
  { destruct archive; [|done]. eapply Forall_impl; [exact Harch|]. intros x. by apply in_archive_grows. }
  split; [exact Hstep|]. intros h5 H5. cbn [fst snd] in *. destruct r as [c|e]; [|by apply HErr].
  destruct (Hcut c eq_refl) as (_ & Elog5 & Hok5 & Estart). clear Hcut Hstep. cbn [map_err]. rewrite Estart.
  apply twp_lift; [|by intros e h6 _ _; apply HErr]. intros v' Hv'%map_err_Ok. apply twp_step; [done|]. intros now' h6 H6.
  assert (others_add (set_t_store st h4) h6) as H46 by by etrans. clear h5 H5 H6.
  assert (same_files (t_os h1) (t_os h6)) as F16.
  { destruct H14 as (_ & [I14 N14] & _), H46 as (_ & [I46 N46] & _). cbn in *. split; congruence. }
  apply wp_bind; [apply _|]. unfold append_anchor. apply wp_bind; [apply _|].
  apply append_line_spec; [apply anchor_encode_line|by eapply anchor_file_ok_same|]. intros r h7 [A7 K7] Hr.
  destruct r as [[]|e]; [|by apply HErr]. destruct (Hr eq_refl) as (Hin7 & _ & Hold). clear Hr.
  apply wp_ret. intros h8 H8.
  assert (forall h', others_add h8 h' -> Q (Ok tt) h') as Hdone.
  { intros h' H'. assert (others_add h7 h') as (A' & F' & _) by by etrans. apply HQ. intros _ _. exists found.
    split; [done|]. right. exists gone, kept, start, rows, rows', v, v', taken, now'. split_and!; try done.
    - destruct H46 as (A46 & _ & _). assert (appends (st_db st) (trail_db h')) as (P & _) by (etrans; [exact A46|]; by etrans).
      rewrite Elog5 in P. etrans; [|exact P]. by eexists.
    - apply (anchored_same _ _ (t_os h7)); [done|]. apply Hold. by eapply anchored_same.
    - by eapply anchored_same. }
  apply twp_say. intros h9 H9. apply twp_say. intros h10 H10. apply twp_say. intros h11 H11. apply twp_say. intros h12 H12.
  apply twp_say. intros h13 H13. assert (others_add h8 h13) as H813 by (do 4 (etrans; [eassumption|]); done).
  destruct (beside_the_store _ _); [apply twp_said|apply wp_ret]; intros h14 H14'; apply Hdone; by etrans.
Qed.

#[local] Opaque u32_max.

Lemma twp_if {B} (m1 m2 : trail_m B) Q h :
  (dry_run = true -> twp m1 Q h) -> (dry_run = false -> twp m2 Q h) -> twp (if dry_run then m1 else m2) Q h.
Proof. intros H1 H2. destruct dry_run; [by apply H1|by apply H2]. Qed.

Lemma reads_audit_all : reads_only audit_all.
Proof. unfold audit_all, audit_query. reads. Qed.

Lemma twp_previous {B} path (k : option Anchor -> trail_m B) Q h :
  (forall previous h2, others_add h h2 -> twp (k previous) Q h2) ->
  (forall e h2, others_add h h2 -> Q (Err e) h2) ->
  twp (pbind (previous_anchor path) k) Q h.
Proof.
  intros Hk HE. unfold previous_anchor. apply wp_assoc, twp_read. intros r h2 H2.
  destruct r as [text|[|e]].
  - apply twp_lift; [by intros previous _; apply Hk|]. intros e h3 H3 _. apply HE. by etrans.
  - by apply Hk.
  - intros h3 H3. apply HE. by etrans.
Qed.

(** The rows that stay and those that go, of what was found. *)
Lemma split_rows n raw rows : res_mapM audit_row raw = Ok rows ->
  res_mapM audit_row (take n raw) = Ok (take n rows) /\ res_mapM audit_row (drop n raw) = Ok (drop n rows).
Proof. intros Hm%res_mapM_Ok. split; apply res_mapM_Ok; [by apply Forall2_take|by apply Forall2_drop]. Qed.

Lemma cut_trail_wp h0 :
  (archive = None -> assume_archived = true) -> trail_ok (trail_db h0) -> anchor_file_ok anchor_file (t_os h0) ->
  twp (cut_trail sh database keep anchor_file archive assume_archived dry_run) (cut_done h0) h0.
Proof.
  intros Hclap Hok0 Hfile0. unfold cut_trail, t_open_read_only.
  assert (forall e h', cut_done h0 (Err e) h') as HErr by done.
  apply twp_lift; [|done]. intros [] _. apply twp_sql; [apply require_cut_reads| |done]. intros [] h1 h2 H1 H2 _.
  apply twp_sql; [apply reads_audit_all| |done]. intros rows h3 h4 H3 H4 Hrows.
  assert (others_add h0 h3) as H03 by (etrans; [exact H1|]; by etrans).
  apply query_all_Ok in Hrows; [|by apply (others_ok h0)].
  change (st_db (t_store h3)) with (trail_db h3) in Hrows. set (raw := take_Z u32_max (db_log (trail_db h3))) in *.
  assert (take_Z u32_max (db_log (trail_db h0)) `prefix_of` raw) as Htake by by apply take_Z_prefix, H03.
  assert (raw `prefix_of` db_log (trail_db h3)) as Hraw.
  { unfold raw, take_Z. eexists. symmetry. apply take_drop. }
  apply twp_sql; [apply reads_start| |done]. intros start h5 h6 H5 H6 Hstart%start_of_any.
  assert (others_add h3 h6) as H36 by (etrans; [exact H4|]; by etrans).
  assert (fst (start_of (clean (t_store h3))) = Ok start) as Hstart3.
  { assert (others_add h3 h5) as ((_ & C & S & _) & _) by (etrans; [exact H4|exact H5]). unfold clean in *.
    change (st_db (t_store ?x)) with (trail_db x) in *. by rewrite <- (start_of_same _ _ C S). }
  clear h4 h5 H4 H5 H6 Hstart. apply twp_previous; [|done]. intros previous h7 H7. apply twp_lift; [|done]. intros _ _.
  assert (others_add h3 h7) as H37 by by etrans. clear h6 H36 H7.
  apply res_mapM_Ok in Hrows as Hlen. apply Forall2_length in Hlen.
  destruct (Nat.leb_spec (length rows) (Z.to_nat keep)) as [Hle|Hgt].
  { apply twp_said. intros h8 H8 _ _. exists raw. split; [done|]. left. lia. }
  set (n := (length rows - Z.to_nat keep)%nat). destruct (split_rows n _ _ Hrows) as [Hgone Hkept].
  unfold stored_records. rewrite <- fmap_take, <- fmap_drop. apply twp_lift; [|done]. intros v Hv%map_err_Ok.
  apply twp_step; [done|]. intros taken h8 H8. apply wp_bind; [apply _|].
  apply require_archived_spec; [done|]. intros r h9 H9 Harch. destruct r as [[]|e]; [|done]. specialize (Harch eq_refl).
  assert (others_add h3 h9) as H39 by (etrans; [exact H37|]; by etrans). clear h7 h8 H37 H8 H9.
  apply twp_if; intros Hdry.
  { apply twp_say. intros h10 H10. apply twp_say. intros h11 H11. apply wp_step. intros h12 H12.
    split; [by apply leaves_ok|]. intros h13 H13 _. by rewrite Hdry. }
  assert (db_cuts (trail_db h9) = db_cuts (trail_db h3) /\ db_schema (trail_db h9) = db_schema (trail_db h3)) as [C S] by by destruct H39 as ((_ & C & S & _) & _).
  assert (trail_ok (trail_db h9)) as Hok9 by (apply (others_ok h3); [exact H39|]; by apply (others_ok h0)).
  apply (cut_trail_end h0 raw (take n raw) (drop n raw) start (take n rows) (drop n rows) v);
    [exact Hdry|exact Hclap|exact Hok9|symmetry; apply take_drop| | | |exact Htake|exact Hgone|exact Hkept| |exact Hv| |exact Harch|].
  - intros E. apply (f_equal length) in E. rewrite length_take in E. simpl in E. lia.
  - etrans; [exact Hraw|]. apply H39.
  - rewrite length_drop. lia.
  - unfold clean in *. change (st_db (t_store ?x)) with (trail_db x) in *. by rewrite (start_of_same _ _ C S).
  - destruct H39 as (_ & F & _), H03 as (_ & F0 & _). by eapply anchor_file_ok_same, anchor_file_ok_same.
  - by intros r h'.
Qed.

Lemma exec_trail_ok h0 (c : trail_m unit * TrailHost) :
  twp (fst c) (cut_done h0) (snd c) -> trail_ok (trail_db (snd c)) -> forall c', rtc (exec_step others_add) c c' ->
  trail_ok (trail_db (snd c')).
Proof.
  intros Hw Hok c' Hr. revert Hw Hok. induction Hr as [c|c c1 c2 Hs _ IH]; intros Hw Hok; [done|].
  destruct Hs as [m s s' Hrel|B f k s]; apply IH; cbn [fst snd] in *.
  - by eapply wp_rely; [apply _| |].
  - by apply others_ok with s.
  - by apply (Hw s).
  - destruct (Hw s) as [[Hg _] _]; [done|]. by apply Hg.
Qed.

(** C35: Cutting the trail destroys nothing that is not kept elsewhere. Whatever the
    service appends meanwhile, whichever call fails and wherever the command is
    stopped: the trail verifies at every moment if it did at the start; and the one
    step that removes records from the log removes a verified prefix of it, leaves at
    least as many as were to be kept, makes the rest verify from the cut, and finds
    the anchor of the cut already in the anchor file and, unless the operator waived
    it, every removed record in the archive. When it succeeds it has kept exactly as
    many of the records it found as it was told, and both anchors are in the file. *)
Theorem cut_trail_keeps_evidence h0 c :
  (archive = None -> assume_archived = true) -> trail_ok (trail_db h0) -> anchor_file_ok anchor_file (t_os h0) ->
  rtc (exec_step others_add) (cut_trail sh database keep anchor_file archive assume_archived dry_run, h0) c ->
  trail_ok (trail_db (snd c)) /\ fst c <> Panicked /\
  (forall B (f : TrailHost -> B * TrailHost) k, fst c = Step f k ->
     db_log (trail_db (snd (f (snd c)))) = db_log (trail_db (snd c)) \/
     (dry_run = false /\ backed (snd c) (snd (f (snd c))))) /\
  forall r, fst c = Done r -> cut_done h0 r (snd c).
Proof.
  intros Hclap Hok Hfile Hr. pose proof (cut_trail_wp h0 Hclap Hok Hfile) as Hw.
  split; [by apply (exec_trail_ok h0 (cut_trail sh database keep anchor_file archive assume_archived dry_run, h0) Hw Hok)|].
  destruct (exec_sound _ _ _ _ _ _ Hw Hr) as (Hc & Hp & Hd & _). split; [done|]. split; [|done].
  intros B f k Hs. rewrite Hs in Hc. destruct (Hc (snd c)) as [[_ Hg] _]; [reflexivity|exact Hg].
Qed.
End command.
End cut.

(** ** A cut that runs *)

#[local] Existing Instance toy_sha256.
#[local] Existing Instance toy_json.
#[local] Existing Instance toy_wire.
#[local] Instance no_log_columns : LogJson :=
  {| json_name _ := None; json_path _ := None; json_allowed _ := None |}.

Definition quiet_shell : Shell unit := {|
  sh_env := fun _ => VarNotPresent;
  sh_fs := fun _ => Err "not found";
  sh_read := fun _ => Err "not found";
  sh_stdin := Ok [];
  sh_stdin_terminal := false;
  sh_stdout_terminal := true;
  sh_lock := Ok tt;
  sh_open := Ok tt;
  sh_open_read_only := Ok tt;
  sh_sqlite_device := Ok tt;
  sh_file_device := fun _ => Err "not found";
  sh_toml := fun _ => Err "not here";
|}.

(** The archive: one file that holds the first record. *)
Definition first_payload : string :=
  match fst example_run with r :: _ => er_payload r | [] => EmptyString end.
Definition archive_disk : disk :=
  mkDisk (fun p => String.eqb p "audit.jsonl") (fun p => String.eqb p ".") (fun _ => Ok [Ok (as_bytes "audit.jsonl")])
    (fun p => if String.eqb p "audit.jsonl" then Ok (as_bytes (first_payload ++ str1 newline), None) else Err "No such file"%string).

Definition trail_start : TrailHost :=
  mkTrailHost example_log (mkOs ∅ ∅ [] []) archive_disk [1000; 2000; 3000]%Z EmptyString EmptyString.
Definition one_cut : trail_m unit := cut_trail quiet_shell "ciphr.db" 1 "anchors" (Some "audit.jsonl"%string) false false.
Definition cut_at (n : nat) : trail_m unit * TrailHost := advance n one_cut trail_start.


(** The fourteenth step removes the first record, after its anchor was written. *)
Example cut_removes_one :
  map (fun n => (length (db_log (trail_db (snd (cut_at n)))), size (os_names (t_os (snd (cut_at n)))))) [8; 13; 14]%nat =
    [(2, 0); (2, 1); (1, 1)]%nat.
Proof. vm_compute. reflexivity. Qed.

Example cut_succeeds :
  let '(r, h) := run one_cut trail_start in
  r = Some (Ok tt) /\ length (split_on newline (t_stdout h)) = 3%nat.
Proof. vm_compute. by split. Qed.

Lemma trail_start_ok : trail_ok (trail_db trail_start).
Proof.
  split; [|split; [by vm_compute|]].
  - unfold log_wf. vm_compute. repeat constructor.
  - eexists Genesis, _, _. split; [by vm_compute|]. split; [vm_compute; reflexivity|]. split; [vm_compute; reflexivity|].
    by vm_compute.
Qed.

Lemma cut_trail_keeps_evidence_witness :
  trail_ok (trail_db (snd (cut_at 14))) /\
  backed 1 "anchors" (Some "audit.jsonl"%string) false (snd (cut_at 13)) (snd (cut_at 14)).
Proof.
  assert (length (db_log (trail_db (snd (cut_at 14)))) <> length (db_log (trail_db (snd (cut_at 13))))) as Hne
    by (vm_compute; discriminate).
  assert (forall n, rtc (exec_step others_add) (one_cut, trail_start) (cut_at n)) as Hexec
    by (intros n; apply advance_exec).
  assert (anchor_file_ok "anchors" (t_os trail_start)) as Hfile by (intros i; discriminate).
  pose proof (fun n => cut_trail_keeps_evidence (WL := toy_wire_laws) quiet_shell "ciphr.db" 1 "anchors"
    (Some "audit.jsonl"%string) false false trail_start (cut_at n) (fun _ => ltac:(discriminate)) trail_start_ok Hfile (Hexec n)) as Hat.
  split; [apply Hat|].
  destruct (advance_next (fun h h' => db_log (trail_db h') = db_log (trail_db h) \/
    (false = false /\ backed 1 "anchors" (Some "audit.jsonl"%string) false h h')) 13 one_cut trail_start) as [E|[E|[_ Hb]]].
  - apply (Hat 13%nat).
  - exact (False_ind _ (Hne (f_equal (fun c => length (db_log (trail_db (snd c)))) E))).
  - exact (False_ind _ (Hne (f_equal (@length _) E))).
  - exact Hb.
Defined.

(** ** An anchor file that does not end a line

    [append_anchor] adds to whatever the file ends with: after a write that stopped
    between a record and its newline, the next record lands on the same line, and the
    file holds no anchor any more that can be read. *)
Definition torn_anchors : os :=
  {| os_inodes := {[ 0%nat := as_bytes (anchor_encode (mkAnchor "then" 1 (repeat zero 32))) ]};
     os_names := {[ "anchors"%string := 0%nat ]}; os_faults := []; os_blind := [] |}.
Definition torn_start : TrailHost :=
  mkTrailHost example_log torn_anchors archive_disk [1000; 2000; 3000]%Z EmptyString EmptyString.
Definition latest_after (h : TrailHost) : result AnchorError (option Anchor) :=
  match from_utf8 (os_content 0 (t_os h)) with Some text => anchor_latest text | None => Ok None end.

Example torn_line_takes_the_next_with_it :
  is_ok (latest_after torn_start) = true /\
  is_ok (latest_after (snd (run (append_line "anchors" (anchor_encode (mkAnchor "now" 2 (repeat zero 32)))) torn_start))) = false.
Proof. vm_compute. by split. Qed.
