(* ===== verification/Cli.v ===== *)
(** * The command line as one program ([ciphr-cli/src/main.rs]: audit tail, run, main)

    Every command, on one desk: the store, the trail's devices, the files, the disk of
    the archive and the volume of a backup.  The theorem is the account of the whole
    program: what each step of each command does to the store, and with which status
    the process ends. *)

From Stdlib Require Import ZArith NArith Lia Ascii String.
From stdpp Require Import base tactics list strings gmap relations.
From S2P Require Import Prelude Text Hex Path Pattern Vocabulary PolicyModel Evaluate Crypto Token Time Chain Sink Anchor.
From S2P Require Import FileDevice Archive Db Store Migrations Tokens Honeypots StoreAudit Surface Oidc Config Prog Effects Rendering.
From S2P Require Import Operator Commands Accountable OperatorTrail TrailCut Deployment.

(** ** A program on a part of the state *)

Fixpoint pzoom {St T Er B} (get : St -> T) (put : T -> St -> St) (m : prog T Er B) : prog St Er B :=
  match m with
  | Done r => Done r
  | Panicked => Panicked
  | Step f k => Step (fun s => let '(b, t) := f (get s) in (b, put t s)) (fun b => pzoom get put (k b))
  end.

Lemma wp_pzoom {St T Er B} (get : St -> T) (put : T -> St -> St) (guar : T -> T -> Prop) (guar' : St -> St -> Prop)
    (m : prog T Er B) Q s :
  (forall t s, get (put t s) = t) -> (forall s t, guar (get s) t -> guar' s (put t s)) ->
  wp eq guar m Q (get s) -> wp eq guar' (pzoom get put m) (fun r s' => Q r (get s')) s.
Proof.
  intros Hg Hp. revert s. induction m as [r| |C f k IH]; intros s; simpl.
  - intros Hw s' <-. by apply Hw.
  - intros Hw s' <-. by apply (Hw (get s)).
  - intros Hw s1 <-. destruct (Hw (get s) eq_refl) as [H1 H2]. destruct (f (get s)) as [c t]. simpl in *.
    split; [by apply Hp|]. apply IH. by rewrite Hg.
Qed.

(** ** The newest records (audit tail) *)

(** [{:>w}] on a number. *)
Definition pad_left (w : nat) (s : string) : string := spaces (w - length (chars s)) ++ s.

Section tail.
Context {D : Type} {En : Entropy} {A : Aead} {M : Mac} {H : Sha256} {J : Json} {LJ : LogJson} `{!AuditDevice D}.
Context {VJ : Document}.
Abbreviation op_m := (op_m (D := D)).
Context (sh : Shell D) (cli : Context).
(** [serde_json::from_str] *)
Context (json : string -> result string doc).

(** What an entry is about: a path, or whom. *)
Definition about (record : doc) : string :=
  match at_keys record ["entry"; "path"]%string with
  | Some path => path
  | None =>
      match at_keys record ["entry"; "subject"; "name"]%string with
      | Some name =>
          match at_keys record ["entry"; "subject"; "token_id"]%string with
          | Some token_id => name ++ " (" ++ token_id ++ ")"
          | None => name
          end
      | None => "-"
      end
  end.

Definition allow_or_deny (record : doc) : string :=
  match (entry ← doc_get record "entry"; doc_get entry "allowed") with
  | Some value => if doc_true value then "allow" else "deny"
  | None => "deny"
  end.

Definition tail_line (row : AuditRow) (record : doc) : string :=
  pad_left 6 (dec (ar_seq row)) ++ "  " ++ default "?" (at_keys record ["ts"]%string)
  ++ "  " ++ pad_right 24 (default "-" (at_keys record ["entry"; "principal"; "name"]%string))
  ++ "  " ++ pad_right 13 (default "?" (at_keys record ["entry"; "action"]%string))
  ++ "  " ++ pad_right 7 (allow_or_deny record) ++ "  " ++ about record.

Definition print_row (row : AuditRow) : op_m unit :=
  let* record := plift (map_err (fun error => CeAudit ("unreadable record: " ++ error)) (json (ar_payload row))) in
  println (tail_line row record).

Definition audit_tail (count : Z) : op_m unit :=
  let* _ := cli_open sh cli in
  let* rows := in_store (audit_query (mkAuditFilter count (Newest None) None None None None)) in
  pfor rows print_row.
End tail.

(** ** The whole command line *)

Inductive AuditCommand : Type :=
| AuditTail (count : Z)
| AuditVerify (anchor : option string)
| AuditAnchor (out : option string)
| AuditCutTo (keep : Z) (anchor : string) (archive : option string) (assume_archived dry_run : bool).

Inductive CliCommand : Type :=
| CliStore (command : Command)
| CliAudit (command : AuditCommand)
| CliSurface (config : string)
| CliState (config : string) (json exclude : bool)
| CliBackup (destination : string).

(** [clap]: [--archive] is required unless [--assume-archived] is given. *)
Definition accepted (command : CliCommand) : Prop :=
  match command with
  | CliAudit (AuditCutTo _ _ archive assume_archived _) => archive = None -> assume_archived = true
  | _ => True
  end.

Section cli.
Context {D : Type} {En : Entropy} {A : Aead} {M : Mac} {H : Sha256} {J : Json} {U : Unicode} `{!AuditDevice D}.
Context {P : JsonPretty} {PD : DumpJson} {LJ : LogJson} {W : WireJson} {VT VJ : Document} {SJ : StateJson} {L : AuditDeviceLaws D}.
Context (sh : Shell D) (cli : Context).
Context (toml : string -> result string (doc (Document := VT))) (json : string -> result string (doc (Document := VJ))).
Context (exists_ : string -> bool) (file_size : SqlFile -> Z).

Record Desk : Type := mkDesk { dk_host : Host D; dk_os : os; dk_disk : disk; dk_volume : Volume }.

Definition set_dk_host (h : Host D) (d : Desk) : Desk := mkDesk h (dk_os d) (dk_disk d) (dk_volume d).

(** What the trail's commands see of it. *)
Definition desk_trail (d : Desk) : TrailHost :=
  mkTrailHost (h_store (dk_host d)) (dk_os d) (dk_disk d) (h_clock (dk_host d)) (h_stdout (dk_host d)) (h_stderr (dk_host d)).
Definition set_desk_trail (t : TrailHost) (d : Desk) : Desk :=
  mkDesk (mkHost (t_store t) (h_audit (dk_host d)) (t_clock t) (h_rng (dk_host d)) (t_stdout t) (t_stderr t)
            (h_appended (dk_host d)) (h_writes (dk_host d)))
    (t_os t) (t_disk t) (dk_volume d).

Definition desk_backup (d : Desk) : Host D * Volume := (dk_host d, dk_volume d).
Definition set_desk_backup (p : Host D * Volume) (d : Desk) : Desk := mkDesk (fst p) (dk_os d) (dk_disk d) (snd p).

Definition on_host {B} (m : op_m B) : prog Desk CliError B := pzoom dk_host set_dk_host m.
Definition on_trail {B} (m : trail_m B) : prog Desk CliError B := pzoom desk_trail set_desk_trail m.

Definition audit_command (command : AuditCommand) : prog Desk CliError unit :=
  match command with
  | AuditVerify anchor => on_trail (verify_chain sh anchor)
  | AuditAnchor out => on_trail (take_anchor sh out)
  | AuditCutTo keep anchor archive assume_archived dry_run =>
      on_trail (cut_trail sh (cx_database cli) keep anchor archive assume_archived dry_run)
  | AuditTail count => on_host (audit_tail sh cli json count)
  end.

(** [run] *)
Definition cli_run (command : CliCommand) : prog Desk CliError unit :=
  match command with
  | CliStore command => on_host (run_command sh cli command)
  | CliAudit command => audit_command command
  | CliSurface config => on_host (surface_command sh toml config)
  | CliState config json exclude => on_host (state_command sh toml exists_ config json exclude)
  | CliBackup destination => pzoom desk_backup set_desk_backup (backup_command sh file_size destination)
  end.

(** The status of a process that panicked. *)
Definition PANICKED : Z := 101.

Definition cli_main (command : CliCommand) (d : Desk) : Z * Desk :=
  match run (cli_run command) d with
  | (Some (Ok _), d) => (0%Z, d)
  | (Some (Err error), d) =>
      (exit_code error,
       set_dk_host (set_h_stderr (h_stderr (dk_host d) ++ "ciphr: " ++ cli_error_display error ++ nl) (dk_host d)) d)
  | (None, d) => (PANICKED, d)
  end.

(** ** The account *)

Definition desk_db (d : Desk) : Db := st_db (h_store (dk_host d)).

(** The tables, the trail's apart. *)
Definition but_trail (d d' : Db) : Prop :=
  db_meta d' = db_meta d /\ rows d' = rows d /\ db_trips d' = db_trips d /\ db_schema d' = db_schema d.

(** A step of a command on the store is accounted for as such; a cut that is not a
    dry run touches the trail and no other table; nothing else changes any table. *)
Definition desk_accounted (command : CliCommand) (d d' : Desk) : Prop :=
  match command with
  | CliStore command => accounted sh command (dk_host d) (dk_host d')
  | CliAudit (AuditCutTo _ _ _ _ false) => but_trail (desk_db d) (desk_db d')
  | _ => desk_db d' = desk_db d
  end.
End cli.

(** ** Lemmas: what the commands of the trail do to the tables *)

Section trail.
Context {D : Type} {H : Sha256} {J : Json} {LJ : LogJson} {W : WireJson}.
Context (sh : Shell D) (database : string).
Context (R : Db -> Db -> Prop) `{!PreOrder R}.

Abbreviation keeps := (stays trail_db R).

Lemma keeps_println text : keeps (t_println text).
Proof. apply stays_step. by intros s. Qed.
Lemma keeps_eprintln text : keeps (t_eprintln text).
Proof. apply stays_step. by intros s. Qed.
Lemma keeps_now : keeps t_now.
Proof. apply stays_step. by intros s. Qed.
Lemma keeps_file {B} (work : stm os string B) : keeps (t_file work).
Proof. apply stays_atomic. intros s. cbv beta. by destruct (work (t_os s)). Qed.
Lemma keeps_read path : keeps (t_read path).
Proof. apply stays_step. intros s. cbv beta. by destruct (os_read_to_string path (t_os s)). Qed.
Lemma keeps_asks {B} (ask : disk -> result string B) : keeps (t_asks ask).
Proof. apply stays_atomic. by intros s. Qed.
Lemma keeps_sql {B} (work : store_m B) : (forall st, R (st_db st) (st_db (snd (work st)))) -> keeps (t_sql work).
Proof.
  intros Hw. apply stays_atomic. intros s. cbv beta. specialize (Hw (t_store s)). unfold trail_db.
  by destruct (work (t_store s)).
Qed.
Lemma keeps_asked {B} (work : store_m B) : reads_only work -> keeps (t_sql work).
Proof.
  intros Hr. apply keeps_sql. intros st. destruct (work st) as [r st'] eqn:Hw. simpl. by rewrite (Hr _ _ _ Hw).
Qed.
Lemma keeps_all : keeps (t_sql audit_all).
Proof. apply keeps_asked, reads_audit_all. Qed.
Lemma keeps_start : keeps (t_sql start_of).
Proof. apply keeps_asked, reads_start. Qed.
Lemma keeps_cut_of : keeps (t_sql latest_cut_of).
Proof. apply keeps_asked, reads_only_latest_cut_of. Qed.
Lemma keeps_table : keeps (t_sql require_cut_table).
Proof. apply keeps_asked, require_cut_reads. Qed.
#[local] Hint Resolve keeps_println keeps_eprintln keeps_now keeps_file keeps_read keeps_asks keeps_all keeps_start
  keeps_cut_of keeps_table : stays.

Lemma keeps_append path line : keeps (append_line path line).
Proof. unfold append_line. stays_all. Qed.
Lemma keeps_previous path : keeps (previous_anchor path).
Proof. unfold previous_anchor. stays_all. Qed.
#[local] Hint Resolve keeps_append keeps_previous : stays.

Lemma keeps_verify anchor : keeps (verify_chain sh anchor).
Proof. unfold verify_chain, read_anchor, anchor_at, t_open_read_only. stays_all. Qed.
Lemma keeps_anchor out : keeps (take_anchor sh out).
Proof. unfold take_anchor, t_open_read_only. stays_all. Qed.

Lemma keeps_require archive assume_archived removing : (archive = None -> assume_archived = true) ->
  keeps (require_archived archive assume_archived removing).
Proof.
  intros Hc. unfold require_archived. destruct archive as [path|]; [stays_all|]. rewrite (Hc eq_refl). cbn [negb]. stays_all.
Qed.
End trail.

(** What a cut does to the store. *)
#[local] Instance but_trail_preorder : PreOrder but_trail.
Proof.
  split; [by intros d|]. intros a b c (M1 & R1 & T1 & S1) (M2 & R2 & T2 & S2).
  split_and!; by etrans.
Qed.

Lemma trail_only_delete through : changes but_trail (delete_through through).
Proof. apply changes_change; [typeclasses eauto|]. intros d. by split_and!. Qed.
Lemma trail_only_insert row : changes but_trail (insert_cut row).
Proof. apply changes_sql; [typeclasses eauto|]. intros d b d' [= _ <-]. by split_and!. Qed.
Lemma trail_only_latest : changes but_trail latest_cut_of.
Proof. apply changes_reads; [typeclasses eauto|apply reads_only_latest_cut_of]. Qed.
Lemma trail_only_table : changes but_trail require_cut_table.
Proof. apply changes_reads; [typeclasses eauto|apply require_cut_reads]. Qed.
#[local] Hint Resolve trail_only_delete trail_only_insert trail_only_latest trail_only_table : changes.

Lemma trail_only_cut through hash now anchor : changes but_trail (audit_cut through hash now anchor).
Proof. unfold audit_cut. changes_all. Qed.

Section cut.
Context {D : Type} {H : Sha256} {J : Json} {LJ : LogJson} {W : WireJson}.
Context (sh : Shell D) (database : string).

#[local] Hint Resolve keeps_println keeps_eprintln keeps_now keeps_file keeps_read keeps_asks keeps_all keeps_start
  keeps_cut_of keeps_table keeps_append keeps_previous keeps_require : stays.

Lemma cut_keeps keep anchor archive assume_archived :
  (archive = None -> assume_archived = true) ->
  stays trail_db but_trail (cut_trail sh database keep anchor archive assume_archived false) /\
  stays trail_db (fun d d' => d' = d) (cut_trail sh database keep anchor archive assume_archived true).
Proof.
  intros Hc. assert (PreOrder (fun d d' : Db => d' = d)) as Hp by (split; [done|congruence]).
  split; unfold cut_trail, t_open_read_only, t_open_device, append_anchor; stays_all.
  apply keeps_sql. intros st. apply changes_run, trail_only_cut.
Qed.
End cut.

(** ** Lemmas: the commands on the host *)

Section host.
Context {D : Type} {En : Entropy} {A : Aead} {M : Mac} {H : Sha256} {J : Json} {U : Unicode} `{!AuditDevice D}.
Context {P : JsonPretty} {PD : DumpJson} {LJ : LogJson} {L : AuditDeviceLaws D} {VT VJ : Document} {SJ : StateJson}.
Context (sh : Shell D) (cli : Context).
Context (devices_apart : forall device path file,
  sh_sqlite_device sh = Ok device -> sh_file_device sh path = Ok file -> dev_name device <> dev_name file).

(** A reading command that shows nothing secret: what it does to the tables is nothing. *)
Definition reading : Command := CmdList None None.

Lemma reading_stays {B} (m : op_m (D := D) B) h : acts sh reading closed m goes -> h_audit h = None ->
  wp eq (fun h h' : Host D => tables h' = tables h) m (fun _ _ => True) h.
Proof.
  intros Hm Ha. eapply wp_guar; [|eapply wp_mono; [|by apply Hm]; done].
  intros s s' [[Ht _]|[[? _]|(e & [] & _)]]; [exact Ht|done].
Qed.

Lemma reads_query filter : reads_only (audit_query filter).
Proof. unfold audit_query. reads. Qed.

Lemma tail_acts (json : string -> result string (doc (Document := VJ))) count :
  acts sh reading closed (audit_tail sh cli json count) goes.
Proof.
  unfold audit_tail. apply acts_open; [done|]. intros session. apply acts_asks; [apply reads_query|]. intros found.
  apply acts_lines. intros row k Hk. unfold print_row. apply acts_assoc. apply acts_lift. intros record _.
  apply acts_print; [by left|done].
Qed.

Abbreviation quiet := (stays (tables (D := D)) (fun d d' => d' = d)).

Lemma quiet_println text : quiet (println text).
Proof. apply stays_step. by intros h. Qed.
Lemma quiet_eprintln text : quiet (eprintln text).
Proof. apply stays_step. by intros h. Qed.
#[local] Hint Resolve quiet_println quiet_eprintln : stays.

Lemma state_stays (toml : string -> result string (doc (Document := VT))) exists_ config json exclude :
  quiet (state_command sh toml exists_ config json exclude).
Proof. unfold state_command, read_document, print_state_json, print_state_excludes, print_state_table. stays_all. Qed.

Lemma surface_stays (toml : string -> result string (doc (Document := VT))) config : quiet (surface_command sh toml config).
Proof. unfold surface_command. stays_all. Qed.

Lemma backup_stays file_size destination :
  stays (fun p : Host D * Volume => tables (fst p)) (fun d d' => d' = d) (backup_command sh file_size destination).
Proof.
  unfold backup_command. stays_all.
  { apply stays_atomic. intros [h v]. cbv beta. by destruct (backup_into _ _ _ _). }
  all: apply stays_step; by intros [h v].
Qed.
End host.

(** ** Properties *)

Section main.
Context {D : Type} {En : Entropy} {A : Aead} {M : Mac} {H : Sha256} {J : Json} {U : Unicode} `{!AuditDevice D}.
Context {P : JsonPretty} {PD : DumpJson} {LJ : LogJson} {W : WireJson} {VT VJ : Document} {SJ : StateJson} {L : AuditDeviceLaws D}.
Context (sh : Shell D) (cli : Context).
Context (toml : string -> result string (doc (Document := VT))) (json : string -> result string (doc (Document := VJ))).
Context (exists_ : string -> bool) (file_size : SqlFile -> Z).
Context (devices_apart : forall device path file,
  sh_sqlite_device sh = Ok device -> sh_file_device sh path = Ok file -> dev_name device <> dev_name file).

Abbreviation program := (cli_run sh cli toml json exists_ file_size).

Lemma on_host_wp {B} (m : op_m (D := D) B) (guar : Host D -> Host D -> Prop) (guar' : Desk -> Desk -> Prop) d :
  (forall d h, guar (dk_host d) h -> guar' d (set_dk_host h d)) ->
  wp eq guar m (fun _ _ => True) (dk_host d) -> wp eq guar' (on_host m) (fun _ _ => True) d.
Proof. intros Hg Hw. by apply (wp_pzoom dk_host set_dk_host guar guar' m (fun _ _ => True) d). Qed.

Lemma on_trail_wp {B} (m : trail_m B) (guar : TrailHost -> TrailHost -> Prop) (guar' : Desk (D := D) -> Desk -> Prop) d :
  (forall d h, guar (desk_trail d) h -> guar' d (set_desk_trail h d)) ->
  wp eq guar m (fun _ _ => True) (desk_trail d) -> wp eq guar' (on_trail m) (fun _ _ => True) d.
Proof. intros Hg Hw. apply (wp_pzoom desk_trail set_desk_trail guar guar' m (fun _ _ => True) d); [by intros []|done|done]. Qed.

Lemma program_wp command d : accepted command -> h_audit (dk_host d) = None ->
  wp eq (desk_accounted sh command) (program command) (fun _ _ => True) d.
Proof.
  intros Hacc Ha. assert (PreOrder (fun d d' : Db => d' = d)) as Hp by (split; [done|congruence]).
  destruct command as [command|[count|anchor|out|keep anchor archive assume_archived dry_run]|config|config js exclude|destination];
    cbn [cli_run audit_command].
  - eapply on_host_wp; [|eapply wp_mono; [|apply (command_acts sh cli devices_apart command (dk_host d)); by split]]; done.
  - eapply on_host_wp; [|apply (reading_stays sh); [by apply tail_acts|done]]. done.
  - eapply on_trail_wp; [|apply stays_under; by apply (keeps_verify sh (fun d d' => d' = d))]. done.
  - eapply on_trail_wp; [|apply stays_under; by apply (keeps_anchor sh (fun d d' => d' = d))]. done.
  - destruct (cut_keeps sh (cx_database cli) keep anchor archive assume_archived Hacc) as [Hk Hd].
    destruct dry_run; [eapply on_trail_wp; [|apply stays_under, Hd]|eapply on_trail_wp; [|apply stays_under, Hk]]; done.
  - eapply on_host_wp; [|apply stays_under, surface_stays]. done.
  - eapply on_host_wp; [|apply stays_under, state_stays]. done.
  - apply (wp_pzoom desk_backup set_desk_backup (fun p p' => tables (fst p') = tables (fst p)) _ _ (fun _ _ => True) d);
      [by intros [] []|done|]. apply (stays_under (fun p : Host D * Volume => tables (fst p)) (fun d d' => d' = d)), backup_stays.
Qed.

End main.
