(* ===== verification/Kept.v ===== *)
(** * What has to be kept of the started service, and a desk to run commands on

    The configuration file of [Started] as a document: the inventory of it, a host
    that has every file and one that lost its policies, and a second host that starts
    the same because it has the files that are listed. *)

From Stdlib Require Import ZArith NArith Lia Ascii String.
From stdpp Require Import base tactics list strings gmap.
From S2P Require Import Prelude Text Hex Path Pattern Vocabulary PolicyModel Evaluate Crypto Token Time Chain Sink.
From S2P Require Import FileDevice Archive Db Store Migrations Tokens Honeypots StoreAudit Surface Oidc Config Prog State Trail.
From S2P Require Import Rendering Anchor Startup Operator Commands Accountable Shown Examples Started OperatorTrail TrailCut Deployment Cli.

#[local] Existing Instance toy_sha256.
#[local] Existing Instance toy_json.
#[local] Existing Instance toy_mac.
#[local] Existing Instance toy_entropy.
#[local] Existing Instance toy_aead.
#[local] Existing Instance ascii_unicode.
#[local] Existing Instance toy_claims.
#[local] Existing Instance toy_signatures.
#[local] Instance unwatched : Features := false.

(** Documents of texts, lists and tables. *)
Inductive Plain : Type :=
| PlainText (text : string)
| PlainList (items : list Plain)
| PlainTable (entries : list (string * Plain)).

#[local] Instance plain_document : Document := {|
  doc := Plain;
  doc_get value key :=
    match value with
    | PlainTable entries => snd <$> List.find (fun entry => String.eqb (fst entry) key) entries
    | _ => None
    end;
  doc_str value := match value with PlainText text => Some text | _ => None end;
  doc_array value := match value with PlainList items => Some items | _ => None end;
  doc_true _ := false;
|}.
#[local] Instance no_state_json : StateJson := fun _ => Err "not written"%string.

Definition table (entries : list (string * string)) : Plain := PlainTable (map (fun '(key, text) => (key, PlainText text)) entries).

Definition started_document : Plain := PlainTable
  [("server", PlainTable [("listen", PlainText "[::]:8200"); ("tls", table [("cert", "cert.pem"); ("key", "key.pem")])]);
   ("storage", table [("backend", "sqlite"); ("path", "ciphr.db")]);
   ("seal", table [("type", "static_env")]);
   ("policies", PlainText "policies.toml");
   ("audit", PlainList [table [("type", "sqlite")]; table [("type", "file"); ("path", "audit.jsonl")]]);
   ("surface", PlainList [table [("entry", "bulk_export"); ("accepted", "2026-01-01"); ("reason", "demo")]])]%string.

Lemma started_document_reads : reads_as started_document started_config.
Proof. split; try (vm_compute; done); repeat constructor. Qed.

Definition plain_toml (text : string) : result string doc :=
  if String.eqb text "configuration" then Ok started_document else Err "expected a table"%string.

Definition state_shell : Shell MemDevice :=
  mkShell (fun _ => VarNotPresent) (fun _ => Err "not found"%string) host_files (Ok []) true true (Ok tt) (Ok tt) (Ok tt)
    (Err (NotInitialized)) (fun _ => Err "not found"%string) (fun _ => Err "not read"%string).

(** Every file but the policies. *)
Definition host_lost (path : string) : bool :=
  existsb (String.eqb path) ["ciphr.toml"; "ciphr.db"; "cert.pem"; "key.pem"]%string.


Lemma surface_show_is_what_is_active_witness : exists h',
  run (surface_command state_shell plain_toml "ciphr.toml") bench_start = (Some (Ok tt), h') /\
  starts_with (h_stdout h') "on   bulk_export" = true.
Proof.
  destruct (surface_resolve (cfg_surface started_config)) as [active|e] eqn:Hs; [|vm_compute in Hs; discriminate].
  destruct (surface_show_is_what_is_active state_shell plain_toml "ciphr.toml" "configuration" started_document
    started_config active bench_start eq_refl eq_refl started_document_reads Hs) as (h' & Hrun & Hout).
  exists h'. split; [exact Hrun|]. rewrite Hout. vm_compute in Hs. injection Hs as <-. vm_compute. reflexivity.
Defined.

(** A host that kept the files that are listed, and nothing else. *)
Definition host_kept (path : string) : bool := existsb (fun piece => String.eqb path (pc_path piece)) (inventory "ciphr.toml" started_document).

Definition restored_boot : Boot (D := MemDevice) :=
  mkBoot (fun path => if host_kept path then host_files path else Err "No such file or directory"%string)
    (fun _ => Err "not read"%string) (bt_policies started_boot) (fun _ => false)
    (fun path => if host_kept path then Ok tt else Err (NotInitialized))
    (fun path => if host_kept path then Ok tt else Err (NotInitialized)) (fun _ => Err (NotInitialized))
    (bt_env started_boot) (bt_fs started_boot)
    (fun path => if host_kept path then bt_sqlite_device started_boot path else Err (NotInitialized))
    boxed_device (bt_clock started_boot) (bt_rng started_boot).

Lemma host_kept_listed piece : piece ∈ inventory "ciphr.toml" started_document -> host_kept (pc_path piece) = true.
Proof.
  intros Hp. apply List.existsb_exists. exists piece. split; [by apply list_elem_of_In|]. apply String.eqb_refl.
Qed.

Lemma restored_keeps : same_kept (D := MemDevice) (inventory "ciphr.toml" started_document) started_boot restored_boot.
Proof.
  split; try done; intros piece Hp; apply host_kept_listed in Hp; unfold restored_boot;
    cbn [bt_read bt_lock bt_connect bt_sqlite_device]; by rewrite Hp.
Qed.


(** A required file whose name begins as a variable does is not looked for. *)
Example unlooked_for : presence (fun _ => false)
  (mkPiece "tls key" "$HOME/key.pem" "reissue rather than restore" Reissue true false) = NotAFile.
Proof. reflexivity. Qed.

(** ** The program on a desk *)

#[local] Instance plain_json : JsonPretty := fun _ => EmptyString.
#[local] Instance plain_dump : DumpJson := fun _ _ => Err "not here"%string.
#[local] Instance unread_log : LogJson := {| json_name _ := None; json_path _ := None; json_allowed _ := None |}.
#[local] Existing Instance toy_wire.

Definition desk (h : Host MemDevice) : Desk := mkDesk h example_os archive_disk (mkVolume ∅ 420 true []).
Definition desk_shell : Shell MemDevice :=
  mkShell (sh_env bench_shell) (sh_fs bench_shell) host_files (sh_stdin bench_shell) false true (Ok tt) (Ok tt) (Ok tt)
    (sh_sqlite_device bench_shell) (sh_file_device bench_shell) (sh_toml bench_shell).
Definition on_desk (command : CliCommand) (h : Host MemDevice) : Z * Desk :=
  cli_main desk_shell bench_context plain_toml (fun _ => Ok (PlainTable [])) host_lost (fun _ => 4096%Z) command (desk h).

Lemma desk_devices device path file :
  sh_sqlite_device desk_shell = Ok device -> sh_file_device desk_shell path = Ok file -> dev_name device <> dev_name file.
Proof. by intros [= <-] [= <-]. Qed.


Example desk_commands :
  map (fun command => fst (on_desk command (next_command bench_filled)))
    [CliStore (CmdGet "app/DB_PASSWORD" None false); CliStore (CmdGet "app/OTHER" None false); CliAudit (AuditTail 5);
     CliSurface "ciphr.toml"; CliSurface "other.toml"; CliState "ciphr.toml" false true; CliBackup "copy.db"]
  = [0; 1; 0; 0; 1; 3; 0]%Z.
Proof. vm_compute. reflexivity. Qed.
