(* ===== verification/Client.v ===== *)
(** * The client library ([ciphr-sdk]: client.rs, environment.rs, error.rs, types.rs)

    How a client is built, what it sends for each operation, and what it makes of
    what comes back.  The agent that carries a request ([ureq] over [rustls]), the
    reader of PEM bundles and [serde_json] are classes: an exchange takes a request
    and the state of the world to an answer, or to why there was none, and the world
    after it. *)

From Stdlib Require Import ZArith NArith Lia Ascii String.
From stdpp Require Import base tactics list strings.
From S2P Require Import Prelude Text Path Vocabulary Crypto.

(** ** Errors *)

Inductive SdkError : Type :=
| SeTransport (detail : string)
| SeUnauthenticated
| SeForbidden (path : string)
| SeNotFound (path : string)
| SeBadRequest (detail : string)
| SeAuditUnavailable
| SeUnexpected (status : option Z) (detail : string)
| SeSurfaceEntryUnavailable (route entry : string)
| SePath (error : PathError)
| SeNothingUnderPrefix (prefix : string)
| SeEnvName (error : EnvNameError)
| SeConfiguration (detail : string).

Definition sdk_error_display (e : SdkError) : string :=
  match e with
  | SeTransport detail => "could not reach the service: " ++ detail
  | SeUnauthenticated => "the token was not accepted; the service does not say which part of it was wrong"
  | SeForbidden path =>
      "this identity may not do that to " ++ path
      ++ "; the rule that refused is in the audit trail, not in the response"
  | SeNotFound path => path ++ " does not exist"
  | SeBadRequest detail => "the request was refused: " ++ detail
  | SeAuditUnavailable =>
      "the service could not write its audit trail, so it served nothing and changed nothing; this is a deployment problem, not a client one"
  | SeUnexpected (Some code) detail => "unexpected " ++ dec code ++ " response: " ++ detail
  | SeUnexpected None detail => "unexpected response: " ++ detail
  | SeNothingUnderPrefix prefix =>
      "nothing is visible under " ++ prefix
      ++ ": either there is nothing there, or this identity has no 'list' capability on it — the service cannot tell those apart and neither can this client"
  | SeSurfaceEntryUnavailable route entry =>
      route ++ " is not available on this deployment: it belongs to the '" ++ entry
      ++ "' surface entry, which is off unless a configuration names it. GET /v1/health lists the entries this instance has"
  | SePath error => path_error_display error
  | SeEnvName error => env_name_error_display error
  | SeConfiguration detail => "this client cannot be built: " ++ detail
  end.

Definition is_retryable (e : SdkError) : bool :=
  match e with SeTransport _ | SeAuditUnavailable => true | _ => false end.

(** ** What the operations answer *)

Record Secret : Type := mkSecret {
  s_path : SecretPath; s_version : SecretVersion; s_value : Plaintext; s_created_at : Z; s_created_by : string }.
Record Written : Type := mkWritten { w_path : SecretPath; w_version : SecretVersion }.
Record Classification : Type := mkClassification { cf_class : string; cf_needs_care : bool; cf_advice : string }.
Record Summary : Type := mkSummary {
  sm_version : SecretVersion; sm_created_at : Z; sm_created_by : string; sm_deleted : bool; sm_destroyed : bool }.
Record History : Type := mkHistory { hi_rotation : Classification; hi_versions : list Summary }.
Record DeviceHealth : Type := mkDeviceHealth {
  dh_name : string; dh_quarantined_from : option Z; dh_accepting : option bool }.
Record ClientHealth : Type := mkClientHealth {
  ch_status : string; ch_sealed : bool; ch_seal : string; ch_key_source : string;
  ch_audit_devices : list DeviceHealth; ch_degraded : list string; ch_api_version : string }.

(** ** The wire *)

Record SecretWire : Type := mkSecretWire {
  wi_path : string; wi_version : Z; wi_value : string; wi_created_at : Z; wi_created_by : string }.
Record WrittenWire : Type := mkWrittenWire { ww_path : string; ww_version : Z }.
Record SummaryWire : Type := mkSummaryWire {
  sw_version : Z; sw_created_at : Z; sw_created_by : string; sw_deleted : bool; sw_destroyed : bool }.
Record RotationWire : Type := mkRotationWire { ro_class : string; ro_needs_care : bool; ro_advice : string }.
Record VersionsWire : Type := mkVersionsWire { vw_rotation : RotationWire; vw_versions : list SummaryWire }.
Record ListingWire : Type := mkListingWire { lw_paths : list string }.
Record ExportedWire : Type := mkExportedWire { ew_path : string; ew_version : Z; ew_value : string }.
Record ExportWire : Type := mkExportWire { ew_secrets : list ExportedWire }.
Record DeviceHealthWire : Type := mkDeviceHealthWire {
  dw_name : string; dw_accepting : option bool; dw_quarantined_from : option Z }.
Record HealthWire : Type := mkHealthWire {
  hw_status : string; hw_sealed : bool; hw_seal : string; hw_key_source : string;
  hw_audit_devices : list DeviceHealthWire; hw_degraded : list string; hw_api_version : string }.
Record ErrorWire : Type := mkErrorWire { er_error : string; er_detail : option String.string }.

(** [serde_json::from_str], and the class of its error as [{:?}] writes it. *)
Inductive Category : Type := CatIo | CatSyntax | CatData | CatEof.
Definition category_debug (c : Category) : string :=
  match c with CatIo => "Io" | CatSyntax => "Syntax" | CatData => "Data" | CatEof => "Eof" end.
Class FromStr (T : Type) : Type := from_str : string -> result Category T.

(** [json!] on an object of texts and lists of texts, as text. *)
Inductive field : Type := FieldText (text : string) | FieldTexts (texts : list string).
Class ToJson : Type := to_json : list (string * field) -> string.

(** ** The transport *)

(** What the agent was configured with. *)
Record AgentConfig (Cert : Type) : Type := mkAgentConfig {
  ag_root_certs : list Cert;
  ag_timeout_global : Z;
  ag_user_agent : string;
  ag_http_status_as_error : bool;
  ag_max_redirects : Z;
}.
Arguments mkAgentConfig {_}.
Arguments ag_root_certs {_}.
Arguments ag_timeout_global {_}.
Arguments ag_user_agent {_}.
Arguments ag_http_status_as_error {_}.
Arguments ag_max_redirects {_}.

Inductive Method : Type := GET | PUT | POST | DELETE.
Record HttpRequest : Type := mkHttpRequest {
  rq_method : Method; rq_url : string; rq_headers : list (string * string); rq_body : option String.string }.
(** The body is read up to a limit, which may fail. *)
Record Answer : Type := mkAnswer { an_status : Z; an_read_to_string : Z -> result string string }.

Inductive PemItem (Cert : Type) : Type := PemCertificate (c : Cert) | PemPrivateKey | PemOther.
Arguments PemCertificate {_}.
Arguments PemPrivateKey {_}.
Arguments PemOther {_}.
Class PemReader (Cert : Type) : Type := parse_pem : bytes -> list (result string (PemItem Cert)).

Class Transport (Cert W : Type) : Type :=
  exchange : AgentConfig Cert -> HttpRequest -> W -> result string Answer * W.

(** ** Building a client *)

Definition DEFAULT_TIMEOUT : Z := 10.
Definition DEFAULT_USER_AGENT : string := "ciphr-sdk/0.15.0".
Definition MAX_BODY : Z := 8 * 1024 * 1024.
Definition EXPORT_ROUTE : string := "POST /v1/export".
Definition EXPORT_ENTRY : string := "bulk_export".
Definition HTTPS : string := "https://".

(** [trim_end_matches(c)] *)
Fixpoint drop_leading (c : ascii) (s : string) : string :=
  match s with
  | String d rest => if Ascii.eqb d c then drop_leading c rest else s
  | EmptyString => EmptyString
  end.
Definition trim_end_matches (c : ascii) (s : string) : string := str_rev (drop_leading c (str_rev s)).

Definition normalize_base_url (input : string) : result SdkError string :=
  let trimmed := trim_end_matches slash input in
  if negb (starts_with trimmed HTTPS) then
    Err (SeConfiguration (str_debug input ++ " is not an https URL; this client refuses plaintext transport for plaintext secrets"))
  else if (len trimmed <=? len HTTPS)%Z then Err (SeConfiguration (str_debug input ++ " has no host"))
  else Ok trimmed.

Definition is_ascii_graphic (c : N) : bool := ((33 <=? c) && (c <=? 126))%N.

Definition usable_product_token (input : string) : result SdkError string :=
  if is_empty input then
    Err (SeConfiguration "the product token is empty; a client that says nothing about itself leaves an audit entry that names nothing")
  else if (256 <? Z.of_nat (length (chars input)))%Z then
    Err (SeConfiguration "the product token is longer than the 256 characters the trail keeps")
  else match List.find (fun c => negb (is_ascii_graphic c) && negb (c =? 32)%N) (chars input) with
       | Some bad =>
           Err (SeConfiguration ("the product token contains " ++ char_debug bad
             ++ ", which is not printable ASCII and cannot be sent as a header value"))
       | None => Ok input
       end.

Section builder.
Context {Cert : Type} {PR : PemReader Cert}.

(** The certificates found so far, and the items that are left. *)
Fixpoint collect_authorities (certificates : list Cert) (items : list (result string (PemItem Cert)))
    : result SdkError (list Cert) :=
  match items with
  | [] => Ok certificates
  | Ok (PemCertificate certificate) :: items => collect_authorities (certificates ++ [certificate]) items
  | Ok PemPrivateKey :: _ =>
      Err (SeConfiguration "the certificate authority bundle contains a private key; a client needs the certificate only")
  | Err error :: _ => Err (SeConfiguration ("the certificate authority bundle could not be read: " ++ error))
  | Ok PemOther :: items => collect_authorities certificates items
  end.

Definition read_authorities (pem : bytes) : result SdkError (list Cert) :=
  let? certificates := collect_authorities [] (parse_pem pem) in
  match certificates with
  | [] => Err (SeConfiguration "the certificate authority bundle contains no certificate")
  | _ => Ok certificates
  end.

Definition agent_config (authorities : list Cert) (timeout : Z) (user_agent : string) : AgentConfig Cert :=
  mkAgentConfig authorities timeout user_agent false 0.

Record Client : Type := mkClient { cl_agent : AgentConfig Cert; cl_base : string; cl_authorization : string }.

Record ClientBuilder : Type := mkClientBuilder {
  cb_base_url : string; cb_token : string; cb_certificate_authority_pem : bytes; cb_timeout : Z; cb_user_agent : string }.

Definition Client_builder (base_url token : string) (pem : bytes) : ClientBuilder :=
  mkClientBuilder base_url token pem DEFAULT_TIMEOUT DEFAULT_USER_AGENT.
Definition builder_timeout (b : ClientBuilder) (timeout : Z) : ClientBuilder :=
  mkClientBuilder (cb_base_url b) (cb_token b) (cb_certificate_authority_pem b) timeout (cb_user_agent b).
Definition builder_user_agent (b : ClientBuilder) (product : string) : ClientBuilder :=
  mkClientBuilder (cb_base_url b) (cb_token b) (cb_certificate_authority_pem b) (cb_timeout b) product.

Definition builder_build (b : ClientBuilder) : result SdkError Client :=
  let? base := normalize_base_url (cb_base_url b) in
  let? authorities := read_authorities (cb_certificate_authority_pem b) in
  let? user_agent := usable_product_token (cb_user_agent b) in
  Ok (mkClient (agent_config authorities (cb_timeout b) user_agent) base ("Bearer " ++ cb_token b)).
End builder.
Arguments Client : clear implicits.

(** ** Reading what came back *)

Definition is_success (status : Z) : bool := ((200 <=? status) && (status <? 300))%Z.

Definition read_body (response : Answer) : result SdkError string :=
  map_err (fun error => SeUnexpected (Some (an_status response)) ("the response body could not be read: " ++ error))
    (an_read_to_string response MAX_BODY).

Section reading.
Context {FE : FromStr ErrorWire}.

Definition status_error (status : Z) (body subject : string) : SdkError :=
  let wire := res_ok (from_str (T := ErrorWire) body) in
  let detail := wire ≫= er_detail in
  if (status =? 400)%Z then SeBadRequest (default "the service did not say why"%string detail)
  else if (status =? 401)%Z then SeUnauthenticated
  else if (status =? 403)%Z then SeForbidden subject
  else if (status =? 404)%Z then SeNotFound subject
  else if (status =? 503)%Z then SeAuditUnavailable
  else if ((300 <=? status) && (status <=? 399))%Z then
    SeUnexpected (Some status) "the service answered with a redirect, which was not followed: this API has no redirect contract, so a 3xx is a transport or configuration failure rather than a hop to take"
  else SeUnexpected (Some status)
    match wire with None => "no error body" | Some error => "error class " ++ str_debug (er_error error) end.

Definition decode {T} {FT : FromStr T} (response : result string Answer) (subject : string) : result SdkError T :=
  let? response := map_err SeTransport response in
  let? body := read_body response in
  if negb (is_success (an_status response)) then Err (status_error (an_status response) body subject)
  else map_err (fun category => SeUnexpected (Some (an_status response))
                  ("the response is not the documented shape (" ++ category_debug category ++ ")"))
         (from_str (T := T) body).

Definition status_only (response : result string Answer) (subject : string) : result SdkError unit :=
  let? response := map_err SeTransport response in
  let? body := read_body response in
  if is_success (an_status response) then Ok tt
  else Err (status_error (an_status response) body subject).
End reading.

Definition absent_export_route (error : SdkError) : SdkError :=
  match error with
  | SeNotFound _ => SeSurfaceEntryUnavailable EXPORT_ROUTE EXPORT_ENTRY
  | other => other
  end.

Definition parse_version (version : Z) : result SdkError SecretVersion :=
  ok_or (SeUnexpected None "the service reported version 0, which does not exist") (version_new version).

(** ** Variables for a process *)

Record Environment : Type := mkEnvironment { en_entries : list (EnvVarName * Plaintext) }.

Definition environment_assemble (secrets : list Secret) : result SdkError Environment :=
  let? names := map_err SeEnvName (env_assign (map s_path secrets)) in
  Ok (mkEnvironment (combine names (map s_value secrets))).

Definition environment_get (e : Environment) (name : string) : option Plaintext :=
  snd <$> List.find (fun '(candidate, _) => String.eqb (env_str candidate) name) (en_entries e).
Definition environment_names (e : Environment) : list EnvVarName := map fst (en_entries e).
Definition environment_len (e : Environment) : nat := length (en_entries e).
Definition environment_is_empty (e : Environment) : bool :=
  match en_entries e with [] => true | _ => false end.
Definition into_entries (e : Environment) : list (EnvVarName * Plaintext) := en_entries e.

(** ** The operations *)

Section client.
Context {U : Unicode} {Cert W : Type} {T : Transport Cert W} {TJ : ToJson}.
Context {FE : FromStr ErrorWire} {FS : FromStr SecretWire} {FW : FromStr WrittenWire} {FV : FromStr VersionsWire}.
Context {FL : FromStr ListingWire} {FX : FromStr ExportWire} {FH : FromStr HealthWire}.
Context (self : Client Cert).

Definition sdk_m (A : Type) : Type := stm W SdkError A.

Definition send (request : HttpRequest) : sdk_m (result string Answer) :=
  fun w => let '(response, w) := exchange (cl_agent self) request w in (Ok response, w).

Definition client_url (segments : list string) (version : option SecretVersion) : string :=
  cl_base self ++ "/v1/" ++ join "/" segments
  ++ match version with Some version => "?version=" ++ dec (version_get version) | None => EmptyString end.

Definition authorized : list (string * string) := [("authorization", cl_authorization self)].
Definition with_json : list (string * string) := ("content-type", "application/json") :: authorized.

(** A path or a prefix that the service wrote. *)
Definition path_of_wire (path : string) : result SdkError SecretPath := map_err SePath (SecretPath_parse path).

Definition secret_of_wire (wire : SecretWire) : result SdkError Secret :=
  let? path := path_of_wire (wi_path wire) in
  let? version := parse_version (wi_version wire) in
  Ok (mkSecret path version (as_bytes (wi_value wire)) (wi_created_at wire) (wi_created_by wire)).

Definition client_read_secret (path : SecretPath) (version : option SecretVersion) : sdk_m Secret :=
  let! response := send (mkHttpRequest GET (client_url ["secrets"; path_str path] version) authorized None) in
  mlift (let? wire := decode response (path_str path) in secret_of_wire wire).

Definition client_get (path : SecretPath) : sdk_m Secret := client_read_secret path None.
Definition client_get_version (path : SecretPath) (version : SecretVersion) : sdk_m Secret :=
  client_read_secret path (Some version).

Definition client_write (path : SecretPath) (value : Plaintext) (rotation : option Rotation) : sdk_m Written :=
  let! text := mlift (ok_or (SeBadRequest "the value is not valid UTF-8; the API carries values as text") (from_utf8 value)) in
  let body := to_json (("value", FieldText text) ::
                match rotation with None => [] | Some class => [("rotation", FieldText (rotation_str class))] end)%string in
  let! response := send (mkHttpRequest PUT (client_url ["secrets"; path_str path] None) with_json (Some body)) in
  mlift (let? wire := decode response (path_str path) in
         let? path := path_of_wire (ww_path wire) in
         let? version := parse_version (ww_version wire) in
         Ok (mkWritten path version)).
Definition client_put (path : SecretPath) (value : Plaintext) : sdk_m Written := client_write path value None.
Definition client_put_classified (path : SecretPath) (value : Plaintext) (rotation : Rotation) : sdk_m Written :=
  client_write path value (Some rotation).

Definition client_delete (path : SecretPath) : sdk_m unit :=
  let! response := send (mkHttpRequest DELETE (client_url ["secrets"; path_str path] None) authorized None) in
  mlift (status_only response (path_str path)).

Definition summary_of_wire (entry : SummaryWire) : result SdkError Summary :=
  let? version := parse_version (sw_version entry) in
  Ok (mkSummary version (sw_created_at entry) (sw_created_by entry) (sw_deleted entry) (sw_destroyed entry)).

Definition client_versions (path : SecretPath) : sdk_m History :=
  let! response := send (mkHttpRequest GET (client_url ["versions"; path_str path] None) authorized None) in
  mlift (let? wire := decode response (path_str path) in
         let? versions := res_mapM summary_of_wire (vw_versions wire) in
         let rotation := vw_rotation wire in
         Ok (mkHistory (mkClassification (ro_class rotation) (ro_needs_care rotation) (ro_advice rotation)) versions)).

Definition client_list (prefix : SecretPath) : sdk_m (list SecretPath) :=
  let! response := send (mkHttpRequest GET (client_url ["list"; path_str prefix] None) authorized None) in
  mlift (let? wire := decode response (path_str prefix) in
         res_mapM path_of_wire (lw_paths wire)).

Definition exported_of_wire (entry : ExportedWire) : result SdkError Secret :=
  let? path := path_of_wire (ew_path entry) in
  let? version := parse_version (ew_version entry) in
  Ok (mkSecret path version (as_bytes (ew_value entry)) 0 EmptyString).

Definition client_export (paths : list SecretPath) : sdk_m (list Secret) :=
  let requested := map path_str paths in
  let body := to_json [("paths", FieldTexts requested)]%string in
  let! response := send (mkHttpRequest POST (client_url ["export"] None) with_json (Some body)) in
  let subject := ("one of: " ++ join ", " requested)%string in
  mlift (let? wire := map_err absent_export_route (decode response subject) in
         res_mapM exported_of_wire (ew_secrets wire)).

(** One read after the other, until one fails. *)
Fixpoint read_each (secrets : list Secret) (paths : list SecretPath) : sdk_m (list Secret) :=
  match paths with
  | [] => mret secrets
  | path :: paths => let! secret := client_get path in read_each (secrets ++ [secret]) paths
  end.

Definition client_read_all (paths : list SecretPath) : sdk_m (list Secret) :=
  let! outcome := mtry (client_export paths) in
  match outcome with
  | Ok secrets => mret secrets
  | Err (SeSurfaceEntryUnavailable _ _) => read_each [] paths
  | Err other => mfail other
  end.

Definition client_environment_of (paths : list SecretPath) : sdk_m Environment :=
  let! _ := mlift (map_err SeEnvName (env_assign paths)) in
  let! secrets := client_read_all paths in
  mlift (environment_assemble secrets).

Definition client_environment (prefix : SecretPath) : sdk_m Environment :=
  let! paths := client_list prefix in
  match paths with
  | [] => mfail (SeNothingUnderPrefix (path_str prefix))
  | _ => client_environment_of paths
  end.

Definition device_of_wire (device : DeviceHealthWire) : DeviceHealth :=
  mkDeviceHealth (dw_name device) (dw_quarantined_from device) (dw_accepting device).

(** The one request without a token. *)
Definition client_health : sdk_m ClientHealth :=
  let! response := send (mkHttpRequest GET (client_url ["health"] None) [] None) in
  mlift (let? wire := decode response "health" in
         Ok (mkClientHealth (hw_status wire) (hw_sealed wire) (hw_seal wire) (hw_key_source wire)
               (map device_of_wire (hw_audit_devices wire)) (hw_degraded wire) (hw_api_version wire))).
End client.

(** ** Lemmas *)

Lemma drop_leading_spec c s : exists dropped, s = (dropped ++ drop_leading c s)%string /\
  Forall (fun d => d = c) (as_bytes dropped) /\ (forall r, drop_leading c s <> String c r).
Proof.
  induction s as [|d s (dropped & Hs & Hd & Hn)]; [by exists EmptyString|]. simpl.
  destruct (Ascii.eqb_spec d c) as [->|Hne].
  - exists (String c dropped). split_and!; [by simpl; f_equal|by constructor|done].
  - exists EmptyString. split_and!; [done|constructor|]. by intros r [= ->].
Qed.

Lemma as_bytes_rev s : as_bytes (str_rev s) = rev (as_bytes s).
Proof.
  unfold str_rev. rewrite <- (app_nil_r (rev _)). change [] with (as_bytes EmptyString). generalize EmptyString.
  induction s as [|c s IH]; intros acc; [done|]. simpl. by rewrite IH, <- app_assoc.
Qed.

(** What is trimmed off is slashes, and none is left at the end. *)
Lemma trim_end_matches_spec c s : exists trimmed, s = (trim_end_matches c s ++ trimmed)%string /\
  Forall (fun d => d = c) (as_bytes trimmed) /\ (forall r, trim_end_matches c s <> (r ++ str1 c)%string).
Proof.
  unfold trim_end_matches. destruct (drop_leading_spec c (str_rev s)) as (dropped & Hs & Hd & Hn).
  exists (str_rev dropped). split_and!.
  - by rewrite <- str_rev_app, <- Hs, str_rev_involutive.
  - rewrite as_bytes_rev. by apply Forall_rev.
  - intros r Hr. apply (f_equal str_rev) in Hr. rewrite str_rev_involutive, str_rev_app in Hr. by apply Hn in Hr.
Qed.

Definition printable (c : N) : Prop := is_ascii_graphic c = true \/ c = 32%N.

Lemma find_none_forall {A} (p : A -> bool) l : List.find p l = None <-> Forall (fun x => p x = false) l.
Proof.
  split.
  - intros H. apply Forall_forall. intros x Hx%list_elem_of_In. by eapply find_none in H.
  - induction 1 as [|x l Hx _ IH]; [done|]. simpl. by rewrite Hx.
Qed.

Lemma usable_product_token_Ok input t : usable_product_token input = Ok t <->
  t = input /\ input <> EmptyString /\ (length (chars input) <= 256)%nat /\ Forall printable (chars input).
Proof.
  unfold usable_product_token. destruct (is_empty input) eqn:He.
  { apply is_empty_spec in He as ->. split; [done|]. by intros (_ & ? & _). }
  destruct (Z.ltb_spec 256 (Z.of_nat (length (chars input)))) as [Hl|Hl]; [split; [done|lia]|].
  assert (input <> EmptyString) as Hne by (by intros ->).
  assert (List.find (fun c => negb (is_ascii_graphic c) && negb (c =? 32)%N) (chars input) = None <->
            Forall printable (chars input)) as Hp.
  { rewrite find_none_forall. apply Forall_iff. intros c. unfold printable. rewrite andb_false_iff, !negb_false_iff.
    by rewrite N.eqb_eq. }
  destruct (List.find _ _) as [bad|].
  - split; [done|]. intros (_ & _ & _ & H%Hp). done.
  - split; [intros [= <-]; split_and!; [done|done|lia|by apply Hp]|by intros (-> & _)].
Qed.

Lemma normalize_base_url_Ok input base : normalize_base_url input = Ok base ->
  exists host slashes, base = (HTTPS ++ host)%string /\ host <> EmptyString /\ (forall r, base <> (r ++ str1 slash)%string) /\
    input = (base ++ slashes)%string /\ Forall (fun d => d = slash) (as_bytes slashes).
Proof.
  unfold normalize_base_url. intros H. destruct (trim_end_matches_spec slash input) as (slashes & Hs & Hf & Hn).
  destruct (starts_with _ _) eqn:Hst; [|done].
  destruct (Z.leb_spec (len (trim_end_matches slash input)) (len HTTPS)) as [?|Hl]; [done|].
  injection H as <-. apply starts_with_spec in Hst as [host Hh]. exists host, slashes. split_and!; try done.
  intros ->. rewrite Hh, len_app in Hl. unfold len in Hl. simpl in Hl. lia.
Qed.

(** What a bundle holds, in order; an item of it that is neither a certificate
    nor a key is passed over. *)
Definition certificates_in {Cert} (items : list (result string (PemItem Cert))) : list Cert :=
  omap (fun item => match item with Ok (PemCertificate c) => Some c | _ => None end) items.
Definition usable_item {Cert} (item : result string (PemItem Cert)) : Prop :=
  match item with Err _ | Ok PemPrivateKey => False | _ => True end.

Lemma collect_authorities_Ok {Cert} (items : list (result string (PemItem Cert))) : forall found out,
  collect_authorities found items = Ok out <-> out = found ++ certificates_in items /\ Forall usable_item items.
Proof.
  unfold certificates_in. induction items as [|item items IH]; intros found out.
  { cbn. rewrite app_nil_r. split; [by intros [= <-]|by intros [-> _]]. }
  destruct item as [[c| |]|e]; cbn; rewrite ?IH, ?Forall_cons, <- ?app_assoc; cbn; try tauto;
    (split; [done|by intros [_ [[] _]]]).
Qed.

Section build_correct.
Context {Cert : Type} {PR : PemReader Cert}.

Lemma read_authorities_Ok pem (found : list Cert) : read_authorities pem = Ok found ->
  found = certificates_in (parse_pem pem) /\ certificates_in (parse_pem pem) <> [] /\ Forall usable_item (parse_pem pem).
Proof.
  intros H. unfold read_authorities in H. apply res_bind_Ok in H as (out & Hf%collect_authorities_Ok & H).
  simpl in Hf. destruct Hf as [-> Hf]. destruct (certificates_in _) eqn:E in H; [done|]. injection H as <-.
  rewrite E. by split_and!.
Qed.

(** What a client is built with, when one is: an [https] base that names a host
    and has no slash at its end, the certificates of a bundle that holds no key and
    nothing unreadable, the bearer token, a product that can be a header's value,
    and an agent that neither follows a redirect nor hides a status. *)
Theorem builder_build_correct b (c : Client Cert) : builder_build b = Ok c ->
  (exists host slashes, cl_base c = (HTTPS ++ host)%string /\ host <> EmptyString /\
     (forall r, cl_base c <> (r ++ str1 slash)%string) /\
     cb_base_url b = (cl_base c ++ slashes)%string /\ Forall (fun d => d = slash) (as_bytes slashes)) /\
  (let bundle := parse_pem (cb_certificate_authority_pem b) in
   ag_root_certs (cl_agent c) = certificates_in bundle /\ certificates_in bundle <> [] /\ Forall usable_item bundle) /\
  cl_authorization c = ("Bearer " ++ cb_token b)%string /\
  (ag_user_agent (cl_agent c) = cb_user_agent b /\ cb_user_agent b <> EmptyString /\
   (length (chars (cb_user_agent b)) <= 256)%nat /\ Forall printable (chars (cb_user_agent b))) /\
  ag_timeout_global (cl_agent c) = cb_timeout b /\
  ag_http_status_as_error (cl_agent c) = false /\ ag_max_redirects (cl_agent c) = 0%Z.
Proof.
  intros H. unfold builder_build in H.
  apply res_bind_Ok in H as (base & Hb & H). apply res_bind_Ok in H as (authorities & Ha & H).
  apply res_bind_Ok in H as (agent & Hu%usable_product_token_Ok & [= <-]). simpl. destruct Hu as (-> & Hne & Hl & Hp).
  split; [by apply normalize_base_url_Ok|]. split; [by apply read_authorities_Ok|]. by split_and!.
Qed.
End build_correct.

(** ** Properties: what came back *)

Lemma decode_Ok {T} {FE : FromStr ErrorWire} {FT : FromStr T} response subject (wire : T) :
  decode response subject = Ok wire <-> exists a body, response = Ok a /\ an_read_to_string a MAX_BODY = Ok body /\
    (200 <= an_status a < 300)%Z /\ from_str body = Ok wire.
Proof.
  unfold decode, read_body. split.
  - intros H. apply res_bind_Ok in H as (a & Ha & H). apply map_err_Ok in Ha as ->.
    apply res_bind_Ok in H as (body & Hb%map_err_Ok & H). destruct (is_success (an_status a)) eqn:Hs; [|done].
    apply map_err_Ok in H. unfold is_success in Hs. exists a, body. split_and!; try done; lia.
  - intros (a & body & -> & Hb & Hs & Hw). simpl. rewrite Hb. simpl. unfold is_success.
    rewrite (proj2 (Z.leb_le _ _)), (proj2 (Z.ltb_lt _ _)) by lia. simpl. by rewrite Hw.
Qed.

Lemma retryable_status {FE : FromStr ErrorWire} status body subject :
  is_retryable (status_error status body subject) = true <-> status = 503%Z.
Proof.
  unfold status_error. destruct (Z.eqb_spec status 400) as [->|?]; [done|].
  destruct (Z.eqb_spec status 401) as [->|?]; [done|]. destruct (Z.eqb_spec status 403) as [->|?]; [done|].
  destruct (Z.eqb_spec status 404) as [->|?]; [done|]. destruct (Z.eqb_spec status 503) as [->|?]; [done|].
  by destruct (_ && _).
Qed.

Section answers.
Context {T : Type} {FE : FromStr ErrorWire} {FT : FromStr T}.

(** Every failure of an exchange has its class: no answer at all and the answer
    that nothing was served are the two worth trying again; every other one names
    the request, the identity or a disagreement about the protocol. *)
Theorem decode_fails_by_class response subject e : decode (T := T) response subject = Err e ->
  (is_retryable e = true <-> (exists why, response = Err why) \/
     exists a body, response = Ok a /\ an_read_to_string a MAX_BODY = Ok body /\ an_status a = 503%Z) /\
  match response with
  | Err why => e = SeTransport why
  | Ok a =>
      match an_read_to_string a MAX_BODY with
      | Err why => e = SeUnexpected (Some (an_status a)) ("the response body could not be read: " ++ why)
      | Ok body =>
          (an_status a = 401%Z -> e = SeUnauthenticated) /\ (an_status a = 403%Z -> e = SeForbidden subject) /\
          (an_status a = 404%Z -> e = SeNotFound subject) /\ (an_status a = 503%Z -> e = SeAuditUnavailable) /\
          (an_status a = 400%Z -> exists detail, e = SeBadRequest detail) /\
          (an_status a ∉ [400; 401; 403; 404; 503]%Z -> exists detail, e = SeUnexpected (Some (an_status a)) detail)
      end
  end.
Proof.
  intros H. unfold decode, read_body in H. destruct response as [a|why]; simpl in H.
  2: { injection H as <-. split; [|done]. split; [intros _; left; by exists why|done]. }
  destruct (an_read_to_string a MAX_BODY) as [body|why] eqn:Hb; simpl in H.
  2: { injection H as <-. split; [|done]. split; [done|].
       intros [[? [=]]|(? & ? & [= <-] & Hb' & _)]. by rewrite Hb in Hb'. }
  assert (forall P : Prop, (P <-> an_status a = 503%Z) -> (P <-> (exists why, Ok a = Err (E := string) why) \/
     exists a' body', Ok a = Ok (E := string) a' /\ an_read_to_string a' MAX_BODY = Ok body' /\ an_status a' = 503%Z)) as Hiff.
  { intros P ->. split; [intros ?; right; by exists a, body|]. by intros [[? [=]]|(? & ? & [= <-] & _ & ?)]. }
  destruct (is_success (an_status a)) eqn:Hs; simpl in H.
  - assert (200 <= an_status a < 300)%Z as Hr by (unfold is_success in Hs; lia).
    destruct (from_str (T := T) body); [done|]. injection H as <-. split; [apply Hiff; simpl; split; [done|lia]|].
    split_and!; try lia. intros _. by eexists.
  - injection H as <-. split; [apply Hiff, retryable_status|]. unfold status_error.
    split_and!; try (intros ->; done); [intros ->; by eexists|]. intros Hn.
    rewrite !not_elem_of_cons in Hn. destruct Hn as (H0 & H1 & H2 & H3 & H4 & _).
    repeat rewrite (proj2 (Z.eqb_neq _ _)) by done. destruct (_ && _); by eexists.
Qed.
End answers.

(** ** Properties: reading many secrets *)

Section reads.
Context {U : Unicode} {Cert W : Type} {T : Transport Cert W} {TJ : ToJson}.
Context {FE : FromStr ErrorWire} {FS : FromStr SecretWire} {FX : FromStr ExportWire} {FL : FromStr ListingWire}.
Context (self : Client Cert).

Definition export_request (paths : list SecretPath) : HttpRequest :=
  mkHttpRequest POST (client_url self ["export"] None) (with_json self)
    (Some (to_json [("paths", FieldTexts (map path_str paths))]%string)).

(** The answer that says the route is not there. *)
Definition route_absent (w : W) (paths : list SecretPath) : Prop :=
  exists a body, fst (exchange (cl_agent self) (export_request paths) w) = Ok a /\
    an_read_to_string a MAX_BODY = Ok body /\ an_status a = 404%Z.

(** One read after the other in the world the one before left, up to the first
    that fails. *)
Inductive reads_in_turn : list SecretPath -> W -> result SdkError (list Secret) -> W -> Prop :=
| reads_none w : reads_in_turn [] w (Ok []) w
| reads_fails path paths w e w' : client_get self path w = (Err e, w') -> reads_in_turn (path :: paths) w (Err e) w'
| reads_one path paths w secret w1 r w' :
    client_get self path w = (Ok secret, w1) -> reads_in_turn paths w1 r w' ->
    reads_in_turn (path :: paths) w (res_map (cons secret) r) w'.

Lemma read_each_in_turn paths : forall found w r w', read_each self found paths w = (r, w') ->
  exists r', reads_in_turn paths w r' w' /\ r = res_map (app found) r'.
Proof.
  induction paths as [|path paths IH]; intros found w r w' H.
  { injection H as <- <-. eexists. split; [constructor|]. simpl. by rewrite app_nil_r. }
  cbn [read_each] in H. unfold mbind in H. destruct (client_get self path w) as [[secret|e] w1] eqn:Hg.
  2: { injection H as <- <-. exists (Err e). split; [by constructor|done]. }
  apply IH in H as (r' & Hr & ->). exists (res_map (cons secret) r'). split; [by econstructor|].
  destruct r'; [|done]. simpl. by rewrite <- app_assoc.
Qed.

Definition is_absent (e : SdkError) : bool := match e with SeSurfaceEntryUnavailable _ _ => true | _ => false end.

Lemma exported_never_absent l e : res_mapM exported_of_wire l = Err e -> is_absent e = false.
Proof.
  induction l as [|x l IH] in e |- *; [done|]. simpl. unfold exported_of_wire, path_of_wire, parse_version.
  destruct (SecretPath_parse _); [|by intros [= <-]]. destruct (version_new _); [|by intros [= <-]].
  simpl. destruct (res_mapM _ _); [done|]. intros [= <-]. by apply IH.
Qed.

Lemma status_error_absent status body subject :
  is_absent (absent_export_route (status_error status body subject)) = (status =? 404)%Z.
Proof.
  unfold status_error. destruct (Z.eqb_spec status 400) as [->|?]; [done|].
  destruct (Z.eqb_spec status 401) as [->|?]; [done|]. destruct (Z.eqb_spec status 403) as [->|?]; [done|].
  destruct (Z.eqb_spec status 404) as [->|?]; [done|]. destruct (Z.eqb_spec status 503) as [->|?]; [done|].
  by destruct (_ && _).
Qed.

Lemma export_absent paths w e : fst (client_export self paths w) = Err e -> is_absent e = true <-> route_absent w paths.
Proof.
  unfold client_export, mbind, send, route_absent, export_request.
  destruct (exchange _ _ w) as [[a|why] w1]; cbn [fst mlift].
  2: { intros [= <-]. split; [done|]. by intros (? & ? & [=] & _). }
  unfold decode, read_body. cbn [map_err res_bind]. destruct (an_read_to_string a MAX_BODY) as [body|why] eqn:Hb; cbn [map_err res_bind].
  2: { intros [= <-]. split; [done|]. intros (? & ? & [= <-] & Hb' & _). by rewrite Hb in Hb'. }
  assert ((exists a' body', Ok (E := string) a = Ok a' /\ an_read_to_string a' MAX_BODY = Ok body' /\ an_status a' = 404%Z) <->
          an_status a = 404%Z) as Hiff.
  { split; [by intros (? & ? & [= <-] & _ & ?)|]. intros ?. by exists a, body. }
  rewrite Hiff. unfold is_success. destruct (_ && _) eqn:Hs; cbn [negb map_err res_bind].
  - assert (an_status a <> 404%Z) by lia. destruct (from_str body) as [wire|c]; cbn [map_err res_bind].
    + intros ->%exported_never_absent. split; [done|]. by intros.
    + intros [= <-]. split; [done|]. by intros.
  - intros [= <-]. rewrite status_error_absent. by rewrite Z.eqb_eq.
Qed.

Lemma absent_is_an_error paths w : route_absent w paths -> exists e, fst (client_export self paths w) = Err e.
Proof.
  intros (a & body & Ha & Hb & Hs). unfold client_export, mbind, send, export_request in *.
  destruct (exchange _ _ w) as [response w1]. simpl in Ha. subst response. cbn [fst mlift map_err res_bind].
  unfold decode, read_body. cbn [map_err res_bind]. rewrite Hb. cbn [map_err res_bind]. rewrite Hs. cbn. by eexists.
Qed.

Lemma in_turn_read_each paths w r w' : reads_in_turn paths w r w' ->
  forall found, read_each self found paths w = (res_map (app found) r, w').
Proof.
  induction 1 as [w|path paths w e w' Hg|path paths w secret w1 r w' Hg _ IH]; intros found; cbn [read_each].
  - simpl. by rewrite app_nil_r.
  - unfold mbind. by rewrite Hg.
  - unfold mbind. rewrite Hg, IH. destruct r; [|done]. simpl. by rewrite <- app_assoc.
Qed.

(** C36: Reading many secrets is one export; only the answer that the route is not
    there makes it one read after the other, in order, up to the first that fails;
    every other failure is the export's. *)
Theorem read_all_falls_back_only_when_absent paths w r w' :
  client_read_all self paths w = (r, w') <->
  (~ route_absent w paths /\ client_export self paths w = (r, w')) \/
  (route_absent w paths /\ reads_in_turn paths (snd (client_export self paths w)) r w').
Proof.
  unfold client_read_all, mbind, mtry. pose proof (export_absent paths w) as Hab.
  pose proof (absent_is_an_error paths w) as Her.
  destruct (client_export self paths w) as [[secrets|e] w1]; cbn [fst snd] in *.
  { split; [intros [= <- <-]; left; split; [intros [? [=]]%Her|done]|].
    intros [[_ [= <- <-]]|[[? [=]]%Her _]]. done. }
  specialize (Hab e eq_refl). destruct (is_absent e) eqn:He.
  - destruct e; try done. destruct Hab as [Hab _]. specialize (Hab eq_refl). split.
    + intros (r' & Hr & ->)%read_each_in_turn. right. split; [done|]. by destruct r'.
    + intros [[? _]|[_ Hr]]; [done|]. rewrite (in_turn_read_each _ _ _ _ Hr). by destruct r.
  - assert (~ route_absent w paths) as Hn by (intros H%Hab; done). split.
    + intros H. left. split; [done|]. by destruct e.
    + intros [[_ [= <- <-]]|[? _]]; [|done]. by destruct e.
Qed.
End reads.

Lemma environment_assemble_Ok secrets env : environment_assemble secrets = Ok env ->
  NoDup (environment_names env) /\ map snd (en_entries env) = map s_value secrets /\
  Forall2 (fun n s => last (segments (s_path s)) = Some (env_str n)) (environment_names env) secrets /\
  env_assign (map s_path secrets) = Ok (environment_names env).
Proof.
  unfold environment_assemble, environment_names. intros H. apply res_bind_Ok in H as (names & Hn%map_err_Ok & [= <-]).
  simpl. destruct (env_assign_spec _ _ Hn) as [Hnd HF]. apply Forall2_fmap_r in HF.
  assert (length names = length secrets) as Hl by by eapply Forall2_length.
  change (map fst (combine names (map s_value secrets))) with ((zip names (map s_value secrets)).*1).
  change (map snd (combine names (map s_value secrets))) with ((zip names (map s_value secrets)).*2).
  rewrite fst_zip, snd_zip by (rewrite length_map; lia). split_and!; try done.
  eapply Forall2_impl; [exact HF|]. by intros n s [? _].
Qed.
