(* ===== verification/EndToEnd.v ===== *)
(** * From one client to the other

    The client library against the running service: what carries a request from the
    one to the other is an interface with laws, and under those laws what one client
    wrote is what another reads, whatever else the service is doing. *)

From Stdlib Require Import ZArith NArith Lia Ascii String.
From stdpp Require Import base tactics list strings gmap relations.
From S2P Require Import Prelude Text Hex Path Pattern Vocabulary PolicyModel Evaluate Crypto Token Chain Sink Db Store.
From S2P Require Import Tokens Honeypots StoreAudit Surface Oidc Config Prog Effects State Trail Api Service Contract Guarantees Lasting Client.

Section link.
Context {H : Sha256} {J : Json} {M : Mac} {En : Entropy} {F : Features}.
Context {D : Type} `{!AuditDevice D} {L : AuditDeviceLaws D}.
Context {A : Aead} {U : Unicode} {LJ : LogJson} {RJ : RawJson} {R : ClaimsReader} {Sg : Signatures}.
Context (state : Inner).
Context {Cert W : Type} {T : Transport Cert W} {TJ : ToJson}.
Context {FE : FromStr ErrorWire} {FS : FromStr SecretWire} {FW : FromStr WrittenWire}.

Abbreviation steps := (rtc (pool_step (arrives state))).

(** What is between a client and the service. *)
Class Link : Type := {
  (** The service, where the world of the client has it. *)
  link_world : W -> list (app_m (D := D) Reply) * App D;
  (** What the router and the extractors make of a request. *)
  link_request : HttpRequest -> option Incoming;
  (** What a reply is as a body. *)
  link_body : Reply -> string;
}.

(** The answer is the one the service gave: its status, and its body where it is read. *)
Definition carries `{!Link} (answer : Answer) (r : result ApiError Reply) : Prop :=
  an_status answer = http_status (respond r) /\
  forall reply body, r = Ok reply -> an_read_to_string answer MAX_BODY = Ok body -> body = link_body reply.

Class LinkLaws `{!Link} : Prop := {
  (** Whether or not it is answered, an exchange leaves the service running. *)
  link_runs : forall agent request w, steps (link_world w) (link_world (snd (exchange agent request w)));
  (** An answer is to the request, which arrived and was served among the others. *)
  link_answers : forall agent request w answer w' incoming,
    exchange agent request w = (Ok answer, w') -> link_request request = Some incoming ->
    exists i c1 c2 r, steps (link_world w) c1 /\ fst c1 !! i = Some (program state incoming) /\
      steps c1 c2 /\ fst c2 !! i = Some (Done r) /\ steps c2 (link_world w') /\ carries answer r;
  (** Both sides mean the same bodies: what can be read is what was written. *)
  link_secret : forall r wire, from_str (T := SecretWire) (link_body (RepSecret r)) = Ok wire ->
    wire = mkSecretWire (sr_path r) (sr_version r) (sr_value r) (sr_created_at r) (sr_created_by r);
  link_written : forall r wire, from_str (T := WrittenWire) (link_body (RepWrite r)) = Ok wire ->
    wire = mkWrittenWire (wr_path r) (wr_version r);
}.

Context `{!Link} {LL : LinkLaws}.

(** An error is no success on the wire. *)
Lemma carried_success answer r : carries answer r -> (200 <= an_status answer < 300)%Z -> exists reply, r = Ok reply.
Proof.
  intros [Hs _] Hok. destruct r as [reply|e]; [by exists reply|]. rewrite Hs in Hok. exfalso. destruct e; simpl in Hok; lia.
Qed.

(** A request whose answer decodes was answered by the service. *)
Lemma sent_and_decoded {X} {FT : FromStr X} (self : Client Cert) request incoming subject (x : X) response w w' :
  send self request w = (Ok response, w') -> link_request request = Some incoming -> decode response subject = Ok x ->
  exists i c1 c2 reply, steps (link_world w) c1 /\ fst c1 !! i = Some (program state incoming) /\
    steps c1 c2 /\ fst c2 !! i = Some (Done (Ok reply)) /\ steps c2 (link_world w') /\ from_str (link_body reply) = Ok x.
Proof.
  unfold send. intros Hs Hq Hd. destruct (exchange (cl_agent self) request w) as [response' w''] eqn:Hx. injection Hs as -> ->.
  apply decode_Ok in Hd as (answer & body & -> & Hb & Hok & Hf).
  destruct (link_answers _ _ _ _ _ _ Hx Hq) as (i & c1 & c2 & r & R1 & Hi & R2 & Hr & R3 & Hc).
  destruct (carried_success _ _ Hc Hok) as [reply ->]. exists i, c1, c2, reply. split_and!; [done..|].
  destruct Hc as [_ Hc]. by rewrite <- (Hc reply body eq_refl Hb).
Qed.

(** ** The two operations *)

Definition write_request (self : Client Cert) (path : SecretPath) (text : string) (rotation : option Rotation) : HttpRequest :=
  mkHttpRequest PUT (client_url self ["secrets"; path_str path] None) (with_json self)
    (Some (to_json (("value", FieldText text) ::
             match rotation with None => [] | Some class => [("rotation", FieldText (rotation_str class))] end)%string)).
Definition read_request (self : Client Cert) (path : SecretPath) (version : SecretVersion) : HttpRequest :=
  mkHttpRequest GET (client_url self ["secrets"; path_str path] (Some version)) (authorized self) None.

Lemma client_write_sends (self : Client Cert) path value rotation w written w' :
  client_write self path value rotation w = (Ok written, w') ->
  exists text response wire, from_utf8 value = Some text /\
    send self (write_request self path text rotation) w = (Ok response, w') /\ decode response (path_str path) = Ok wire /\
    SecretPath_parse (ww_path wire) = Ok (w_path written) /\ version_new (ww_version wire) = Some (w_version written).
Proof.
  intros Hw. unfold client_write in Hw. apply mbind_Ok in Hw as (text & w1 & [Ht%ok_or_Ok ->]%mlift_Ok & Hw).
  apply mbind_Ok in Hw as (response & w2 & Hs & [Hd ->]%mlift_Ok).
  apply res_bind_Ok in Hd as (wire & Hd & (p & Hp%map_err_Ok & (v & Hv%ok_or_Ok & [= <-])%res_bind_Ok)%res_bind_Ok).
  by exists text, response, wire.
Qed.

Lemma client_read_sends (self : Client Cert) path version w secret w' :
  client_get_version self path version w = (Ok secret, w') ->
  exists response wire, send self (read_request self path version) w = (Ok response, w') /\
    decode response (path_str path) = Ok wire /\ SecretPath_parse (wi_path wire) = Ok (s_path secret) /\
    version_new (wi_version wire) = Some (s_version secret) /\ s_value secret = as_bytes (wi_value wire).
Proof.
  intros Hr. unfold client_get_version, client_read_secret in Hr. apply mbind_Ok in Hr as (response & w1 & Hs & [Hd ->]%mlift_Ok).
  apply res_bind_Ok in Hd as (wire & Hd & (p & Hp%map_err_Ok & (v & Hv%ok_or_Ok & [= <-])%res_bind_Ok)%res_bind_Ok).
  by exists response, wire.
Qed.

(** Whatever the library answers, its write is one of the things the service runs. *)
Lemma client_write_runs (self : Client Cert) path value rotation w :
  steps (link_world w) (link_world (snd (client_write self path value rotation w))).
Proof.
  unfold client_write, send, mbind, mlift. destruct (from_utf8 value) as [text|]; simpl; [|apply rtc_refl].
  match goal with |- context [exchange ?a ?q w] => pose proof (link_runs a q w) as Hr; destruct (exchange a q w) as [r w'] end.
  exact Hr.
Qed.

Lemma version_new_get v v' : version_new (version_get v) = Some v' -> v' = v.
Proof. unfold version_new. destruct (_ =? 0)%Z; [done|]. intros [= <-]. by destruct v. Qed.

(** C2: What one client wrote, another reads.  A write that the library reports as done,
    and later a read of the version it reported, by the same or another client: if the
    library hands out a secret, it is the path, the version and exactly the bytes that
    were written, whatever requests the service serves before, between and during,
    and in whatever interleaving.  What carries the requests is only assumed to bring
    them to the service as its router reads them, and to bring back its answers. *)
Theorem written_secret_reads_back reqs s (writer reader : Client Cert) path value rotation w0 w1 w2 w3 written secret
    hw ow hr oread :
  AeadLaws A -> store_wf (app_db s) -> steps (start state reqs s) (link_world w0) ->
  SecretPath_parse (path_str path) = Ok path ->
  (forall text, from_utf8 value = Some text -> link_request (write_request writer path text rotation) =
     Some (mkIncoming hw ow (ReqWrite (path_str path) (Ok (mkSecretBody text (rotation_str <$> rotation)))))) ->
  link_request (read_request reader (w_path written) (w_version written)) =
     Some (mkIncoming hr oread (ReqRead (path_str (w_path written)) (Some (version_get (w_version written))))) ->
  client_write writer path value rotation w0 = (Ok written, w1) ->
  steps (link_world w1) (link_world w2) ->
  client_get_version reader (w_path written) (w_version written) w2 = (Ok secret, w3) ->
  w_path written = path /\ s_path secret = path /\ s_version secret = w_version written /\ s_value secret = value.
Proof.
  intros HA Hwf R0 Hpath Hwq Hrq Hw R12 Hr.
  destruct (client_write_sends _ _ _ _ _ _ _ Hw) as (text & response & wire & Ht & Hs & Hd & Hp & Hv).
  destruct (sent_and_decoded _ _ _ _ _ _ _ _ Hs (Hwq text Ht) Hd) as (i & c1 & c2 & reply & R1 & Hi & R2 & Hdone & R3 & Hf).
  destruct (write_leaves state reqs s c1 c2 i hw ow (path_str path) (mkSecretBody text (rotation_str <$> rotation)) reply)
    as (p & version & stored & g & Hp' & -> & He & Hk); [done|by etrans|done..|].
  unfold api_parse_path in Hp'. rewrite Hpath in Hp'. injection Hp' as <-.
  apply link_written in Hf. subst wire. simpl in Hp, Hv. rewrite Hpath in Hp. injection Hp as E.
  apply version_new_get in Hv. rewrite <- E, Hv in Hr, Hrq |- *.
  destruct (client_read_sends _ _ _ _ _ _ Hr) as (response' & wire' & Hs' & Hd' & Hp2 & Hv2 & Hval).
  destruct (sent_and_decoded _ _ _ _ _ _ _ _ Hs' Hrq Hd') as (j & c3 & c4 & reply' & R4 & Hj & R5 & Hdone' & R6 & Hf').
  destruct (read_finds state reqs s c2 c3 c4 j path version stored text g hr oread (path_str path) reply')
    as (got & -> & Gp & Gv & Gt); [done| |done|done| | |done|done|done|].
  - etrans; [exact R0|]. by etrans.
  - unfold api_parse_path. by rewrite Hpath.
  - etrans; [exact R3|]. by etrans.
  - apply link_secret in Hf'. subst wire'. simpl in Hp2, Hv2, Hval. rewrite Gp, Hpath in Hp2. injection Hp2 as <-.
    rewrite Gv in Hv2. apply version_new_get in Hv2. split_and!; [done..|].
    rewrite Hval, Gt. simpl. apply from_utf8_utf8 in Ht as [_ ->]. apply as_bytes_of.
Qed.
End link.
