(* ===== verification/Linked.v ===== *)
(** * A client and a service, linked

    A link the kernel runs: a request is served to its end before it is answered,
    bodies are hexadecimal fields between bars.  The round trip of two clients is
    applied to it, with the write of a third in between. *)

From Stdlib Require Import ZArith NArith Lia Ascii String.
From stdpp Require Import base tactics list strings gmap relations.
From S2P Require Import Prelude Text Hex Path Pattern Vocabulary PolicyModel Evaluate Crypto Token Chain Sink Db Store.
From S2P Require Import Tokens Honeypots StoreAudit Surface Oidc Config Prog Effects State Trail Api Service Contract Guarantees Lasting Examples.
From S2P Require Import Client EndToEnd.

#[local] Existing Instance toy_sha256.
#[local] Existing Instance toy_json.
#[local] Existing Instance toy_mac.
#[local] Existing Instance toy_entropy.
#[local] Existing Instance toy_aead.
#[local] Existing Instance ascii_unicode.
#[local] Existing Instance toy_claims.
#[local] Existing Instance toy_signatures.
#[local] Existing Instance watching.
#[local] Existing Instance any_json.
#[local] Existing Instance no_columns.

(** ** Bodies *)

Definition text_field (s : string) : string := hex_encode (as_bytes s).
Definition read_text (s : string) : string := match hex_decode s with Ok b => str_of_bytes b | Err _ => EmptyString end.
Definition number_field (z : Z) : string :=
  if (0 <=? z)%Z then zeros (Z.to_nat z) else ("-" ++ zeros (Z.to_nat (- z)))%string.
Definition read_number (s : string) : Z :=
  match strip_prefix "-" s with Some digits => (- len digits)%Z | None => len s end.

Lemma read_text_field s : read_text (text_field s) = s.
Proof. unfold read_text, text_field. by rewrite hex_decode_encode, str_of_as. Qed.

Lemma zeros_prefix n : strip_prefix "-" (zeros n) = None.
Proof. by destruct n. Qed.

Lemma read_number_field z : read_number (number_field z) = z.
Proof.
  unfold read_number, number_field. destruct (Z.leb_spec 0 z).
  - rewrite zeros_prefix. unfold len. by rewrite zeros_length, Z2Nat.id.
  - unfold len. simpl. rewrite zeros_length, Z2Nat.id; lia.
Qed.

Lemma text_no_bar s : contains bar (text_field s) = false.
Proof.
  assert (forall c, contains bar (hex_encode_byte c) = false) as Hc
    by (intros [[] [] [] [] [] [] [] []]; reflexivity).
  unfold text_field. induction (as_bytes s) as [|c b IH]; [done|]. cbn [hex_encode]. by rewrite contains_app, Hc.
Qed.

Lemma number_no_bar z : contains bar (number_field z) = false.
Proof. unfold number_field. destruct (0 <=? z)%Z; simpl; by rewrite zeros_no_bar. Qed.

#[local] Instance secret_fields : FromStr SecretWire := fun s =>
  match split_on bar s with
  | [path; version; value; at_; by_] =>
      Ok (mkSecretWire (read_text path) (read_number version) (read_text value) (read_number at_) (read_text by_))
  | _ => Err CatData
  end.
#[local] Instance written_fields : FromStr WrittenWire := fun s =>
  match split_on bar s with
  | [path; version] => Ok (mkWrittenWire (read_text path) (read_number version))
  | _ => Err CatData
  end.
#[local] Instance error_fields : FromStr ErrorWire := fun s => Ok (mkErrorWire s None).
#[local] Instance fields_text : ToJson := fun fields =>
  join (str1 bar) (map (fun f => text_field match snd f with FieldText t => t | FieldTexts l => join "," l end) fields).

Definition reply_body (r : Reply) : string :=
  match r with
  | RepSecret r => join (str1 bar) [text_field (sr_path r); number_field (sr_version r); text_field (sr_value r);
      number_field (sr_created_at r); text_field (sr_created_by r)]
  | RepWrite r => join (str1 bar) [text_field (wr_path r); number_field (wr_version r)]
  | _ => EmptyString
  end.

(** ** The link *)

Definition linked_base : string := "https://vault.internal".
Definition world : Type := list (app_m (D := MemDevice) Reply) * App MemDevice.

Definition incoming_of (request : HttpRequest) : option Incoming :=
  let headers := mkHeaders (snd <$> List.find (fun h => String.eqb (fst h) "authorization") (rq_headers request)) None None in
  mkIncoming headers None <$>
  match strip_prefix (linked_base ++ "/v1/secrets/") (rq_url request), rq_method request, rq_body request with
  | Some path, PUT, Some body =>
      match map read_text (split_on bar body) with
      | [value] => Some (ReqWrite path (Ok (mkSecretBody value None)))
      | [value; class] => Some (ReqWrite path (Ok (mkSecretBody value (Some class))))
      | _ => None
      end
  | Some rest, GET, None =>
      match split_once "?"%char rest with
      | Some (path, query) => ReqRead path <$> (Some <$> (strip_prefix "version=" query ≫= parse_u64))
      | None => Some (ReqRead rest None)
      end
  | _, _, _ => None
  end.

#[local] Instance served_alone : Transport unit world := fun _ request w =>
  match incoming_of request with
  | None => (Err "no such route", w)
  | Some incoming =>
      match run (program demo_state incoming) (snd w) with
      | (None, _) => (Err "connection reset", w)
      | (Some r, s) =>
          (Ok (mkAnswer (http_status (respond r))
             (fun _ => Ok match r with Ok reply => reply_body reply | Err _ => EmptyString end)),
           (fst w ++ [Done r], s))
      end
  end.

#[local] Instance linked : Link (D := MemDevice) (W := world) :=
  {| link_world w := w; link_request := incoming_of; link_body := reply_body |}.

Lemma served_runs (ts : list (app_m (D := MemDevice) Reply)) s incoming r s' : run (program demo_state incoming) s = (Some r, s') ->
  rtc (pool_step (arrives demo_state)) (ts ++ [program demo_state incoming], s) (ts ++ [Done r], s').
Proof.
  intros Hr. pose proof (demo_finishes ts [] (program demo_state incoming) r s _ eq_refl) as Hp. rewrite Hr in Hp. by apply Hp.
Qed.

Lemma comes (ts : list (app_m (D := MemDevice) Reply)) s incoming : rtc (pool_step (arrives demo_state)) (ts, s) (ts ++ [program demo_state incoming], s).
Proof. apply rtc_once, pool_step_new, arrives_request. Qed.

#[local] Instance linked_laws : LinkLaws demo_state (Cert := unit) (W := world).
Proof.
  split.
  - intros agent request [ts s]. unfold exchange, served_alone. simpl. destruct (incoming_of request) as [incoming|]; [|apply rtc_refl].
    destruct (run (program demo_state incoming) s) as [[r|] s'] eqn:Hr; simpl; [|apply rtc_refl].
    etrans; [apply comes|by apply served_runs].
  - intros agent request [ts s] answer w' incoming Hx Hq. unfold exchange, served_alone in Hx. simpl in Hx, Hq. rewrite Hq in Hx.
    destruct (run (program demo_state incoming) s) as [[r|] s'] eqn:Hr; [|done]. injection Hx as <- <-.
    exists (length ts), (ts ++ [program demo_state incoming], s), (ts ++ [Done r], s'), r.
    simpl. split_and!; [apply comes|by apply list_lookup_middle|by apply served_runs|by apply list_lookup_middle|apply rtc_refl|].
    split; [done|]. intros reply body -> [= <-]. done.
  - intros r wire. unfold from_str, secret_fields. cbn [link_body linked reply_body].
    rewrite split_join; [|done|repeat constructor; auto using text_no_bar, number_no_bar].
    rewrite !read_text_field, !read_number_field. by intros [= <-].
  - intros r wire. unfold from_str, written_fields. cbn [link_body linked reply_body].
    rewrite split_join; [|done|repeat constructor; auto using text_no_bar, number_no_bar].
    rewrite read_text_field, read_number_field. by intros [= <-].
Qed.

(** ** Two clients, and a third *)

Definition linked_client : Client unit :=
  mkClient (agent_config [tt] 10 "app/1") linked_base ("Bearer " ++ expose_text example_token).
Definition db_path : SecretPath := mkSecretPath "infra/db".
Definition first_world : world := ([], demo_app).
Definition first_write : result SdkError Written * world :=
  client_write linked_client db_path (as_bytes "s3cret") (Some Rotatable) first_world.
Definition other_write : result SdkError Written * world :=
  client_write linked_client db_path (as_bytes "later") None (snd first_write).
Definition then_got : result SdkError Secret * world :=
  client_get_version linked_client db_path (mkVersion 2) (snd other_write).

Example linked_writes : fst first_write = Ok (mkWritten db_path (mkVersion 2)) /\
  fst other_write = Ok (mkWritten db_path (mkVersion 3)).
Proof. vm_compute. done. Qed.

Example linked_read : fst then_got = Ok (mkSecret db_path (mkVersion 2) (as_bytes "s3cret") 50 "deploy-runner").
Proof. vm_compute. done. Qed.

#[local] Opaque client_write client_get_version.

Lemma written_secret_reads_back_witness :
  db_path = db_path /\ s_path (mkSecret db_path (mkVersion 2) (as_bytes "s3cret") 50 "deploy-runner") = db_path /\
  s_version (mkSecret db_path (mkVersion 2) (as_bytes "s3cret") 50 "deploy-runner") = mkVersion 2 /\
  s_value (mkSecret db_path (mkVersion 2) (as_bytes "s3cret") 50 "deploy-runner") = as_bytes "s3cret".
Proof.
  assert (fst then_got = Ok (mkSecret db_path (mkVersion 2) (as_bytes "s3cret") 50 "deploy-runner")) as Hgot
    by exact linked_read.
  assert (first_write = (Ok (mkWritten db_path (mkVersion 2)), snd first_write)) as Hw
    by (rewrite (surjective_pairing first_write) at 1; f_equal; apply linked_writes).
  assert (then_got = (Ok (mkSecret db_path (mkVersion 2) (as_bytes "s3cret") 50 "deploy-runner"), snd then_got)) as Hr
    by (rewrite (surjective_pairing then_got) at 1; f_equal; exact Hgot).
  apply (written_secret_reads_back demo_state (Cert := unit) [] demo_app linked_client linked_client db_path (as_bytes "s3cret")
    (Some Rotatable) first_world (snd first_write) (snd other_write) (snd then_got) (mkWritten db_path (mkVersion 2))
    (mkSecret db_path (mkVersion 2) (as_bytes "s3cret") 50 "deploy-runner")
    (mkHeaders (Some ("Bearer " ++ expose_text example_token)%string) None None) None
    (mkHeaders (Some ("Bearer " ++ expose_text example_token)%string) None None) None toy_aead_laws demo_store_wf).
  - apply rtc_refl.
  - vm_compute. reflexivity.
  - intros text Ht. vm_compute in Ht. injection Ht as <-. vm_compute. reflexivity.
  - vm_compute. reflexivity.
  - exact Hw.
  - apply (client_write_runs demo_state (LL := linked_laws)).
  - exact Hr.
Defined.
