(* ===== verification/Runner.v ===== *)
(** * The process runner ([ciphr-run]: error.rs, exec.rs, main.rs)

    Secrets are fetched, named, and given to the command that replaces this process.
    What the program becomes is what [run] answers: a process, or an error and no
    process.  This is the Unix build; the kernel, the environment that is inherited
    and the file system are arguments. *)

From Stdlib Require Import ZArith NArith Lia Ascii String.
From stdpp Require Import base tactics list strings gmap.
From S2P Require Import Prelude Text Path Vocabulary Crypto Client.

(** [std::io::ErrorKind], as far as the code tells kinds apart, and its text. *)
Inductive ErrorKind : Type := KindNotFound | KindInvalidInput | KindOther (text : string).
Definition error_kind_text (k : ErrorKind) : string :=
  match k with
  | KindNotFound => "entity not found"
  | KindInvalidInput => "invalid input parameter"
  | KindOther text => text
  end.

(** ** Errors (error.rs) *)

Inductive RunError : Type :=
| ReNoExec
| ReTokenFile (path reason : string)
| ReTokenFileWorldAccessible (path : string) (mode : Z) (access : WorldAccess)
| ReAuthorityFile (path reason : string)
| RePath (error : PathError)
| ReService (error : SdkError)
| ReProcessControlName (name reason : string)
| ReNoCommand
| ReExec (program reason : string) (not_found : bool).

Definition run_error_code (e : RunError) : Z :=
  match e with
  | ReExec _ _ not_found => if not_found then 127 else 126
  | _ => 125
  end%Z.

Definition run_error_display (e : RunError) : string :=
  match e with
  | ReNoExec =>
      "this platform has no exec, so the command cannot replace this process. Running it as a child instead would leave a supervisor alive holding the plaintext, which is the opposite of what this program is for -- so it refuses rather than offering a weaker version of itself"
  | ReTokenFile path reason => "cannot read the token file " ++ path ++ ": " ++ reason
  | ReTokenFileWorldAccessible path mode access =>
      "the token file " ++ path ++ " is mode " ++ octal_padded 4 mode ++ " and " ++ world_access_description access
      ++ "; restrict it to its owner (and group, if a service needs it)"
      ++ (if (mode =? BIND_MOUNT_MODE)%Z then BIND_MOUNT_HINT else EmptyString)
  | ReAuthorityFile path reason => "cannot read the certificate authority " ++ path ++ ": " ++ reason
  | RePath error => path_error_display error
  | ReService error => sdk_error_display error
  | ReProcessControlName name reason =>
      "refusing to hand " ++ name ++ " to the command: " ++ reason
      ++ ", so a secret named after it decides how that program starts rather than what it reads. Nothing was executed. If this deployment genuinely needs that variable, set it in the container definition, where it is a decision somebody reviewed -- and if this arrived under --prefix, note that whoever may write there chose this name"
  | ReNoCommand => "nothing to execute; put the command after `--`"
  | ReExec program reason not_found =>
      if not_found
      then program ++ " was not found. The secrets were fetched and are gone with this process; nothing was started"
      else "cannot execute " ++ program ++ ": " ++ reason
  end.

(** ** The process to become (exec.rs) *)

Record Plan : Type := mkPlan {
  pl_program : string; pl_arguments : list string; pl_variables : list (EnvVarName * Plaintext) }.

Definition Plan_new (command : list string) (variables : list (EnvVarName * Plaintext)) : result RunError Plan :=
  match command with
  | [] => Err ReNoCommand
  | program :: arguments => Ok (mkPlan program arguments variables)
  end.
Definition plan_names (p : Plan) : list EnvVarName := map fst (pl_variables p).

Record Process : Type := mkProcess {
  pr_program : string; pr_arguments : list string; pr_environment : gmap string bytes }.

(** What the kernel answers a call of [exec]: it returns only when it fails. *)
Definition kernel : Type := Process -> option ErrorKind.

(** [Command::env] replaces a variable that is there. *)
Definition plan_command (inherited : gmap string bytes) (p : Plan) : Process :=
  mkProcess (pl_program p) (pl_arguments p)
    (fold_left (fun env '(name, value) => <[env_str name := value]> env) (pl_variables p) inherited).

(** Nothing with a NUL reaches the kernel. *)
Definition nul : ascii := ascii_of_N 0.
Definition has_nul (b : bytes) : bool := existsb (Ascii.eqb nul) b.
Definition saw_nul (p : Process) : bool :=
  has_nul (as_bytes (pr_program p)) || existsb (fun a => has_nul (as_bytes a)) (pr_arguments p)
  || existsb (fun '(_, value) => has_nul value) (map_to_list (pr_environment p)).
Definition command_exec (k : kernel) (p : Process) : option ErrorKind :=
  if saw_nul p then Some KindInvalidInput else k p.

Definition plan_exec (inherited : gmap string bytes) (k : kernel) (p : Plan) : result RunError Process :=
  let command := plan_command inherited p in
  match command_exec k command with
  | None => Ok command
  | Some kind =>
      Err (ReExec (pl_program p) (error_kind_text kind) match kind with KindNotFound => true | _ => false end)
  end.

Definition is_supported : bool := true.

(** ** The program (main.rs) *)

Record RunCli : Type := mkRunCli {
  rc_url : string; rc_token_file : string; rc_ca : string; rc_prefix : option string; rc_path : list string;
  rc_timeout : Z; rc_report : bool; rc_command : list string }.

(** What the program is given: the files, and what a process gets. *)
Record Surroundings : Type := mkSurroundings {
  su_files : filesystem;
  su_read : string -> result string bytes;
  su_inherited : gmap string bytes;
  su_kernel : kernel;
}.

Section run.
Context {U : Unicode} {Cert W : Type} {PR : PemReader Cert} {T : Transport Cert W} {TJ : ToJson}.
Context {FE : FromStr ErrorWire} {FS : FromStr SecretWire} {FL : FromStr ListingWire} {FX : FromStr ExportWire}.
Context (around : Surroundings).

(** The network, and what was written to standard error. *)
Record RunHost : Type := mkRunHost { rh_world : W; rh_stderr : string }.
Definition run_m (A : Type) : Type := stm RunHost RunError A.

Definition service {A} (m : sdk_m (W := W) A) : run_m A :=
  mzoom rh_world (fun w h => mkRunHost w (rh_stderr h)) (mmap_err ReService m).
Definition run_eprintln (text : string) : run_m unit :=
  mmodify (fun h => mkRunHost (rh_world h) (rh_stderr h ++ text ++ str1 newline)).

Definition run_read_token (path : string) : result RunError string :=
  let? credential := map_err (fun error => ReTokenFile path (credential_reason error)) (open_credential (su_files around) path) in
  match cred_world credential with
  | Some access => Err (ReTokenFileWorldAccessible path (default 0%Z (cred_mode credential)) access)
  | None => map_err (ReTokenFile path) (fd_read (cred_file credential))
  end.

Definition parse_cli_paths (raw : list string) : result PathError (list SecretPath) := res_mapM SecretPath_parse raw.

Definition fetch (client : Client Cert) (cli : RunCli) : run_m Environment :=
  match rc_prefix cli with
  | Some prefix =>
      let! prefix := mlift (map_err RePath (SecretPath_parse prefix)) in
      service (client_environment client prefix)
  | None =>
      let! paths := mlift (map_err RePath (parse_cli_paths (rc_path cli))) in
      service (client_environment_of client paths)
  end.

Fixpoint refuse_control_names (names : list EnvVarName) : result RunError unit :=
  match names with
  | [] => Ok tt
  | name :: names =>
      match process_control_reason (env_str name) with
      | Some reason => Err (ReProcessControlName (env_str name) reason)
      | None => refuse_control_names names
      end
  end.

Definition RUN_AGENT : string := "ciphr-run/0.15.0".

Definition run_client (cli : RunCli) (token : string) (authority : bytes) : result SdkError (Client Cert) :=
  builder_build (builder_user_agent (builder_timeout (Client_builder (rc_url cli) (trim token) authority) (rc_timeout cli)) RUN_AGENT).

Definition run (cli : RunCli) : run_m Process :=
  if negb is_supported then mfail ReNoExec
  else match rc_command cli with [] => mfail ReNoCommand | _ =>
    let! token := mlift (run_read_token (rc_token_file cli)) in
    let! authority := mlift (map_err (ReAuthorityFile (rc_ca cli)) (su_read around (rc_ca cli))) in
    let! client := mlift (map_err ReService (run_client cli token authority)) in
    let! environment := fetch client cli in
    let! _ := mlift (refuse_control_names (environment_names environment)) in
    let! plan := mlift (Plan_new (rc_command cli) (into_entries environment)) in
    let! _ := if rc_report cli
              then run_eprintln ("ciphr-run: delivering " ++ join ", " (map env_str (plan_names plan)) ++ " to " ++ pl_program plan)
              else mret tt in
    mlift (plan_exec (su_inherited around) (su_kernel around) plan)
  end.

(** What [main] leaves behind when nothing was started: an exit status and a line
    on standard error. *)
Definition run_main (cli : RunCli) (h : RunHost) : (Z + Process) * RunHost :=
  match run cli h with
  | (Ok process, h) => (inr process, h)
  | (Err e, h) =>
      (inl (run_error_code e), mkRunHost (rh_world h) (rh_stderr h ++ "ciphr-run: " ++ run_error_display e ++ str1 newline))
  end.
End run.

(** ** Lemmas *)

Lemma env_str_inj a b : env_str a = env_str b -> a = b.
Proof. destruct a, b. by intros [= ->]. Qed.

Lemma plan_environment_other entries v : v ∉ map (fun e => env_str (fst e)) entries -> forall env : gmap string bytes,
  fold_left (fun env '(name, value) => <[env_str name := value]> env) entries env !! v = env !! v.
Proof.
  induction entries as [|[n x] entries IH]; intros Hv env; [done|]. simpl in *. apply not_elem_of_cons in Hv as [Hn Hv].
  rewrite IH by done. by rewrite lookup_insert_ne.
Qed.

Lemma plan_environment_entry entries : NoDup (map (fun e => env_str (fst e)) entries) ->
  forall (env : gmap string bytes) name (value : bytes), (name, value) ∈ entries ->
  fold_left (fun env '(name, value) => <[env_str name := value]> env) entries env !! env_str name = Some value.
Proof.
  induction entries as [|[n x] entries IH]; intros Hnd env name value Hin; [by apply elem_of_nil in Hin|].
  simpl in *. apply NoDup_cons in Hnd as [Hn Hnd]. apply elem_of_cons in Hin as [[= <- <-]|Hin]; [|by apply IH].
  rewrite plan_environment_other by done. by rewrite lookup_insert_eq.
Qed.

Lemma saw_nul_values p : saw_nul p = false -> forall v x, pr_environment p !! v = Some x -> nul ∉ x.
Proof.
  unfold saw_nul. intros H v x Hv Hin. apply orb_false_iff in H as [_ H].
  apply not_true_iff_false in H. apply H, existsb_exists. exists (v, x). split; [by apply list_elem_of_In, elem_of_map_to_list|].
  unfold has_nul. apply existsb_exists. exists nul. split; [by apply list_elem_of_In|]. by apply Ascii.eqb_eq.
Qed.

Lemma refuse_control_names_Ok names : refuse_control_names names = Ok tt <->
  Forall (fun n => process_control_reason (env_str n) = None) names.
Proof.
  induction names as [|n names IH]; [done|]. simpl. rewrite Forall_cons, <- IH.
  destruct (process_control_reason _); [|tauto]. split; [done|]. by intros [? _].
Qed.

(** ** Properties *)

Section run_correct.
Context {U : Unicode} {Cert W : Type} {PR : PemReader Cert} {T : Transport Cert W} {TJ : ToJson}.
Context {FE : FromStr ErrorWire} {FS : FromStr SecretWire} {FL : FromStr ListingWire} {FX : FromStr ExportWire}.
Context (around : Surroundings).

(** What was asked for: the paths of the command line, or what the service lists
    under the prefix, which is something. *)
Definition asked_paths (client : Client Cert) (prefix : option string) (raw : list string) (w : W)
    (paths : list SecretPath) (w1 : W) : Prop :=
  match prefix with
  | Some text => exists p, SecretPath_parse text = Ok p /\ client_list client p w = (Ok paths, w1) /\ paths <> []
  | None => parse_cli_paths raw = Ok paths /\ w1 = w
  end.

Lemma environment_of_Ok (client : Client Cert) paths w env w' : client_environment_of client paths w = (Ok env, w') ->
  exists secrets, client_read_all client paths w = (Ok secrets, w') /\ environment_assemble secrets = Ok env.
Proof.
  unfold client_environment_of. intros H. apply mbind_Ok in H as (names & w0 & H0 & H). injection H0 as _ <-.
  apply mbind_Ok in H as (secrets & w1 & Hr & H). injection H as H <-. by exists secrets.
Qed.

Lemma fetch_Ok (client : Client Cert) cli h env h' : fetch client cli h = (Ok env, h') ->
  exists paths w1 secrets, asked_paths client (rc_prefix cli) (rc_path cli) (rh_world h) paths w1 /\
    client_read_all client paths w1 = (Ok secrets, rh_world h') /\ environment_assemble secrets = Ok env.
Proof.
  unfold fetch, asked_paths. destruct (rc_prefix cli) as [text|]; intros H;
    apply mbind_Ok in H as (p & h1 & Hp & H); injection Hp as Hp%map_err_Ok <-;
    apply mzoom_Ok in H as [H ->]; apply mmap_err_Ok in H; simpl.
  - unfold client_environment in H. apply mbind_Ok in H as (paths & w1 & Hl & H).
    assert (paths <> []) as Hne by by destruct paths.
    assert (client_environment_of client paths w1 = (Ok env, snd (mmap_err ReService (client_environment client p) (rh_world h)))) as He
      by by destruct paths.
    apply environment_of_Ok in He as (secrets & Hr & Ha). exists paths, w1, secrets. split_and!; [by exists p|done|done].
  - apply environment_of_Ok in H as (secrets & Hr & Ha). exists p, (rh_world h), secrets. by split_and!.
Qed.

Lemma plan_delivers inherited program arguments secrets env : environment_assemble secrets = Ok env ->
  let process := plan_command inherited (mkPlan program arguments (into_entries env)) in
  NoDup (map env_str (environment_names env)) /\
  Forall2 (fun n s => last (segments (s_path s)) = Some (env_str n) /\
    pr_environment process !! env_str n = Some (s_value s)) (environment_names env) secrets /\
  (forall v, v ∉ map env_str (environment_names env) -> pr_environment process !! v = inherited !! v).
Proof.
  intros (Hnd & Hv & HF & _)%environment_assemble_Ok process.
  assert (map (fun e : EnvVarName * Plaintext => env_str (fst e)) (into_entries env) = map env_str (environment_names env)) as Hmap
    by (unfold environment_names, into_entries; by rewrite map_map).
  assert (NoDup (map env_str (environment_names env))) as Hnd' by (by apply NoDup_fmap_2_strong; [intros ? ? _ _; apply env_str_inj|]).
  split_and!; [done| |intros v Hv'; apply plan_environment_other; by rewrite <- Hmap in Hv'].
  apply Forall2_same_length_lookup. pose proof (Forall2_length _ _ _ HF) as Hlen. split; [done|].
  intros i n s Hi Hs. rewrite Forall2_lookup in HF. specialize (HF i). rewrite Hi, Hs in HF. inversion HF as [? ? HFi|]; subst.
  split; [done|]. apply plan_environment_entry; [by rewrite <- Hmap in Hnd'|]. simpl. apply list_elem_of_lookup. exists i.
  apply (f_equal (fun l => l !! i)) in Hv. unfold environment_names in Hi. rewrite lookup_map in Hi. rewrite !lookup_map, Hs in Hv.
  unfold into_entries. destruct (en_entries env !! i) as [[n' x]|] eqn:E; [|done].
  injection Hi as ->. injection Hv as ->. exact E.
Qed.

(** C33: The command is started only with what was asked for and answered: the token's
    file is closed to the world, every variable has a distinct name, the last
    segment of its secret's path, that no loader or interpreter reads first, and
    exactly its secret's value, which holds no NUL; every other variable is the one
    inherited.  Whatever fails before, no process is started. *)
Theorem run_starts_only_what_was_answered cli h process h' : run around cli h = (Ok process, h') ->
  exists credential token authority client paths w1 secrets names,
    open_credential (su_files around) (rc_token_file cli) = Ok credential /\ cred_world credential = None /\
    fd_read (cred_file credential) = Ok token /\ su_read around (rc_ca cli) = Ok authority /\
    run_client cli token authority = Ok client /\
    asked_paths client (rc_prefix cli) (rc_path cli) (rh_world h) paths w1 /\
    client_read_all client paths w1 = (Ok secrets, rh_world h') /\
    rc_command cli = pr_program process :: pr_arguments process /\
    NoDup (map env_str names) /\ Forall (fun n => process_control_reason (env_str n) = None) names /\
    Forall2 (fun n s => last (segments (s_path s)) = Some (env_str n) /\
      pr_environment process !! env_str n = Some (s_value s) /\ nul ∉ s_value s) names secrets /\
    (forall v, v ∉ map env_str names -> pr_environment process !! v = su_inherited around !! v) /\
    su_kernel around process = None.
Proof.
  unfold run. destruct (rc_command cli) as [|program arguments] eqn:Hcmd; [done|]. cbn [negb is_supported].
  intros H. apply mbind_Ok in H as (token & h1 & Ht & H). injection Ht as Ht <-.
  apply mbind_Ok in H as (authority & h1 & Ha & H). injection Ha as Ha%map_err_Ok <-.
  apply mbind_Ok in H as (client & h1 & Hc & H). injection Hc as Hc%map_err_Ok <-.
  apply mbind_Ok in H as (env & h1 & (paths & w1 & secrets & Hp & Hr & He)%fetch_Ok & H).
  apply mbind_Ok in H as ([] & h2 & Hn & H). injection Hn as Hn%refuse_control_names_Ok <-.
  apply mbind_Ok in H as (plan & h2 & Hpl & H). injection Hpl as <- <-.
  apply mbind_Ok in H as ([] & h2 & Hw & H). injection H as H <-.
  assert (rh_world h2 = rh_world h1) as Hw' by (by destruct (rc_report cli); injection Hw as <-).
  clear Hw. unfold run_read_token in Ht. apply res_bind_Ok in Ht as (credential & Hcr%map_err_Ok & Ht).
  destruct (cred_world credential) eqn:Hworld; [done|]. apply map_err_Ok in Ht.
  destruct (plan_delivers (su_inherited around) program arguments _ _ He) as (Hnd & HF & Ho).
  exists credential, token, authority, client, paths, w1, secrets, (environment_names env).
  unfold plan_exec, command_exec in H. destruct (saw_nul _) eqn:Hnul; [done|].
  destruct (su_kernel around _) eqn:Hk; [done|]. injection H as <-.
  split_and!; try done; [by rewrite Hw'|].
  eapply Forall2_impl; [exact HF|]. intros n s [Hl Hin]. split_and!; [done|done|by eapply saw_nul_values].
Qed.
End run_correct.
