(* ===== verification/Ci.v ===== *)
(** * Delivery into a CI job ([ciphr-ci]: error.rs, deliver.rs, main.rs)

    Secrets are fetched and rendered for a job: on standard output, or as mask
    commands there and assignments in the runner's environment file.  A run is a
    [prog], so what holds at every one of its steps holds wherever the job is
    killed.  Standard output is a file of the model's operating system, which may
    fail any call, and a write part-way. *)

From Stdlib Require Import ZArith NArith Lia Ascii String.
From stdpp Require Import base tactics list strings gmap.
From S2P Require Import Prelude Text Path Vocabulary Crypto Chain Sink FileDevice Prog Rendering Client Runner.

(** ** Errors (error.rs) *)

Inductive CiError : Type :=
| CiFormat (found : string)
| CiTokenFile (path reason : string)
| CiTokenFileWorldAccessible (path : string) (mode : Z) (access : WorldAccess)
| CiAuthorityFile (path reason : string)
| CiPath (error : PathError)
| CiService (error : SdkError)
| CiNotText (path : string)
| CiRender (error : ExportError)
| CiProcessControlName (name reason : string)
| CiNothingUnderPrefix (prefix : string)
| CiGithubEnvWithoutActions
| CiGithubEnvUnset
| CiOutput (reason : string)
| CiEnvironmentFile (path reason : string)
| CiWouldPipeSecret.

Definition ci_error_code : Z := 1.

(** The runs of spaces of the refused name's text are the source's. *)
Definition ci_error_display (e : CiError) : string :=
  match e with
  | CiFormat error => unknown_format_display error
  | CiTokenFile path reason => "cannot read the token file " ++ path ++ ": " ++ reason
  | CiTokenFileWorldAccessible path mode access =>
      "the token file " ++ path ++ " is mode " ++ octal_padded 4 mode ++ " and " ++ world_access_description access
      ++ "; restrict it to its owner (and group, if the job needs it)"
      ++ (if (mode =? BIND_MOUNT_MODE)%Z then BIND_MOUNT_HINT else EmptyString)
  | CiAuthorityFile path reason => "cannot read the certificate authority " ++ path ++ ": " ++ reason
  | CiPath error => path_error_display error
  | CiService error => sdk_error_display error
  | CiNotText path =>
      path ++ " is not valid UTF-8 and cannot be written into an environment; the API serves text, so a binary secret has to be encoded by whoever stored it"
  | CiRender error => export_error_display error
  | CiProcessControlName name reason =>
      "refusing to deliver " ++ name ++ ": " ++ reason
      ++ ", so a secret named after it would                  decide how the steps after this one run rather than what they read.                  Nothing was fetched and nothing was written. If this job genuinely needs                  that variable, set it in the workflow, where it is a line somebody                  reviewed"
  | CiNothingUnderPrefix prefix =>
      "nothing is visible under " ++ prefix
      ++ ": either there is nothing there, or this token has no 'list' capability on it — the service cannot tell those apart and neither can this program. Naming the paths with --path needs only 'read'"
  | CiGithubEnvWithoutActions =>
      "--github-env belongs to --format actions-env, which is the format that has an environment file to append to; the other two write to standard output"
  | CiGithubEnvUnset =>
      "--github-env was given but GITHUB_ENV is not set; that variable is set by the runner, so this is either not a job step or not a runner that supports environment files"
  | CiOutput reason =>
      "cannot write to standard output: " ++ reason
      ++ ". Nothing further was written, because a runner that did not receive the mask commands would log the values unredacted"
  | CiEnvironmentFile path reason =>
      "cannot append to the environment file " ++ path ++ ": " ++ reason
      ++ ". The masks were emitted and no assignment was written"
  | CiWouldPipeSecret =>
      "this would write secret values to a pipe. Pass --force if that is what the step wants -- or use --format actions-env, which puts the values in the runner's environment file and only mask commands on standard output"
  end.

Record CiCli : Type := mkCiCli {
  cc_url : string; cc_token_file : string; cc_ca : string; cc_prefix : option string; cc_path : list string;
  cc_format : string; cc_github_env : bool; cc_timeout : Z; cc_force : bool; cc_report : bool }.

(** What a job step is given: files, its environment, and where standard output
    goes. *)
Record Job : Type := mkJob {
  jb_files : filesystem;
  jb_read : string -> result string bytes;
  jb_env : string -> env_var;
  jb_terminal : bool;
  jb_stdout : nat;
}.

Section ci.
Context {U : Unicode} {En : Entropy} {P : JsonPretty} {Cert W : Type} {PR : PemReader Cert} {T : Transport Cert W} {TJ : ToJson}.
Context {FE : FromStr ErrorWire} {FS : FromStr SecretWire} {FL : FromStr ListingWire} {FX : FromStr ExportWire}.
Context (job : Job).

Record CiHost : Type := mkCiHost { ci_world : W; ci_os : os; ci_rng : rng; ci_stderr : string }.
Definition ci_m (A : Type) : Type := prog CiHost CiError A.

Definition ci_service {A} (m : sdk_m (W := W) A) : ci_m A :=
  patomic (mzoom ci_world (fun w h => mkCiHost w (ci_os h) (ci_rng h) (ci_stderr h)) (mmap_err CiService m)).
Definition ci_call {A} (err : string -> CiError) (m : stm os string A) : ci_m A :=
  patomic (mzoom ci_os (fun o h => mkCiHost (ci_world h) o (ci_rng h) (ci_stderr h)) (mmap_err err m)).
Definition ci_draw {A} (m : stm rng ExportError A) : ci_m A :=
  patomic (mzoom ci_rng (fun r h => mkCiHost (ci_world h) (ci_os h) r (ci_stderr h)) (mmap_err CiRender m)).
Definition ci_eprintln (text : string) : ci_m unit :=
  pstep (fun h => (tt, mkCiHost (ci_world h) (ci_os h) (ci_rng h) (ci_stderr h ++ text ++ str1 newline))).

(** ** Delivering (deliver.rs) *)

(** [write_all], which makes no call for no bytes. *)
Definition ci_write_all (err : string -> CiError) (file : nat) (b : bytes) : ci_m unit :=
  match b with [] => pret tt | _ => ci_call err (os_write_all file b) end.
Definition write_out (b : bytes) : ci_m unit := ci_write_all CiOutput (jb_stdout job) b.

(** [OpenOptions::new().append(true).open(path)]: a file that is there. *)
Definition os_open_existing (path : string) : stm os string nat :=
  os_plain (fun s => (ok_or "entity not found"%string (os_names s !! path), s)).

Definition append (path : string) (b : bytes) : ci_m unit :=
  let* file := ci_call (CiEnvironmentFile path) (os_open_existing path) in
  ci_write_all (CiEnvironmentFile path) file b.

Definition deliver (format : ExportFormat) (secrets : list Exported) (github_env : option string) : ci_m unit :=
  match format with
  | ActionsEnv =>
      let* parts := ci_draw (render_actions_env secrets) in
      let* _ := write_out (as_bytes (fst parts)) in
      let* _ := ci_call CiOutput (os_sync_data (jb_stdout job)) in
      match github_env with
      | Some path => append path (as_bytes (snd parts))
      | None => write_out (as_bytes (snd parts))
      end
  | _ =>
      let* rendered := ci_draw (render format secrets) in
      write_out (as_bytes rendered)
  end.

(** ** The program (main.rs) *)

Definition environment_file (cli : CiCli) (format : ExportFormat) : result CiError (option string) :=
  if negb (cc_github_env cli) then Ok None
  else match format with
       | ActionsEnv =>
           match jb_env job "GITHUB_ENV" with
           | VarPresent value => Ok (Some value)
           | _ => Err CiGithubEnvUnset
           end
       | _ => Err CiGithubEnvWithoutActions
       end.

Definition ci_paths (client : Client Cert) (cli : CiCli) : ci_m (list SecretPath) :=
  match cc_prefix cli with
  | None => plift (map_err CiPath (parse_cli_paths (cc_path cli)))
  | Some prefix =>
      let* prefix := plift (map_err CiPath (SecretPath_parse prefix)) in
      let* listed := ci_service (client_list client prefix) in
      match listed with
      | [] => pfail (CiNothingUnderPrefix (path_str prefix))
      | _ => pret listed
      end
  end.

Fixpoint as_text (secrets : list Secret) : result CiError (list Exported) :=
  match secrets with
  | [] => Ok []
  | secret :: secrets =>
      match from_utf8 (s_value secret) with
      | None => Err (CiNotText (path_str (s_path secret)))
      | Some value =>
          let? exported := as_text secrets in
          Ok (mkExported (s_path secret) value :: exported)
      end
  end.

Definition ci_report (format : ExportFormat) (exported : list Exported) : ci_m unit :=
  let say subjects := ci_eprintln ("ciphr-ci: delivering " ++ join ", " subjects) in
  match format with
  | JsonFormat => say (map (fun secret => path_str (x_path secret)) exported)
  | _ =>
      match env_assign (map x_path exported) with
      | Ok names => say (map env_str names)
      | Err _ => pret tt
      end
  end.

Definition ci_read_token (path : string) : result CiError string :=
  let? credential := map_err (fun error => CiTokenFile path (credential_reason error)) (open_credential (jb_files job) path) in
  match cred_world credential with
  | Some access => Err (CiTokenFileWorldAccessible path (default 0%Z (cred_mode credential)) access)
  | None => map_err (CiTokenFile path) (fd_read (cred_file credential))
  end.

Fixpoint ci_refuse_control (names : list EnvVarName) : result CiError unit :=
  match names with
  | [] => Ok tt
  | name :: names =>
      match process_control_reason (env_str name) with
      | Some reason => Err (CiProcessControlName (env_str name) reason)
      | None => ci_refuse_control names
      end
  end.

(** The names of an environment, before anything is fetched. *)
Definition check_names (format : ExportFormat) (paths : list SecretPath) : result CiError unit :=
  match format with
  | JsonFormat => Ok tt
  | _ =>
      let? names := map_err (fun e => CiRender (ExEnvName e)) (env_assign paths) in
      ci_refuse_control names
  end.

Definition CI_AGENT : string := "ciphr-ci/0.15.0".
Definition ci_client (cli : CiCli) (token : string) (authority : bytes) : result SdkError (Client Cert) :=
  builder_build (builder_user_agent (builder_timeout (Client_builder (cc_url cli) (trim token) authority) (cc_timeout cli)) CI_AGENT).

Definition ci_run (cli : CiCli) : ci_m unit :=
  let* format := plift (map_err CiFormat (ExportFormat_parse (cc_format cli))) in
  let* github_env := plift (environment_file cli format) in
  if writes_values_to_stdout format && negb (cc_force cli) && negb (jb_terminal job) then pfail CiWouldPipeSecret
  else
    let* token := plift (ci_read_token (cc_token_file cli)) in
    let* authority := plift (map_err (CiAuthorityFile (cc_ca cli)) (jb_read job (cc_ca cli))) in
    let* client := plift (map_err CiService (ci_client cli token authority)) in
    let* paths := ci_paths client cli in
    let* _ := plift (check_names format paths) in
    let* secrets := ci_service (client_read_all client paths) in
    let* exported := plift (as_text secrets) in
    let* _ := if cc_report cli then ci_report format exported else pret tt in
    deliver format exported github_env.

Definition ci_main (cli : CiCli) : ci_m Z :=
  let* outcome := ptry (ci_run cli) in
  match outcome with
  | Ok _ => pret 0%Z
  | Err error => let* _ := ci_eprintln ("ciphr-ci: " ++ ci_error_display error) in pret ci_error_code
  end.
End ci.

(** ** What reaches the outside *)

(** Bytes added at the end of one file, and nothing else changed. *)
Record appended (file : nat) (b : bytes) (o o' : os) : Prop := mkAppended {
  appended_names : os_names o' = os_names o;
  appended_there : os_content file o' = os_content file o ++ b;
  appended_other : forall j, j <> file -> os_content j o' = os_content j o;
}.
Definition unwritten (o o' : os) : Prop :=
  os_names o' = os_names o /\ forall j, os_content j o' = os_content j o.

(** All of the writes were made, in order. *)
Inductive completed : list (nat * bytes) -> os -> os -> Prop :=
| completed_none o o' : unwritten o o' -> completed [] o o'
| completed_one file b ws o o1 o' : appended file b o o1 -> completed ws o1 o' -> completed ((file, b) :: ws) o o'.

(** Some of the writes were made, in order, and of the next one a beginning. *)
Inductive begun : list (nat * bytes) -> os -> os -> Prop :=
| begun_none ws o o' : unwritten o o' -> begun ws o o'
| begun_part file b p ws o o' : p `prefix_of` b -> appended file p o o' -> begun ((file, b) :: ws) o o'
| begun_more file b ws o o1 o' : appended file b o o1 -> begun ws o1 o' -> begun ((file, b) :: ws) o o'.

Lemma unwritten_refl o : unwritten o o.
Proof. by split. Qed.
Lemma unwritten_appended o o1 file b o' : unwritten o o1 -> appended file b o1 o' -> appended file b o o'.
Proof. intros [Hn Hc] [H1 H2 H3]. split; [by rewrite H1|by rewrite H2, Hc|]. intros j Hj. by rewrite H3, Hc. Qed.
Lemma appended_nothing file o o' : unwritten o o' <-> appended file [] o o'.
Proof.
  split; [intros [Hn Hc]; split; [done|by rewrite app_nil_r|by intros]|]. intros [H1 H2 H3].
  split; [done|]. intros j. destruct (decide (j = file)) as [->|Hj]; [by rewrite H2, app_nil_r|by apply H3].
Qed.
Lemma unwritten_trans o o1 o2 : unwritten o o1 -> unwritten o1 o2 -> unwritten o o2.
Proof. intros [H1 H2] [H3 H4]. split; [by rewrite H3|]. intros j. by rewrite H4. Qed.
Lemma unwritten_completed ws : forall o o1 o', unwritten o o1 -> completed ws o1 o' -> completed ws o o'.
Proof.
  intros o o1 o' Hu Hc. revert o Hu. induction Hc as [o1 o' H|file b ws o1 o2 o' Ha Hc _]; intros o Hu.
  - constructor. by eapply unwritten_trans.
  - econstructor; [by eapply unwritten_appended|done].
Qed.
Lemma unwritten_begun ws : forall o o1 o', unwritten o o1 -> begun ws o1 o' -> begun ws o o'.
Proof.
  intros o o1 o' Hu Hc. revert o Hu. induction Hc as [ws o1 o' H|file b p ws o1 o' Hp Ha|file b ws o1 o2 o' Ha Hc _]; intros o Hu.
  - constructor. by eapply unwritten_trans.
  - eapply begun_part; [done|by eapply unwritten_appended].
  - eapply begun_more; [by eapply unwritten_appended|done].
Qed.
Lemma completed_begun ws1 ws2 o o1 o' : completed ws1 o o1 -> begun ws2 o1 o' -> begun (ws1 ++ ws2) o o'.
Proof.
  induction 1 as [o o1 H|file b ws o o1 o2 Ha Hc IH]; intros Hb; simpl; [by eapply unwritten_begun|].
  eapply begun_more; [done|by apply IH].
Qed.
Lemma completed_app ws1 ws2 o o1 o' : completed ws1 o o1 -> completed ws2 o1 o' -> completed (ws1 ++ ws2) o o'.
Proof.
  induction 1 as [o o1 H|file b ws o o1 o2 Ha Hc IH]; intros Hb; simpl; [by eapply unwritten_completed|].
  econstructor; [done|by apply IH].
Qed.
Lemma completed_names ws o o' : completed ws o o' -> os_names o' = os_names o.
Proof. induction 1 as [o o' [H _]|file b ws o o1 o' Ha _ IH]; [done|]. by rewrite IH, (appended_names _ _ _ _ Ha). Qed.

Lemma os_write_all_appended file b o : exists p, p `prefix_of` b /\ appended file p o (snd (os_write_all file b o)) /\
  (fst (os_write_all file b o) = Ok tt -> p = b).
Proof.
  assert (forall p fs, appended file p o (os_put file (os_content file o ++ p) (mkOs (os_inodes o) (os_names o) fs (os_blind o)))) as Hput.
  { intros p fs. split; [done|by rewrite os_content_put|]. intros j Hj. unfold os_content, os_put. simpl. by rewrite lookup_insert_ne. }
  unfold os_write_all, os_call. destruct (os_faults o) as [|[f|] fs]; simpl.
  - exists b. split_and!; [done|apply Hput|done].
  - exists (take (f_partial f) b). split_and!; [apply prefix_take|apply Hput|done].
  - exists b. split_and!; [done|apply Hput|done].
Qed.

Lemma os_plain_unwritten {A} (m : os -> result string A * os) o :
  (forall o1, snd (m o1) = o1) -> unwritten o (snd (os_plain m o)).
Proof.
  intros Hm. unfold os_plain, os_call. destruct (os_faults o) as [|[f|] fs]; rewrite ?Hm; by split.
Qed.

Section delivery.
Context {U : Unicode} {En : Entropy} {P : JsonPretty} {Cert W : Type} {PR : PemReader Cert} {T : Transport Cert W} {TJ : ToJson}.
Context {FE : FromStr ErrorWire} {FS : FromStr SecretWire} {FL : FromStr ListingWire} {FX : FromStr ExportWire}.
Context (job : Job).

(** What a delivery writes, and in which order: every mask before any
    assignment. *)
Definition planned (format : ExportFormat) (exported : list Exported) (github_env : option string)
    (r : rng) (o : os) : list (nat * bytes) :=
  match format with
  | ActionsEnv =>
      match fst (render_actions_env exported r) with
      | Ok (masks, assignments) =>
          (jb_stdout job, as_bytes masks) ::
          match github_env with
          | None => [(jb_stdout job, as_bytes assignments)]
          | Some path => match os_names o !! path with Some file => [(file, as_bytes assignments)] | None => [] end
          end
      | Err _ => []
      end
  | _ => match fst (render format exported r) with Ok text => [(jb_stdout job, as_bytes text)] | Err _ => [] end
  end.

Abbreviation cwp I m Q h := (wp eq (fun _ : CiHost (W := W) => I) m Q h).

Lemma cwp_bind {A B} (I : CiHost (W := W) -> Prop) (m : ci_m A) (k : A -> ci_m B) (Q : result CiError B -> CiHost -> Prop) h :
  cwp I m (fun r h' => match r with Ok a => cwp I (k a) Q h' | Err e => Q (Err e) h' end) h -> cwp I (pbind m k) Q h.
Proof. intros Hw. apply wp_bind; [typeclasses eauto|exact Hw]. Qed.

Lemma cwp_call {A} (I : CiHost (W := W) -> Prop) err (m : stm os string A) (Q : result CiError A -> CiHost -> Prop) h :
  (forall r h', m (ci_os h) = (r, ci_os h') -> ci_rng h' = ci_rng h -> I h' /\ Q (map_err err r) h') ->
  cwp I (ci_call err m) Q h.
Proof.
  intros HQ. apply wp_atomic. intros h1 <-. unfold mzoom, mmap_err. destruct (m (ci_os h)) as [r o] eqn:E. cbn [fst snd].
  destruct (HQ r (mkCiHost (ci_world h) o (ci_rng h) (ci_stderr h)) eq_refl eq_refl) as [HI Hr].
  split; [exact HI|]. by intros h2 <-.
Qed.

(** A write that fails, or that the job does not survive, leaves a beginning. *)
Lemma cwp_write_all (I : CiHost (W := W) -> Prop) err file b (Q : result CiError unit -> CiHost -> Prop) h :
  (forall p h', p `prefix_of` b -> appended file p (ci_os h) (ci_os h') -> I h' /\ forall e, Q (Err e) h') ->
  (forall h', completed [(file, b)] (ci_os h) (ci_os h') -> Q (Ok tt) h') ->
  cwp I (ci_write_all err file b) Q h.
Proof.
  intros Hp Hb. unfold ci_write_all. destruct b as [|c b].
  { intros h1 <-. apply Hb. econstructor; [by apply appended_nothing|by constructor]. }
  apply cwp_call. intros r h' E _. destruct (os_write_all_appended file (c :: b) (ci_os h)) as (p & Hpre & Ha & Hall).
  rewrite E in Ha, Hall. cbn [fst snd] in Ha, Hall. destruct (Hp p h' Hpre Ha) as [HI He]. split; [done|].
  destruct r as [[]|e]; [|apply He]. apply Hb. rewrite (Hall eq_refl) in Ha. by econstructor; [exact Ha|constructor].
Qed.

Definition delivered_so_far (ws : list (nat * bytes)) (o : os) (h : CiHost (W := W)) : Prop := begun ws o (ci_os h).

(** The next write of a plan, after those that were made. *)
Lemma cwp_next ws file b rest o err (Q : result CiError unit -> CiHost -> Prop) h :
  completed ws o (ci_os h) ->
  (forall e h', delivered_so_far (ws ++ (file, b) :: rest) o h' -> Q (Err e) h') ->
  (forall h', completed (ws ++ [(file, b)]) o (ci_os h') -> Q (Ok tt) h') ->
  cwp (delivered_so_far (ws ++ (file, b) :: rest) o) (ci_write_all err file b) Q h.
Proof.
  intros Hc HE HO. apply cwp_write_all.
  - intros p h' Hp Ha. assert (delivered_so_far (ws ++ (file, b) :: rest) o h') as HI
      by (eapply completed_begun; [exact Hc|by eapply begun_part]).
    split; [done|]. intros e. by apply HE.
  - intros h' Ha. apply HO. by eapply completed_app.
Qed.

Lemma cwp_draw {A} (I : CiHost (W := W) -> Prop) (m : stm rng ExportError A) (Q : result CiError A -> CiHost -> Prop) h :
  (forall h', ci_os h' = ci_os h -> I h' /\ Q (map_err CiRender (fst (m (ci_rng h)))) h') -> cwp I (ci_draw m) Q h.
Proof.
  intros HQ. apply wp_atomic. intros h1 <-. unfold mzoom, mmap_err. destruct (m (ci_rng h)) as [r g] eqn:E. cbn [fst snd] in *.
  destruct (HQ (mkCiHost (ci_world h) (ci_os h) g (ci_stderr h)) eq_refl) as [HI Hr]. split; [exact HI|]. by intros h2 <-.
Qed.

(** The end of a delivery: the assignments, in their file or on standard output. *)
Lemma cwp_assignments masks assignments github_env o h :
  let ws := [(jb_stdout job, as_bytes masks)] in
  let rest := match github_env with
              | None => [(jb_stdout job, as_bytes assignments)]
              | Some path => match os_names o !! path with Some file => [(file, as_bytes assignments)] | None => [] end
              end in
  completed ws o (ci_os h) ->
  cwp (delivered_so_far (ws ++ rest) o)
    match github_env with
    | Some path => append path (as_bytes assignments)
    | None => write_out job (as_bytes assignments)
    end
    (fun r h' => r = Ok tt -> completed (ws ++ rest) o (ci_os h') /\
       match github_env with Some path => is_Some (os_names o !! path) | None => True end) h.
Proof.
  intros ws rest Hc. subst rest. destruct github_env as [path|].
  2: { apply cwp_next; [done|done|by intros h' H _]. }
  apply cwp_bind. apply cwp_call. intros r h' E _.
  assert (unwritten (ci_os h) (ci_os h')) as Hu.
  { replace (ci_os h') with (snd (os_open_existing path (ci_os h))) by (by rewrite E). by apply os_plain_unwritten. }
  assert (completed ws o (ci_os h')) as Hc'.
  { rewrite <- (app_nil_r ws). eapply completed_app; [exact Hc|by constructor]. }
  split. { eapply completed_begun; [exact Hc'|]. constructor. apply unwritten_refl. }
  destruct r as [file|e]; [|done]. cbn [map_err].
  assert (os_names o !! path = Some file) as Hfile.
  { unfold os_open_existing, os_plain, os_call in E. rewrite <- (completed_names _ _ _ Hc).
    destruct (os_faults (ci_os h)) as [|[f|] fs]; [|done|]; apply pair_equal_spec in E as [E _]; by apply ok_or_Ok in E. }
  rewrite Hfile. apply cwp_next; [done|done|]. intros h2 H _. by split.
Qed.

Lemma cwp_deliver format exported github_env h :
  let ws := planned format exported github_env (ci_rng h) (ci_os h) in
  cwp (delivered_so_far ws (ci_os h)) (deliver job format exported github_env)
    (fun r h' => r = Ok tt -> completed ws (ci_os h) (ci_os h') /\
       match format, github_env with ActionsEnv, Some path => is_Some (os_names (ci_os h) !! path) | _, _ => True end) h.
Proof.
  assert (forall h', ci_os h' = ci_os h -> forall ws, delivered_so_far ws (ci_os h) h') as H0.
  { intros h' Hh ws. constructor. rewrite Hh. apply unwritten_refl. }
  assert (forall h' : CiHost (W := W), ci_os h' = ci_os h -> completed [] (ci_os h) (ci_os h')) as Hnil.
  { intros h' ->. constructor. apply unwritten_refl. }
  intros ws. subst ws. unfold planned. destruct format; apply cwp_bind, cwp_draw; intros h1 Hh1; (split; [by apply H0|]).
  - destruct (fst (render Dotenv exported (ci_rng h))) as [text|e]; [|done]. cbn [map_err].
    apply (cwp_next [] _ _ []); [by apply Hnil|done|by intros h2 H _].
  - destruct (fst (render_actions_env exported (ci_rng h))) as [[masks assignments]|e]; [|done]. cbn [map_err fst snd].
    apply cwp_bind. apply (cwp_next []); [by apply Hnil|done|]. intros h2 Hm.
    apply cwp_bind, cwp_call. intros r h3 E _. simpl in Hm.
    assert (completed [(jb_stdout job, as_bytes masks)] (ci_os h) (ci_os h3)) as Hm3.
    { replace (ci_os h3) with (snd (os_sync_data (jb_stdout job) (ci_os h2))) by (by rewrite E).
      rewrite <- (app_nil_r [_]). eapply completed_app; [exact Hm|]. constructor. by apply os_plain_unwritten. }
    split. { eapply (completed_begun [_]); [exact Hm3|]. constructor. apply unwritten_refl. }
    destruct r as [[]|e]; [|done]. apply cwp_assignments. exact Hm3.
  - destruct (fst (render JsonFormat exported (ci_rng h))) as [text|e]; [|done]. cbn [map_err].
    apply (cwp_next [] _ _ []); [by apply Hnil|done|by intros h2 H _].
Qed.

(** ** The whole run *)

Lemma as_text_Ok secrets : forall exported, as_text secrets = Ok exported ->
  Forall2 (fun s x => x_path x = s_path s /\ from_utf8 (s_value s) = Some (x_value x)) secrets exported.
Proof.
  induction secrets as [|s secrets IH]; intros exported H; simpl in H; [by injection H as <-|].
  destruct (from_utf8 (s_value s)) as [value|] eqn:Hv; [|done]. apply res_bind_Ok in H as (rest & Hr & [= <-]).
  constructor; [done|by apply IH].
Qed.

Lemma ci_refuse_control_Ok names : ci_refuse_control names = Ok tt <->
  Forall (fun n => process_control_reason (env_str n) = None) names.
Proof.
  induction names as [|n names IH]; [done|]. simpl. rewrite Forall_cons, <- IH.
  destruct (process_control_reason _); [|tauto]. split; [done|]. by intros [? _].
Qed.

(** The names an environment of these paths has: distinct, and none that a loader
    or an interpreter reads first. *)
Definition names_allowed (paths : list SecretPath) : Prop := exists names,
  env_assign paths = Ok names /\ NoDup names /\ Forall (fun n => process_control_reason (env_str n) = None) names.

Lemma check_names_Ok format paths : check_names format paths = Ok tt -> format <> JsonFormat -> names_allowed paths.
Proof.
  intros H Hf. unfold check_names in H. destruct format; [| |done];
    (apply res_bind_Ok in H as (names & Hn%map_err_Ok & H%ci_refuse_control_Ok); exists names;
     split_and!; [done|by eapply env_assign_spec|done]).
Qed.

(** What was asked for, allowed, answered and is text. *)
Definition ci_fetched (cli : CiCli) (h : CiHost (W := W)) (format : ExportFormat) (github_env : option string)
    (exported : list Exported) : Prop :=
  ExportFormat_parse (cc_format cli) = Ok format /\ environment_file job cli format = Ok github_env /\
  (writes_values_to_stdout format = true -> cc_force cli = true \/ jb_terminal job = true) /\
  exists token authority client paths w1 secrets w2,
    ci_read_token job (cc_token_file cli) = Ok token /\ jb_read job (cc_ca cli) = Ok authority /\
    ci_client cli token authority = Ok client /\
    asked_paths client (cc_prefix cli) (cc_path cli) (ci_world h) paths w1 /\
    (format <> JsonFormat -> names_allowed paths) /\
    client_read_all client paths w1 = (Ok secrets, w2) /\
    Forall2 (fun s x => x_path x = s_path s /\ from_utf8 (s_value s) = Some (x_value x)) secrets exported.

Definition ci_wrote (how : list (nat * bytes) -> os -> os -> Prop) (cli : CiCli) (h h' : CiHost (W := W)) : Prop :=
  exists format github_env exported, ci_fetched cli h format github_env exported /\
    how (planned format exported github_env (ci_rng h) (ci_os h)) (ci_os h) (ci_os h').

(** The state of a run that has written nothing. *)
Definition clean (h h' : CiHost (W := W)) : Prop := ci_os h' = ci_os h /\ ci_rng h' = ci_rng h.
Definition ci_safe (cli : CiCli) (h h' : CiHost (W := W)) : Prop := unwritten (ci_os h) (ci_os h') \/ ci_wrote begun cli h h'.
Definition ci_done (cli : CiCli) (h : CiHost (W := W)) (r : result CiError unit) (h' : CiHost (W := W)) : Prop :=
  r = Ok tt -> ci_wrote completed cli h h'.

Lemma clean_safe cli h h' : clean h h' -> ci_safe cli h h'.
Proof. intros [Ho _]. left. rewrite Ho. apply unwritten_refl. Qed.

Lemma cwp_lift {A B} (I : CiHost (W := W) -> Prop) (r : result CiError A) (k : A -> ci_m B) (Q : result CiError B -> CiHost -> Prop) h :
  (forall a, r = Ok a -> cwp I (k a) Q h) -> (forall e, Q (Err e) h) -> cwp I (pbind (plift r) k) Q h.
Proof. intros Hk He. apply cwp_bind. intros h1 <-. destruct r; [by apply Hk|by apply He]. Qed.

Lemma cwp_service {A B} (I : CiHost (W := W) -> Prop) (m : sdk_m (W := W) A) (k : A -> ci_m B) (Q : result CiError B -> CiHost -> Prop) h :
  (forall h', clean h h' -> I h') ->
  (forall h' a, clean h h' -> m (ci_world h) = (Ok a, ci_world h') -> cwp I (k a) Q h') ->
  (forall e h', Q (Err e) h') -> cwp I (pbind (ci_service m) k) Q h.
Proof.
  intros HI Hk He. apply cwp_bind. apply wp_atomic. intros h1 <-. unfold mzoom, mmap_err.
  destruct (m (ci_world h)) as [r w] eqn:E. cbn [fst snd]. split; [by apply HI|]. intros h2 <-.
  destruct r as [a|e]; [|apply He]. by apply Hk.
Qed.

Lemma cwp_paths {B} (I : CiHost (W := W) -> Prop) client cli (k : list SecretPath -> ci_m B) (Q : result CiError B -> CiHost -> Prop) h :
  (forall h', clean h h' -> I h') ->
  (forall h' paths, clean h h' -> asked_paths client (cc_prefix cli) (cc_path cli) (ci_world h) paths (ci_world h') -> cwp I (k paths) Q h') ->
  (forall e h', Q (Err e) h') -> cwp I (pbind (ci_paths client cli) k) Q h.
Proof.
  intros HI Hk He. unfold ci_paths, asked_paths in *. destruct (cc_prefix cli) as [prefix|].
  - apply wp_assoc. apply cwp_lift; [|done]. intros p Hp%map_err_Ok. apply wp_assoc.
    apply cwp_service; [done| |done]. intros h' listed Hc Hl. destruct listed as [|path listed]; [by intros h2 <-|].
    apply Hk; [done|]. by exists p.
  - apply cwp_lift; [|done]. intros paths Hp%map_err_Ok. by apply Hk.
Qed.

Lemma cwp_report {B} (I : CiHost (W := W) -> Prop) cli format exported (k : unit -> ci_m B) (Q : result CiError B -> CiHost -> Prop) h :
  (forall h', clean h h' -> I h') -> (forall h', clean h h' -> cwp I (k tt) Q h') ->
  cwp I (pbind (if cc_report cli then ci_report format exported else pret tt) k) Q h.
Proof.
  intros HI Hk. assert (forall text, cwp I (pbind (ci_eprintln text) k) Q h) as Hsay.
  { intros text. apply cwp_bind, wp_step. intros h1 <-. split; [by apply HI|]. intros h2 <-. by apply Hk. }
  assert (cwp I (pbind (pret tt) k) Q h) as Hquiet by (apply cwp_bind; intros h1 <-; by apply Hk).
  destruct (cc_report cli); [|done]. unfold ci_report. destruct format; try apply Hsay; by destruct (env_assign _).
Qed.

Lemma cwp_ci_run cli h : cwp (ci_safe cli h) (ci_run job cli) (ci_done cli h) h.
Proof.
  assert (forall e h', ci_done cli h (Err e) h') as He by done.
  assert (forall h1, clean h h1 -> forall h', clean h1 h' -> ci_safe cli h h') as Hs.
  { intros h1 [Ho Hr] h' [Ho' Hr']. apply clean_safe. split; [by rewrite Ho'|by rewrite Hr']. }
  assert (forall h1, clean h h1 -> forall h', clean h1 h' -> clean h h') as Ht.
  { intros h1 [Ho Hr] h' [Ho' Hr']. split; [by rewrite Ho'|by rewrite Hr']. }
  assert (clean h h) as H0 by done.
  unfold ci_run. apply cwp_lift; [|done]. intros format Hformat%map_err_Ok.
  apply cwp_lift; [|done]. intros github_env Hgithub.
  destruct (writes_values_to_stdout format && negb (cc_force cli) && negb (jb_terminal job)) eqn:Hpipe; [by intros h1 <-|].
  apply cwp_lift; [|done]. intros token Htoken. apply cwp_lift; [|done]. intros authority Hauth%map_err_Ok.
  apply cwp_lift; [|done]. intros client Hclient%map_err_Ok.
  apply cwp_paths; [by apply Hs| |done]. intros h1 paths Hc1 Hpaths. apply (Ht h H0) in Hc1.
  apply cwp_lift; [|done]. intros [] Hnames. apply cwp_service; [by apply Hs| |done]. intros h2 secrets Hc2 Hread.
  apply (Ht _ Hc1) in Hc2. apply cwp_lift; [|done]. intros exported Htext%as_text_Ok.
  apply cwp_report; [by apply Hs|]. intros h3 [Ho3 Hr3]%(Ht _ Hc2).
  assert (ci_fetched cli h format github_env exported) as Hf.
  { split_and!; [done|done| |].
    - intros Hw. rewrite Hw in Hpipe. destruct (cc_force cli), (jb_terminal job); auto.
    - exists token, authority, client, paths, (ci_world h1), secrets, (ci_world h2).
      split_and!; try done. intros Hj. by eapply check_names_Ok. }
  pose proof (cwp_deliver format exported github_env h3) as Hd. rewrite Hr3, Ho3 in Hd.
  eapply wp_mono; [|eapply wp_guar; [|exact Hd]].
  - intros r h4 Hdone Hr. exists format, github_env, exported. split; [done|]. by apply Hdone.
  - intros h4 h5 Hb. right. by exists format, github_env, exported.
Qed.

End delivery.
