(* ===== verification/Delivered.v ===== *)
(** * Client programs on concrete inputs

    A world that answers from a script, and what the client, the runner and the CI
    program do in it: the witnesses of their theorems, and the ends of a delivery
    that fails half-way. *)

From Stdlib Require Import ZArith NArith Lia Ascii String.
From stdpp Require Import base tactics list strings gmap.
From S2P Require Import Prelude Text Path Vocabulary Crypto Chain Sink FileDevice Prog Rendering Client Runner Ci.

(** ** A world *)

Abbreviation str := String.string.

(** A status and a body for each request, in order; then nothing answers. *)
Definition world : Type := list (Z * str).
#[local] Instance script : Transport str world := fun _ _ w =>
  match w with
  | [] => (Err "connection refused", [])
  | (status, body) :: w => (Ok (mkAnswer status (fun _ => Ok body)), w)
  end.
#[local] Instance bundle : PemReader str := fun pem => if bool_decide (pem = []) then [] else [Ok (PemCertificate (str_of_bytes pem))].
#[local] Instance request_body : ToJson := fun fields => join ";" (map fst fields).

(** Bodies are fields between bars. *)
Definition bar : ascii := "|"%char.
Definition number (s : str) : Z := default 0%Z (parse_u64 s).
#[local] Instance error_body : FromStr ErrorWire := fun s => Ok (mkErrorWire s None).
#[local] Instance secret_body : FromStr SecretWire := fun s =>
  match split_on bar s with
  | [path; version; value; at_; by_] => Ok (mkSecretWire path (number version) value (number at_) by_)
  | _ => Err CatData
  end.
#[local] Instance listing_body : FromStr ListingWire := fun s => Ok (mkListingWire (split_on bar s)).
Fixpoint exported_fields (fields : list str) : list ExportedWire :=
  match fields with
  | path :: version :: value :: fields => mkExportedWire path (number version) value :: exported_fields fields
  | _ => []
  end.
#[local] Instance export_body : FromStr ExportWire := fun s => Ok (mkExportWire (exported_fields (split_on bar s))).
#[local] Instance json_text : JsonPretty := fun m => join "," (map fst (map_to_list m)).
#[local] Instance no_randomness : Entropy := {| rng := unit; getrandom_fill n r := (Some (repeat zero n), r) |}.
#[local] Existing Instance ascii_unicode.

(** ** The client *)

Definition demo_builder : ClientBuilder :=
  builder_user_agent (Client_builder "https://vault.internal:8443//" "ciphr_token" (as_bytes "CA")) "deploy/1".
Definition demo_client : Client str :=
  mkClient (agent_config ["CA"%string] 10 "deploy/1") "https://vault.internal:8443" "Bearer ciphr_token".

Lemma builder_build_correct_witness : builder_build demo_builder = Ok demo_client /\
  ag_max_redirects (cl_agent demo_client) = 0%Z.
Proof.
  assert (builder_build demo_builder = Ok demo_client) as H by (vm_compute; reflexivity).
  split; [exact H|]. apply (builder_build_correct demo_builder demo_client H).
Defined.

(** What a client refuses to be built with. *)
Example builders_refused :
  map (fun b => is_ok (builder_build (Cert := str) b))
    [demo_builder;
     Client_builder "http://vault" "t" (as_bytes "CA");
     Client_builder "https:///" "t" (as_bytes "CA");
     Client_builder "https://vault" "t" [];
     builder_user_agent demo_builder EmptyString;
     builder_user_agent demo_builder (str1 newline)] = [true; false; false; false; false; false].
Proof. vm_compute. reflexivity. Qed.

Lemma decode_fails_by_class_witness : exists e,
  decode (T := SecretWire) (Ok (mkAnswer 503 (fun _ => Ok "down"%string))) "app/a" = Err e /\ is_retryable e = true.
Proof.
  exists SeAuditUnavailable.
  assert (decode (T := SecretWire) (Ok (mkAnswer 503 (fun _ => Ok "down"%string))) "app/a" = Err SeAuditUnavailable) as H
    by (vm_compute; reflexivity).
  split; [exact H|]. apply (decode_fails_by_class _ _ _ H). right. by exists (mkAnswer 503 (fun _ => Ok "down"%string)), "down"%string.
Defined.

Definition demo_paths : list SecretPath := [mkSecretPath "app/DB_PASSWORD"; mkSecretPath "app/API_KEY"].
Definition by_export : world := [(200%Z, "app/DB_PASSWORD|3|hunter2|app/API_KEY|1|abc"%string)].
Definition by_reads : world :=
  [(404%Z, EmptyString); (200%Z, "app/DB_PASSWORD|3|hunter2|5|ops"%string); (200%Z, "app/API_KEY|1|abc|6|ops"%string)].

(** The same values come by either way; any other refusal of the export is final. *)
Example read_all_both_ways :
  map (fun w => res_map (map s_value) (fst (client_read_all demo_client demo_paths w))) [by_export; by_reads] =
    [Ok [as_bytes "hunter2"; as_bytes "abc"]; Ok [as_bytes "hunter2"; as_bytes "abc"]] /\
  client_read_all demo_client demo_paths ((403%Z, EmptyString) :: by_export) =
    (Err (SeForbidden "one of: app/DB_PASSWORD, app/API_KEY"), by_export).
Proof. split; vm_compute; reflexivity. Qed.

(** ** The runner *)

Definition token_file (path : str) : result str Descriptor :=
  if String.eqb path "token" then Ok (mkDescriptor (Ok (mkMetadata true 416)) (Ok "ciphr_token"%string)) else Err "entity not found"%string.
Definition demo_around : Surroundings :=
  mkSurroundings token_file (fun _ => Ok (as_bytes "CA")) {["PATH"%string := as_bytes "/bin"]} (fun _ => None).
Definition demo_run : RunCli :=
  mkRunCli "https://vault" "token" "ca.pem" (Some "app"%string) [] 10 true ["serve"%string; "--now"%string].
Definition run_world (names values : str) : RunHost (W := world) :=
  mkRunHost [(200%Z, names); (200%Z, values)] EmptyString.
Definition served_world : RunHost (W := world) :=
  run_world "app/DB_PASSWORD|app/API_KEY" "app/DB_PASSWORD|3|hunter2|app/API_KEY|1|abc".

Definition started : option Process := res_ok (fst (run demo_around demo_run served_world)).

Lemma run_starts_only_what_was_answered_witness : exists process h',
  run demo_around demo_run served_world = (Ok process, h') /\
  pr_environment process !! "DB_PASSWORD"%string = Some (as_bytes "hunter2") /\
  rc_command demo_run = pr_program process :: pr_arguments process.
Proof.
  destruct (run demo_around demo_run served_world) as [[process|e] h'] eqn:E; [|by vm_compute in E].
  exists process, h'. split; [reflexivity|].
  destruct (run_starts_only_what_was_answered demo_around demo_run served_world process h' E)
    as (credential & token & authority & client & paths & w1 & secrets & names & _ & _ & _ & _ & _ & _ & _ & Hc & _).
  split; [|exact Hc]. vm_compute in E. injection E as <- _. vm_compute. reflexivity.
Defined.

(** A name that a loader reads, from whoever may write under the prefix: nothing is
    started, and the exit status says so. *)
Example loader_name_starts_nothing :
  fst (run_main demo_around demo_run (run_world "app/LD_PRELOAD" "app/LD_PRELOAD|1|evil.so")) = inl 125%Z.
Proof. vm_compute. reflexivity. Qed.

(** A value with a NUL cannot be a variable, and nothing is started. *)
Example nul_starts_nothing :
  fst (run_main demo_around demo_run (run_world "app/A" ("app/A|1|x" ++ str1 nul))) = inl 126%Z.
Proof. vm_compute. reflexivity. Qed.

(** ** The CI program *)

Definition demo_job : Job := mkJob token_file (fun _ => Ok (as_bytes "CA"))
  (fun v => if String.eqb v "GITHUB_ENV" then VarPresent "env" else VarNotPresent) false 0.
Definition demo_ci : CiCli := mkCiCli "https://vault" "token" "ca.pem" (Some "app"%string) [] "actions-env" true 10 false false.
(** Standard output is file 0, and [$GITHUB_ENV] names file 1. *)
Definition ci_start (faults : list (option fault)) : CiHost (W := world) :=
  mkCiHost [(200%Z, "app/KEY"%string); (200%Z, "app/KEY|1|abc"%string)] (mkOs ∅ {["env"%string := 1]} faults []) tt EmptyString.
Definition ci_result (faults : list (option fault)) : option (result CiError unit) * str * str :=
  let '(r, h) := Prog.run (ci_run demo_job demo_ci) (ci_start faults) in
  (r, str_of_bytes (os_content 0 (ci_os h)), str_of_bytes (os_content 1 (ci_os h))).

Example ci_delivers : ci_result [] =
  (Some (Ok tt), ("::add-mask::abc" ++ str1 newline)%string, ("KEY=abc" ++ str1 newline)%string).
Proof. vm_compute. reflexivity. Qed.

(** Without the mask, no assignment. *)
Example no_mask_no_assignment : ci_result [Some (mkFault "broken pipe" 4)] =
  (Some (Err (CiOutput "broken pipe")), "::ad"%string, EmptyString).
Proof. vm_compute. reflexivity. Qed.

(** The append that fails part-way leaves a beginning of the assignments, which the
    error says it did not write. *)
Example part_of_an_assignment_is_written :
  ci_result [None; None; None; Some (mkFault "no space left" 6)] =
    (Some (Err (CiEnvironmentFile "env" "no space left")), ("::add-mask::abc" ++ str1 newline)%string, "KEY=ab"%string).
Proof. vm_compute. reflexivity. Qed.
